(** * BGP path attributes: a shallow embedding of bgpd/bgp_attr.c

    The development follows the C file top to bottom: the flag macros and
    constants it takes from headers, the input stream and the NOTIFY
    collaborator, the attribute set, the intern pools, the malformed
    attribute policy, the per-type decoders and the encoder.

    Integers are [Z]; a [u_char], [u_int16_t] or [u_int32_t] field is a [Z]
    whose range is the C type's.  Pointers into the process heap are
    locations ([loc]); a NULL pointer is [None]. *)

From Stdlib Require Import ZArith List Bool Lia Permutation.
From stdpp Require Import base option list gmap.

Local Open Scope Z_scope.

(** ** Macros and constants from the headers *)

Module Flags.

(** Modelled from the spec: lib/zebra.h is not part of the sources read
    here; [CHECK_FLAG (V, F)] is [(V) & (F)] used as a truth value,
    [SET_FLAG] is [|=] and [UNSET_FLAG] is [&= ~]. *)
Definition CHECK_FLAG (v f : Z) : bool := negb (Z.land v f =? 0).
Definition SET_FLAG (v f : Z) : Z := Z.lor v f.
Definition UNSET_FLAG (v f : Z) : Z := Z.land v (Z.lnot f).

(** Modelled from the spec: bgpd/bgp_attr.h is not part of the sources;
    the presence bitmap is a 32-bit word keyed by attribute type code,
    [ATTR_FLAG_BIT (X)] being [1 << ((X) - 1)], a shift of an [int].  For
    the type codes 1..32 this is the bit of the code.  A type code read
    off the wire can be 0 or 33..255 as well: the shift instruction takes
    the count modulo 32, so that the bit is the one of another type code
    (type 99 gives the bit of type 3, type 0 the bit of type 32). *)
Definition ATTR_FLAG_BIT (x : Z) : Z := Z.shiftl 1 ((x - 1) mod 32).

(** Attribute flag octet, spec section 6: bit 7 Optional, bit 6
    Transitive, bit 5 Partial, bit 4 Extended-Length. *)
Definition BGP_ATTR_FLAG_OPTIONAL : Z := 0x80.
Definition BGP_ATTR_FLAG_TRANS : Z := 0x40.
Definition BGP_ATTR_FLAG_PARTIAL : Z := 0x20.
Definition BGP_ATTR_FLAG_EXTLEN : Z := 0x10.

(** Attribute type codes, spec section 6 (the codes the spec does not
    list are the ones [attr_str] names). *)
Definition BGP_ATTR_ORIGIN : Z := 1.
Definition BGP_ATTR_AS_PATH : Z := 2.
Definition BGP_ATTR_NEXT_HOP : Z := 3.
Definition BGP_ATTR_MULTI_EXIT_DISC : Z := 4.
Definition BGP_ATTR_LOCAL_PREF : Z := 5.
Definition BGP_ATTR_ATOMIC_AGGREGATE : Z := 6.
Definition BGP_ATTR_AGGREGATOR : Z := 7.
Definition BGP_ATTR_COMMUNITIES : Z := 8.
Definition BGP_ATTR_ORIGINATOR_ID : Z := 9.
Definition BGP_ATTR_CLUSTER_LIST : Z := 10.
Definition BGP_ATTR_DPA : Z := 11.
Definition BGP_ATTR_ADVERTISER : Z := 12.
Definition BGP_ATTR_RCID_PATH : Z := 13.
Definition BGP_ATTR_MP_REACH_NLRI : Z := 14.
Definition BGP_ATTR_MP_UNREACH_NLRI : Z := 15.
Definition BGP_ATTR_EXT_COMMUNITIES : Z := 16.
Definition BGP_ATTR_AS4_PATH : Z := 17.
Definition BGP_ATTR_AS4_AGGREGATOR : Z := 18.
Definition BGP_ATTR_AS_PATHLIMIT : Z := 21.
Definition BGP_ATTR_ENCAP : Z := 23.
Definition BGP_ATTR_LARGE_COMMUNITIES : Z := 32.

Definition BGP_ORIGIN_IGP : Z := 0.
Definition BGP_ORIGIN_EGP : Z := 1.
Definition BGP_ORIGIN_INCOMPLETE : Z := 2.

(** The reserved 2-byte AS number standing for a 4-byte one (glossary). *)
Definition BGP_AS_TRANS : Z := 23456.

(** NOTIFY code and subcodes of the UPDATE error class (spec section 7
    names them; the numbers are those of the protocol). *)
Definition BGP_NOTIFY_UPDATE_ERR : Z := 3.
Definition BGP_NOTIFY_UPDATE_MAL_ATTR : Z := 1.
Definition BGP_NOTIFY_UPDATE_UNREC_ATTR : Z := 2.
Definition BGP_NOTIFY_UPDATE_MISS_ATTR : Z := 3.
Definition BGP_NOTIFY_UPDATE_ATTR_FLAG_ERR : Z := 4.
Definition BGP_NOTIFY_UPDATE_ATTR_LENG_ERR : Z := 5.
Definition BGP_NOTIFY_UPDATE_INVAL_ORIGIN : Z := 6.
Definition BGP_NOTIFY_UPDATE_INVAL_NEXT_HOP : Z := 8.
Definition BGP_NOTIFY_UPDATE_OPT_ATTR_ERR : Z := 9.
Definition BGP_NOTIFY_UPDATE_MAL_AS_PATH : Z := 11.

(** Capability bits of [peer->cap] (bgpd/bgpd.h, not part of the
    sources): only these two are tested in bgp_attr.c. *)
Definition PEER_CAP_RESTART_RCV : Z := Z.shiftl 1 6.
Definition PEER_CAP_AS4_RCV : Z := Z.shiftl 1 8.

(** Bits of [peer->flags], [peer->af_flags], [bgp->flags] and
    [bgp->config] (bgpd/bgpd.h), and the address families of lib/zebra.h,
    as far as bgp_attr.c names them. *)
Definition PEER_FLAG_LOCAL_AS_NO_PREPEND : Z := Z.shiftl 1 7.
Definition PEER_FLAG_LOCAL_AS_REPLACE_AS : Z := Z.shiftl 1 8.
Definition PEER_FLAG_SEND_COMMUNITY : Z := Z.shiftl 1 0.
Definition PEER_FLAG_SEND_EXT_COMMUNITY : Z := Z.shiftl 1 1.
Definition PEER_FLAG_RSERVER_CLIENT : Z := Z.shiftl 1 4.
Definition PEER_FLAG_AS_PATH_UNCHANGED : Z := Z.shiftl 1 6.
Definition PEER_FLAG_SEND_LARGE_COMMUNITY : Z := Z.shiftl 1 19.
Definition BGP_FLAG_ENFORCE_FIRST_AS : Z := Z.shiftl 1 6.
Definition BGP_CONFIG_CLUSTER_ID : Z := Z.shiftl 1 1.
Definition BGP_CONFIG_CONFEDERATION : Z := Z.shiftl 1 2.
Definition ECOMMUNITY_FLAG_NON_TRANSITIVE : Z := 0x40.

Definition AFI_IP : Z := 1.
Definition AFI_IP6 : Z := 2.
Definition SAFI_UNICAST : Z := 1.
Definition SAFI_MULTICAST : Z := 2.
Definition SAFI_MPLS_VPN : Z := 4.
Definition SAFI_ENCAP : Z := 7.
Definition SAFI_MPLS_LABELED_VPN : Z := 128.

Definition BGP_ATTR_MIN_LEN : Z := 3.

End Flags.
Export Flags.

(** The session kinds of a peer, [bgp_peer_sort_t]. *)
Inductive bgp_peer_sort : Type :=
  | BGP_PEER_IBGP
  | BGP_PEER_EBGP
  | BGP_PEER_INTERNAL
  | BGP_PEER_CONFED.

#[export] Instance bgp_peer_sort_eq_dec : EqDecision bgp_peer_sort.
Proof. solve_decision. Defined.

(** The outcomes of a decoder, [bgp_attr_parse_ret_t]: PROCEED is 0, the
    others are negative. *)
Inductive bgp_attr_parse_ret_t : Type :=
  | BGP_ATTR_PARSE_PROCEED
  | BGP_ATTR_PARSE_ERROR
  | BGP_ATTR_PARSE_WITHDRAW
  | BGP_ATTR_PARSE_ERROR_NOTIFYPLS.

#[export] Instance bgp_attr_parse_ret_eq_dec : EqDecision bgp_attr_parse_ret_t.
Proof. solve_decision. Defined.

(** Heap locations. *)
Abbreviation loc := positive.

(** ** The input stream *)

Module Stream.

(** Modelled from the spec: lib/stream.c is not part of the sources.  A
    stream is a byte buffer with a read cursor [getp] and a write cursor
    [endp]; reading moves [getp], [forward] and [set_getp] move it without
    reading.  The parser only calls these inside the attribute block, whose
    end it has checked against the end of the buffer. *)
Record stream : Type := mkStream {
  data : list Z;
  getp : Z;
  endp : Z
}.

Definition byte_at (d : list Z) (pos : Z) : Z :=
  nth (Z.to_nat pos) d 0 mod 256.

(** The bytes [pos .. pos + n - 1] of a buffer. *)
Definition bytes_at (d : list Z) (pos n : Z) : list Z :=
  firstn (Z.to_nat n) (skipn (Z.to_nat pos) d).

Definition with_getp (s : stream) (pos : Z) : stream :=
  mkStream (data s) pos (endp s).

Definition stream_get_getp (s : stream) : Z := getp s.
Definition stream_get_endp (s : stream) : Z := endp s.
Definition STREAM_READABLE (s : stream) : Z := endp s - getp s.

Definition stream_set_getp (s : stream) (pos : Z) : stream := with_getp s pos.
Definition stream_forward_getp (s : stream) (n : Z) : stream :=
  with_getp s (getp s + n).

Definition stream_getc (s : stream) : Z * stream :=
  (byte_at (data s) (getp s), with_getp s (getp s + 1)).

Definition stream_getw (s : stream) : Z * stream :=
  (byte_at (data s) (getp s) * 256 + byte_at (data s) (getp s + 1),
   with_getp s (getp s + 2)).

Definition stream_getl (s : stream) : Z * stream :=
  (((byte_at (data s) (getp s) * 256
     + byte_at (data s) (getp s + 1)) * 256
    + byte_at (data s) (getp s + 2)) * 256
   + byte_at (data s) (getp s + 3),
   with_getp s (getp s + 4)).

(** An IPv4 address is kept as the number its four octets spell in
    network order, so [ntohl] is the identity on this representation. *)
Definition stream_get_ipv4 (s : stream) : Z * stream := stream_getl s.

(** [stream_get (dst, s, n)]: copy [n] bytes out. *)
Definition stream_get (s : stream) (n : Z) : list Z * stream :=
  (bytes_at (data s) (getp s) n, with_getp s (getp s + n)).

(** Overwrite one octet of the buffer in place (a store through a pointer
    into [STREAM_DATA]). *)
Definition poke (s : stream) (pos v : Z) : stream :=
  mkStream (<[Z.to_nat pos := v]> (data s)) (getp s) (endp s).

End Stream.
Export Stream.

(** ** The NOTIFY collaborator *)

(** Modelled from the spec: bgpd/bgp_packet.c is not part of the sources.
    [bgp_notify_send_with_data (peer, code, subcode, data, datalen)] hands
    the session layer one notification; the model records it. *)
Record notification : Type := mkNotify {
  n_code : Z;
  n_subcode : Z;
  n_data : list Z
}.

(** ** The data model (bgpd/bgp_attr.h and the collaborators' headers) *)

(** One tunnel-encapsulation sub-TLV of the chain hanging off an attribute
    set.  The chain is owned by one attribute set; it is a list here and
    the NULL chain is [[]]. *)
Record bgp_attr_encap_subtlv : Type := mkSubTlv {
  st_type : Z;
  st_length : Z;
  st_value : list Z
}.

(** [struct attr_extra]: the lazily allocated block of the less common
    fields.  An IPv6 address is its sixteen octets. *)
Record attr_extra : Type := mkExtra {
  mp_nexthop_global : list Z;
  mp_nexthop_local : list Z;
  ecommunity : option loc;
  lcommunity : option loc;
  cluster : option loc;
  transit : option loc;
  mp_nexthop_global_in : Z;
  aggregator_addr : Z;
  originator_id : Z;
  weight : Z;
  priority : Z;
  aggregator_as : Z;
  mp_nexthop_len : Z;
  tag : Z;
  encap_tunneltype : Z;
  encap_subtlvs : list bgp_attr_encap_subtlv
}.

(** [struct attr]: the attribute set.  The extra block belongs to one
    attribute set and is copied with it, so it is held by value. *)
Record attr : Type := mkAttr {
  aspath : option loc;
  community : option loc;
  extra : option attr_extra;
  refcnt : Z;
  flag : Z;
  nexthop : Z;
  med : Z;
  local_pref : Z;
  origin : Z
}.

(** [struct transit]: the blob of unrecognised transitive attributes. *)
Record transit_t : Type := mkTransit {
  t_refcnt : Z;
  t_length : Z;
  t_val : list Z
}.

(** [struct cluster_list]: [length] counts octets. *)
Record cluster_list : Type := mkCluster {
  c_refcnt : Z;
  c_length : Z;
  c_list : list Z
}.

(** Modelled from the spec: bgpd/bgp_aspath.h is not part of the sources.
    An AS path is a sequence of segments, each a segment type and its AS
    numbers; confederation segments are the types 3 and 4. *)
Record assegment : Type := mkSeg {
  seg_type : Z;
  seg_as : list Z
}.

Definition AS_SET : Z := 1.
Definition AS_SEQUENCE : Z := 2.
Definition AS_CONFED_SEQUENCE : Z := 3.
Definition AS_CONFED_SET : Z := 4.

Record aspath_t : Type := mkAspath {
  as_refcnt : Z;
  segments : list assegment
}.

(** Modelled from the spec: the community, extended community and large
    community values of the collaborators; bgp_attr.c reads their [size]
    (entries) and [val] (octets) and their reference count. *)
Record community_t : Type := mkCommunity {
  com_refcnt : Z;
  com_size : Z;
  com_val : list Z
}.

(** ** The process-wide store *)

(** One intern table with the objects it points to: [heap] holds every
    allocated object of the type, [table] the locations the hash table
    lists (newest first). *)
Record pool (V : Type) : Type := mkPool {
  heap : gmap loc V;
  table : list loc
}.
Arguments mkPool {V} _ _.
Arguments heap {V} _.
Arguments table {V} _.

Record world : Type := mkWorld {
  ashash : pool aspath_t;
  comhash : pool community_t;
  ecomhash : pool community_t;
  lcomhash : pool community_t;
  cluster_hash : pool cluster_list;
  transit_hash : pool transit_t;
  attrhash : pool attr
}.

(** ** Peers and parser arguments *)

(** [struct bgp], the fields bgp_attr.c reads. *)
Record bgp : Type := mkBgp {
  bgp_as : Z;
  bgp_config : Z;
  bgp_flags : Z;
  confed_id : Z;
  cluster_id : Z;
  router_id : Z;
  default_priority : Z
}.

(** [struct peer], the fields bgp_attr.c reads.  The input buffer and the
    notifications sent are the mutable part and live in the parser state. *)
Record peer : Type := mkPeer {
  p_bgp : option bgp;
  p_as : Z;
  local_as : Z;
  change_local_as : Z;
  sort : bgp_peer_sort;
  cap : Z;
  p_flags : Z;
  af_flags : Z -> Z -> Z;
  p_nexthop_v4 : Z;
  remote_id : Z
}.

(** [struct bgp_attr_parser_args]; [startp] is the offset of the
    attribute's first octet in the input buffer, the attribute set is in
    the parser state. *)
Record bgp_attr_parser_args : Type := mkArgs {
  a_peer : peer;
  a_length : Z;
  a_type : Z;
  a_flags : Z;
  a_total : Z;
  a_startp : Z
}.

(** What a decoder can touch: the scratch attribute set, the peer's input
    buffer, the notifications handed to the session layer, and the store. *)
Record pstate : Type := mkPstate {
  ps_attr : attr;
  ps_ibuf : stream;
  ps_notify : list notification;
  ps_world : world
}.

Definition with_attr (ps : pstate) (a : attr) : pstate :=
  mkPstate a (ps_ibuf ps) (ps_notify ps) (ps_world ps).
Definition with_ibuf (ps : pstate) (s : stream) : pstate :=
  mkPstate (ps_attr ps) s (ps_notify ps) (ps_world ps).
Definition with_notify (ps : pstate) (n : list notification) : pstate :=
  mkPstate (ps_attr ps) (ps_ibuf ps) n (ps_world ps).
Definition with_world (ps : pstate) (w : world) : pstate :=
  mkPstate (ps_attr ps) (ps_ibuf ps) (ps_notify ps) w.

(** Field updates of the attribute set. *)
Definition attr_set_flag (a : attr) (f : Z) : attr :=
  mkAttr (aspath a) (community a) (extra a) (refcnt a) f
         (nexthop a) (med a) (local_pref a) (origin a).
Definition attr_set_aspath (a : attr) (p : option loc) : attr :=
  mkAttr p (community a) (extra a) (refcnt a) (flag a)
         (nexthop a) (med a) (local_pref a) (origin a).
Definition attr_set_community (a : attr) (p : option loc) : attr :=
  mkAttr (aspath a) p (extra a) (refcnt a) (flag a)
         (nexthop a) (med a) (local_pref a) (origin a).
Definition attr_set_extra (a : attr) (e : option attr_extra) : attr :=
  mkAttr (aspath a) (community a) e (refcnt a) (flag a)
         (nexthop a) (med a) (local_pref a) (origin a).
Definition attr_set_refcnt (a : attr) (n : Z) : attr :=
  mkAttr (aspath a) (community a) (extra a) n (flag a)
         (nexthop a) (med a) (local_pref a) (origin a).
Definition attr_set_nexthop (a : attr) (n : Z) : attr :=
  mkAttr (aspath a) (community a) (extra a) (refcnt a) (flag a)
         n (med a) (local_pref a) (origin a).
Definition attr_set_med (a : attr) (n : Z) : attr :=
  mkAttr (aspath a) (community a) (extra a) (refcnt a) (flag a)
         (nexthop a) n (local_pref a) (origin a).
Definition attr_set_local_pref (a : attr) (n : Z) : attr :=
  mkAttr (aspath a) (community a) (extra a) (refcnt a) (flag a)
         (nexthop a) (med a) n (origin a).
Definition attr_set_origin (a : attr) (n : Z) : attr :=
  mkAttr (aspath a) (community a) (extra a) (refcnt a) (flag a)
         (nexthop a) (med a) (local_pref a) n.

(** A pointer into the input buffer, as the octets found from there on. *)
Definition pnt_at (s : stream) (pos : Z) : list Z :=
  skipn (Z.to_nat pos) (data s).

(** [bgp_notify_send_with_data (peer, code, subcode, data, datalen)]: the
    data pointer is given by the octets it points at; a NULL pointer sends
    no data. *)
Definition bgp_notify_send_with_data (code subcode : Z)
    (datap : option (list Z)) (datalen : Z) (ps : pstate) : pstate :=
  let d := match datap with
           | Some p => firstn (Z.to_nat datalen) p
           | None => []
           end in
  with_notify ps (ps_notify ps ++ [mkNotify code subcode d]).

Definition bgp_notify_send (code subcode : Z) (ps : pstate) : pstate :=
  bgp_notify_send_with_data code subcode None 0 ps.

(** ** The malformed-attribute policy *)

(** [bgp_attr_malformed (args, subcode, length)]. *)
Definition bgp_attr_malformed (args : bgp_attr_parser_args) (subcode length : Z)
    (ps : pstate) : bgp_attr_parse_ret_t * pstate :=
  let peer := a_peer args in
  let flags := a_flags args in
  let notify_datap :=
    if 0 <? length then Some (pnt_at (ps_ibuf ps) (a_startp args)) else None in
  (* The malformed attribute shouldn't be passed on *)
  let ps := with_attr ps
              (attr_set_flag (ps_attr ps)
                 (UNSET_FLAG (flag (ps_attr ps)) (ATTR_FLAG_BIT (a_type args)))) in
  (* Only relax error handling for eBGP peers *)
  if negb (bool_decide (sort peer = BGP_PEER_EBGP)) then
    (BGP_ATTR_PARSE_ERROR,
     bgp_notify_send_with_data BGP_NOTIFY_UPDATE_ERR subcode notify_datap length ps)
  else
    (* Adjust the stream getp to the end of the attribute *)
    let ps := with_ibuf ps
                (stream_set_getp (ps_ibuf ps) (a_startp args + a_total args)) in
    let t := a_type args in
    if (t =? BGP_ATTR_AS4_AGGREGATOR) || (t =? BGP_ATTR_AGGREGATOR)
       || (t =? BGP_ATTR_ATOMIC_AGGREGATE) then
      (BGP_ATTR_PARSE_PROCEED, ps)
    else if (t =? BGP_ATTR_ORIGIN) || (t =? BGP_ATTR_AS_PATH)
            || (t =? BGP_ATTR_NEXT_HOP) || (t =? BGP_ATTR_MULTI_EXIT_DISC)
            || (t =? BGP_ATTR_LOCAL_PREF) || (t =? BGP_ATTR_COMMUNITIES)
            || (t =? BGP_ATTR_ORIGINATOR_ID) || (t =? BGP_ATTR_CLUSTER_LIST)
            || (t =? BGP_ATTR_MP_REACH_NLRI) || (t =? BGP_ATTR_MP_UNREACH_NLRI)
            || (t =? BGP_ATTR_EXT_COMMUNITIES) then
      (BGP_ATTR_PARSE_ERROR,
       bgp_notify_send_with_data BGP_NOTIFY_UPDATE_ERR subcode notify_datap length ps)
    else if CHECK_FLAG flags BGP_ATTR_FLAG_TRANS
            && CHECK_FLAG flags BGP_ATTR_FLAG_OPTIONAL
            && CHECK_FLAG flags BGP_ATTR_FLAG_PARTIAL then
      (BGP_ATTR_PARSE_WITHDRAW, ps)
    else
      (* default to reset *)
      (BGP_ATTR_PARSE_ERROR,
       bgp_notify_send_with_data BGP_NOTIFY_UPDATE_ERR subcode notify_datap length ps).

(** ** Intern tables *)

(** [memcmp (a, b, n) == 0] on octet arrays. *)
Definition memcmp_eq (a b : list Z) (n : Z) : bool :=
  bool_decide (firstn (Z.to_nat n) a = firstn (Z.to_nat n) b).

(** What the generic hash table and the reference counting need from an
    interned type: its reference count and the table's [hash_cmp]. *)
Class Interned (V : Type) : Type := {
  obj_refcnt : V -> Z;
  obj_set_refcnt : V -> Z -> V;
  obj_cmp : V -> V -> bool
}.

Section Hash.
Context {V : Type} `{Interned V}.

Definition holds (pl : pool V) (data : V) (l : loc) : bool :=
  match heap pl !! l with
  | Some v => obj_cmp v data
  | None => false
  end.

(** Modelled from the spec: lib/hash.c is not part of the sources.  An
    intern table maps content to one canonical object.  [hash_get] returns
    the object of the table that [hash_cmp] equates with [data]; when
    there is none and an [alloc_func] is given, the object that function
    returns is entered and returned.  Buckets are left out: every
    [hash_cmp] of this file equates only values with one hash key. *)
Definition hash_lookup (pl : pool V) (data : V) : option loc :=
  List.find (holds pl data) (table pl).

Definition hash_get (pl : pool V) (data : V)
    (alloc_func : gmap loc V -> loc * gmap loc V) : loc * pool V :=
  match hash_lookup pl data with
  | Some l => (l, pl)
  | None =>
      let '(l, h) := alloc_func (heap pl) in
      (l, mkPool h (l :: table pl))
  end.

Fixpoint remove_first (f : loc -> bool) (t : list loc) : list loc :=
  match t with
  | [] => []
  | l :: t' => if f l then t' else l :: remove_first f t'
  end.

(** Modelled from the spec: [hash_release] takes the object equal to
    [data] out of the table and returns it, NULL when there is none. *)
Definition hash_release (pl : pool V) (data : V) : option loc * pool V :=
  (hash_lookup pl data,
   mkPool (heap pl) (remove_first (holds pl data) (table pl))).

(** [XMALLOC] / [XCALLOC] of one object. *)
Definition xmalloc (v : V) (h : gmap loc V) : loc * gmap loc V :=
  let l := fresh (dom h) in (l, <[l := v]> h).

(** [XFREE]. *)
Definition xfree (l : loc) (pl : pool V) : pool V :=
  mkPool (delete l (heap pl)) (table pl).

(** [p->refcnt++] and friends, through a pointer. *)
Definition store_refcnt (l : loc) (n : Z) (pl : pool V) : pool V :=
  mkPool (alter (fun v => obj_set_refcnt v n) l (heap pl)) (table pl).

Definition load_refcnt (pl : pool V) (l : loc) : Z :=
  match heap pl !! l with
  | Some v => obj_refcnt v
  | None => 0
  end.

Definition refcnt_incr (l : loc) (pl : pool V) : pool V :=
  store_refcnt l (load_refcnt pl l + 1) pl.

(** The body shared by [transit_intern] and the collaborators' intern
    functions: the object handed in is already allocated and becomes the
    canonical one unless an equal one is in the table, in which case the
    one handed in is freed. *)
Definition intern_in_place (l : loc) (pl : pool V) : loc * pool V :=
  match heap pl !! l with
  | None => (l, pl)
  | Some v =>
      let '(find, pl) := hash_get pl v (fun h => (l, h)) in
      let pl := if bool_decide (find = l) then pl else xfree l pl in
      (find, refcnt_incr find pl)
  end.

(** The body shared by [cluster_unintern], [transit_unintern] and the
    collaborators' release functions; the first component is the new
    value of the caller's pointer. *)
Definition unintern_in_place (l : loc) (pl : pool V) : option loc * pool V :=
  match heap pl !! l with
  | None => (Some l, pl)
  | Some v =>
      let pl := if negb (obj_refcnt v =? 0)
                then store_refcnt l (obj_refcnt v - 1) pl else pl in
      if load_refcnt pl l =? 0 then
        let '(_, pl) := hash_release pl v in
        (None, xfree l pl)
      else (Some l, pl)
  end.
End Hash.

(** *** The transit table *)

Definition transit_hash_cmp (t1 t2 : transit_t) : bool :=
  (t_length t1 =? t_length t2) && memcmp_eq (t_val t1) (t_val t2) (t_length t1).

#[export] Instance transit_interned : Interned transit_t := {|
  obj_refcnt := t_refcnt;
  obj_set_refcnt := fun t n => mkTransit n (t_length t) (t_val t);
  obj_cmp := transit_hash_cmp
|}.

(** [transit_intern (transit)]. *)
Definition transit_intern (transit : loc) (pl : pool transit_t) : loc * pool transit_t :=
  intern_in_place transit pl.

(** [transit_unintern (&transit)]. *)
Definition transit_unintern (transit : loc) (pl : pool transit_t)
  : option loc * pool transit_t :=
  unintern_in_place transit pl.

(** *** The cluster-list table *)

Definition cluster_hash_cmp (c1 c2 : cluster_list) : bool :=
  (c_length c1 =? c_length c2) && memcmp_eq (c_list c1) (c_list c2) (c_length c1).

#[export] Instance cluster_interned : Interned cluster_list := {|
  obj_refcnt := c_refcnt;
  obj_set_refcnt := fun c n => mkCluster n (c_length c) (c_list c);
  obj_cmp := cluster_hash_cmp
|}.

(** [cluster_hash_alloc]: a fresh copy of length and list, count 0. *)
Definition cluster_hash_alloc (val : cluster_list) (h : gmap loc cluster_list)
  : loc * gmap loc cluster_list :=
  xmalloc (mkCluster 0 (c_length val)
             (if c_length val =? 0 then []
              else firstn (Z.to_nat (c_length val)) (c_list val))) h.

(** [cluster_parse (pnt, length)]: [pnt] points at [length] octets. *)
Definition cluster_parse (pnt : list Z) (length : Z) (pl : pool cluster_list)
  : loc * pool cluster_list :=
  let tmp := mkCluster 0 length pnt in
  let '(cluster, pl) := hash_get pl tmp (cluster_hash_alloc tmp) in
  (cluster, refcnt_incr cluster pl).

(** [cluster_intern (cluster)]. *)
Definition cluster_intern (cluster : loc) (pl : pool cluster_list)
  : loc * pool cluster_list :=
  match heap pl !! cluster with
  | None => (cluster, pl)
  | Some v =>
      let '(find, pl) := hash_get pl v (cluster_hash_alloc v) in
      (find, refcnt_incr find pl)
  end.

(** [cluster_unintern (&cluster)]. *)
Definition cluster_unintern (cluster : loc) (pl : pool cluster_list)
  : option loc * pool cluster_list :=
  unintern_in_place cluster pl.

(** [cluster_loop_check]: the list read as 4-octet addresses. *)
Fixpoint cluster_loop_check_from (l : list Z) (n : nat) (originator : Z) : bool :=
  match n with
  | O => false
  | S n' =>
      match l with
      | a :: b :: c :: d :: l' =>
          if ((a * 256 + b) * 256 + c) * 256 + d =? originator then true
          else cluster_loop_check_from l' n' originator
      | _ => false
      end
  end.

Definition cluster_loop_check (cluster : cluster_list) (originator : Z) : bool :=
  cluster_loop_check_from (c_list cluster) (Z.to_nat (c_length cluster / 4)) originator.

(** *** The collaborators' tables *)

(** Modelled from the spec: bgpd/bgp_aspath.c, bgp_community.c,
    bgp_ecommunity.c and bgp_lcommunity.c are not part of the sources.
    Each value type is interned by content (spec 4.4, 6): [intern] returns
    the canonical object with its count raised, [release] lowers the count
    and at zero takes the object out of the table and frees it. *)
#[export] Instance assegment_eq_dec : EqDecision assegment.
Proof. solve_decision. Defined.

#[export] Instance aspath_interned : Interned aspath_t := {|
  obj_refcnt := as_refcnt;
  obj_set_refcnt := fun a n => mkAspath n (segments a);
  obj_cmp := fun a b => bool_decide (segments a = segments b)
|}.

#[export] Instance community_interned : Interned community_t := {|
  obj_refcnt := com_refcnt;
  obj_set_refcnt := fun c n => mkCommunity n (com_size c) (com_val c);
  obj_cmp := fun a b => (com_size a =? com_size b)
                        && bool_decide (com_val a = com_val b)
|}.

Definition aspath_intern (l : loc) (pl : pool aspath_t) := intern_in_place l pl.
Definition aspath_unintern (l : loc) (pl : pool aspath_t) := unintern_in_place l pl.
Definition community_intern (l : loc) (pl : pool community_t) := intern_in_place l pl.
Definition community_unintern (l : loc) (pl : pool community_t) := unintern_in_place l pl.
Definition ecommunity_intern (l : loc) (pl : pool community_t) := intern_in_place l pl.
Definition ecommunity_unintern (l : loc) (pl : pool community_t) := unintern_in_place l pl.
Definition lcommunity_intern (l : loc) (pl : pool community_t) := intern_in_place l pl.
Definition lcommunity_unintern (l : loc) (pl : pool community_t) := unintern_in_place l pl.

(** ** Encapsulation sub-TLV chains *)

(** The copy one turn of the loop of [encap_tlv_dup] makes: the record
    with [length] octets of value. *)
Definition subtlv_copy (p : bgp_attr_encap_subtlv) : bgp_attr_encap_subtlv :=
  mkSubTlv (st_type p) (st_length p)
           (firstn (Z.to_nat (st_length p)) (st_value p)).

(** [encap_tlv_dup (orig)]. *)
Definition encap_tlv_dup (orig : list bgp_attr_encap_subtlv)
  : list bgp_attr_encap_subtlv :=
  map subtlv_copy orig.

(** The test of the inner loops of [encap_same]. *)
Definition subtlv_match (p q : bgp_attr_encap_subtlv) : bool :=
  (st_type p =? st_type q) && (st_length p =? st_length q)
  && memcmp_eq (st_value p) (st_value q) (st_length p).

(** One of the two passes of [encap_same]: every record of [h1] finds a
    match in [h2]. *)
Definition encap_covered (h1 h2 : list bgp_attr_encap_subtlv) : bool :=
  forallb (fun p => existsb (subtlv_match p) h2) h1.

(** [encap_same (h1, h2)].  The early exit on [h1 == h2] is covered by
    the two passes, a chain matching itself record by record. *)
Definition encap_same (h1 h2 : list bgp_attr_encap_subtlv) : bool :=
  match h1, h2 with
  | [], [] => true
  | _ :: _, [] => false
  | [], _ :: _ => false
  | _, _ => encap_covered h1 h2 && encap_covered h2 h1
  end.

(** ** The attribute-set table *)

Definition in6_zero : list Z := repeat 0 16%nat.

(** [bgp_attr_extra_new]: a zeroed block. *)
Definition bgp_attr_extra_new : attr_extra :=
  mkExtra in6_zero in6_zero None None None None 0 0 0 0 0 0 0 0 0 [].

(** [bgp_attr_extra_get]: the block, allocated on first use. *)
Definition bgp_attr_extra_get (a : attr) : attr_extra * attr :=
  match extra a with
  | Some e => (e, a)
  | None => (bgp_attr_extra_new, attr_set_extra a (Some bgp_attr_extra_new))
  end.

Definition ptr_eq (p q : option loc) : bool := bool_decide (p = q).

(** The comparison of two extra blocks inside [attrhash_cmp]. *)
Definition attr_extra_cmp (ae1 ae2 : attr_extra) : bool :=
  (aggregator_as ae1 =? aggregator_as ae2)
  && (aggregator_addr ae1 =? aggregator_addr ae2)
  && (weight ae1 =? weight ae2)
  && (priority ae1 =? priority ae2)
  && (tag ae1 =? tag ae2)
  && (mp_nexthop_len ae1 =? mp_nexthop_len ae2)
  && memcmp_eq (mp_nexthop_global ae1) (mp_nexthop_global ae2) 16
  && memcmp_eq (mp_nexthop_local ae1) (mp_nexthop_local ae2) 16
  && (mp_nexthop_global_in ae1 =? mp_nexthop_global_in ae2)
  && ptr_eq (ecommunity ae1) (ecommunity ae2)
  && ptr_eq (lcommunity ae1) (lcommunity ae2)
  && ptr_eq (cluster ae1) (cluster ae2)
  && ptr_eq (transit ae1) (transit ae2)
  && (encap_tunneltype ae1 =? encap_tunneltype ae2)
  && encap_same (encap_subtlvs ae1) (encap_subtlvs ae2)
  && (originator_id ae1 =? originator_id ae2).

(** [attrhash_cmp (p1, p2)]. *)
Definition attrhash_cmp (attr1 attr2 : attr) : bool :=
  if (flag attr1 =? flag attr2) && (origin attr1 =? origin attr2)
     && (nexthop attr1 =? nexthop attr2)
     && ptr_eq (aspath attr1) (aspath attr2)
     && ptr_eq (community attr1) (community attr2)
     && (med attr1 =? med attr2)
     && (local_pref attr1 =? local_pref attr2)
  then
    match extra attr1, extra attr2 with
    | Some ae1, Some ae2 => attr_extra_cmp ae1 ae2
    | None, None => true (* neither attribute has extra attributes *)
    | _, _ => false
    end
  else false.

#[export] Instance attr_interned : Interned attr := {|
  obj_refcnt := refcnt;
  obj_set_refcnt := attr_set_refcnt;
  obj_cmp := attrhash_cmp
|}.

Definition extra_set_encap_subtlvs (e : attr_extra)
    (l : list bgp_attr_encap_subtlv) : attr_extra :=
  mkExtra (mp_nexthop_global e) (mp_nexthop_local e) (ecommunity e)
    (lcommunity e) (cluster e) (transit e) (mp_nexthop_global_in e)
    (aggregator_addr e) (originator_id e) (weight e) (priority e)
    (aggregator_as e) (mp_nexthop_len e) (tag e) (encap_tunneltype e) l.
Definition extra_set_ecommunity (e : attr_extra) (p : option loc) : attr_extra :=
  mkExtra (mp_nexthop_global e) (mp_nexthop_local e) p
    (lcommunity e) (cluster e) (transit e) (mp_nexthop_global_in e)
    (aggregator_addr e) (originator_id e) (weight e) (priority e)
    (aggregator_as e) (mp_nexthop_len e) (tag e) (encap_tunneltype e)
    (encap_subtlvs e).
Definition extra_set_lcommunity (e : attr_extra) (p : option loc) : attr_extra :=
  mkExtra (mp_nexthop_global e) (mp_nexthop_local e) (ecommunity e)
    p (cluster e) (transit e) (mp_nexthop_global_in e)
    (aggregator_addr e) (originator_id e) (weight e) (priority e)
    (aggregator_as e) (mp_nexthop_len e) (tag e) (encap_tunneltype e)
    (encap_subtlvs e).
Definition extra_set_cluster (e : attr_extra) (p : option loc) : attr_extra :=
  mkExtra (mp_nexthop_global e) (mp_nexthop_local e) (ecommunity e)
    (lcommunity e) p (transit e) (mp_nexthop_global_in e)
    (aggregator_addr e) (originator_id e) (weight e) (priority e)
    (aggregator_as e) (mp_nexthop_len e) (tag e) (encap_tunneltype e)
    (encap_subtlvs e).
Definition extra_set_transit (e : attr_extra) (p : option loc) : attr_extra :=
  mkExtra (mp_nexthop_global e) (mp_nexthop_local e) (ecommunity e)
    (lcommunity e) (cluster e) p (mp_nexthop_global_in e)
    (aggregator_addr e) (originator_id e) (weight e) (priority e)
    (aggregator_as e) (mp_nexthop_len e) (tag e) (encap_tunneltype e)
    (encap_subtlvs e).
Definition extra_set_aggregator (e : attr_extra) (as_ addr : Z) : attr_extra :=
  mkExtra (mp_nexthop_global e) (mp_nexthop_local e) (ecommunity e)
    (lcommunity e) (cluster e) (transit e) (mp_nexthop_global_in e)
    addr (originator_id e) (weight e) (priority e)
    as_ (mp_nexthop_len e) (tag e) (encap_tunneltype e)
    (encap_subtlvs e).
Definition extra_set_originator_id (e : attr_extra) (id : Z) : attr_extra :=
  mkExtra (mp_nexthop_global e) (mp_nexthop_local e) (ecommunity e)
    (lcommunity e) (cluster e) (transit e) (mp_nexthop_global_in e)
    (aggregator_addr e) id (weight e) (priority e)
    (aggregator_as e) (mp_nexthop_len e) (tag e) (encap_tunneltype e)
    (encap_subtlvs e).
Definition extra_set_mp_nexthop_len (e : attr_extra) (n : Z) : attr_extra :=
  mkExtra (mp_nexthop_global e) (mp_nexthop_local e) (ecommunity e)
    (lcommunity e) (cluster e) (transit e) (mp_nexthop_global_in e)
    (aggregator_addr e) (originator_id e) (weight e) (priority e)
    (aggregator_as e) n (tag e) (encap_tunneltype e)
    (encap_subtlvs e).
Definition extra_set_mp_nexthop_global_in (e : attr_extra) (n : Z) : attr_extra :=
  mkExtra (mp_nexthop_global e) (mp_nexthop_local e) (ecommunity e)
    (lcommunity e) (cluster e) (transit e) n
    (aggregator_addr e) (originator_id e) (weight e) (priority e)
    (aggregator_as e) (mp_nexthop_len e) (tag e) (encap_tunneltype e)
    (encap_subtlvs e).
Definition extra_set_mp_nexthop_global (e : attr_extra) (a : list Z) : attr_extra :=
  mkExtra a (mp_nexthop_local e) (ecommunity e)
    (lcommunity e) (cluster e) (transit e) (mp_nexthop_global_in e)
    (aggregator_addr e) (originator_id e) (weight e) (priority e)
    (aggregator_as e) (mp_nexthop_len e) (tag e) (encap_tunneltype e)
    (encap_subtlvs e).
Definition extra_set_mp_nexthop_local (e : attr_extra) (a : list Z) : attr_extra :=
  mkExtra (mp_nexthop_global e) a (ecommunity e)
    (lcommunity e) (cluster e) (transit e) (mp_nexthop_global_in e)
    (aggregator_addr e) (originator_id e) (weight e) (priority e)
    (aggregator_as e) (mp_nexthop_len e) (tag e) (encap_tunneltype e)
    (encap_subtlvs e).
Definition extra_set_encap_tunneltype (e : attr_extra) (n : Z) : attr_extra :=
  mkExtra (mp_nexthop_global e) (mp_nexthop_local e) (ecommunity e)
    (lcommunity e) (cluster e) (transit e) (mp_nexthop_global_in e)
    (aggregator_addr e) (originator_id e) (weight e) (priority e)
    (aggregator_as e) (mp_nexthop_len e) (tag e) n
    (encap_subtlvs e).

Definition with_ashash (w : world) (p : pool aspath_t) : world :=
  mkWorld p (comhash w) (ecomhash w) (lcomhash w) (cluster_hash w)
          (transit_hash w) (attrhash w).
Definition with_comhash (w : world) (p : pool community_t) : world :=
  mkWorld (ashash w) p (ecomhash w) (lcomhash w) (cluster_hash w)
          (transit_hash w) (attrhash w).
Definition with_ecomhash (w : world) (p : pool community_t) : world :=
  mkWorld (ashash w) (comhash w) p (lcomhash w) (cluster_hash w)
          (transit_hash w) (attrhash w).
Definition with_lcomhash (w : world) (p : pool community_t) : world :=
  mkWorld (ashash w) (comhash w) (ecomhash w) p (cluster_hash w)
          (transit_hash w) (attrhash w).
Definition with_cluster_hash (w : world) (p : pool cluster_list) : world :=
  mkWorld (ashash w) (comhash w) (ecomhash w) (lcomhash w) p
          (transit_hash w) (attrhash w).
Definition with_transit_hash (w : world) (p : pool transit_t) : world :=
  mkWorld (ashash w) (comhash w) (ecomhash w) (lcomhash w) (cluster_hash w)
          p (attrhash w).
Definition with_attrhash (w : world) (p : pool attr) : world :=
  mkWorld (ashash w) (comhash w) (ecomhash w) (lcomhash w) (cluster_hash w)
          (transit_hash w) p.

(** [bgp_attr_hash_alloc]: a copy of the key with its own extra block and
    its own sub-TLV chain, count 0. *)
Definition bgp_attr_hash_alloc (val : attr) (h : gmap loc attr)
  : loc * gmap loc attr :=
  let e := match extra val with
           | Some e => Some (extra_set_encap_subtlvs e
                               (encap_tlv_dup (encap_subtlvs e)))
           | None => None
           end in
  xmalloc (attr_set_refcnt (attr_set_extra val e) 0) h.

(** The step [bgp_attr_intern] repeats for each referenced structure:
    intern it when its count is 0, count one more holder otherwise. *)
Definition intern_ref {V : Type} `{Interned V}
    (intern : loc -> pool V -> loc * pool V)
    (p : option loc) (pl : pool V) : option loc * pool V :=
  match p with
  | None => (None, pl)
  | Some l =>
      if load_refcnt pl l =? 0
      then let '(l', pl') := intern l pl in (Some l', pl')
      else (Some l, refcnt_incr l pl)
  end.

(** [bgp_attr_intern (attr)]: returns the canonical set; the argument has
    its references replaced by the interned ones. *)
Definition bgp_attr_intern (a : attr) (w : world) : loc * attr * world :=
  let '(asp, p) := intern_ref aspath_intern (aspath a) (ashash w) in
  let a := attr_set_aspath a asp in
  let w := with_ashash w p in
  let '(com, p) := intern_ref community_intern (community a) (comhash w) in
  let a := attr_set_community a com in
  let w := with_comhash w p in
  let '(a, w) :=
    match extra a with
    | None => (a, w)
    | Some attre =>
        let '(ec, p) := intern_ref ecommunity_intern (ecommunity attre) (ecomhash w) in
        let attre := extra_set_ecommunity attre ec in
        let w := with_ecomhash w p in
        let '(lc, p) := intern_ref lcommunity_intern (lcommunity attre) (lcomhash w) in
        let attre := extra_set_lcommunity attre lc in
        let w := with_lcomhash w p in
        let '(cl, p) := intern_ref cluster_intern (cluster attre) (cluster_hash w) in
        let attre := extra_set_cluster attre cl in
        let w := with_cluster_hash w p in
        let '(tr, p) := intern_ref transit_intern (transit attre) (transit_hash w) in
        let attre := extra_set_transit attre tr in
        let w := with_transit_hash w p in
        (attr_set_extra a (Some attre), w)
    end in
  let '(find, p) := hash_get (attrhash w) a (bgp_attr_hash_alloc a) in
  (find, a, with_attrhash w (refcnt_incr find p)).

Definition unintern_ref {V : Type} `{Interned V}
    (p : option loc) (pl : pool V) : option loc * pool V :=
  match p with
  | None => (None, pl)
  | Some l => unintern_in_place l pl
  end.

(** [bgp_attr_unintern_sub (attr)]. *)
Definition bgp_attr_unintern_sub (a : attr) (w : world) : attr * world :=
  let '(asp, p) := unintern_ref (aspath a) (ashash w) in
  let a := attr_set_aspath a asp in
  let w := with_ashash w p in
  let a := attr_set_flag a (UNSET_FLAG (flag a) (ATTR_FLAG_BIT BGP_ATTR_AS_PATH)) in
  let '(com, p) := unintern_ref (community a) (comhash w) in
  let a := attr_set_community a com in
  let w := with_comhash w p in
  let a := attr_set_flag a (UNSET_FLAG (flag a) (ATTR_FLAG_BIT BGP_ATTR_COMMUNITIES)) in
  match extra a with
  | None => (a, w)
  | Some attre =>
      let '(ec, p) := unintern_ref (ecommunity attre) (ecomhash w) in
      let attre := extra_set_ecommunity attre ec in
      let w := with_ecomhash w p in
      let a := attr_set_flag a (UNSET_FLAG (flag a) (ATTR_FLAG_BIT BGP_ATTR_EXT_COMMUNITIES)) in
      let '(lc, p) := unintern_ref (lcommunity attre) (lcomhash w) in
      let attre := extra_set_lcommunity attre lc in
      let w := with_lcomhash w p in
      let a := attr_set_flag a (UNSET_FLAG (flag a) (ATTR_FLAG_BIT BGP_ATTR_LARGE_COMMUNITIES)) in
      let '(cl, p) := unintern_ref (cluster attre) (cluster_hash w) in
      let attre := extra_set_cluster attre cl in
      let w := with_cluster_hash w p in
      let a := attr_set_flag a (UNSET_FLAG (flag a) (ATTR_FLAG_BIT BGP_ATTR_CLUSTER_LIST)) in
      let '(tr, p) := unintern_ref (transit attre) (transit_hash w) in
      let attre := extra_set_transit attre tr in
      let w := with_transit_hash w p in
      (attr_set_extra a (Some attre), w)
  end.

(** [bgp_attr_unintern (&pattr)]: the new value of the caller's pointer and
    the store; [None] is the failed [assert (ret != NULL)] (or a pointer
    to no attribute set). *)
Definition bgp_attr_unintern (pattr : loc) (w : world)
  : option (option loc * world) :=
  match heap (attrhash w) !! pattr with
  | None => None
  | Some attr0 =>
      (* Decrement attribute reference. *)
      let p := store_refcnt pattr (refcnt attr0 - 1) (attrhash w) in
      let tmp := attr_set_refcnt attr0 (refcnt attr0 - 1) in
      (* If reference becomes zero then free attribute object. *)
      if refcnt tmp =? 0 then
        match hash_release p tmp with
        | (None, _) => None
        | (Some _, p) =>
            let w := with_attrhash w (xfree pattr p) in
            Some (None, snd (bgp_attr_unintern_sub tmp w))
        end
      else
        let w := with_attrhash w p in
        Some (Some pattr, snd (bgp_attr_unintern_sub tmp w))
  end.

(** ** Collaborators of the parser and the encoder *)

(** The functions of the AS-path and community modules that bgp_attr.c
    calls and whose code is elsewhere, and the debug switch it reads.
    Parsers get the store they allocate in; the AS-path operations of the
    encoder work on the segments. *)
Class Collaborators : Type := {
  (** [aspath_parse (s, length, use32bit)]: reads from the stream, returns
      the path or NULL. *)
  aspath_parse : stream -> Z -> bool -> pool aspath_t
                 -> option loc * stream * pool aspath_t;
  (** [community_parse (pnt, length)] and its two siblings. *)
  community_parse : list Z -> Z -> pool community_t
                    -> option loc * pool community_t;
  ecommunity_parse : list Z -> Z -> pool community_t
                     -> option loc * pool community_t;
  lcommunity_parse : list Z -> Z -> pool community_t
                     -> option loc * pool community_t;
  aspath_reconcile_as4 : list assegment -> list assegment -> list assegment;
  aspath_left_confed_check : list assegment -> bool;
  aspath_confed_check : list assegment -> bool;
  aspath_firstas_check : list assegment -> Z -> bool;
  aspath_add_seq : list assegment -> Z -> list assegment;
  aspath_add_confed_seq : list assegment -> Z -> list assegment;
  (** [BGP_DEBUG (allow_martians, ALLOW_MARTIANS)]. *)
  debug_allow_martians : bool
}.

(** ** Flag validation *)

(** [attr_flags_values[]]: the required flags per type code, 0 for the
    codes the initialiser does not name. *)
Definition attr_flags_values (attr_code : Z) : Z :=
  if attr_code =? BGP_ATTR_ORIGIN then BGP_ATTR_FLAG_TRANS
  else if attr_code =? BGP_ATTR_AS_PATH then BGP_ATTR_FLAG_TRANS
  else if attr_code =? BGP_ATTR_NEXT_HOP then BGP_ATTR_FLAG_TRANS
  else if attr_code =? BGP_ATTR_MULTI_EXIT_DISC then BGP_ATTR_FLAG_OPTIONAL
  else if attr_code =? BGP_ATTR_LOCAL_PREF then BGP_ATTR_FLAG_TRANS
  else if attr_code =? BGP_ATTR_ATOMIC_AGGREGATE then BGP_ATTR_FLAG_TRANS
  else if attr_code =? BGP_ATTR_AGGREGATOR
       then Z.lor BGP_ATTR_FLAG_TRANS BGP_ATTR_FLAG_OPTIONAL
  else if attr_code =? BGP_ATTR_COMMUNITIES
       then Z.lor BGP_ATTR_FLAG_TRANS BGP_ATTR_FLAG_OPTIONAL
  else if attr_code =? BGP_ATTR_ORIGINATOR_ID then BGP_ATTR_FLAG_OPTIONAL
  else if attr_code =? BGP_ATTR_CLUSTER_LIST then BGP_ATTR_FLAG_OPTIONAL
  else if attr_code =? BGP_ATTR_MP_REACH_NLRI then BGP_ATTR_FLAG_OPTIONAL
  else if attr_code =? BGP_ATTR_MP_UNREACH_NLRI then BGP_ATTR_FLAG_OPTIONAL
  else if attr_code =? BGP_ATTR_EXT_COMMUNITIES
       then Z.lor BGP_ATTR_FLAG_OPTIONAL BGP_ATTR_FLAG_TRANS
  else if attr_code =? BGP_ATTR_AS4_PATH
       then Z.lor BGP_ATTR_FLAG_OPTIONAL BGP_ATTR_FLAG_TRANS
  else if attr_code =? BGP_ATTR_AS4_AGGREGATOR
       then Z.lor BGP_ATTR_FLAG_OPTIONAL BGP_ATTR_FLAG_TRANS
  else if attr_code =? BGP_ATTR_LARGE_COMMUNITIES
       then Z.lor BGP_ATTR_FLAG_TRANS BGP_ATTR_FLAG_OPTIONAL
  else 0.

Definition attr_flags_values_max : Z := BGP_ATTR_LARGE_COMMUNITIES.

(** [bgp_attr_flag_invalid (args)]; the diagnosis it logs is left out. *)
Definition bgp_attr_flag_invalid (args : bgp_attr_parser_args) : bool :=
  let flags := a_flags args in
  let attr_code := a_type args in
  (* there may be attributes we don't know about *)
  if attr_flags_values_max <? attr_code then false
  else if attr_flags_values attr_code =? 0 then false
  else if negb (CHECK_FLAG BGP_ATTR_FLAG_OPTIONAL flags)
          && negb (CHECK_FLAG BGP_ATTR_FLAG_TRANS flags) then true
  else if CHECK_FLAG flags BGP_ATTR_FLAG_PARTIAL
          && negb (CHECK_FLAG flags BGP_ATTR_FLAG_OPTIONAL) then true
  else if CHECK_FLAG flags BGP_ATTR_FLAG_PARTIAL
          && CHECK_FLAG flags BGP_ATTR_FLAG_OPTIONAL
          && negb (CHECK_FLAG flags BGP_ATTR_FLAG_TRANS) then true
  else
    let mask :=
      if CHECK_FLAG flags BGP_ATTR_FLAG_OPTIONAL
         && CHECK_FLAG flags BGP_ATTR_FLAG_TRANS
      then SET_FLAG BGP_ATTR_FLAG_EXTLEN BGP_ATTR_FLAG_PARTIAL
      else BGP_ATTR_FLAG_EXTLEN in
    negb (Z.land flags (Z.lnot mask) =? attr_flags_values attr_code).

(** ** Decoders *)

(** [attr->flag |= ATTR_FLAG_BIT (X)]. *)
Definition attr_flag_add (ps : pstate) (x : Z) : pstate :=
  with_attr ps (attr_set_flag (ps_attr ps)
                  (SET_FLAG (flag (ps_attr ps)) (ATTR_FLAG_BIT x))).

(** [bgp_attr_origin (args)]. *)
Definition bgp_attr_origin (args : bgp_attr_parser_args) (ps : pstate)
  : bgp_attr_parse_ret_t * pstate :=
  let length := a_length args in
  if negb (length =? 1) then
    bgp_attr_malformed args BGP_NOTIFY_UPDATE_ATTR_LENG_ERR (a_total args) ps
  else
    (* Fetch origin attribute. *)
    let '(o, s) := stream_getc (ps_ibuf ps) in
    let ps := with_ibuf (with_attr ps (attr_set_origin (ps_attr ps) o)) s in
    if negb (o =? BGP_ORIGIN_IGP) && negb (o =? BGP_ORIGIN_EGP)
       && negb (o =? BGP_ORIGIN_INCOMPLETE) then
      bgp_attr_malformed args BGP_NOTIFY_UPDATE_INVAL_ORIGIN (a_total args) ps
    else
      (BGP_ATTR_PARSE_PROCEED, attr_flag_add ps BGP_ATTR_ORIGIN).

(** [bgp_attr_aspath (args)]. *)
Definition bgp_attr_aspath `{Collaborators} (args : bgp_attr_parser_args)
    (ps : pstate) : bgp_attr_parse_ret_t * pstate :=
  let peer := a_peer args in
  let '(asp, s, p) :=
    aspath_parse (ps_ibuf ps) (a_length args)
      (CHECK_FLAG (cap peer) PEER_CAP_AS4_RCV) (ashash (ps_world ps)) in
  let ps := with_world (with_ibuf (with_attr ps (attr_set_aspath (ps_attr ps) asp)) s)
              (with_ashash (ps_world ps) p) in
  match asp with
  | None => bgp_attr_malformed args BGP_NOTIFY_UPDATE_MAL_AS_PATH 0 ps
  | Some _ => (BGP_ATTR_PARSE_PROCEED, attr_flag_add ps BGP_ATTR_AS_PATH)
  end.

(** [bgp_attr_as4_path (args, &as4_path)]; the second component is the
    value stored through [as4_path]. *)
Definition bgp_attr_as4_path `{Collaborators} (args : bgp_attr_parser_args)
    (ps : pstate) : bgp_attr_parse_ret_t * option loc * pstate :=
  let '(asp, s, p) :=
    aspath_parse (ps_ibuf ps) (a_length args) true (ashash (ps_world ps)) in
  let ps := with_world (with_ibuf ps s) (with_ashash (ps_world ps) p) in
  match asp with
  | None =>
      let '(r, ps) := bgp_attr_malformed args BGP_NOTIFY_UPDATE_MAL_AS_PATH 0 ps in
      (r, asp, ps)
  | Some _ => (BGP_ATTR_PARSE_PROCEED, asp, attr_flag_add ps BGP_ATTR_AS4_PATH)
  end.

(** Modelled from the spec: the martian tests of lib/prefix.h, on the
    address in host order: 0.0.0.0/8, 127/8 and class D/E. *)
Definition IPV4_NET0 (a : Z) : bool := Z.land a 0xff000000 =? 0.
Definition IPV4_NET127 (a : Z) : bool := Z.land a 0xff000000 =? 0x7f000000.
Definition IPV4_CLASS_DE (a : Z) : bool := Z.land a 0xe0000000 =? 0xe0000000.

(** [bgp_attr_nexthop (args)]. *)
Definition bgp_attr_nexthop `{Collaborators} (args : bgp_attr_parser_args)
    (ps : pstate) : bgp_attr_parse_ret_t * pstate :=
  if negb (a_length args =? 4) then
    bgp_attr_malformed args BGP_NOTIFY_UPDATE_ATTR_LENG_ERR (a_total args) ps
  else
    let '(nexthop_n, s) := stream_get_ipv4 (ps_ibuf ps) in
    let ps := with_ibuf ps s in
    let nexthop_h := nexthop_n in
    if (IPV4_NET0 nexthop_h || IPV4_NET127 nexthop_h || IPV4_CLASS_DE nexthop_h)
       && negb debug_allow_martians then
      bgp_attr_malformed args BGP_NOTIFY_UPDATE_INVAL_NEXT_HOP (a_total args) ps
    else
      let ps := with_attr ps (attr_set_nexthop (ps_attr ps) nexthop_n) in
      (BGP_ATTR_PARSE_PROCEED, attr_flag_add ps BGP_ATTR_NEXT_HOP).

(** [bgp_attr_med (args)]. *)
Definition bgp_attr_med (args : bgp_attr_parser_args) (ps : pstate)
  : bgp_attr_parse_ret_t * pstate :=
  if negb (a_length args =? 4) then
    bgp_attr_malformed args BGP_NOTIFY_UPDATE_ATTR_LENG_ERR (a_total args) ps
  else
    let '(v, s) := stream_getl (ps_ibuf ps) in
    let ps := with_ibuf (with_attr ps (attr_set_med (ps_attr ps) v)) s in
    (BGP_ATTR_PARSE_PROCEED, attr_flag_add ps BGP_ATTR_MULTI_EXIT_DISC).

(** [bgp_attr_local_pref (args)]. *)
Definition bgp_attr_local_pref (args : bgp_attr_parser_args) (ps : pstate)
  : bgp_attr_parse_ret_t * pstate :=
  let peer := a_peer args in
  let length := a_length args in
  (* Length check. *)
  if negb (length =? 4) then
    bgp_attr_malformed args BGP_NOTIFY_UPDATE_ATTR_LENG_ERR (a_total args) ps
  (* received from an external peer: MUST be ignored *)
  else if bool_decide (sort peer = BGP_PEER_EBGP) then
    (BGP_ATTR_PARSE_PROCEED,
     with_ibuf ps (stream_forward_getp (ps_ibuf ps) length))
  else
    let '(v, s) := stream_getl (ps_ibuf ps) in
    let ps := with_ibuf (with_attr ps (attr_set_local_pref (ps_attr ps) v)) s in
    (BGP_ATTR_PARSE_PROCEED, attr_flag_add ps BGP_ATTR_LOCAL_PREF).

(** [bgp_attr_atomic (args)]. *)
Definition bgp_attr_atomic (args : bgp_attr_parser_args) (ps : pstate)
  : bgp_attr_parse_ret_t * pstate :=
  if negb (a_length args =? 0) then
    bgp_attr_malformed args BGP_NOTIFY_UPDATE_ATTR_LENG_ERR (a_total args) ps
  else
    (BGP_ATTR_PARSE_PROCEED, attr_flag_add ps BGP_ATTR_ATOMIC_AGGREGATE).

(** [bgp_attr_aggregator (args)]. *)
Definition bgp_attr_aggregator (args : bgp_attr_parser_args) (ps : pstate)
  : bgp_attr_parse_ret_t * pstate :=
  let peer := a_peer args in
  let '(attre, a) := bgp_attr_extra_get (ps_attr ps) in
  let ps := with_attr ps a in
  (* peer with AS4 will send 4 Byte AS, peer without will send 2 Byte *)
  let wantedlen := if CHECK_FLAG (cap peer) PEER_CAP_AS4_RCV then 8 else 6 in
  if negb (a_length args =? wantedlen) then
    bgp_attr_malformed args BGP_NOTIFY_UPDATE_ATTR_LENG_ERR (a_total args) ps
  else
    let '(as_, s) := if CHECK_FLAG (cap peer) PEER_CAP_AS4_RCV
                     then stream_getl (ps_ibuf ps)
                     else stream_getw (ps_ibuf ps) in
    let '(addr, s) := stream_get_ipv4 s in
    let attre := extra_set_aggregator attre as_ addr in
    let ps := with_ibuf (with_attr ps (attr_set_extra (ps_attr ps) (Some attre))) s in
    (BGP_ATTR_PARSE_PROCEED, attr_flag_add ps BGP_ATTR_AGGREGATOR).

(** [bgp_attr_as4_aggregator (args, &as4_aggregator_as,
    &as4_aggregator_addr)]; the two out-parameters are returned, [None]
    when they are not written. *)
Definition bgp_attr_as4_aggregator (args : bgp_attr_parser_args) (ps : pstate)
  : bgp_attr_parse_ret_t * option (Z * Z) * pstate :=
  if negb (a_length args =? 8) then
    let '(r, ps) := bgp_attr_malformed args BGP_NOTIFY_UPDATE_ATTR_LENG_ERR 0 ps in
    (r, None, ps)
  else
    let '(as_, s) := stream_getl (ps_ibuf ps) in
    let '(addr, s) := stream_get_ipv4 s in
    let ps := with_ibuf ps s in
    (BGP_ATTR_PARSE_PROCEED, Some (as_, addr),
     attr_flag_add ps BGP_ATTR_AS4_AGGREGATOR).

(** Reading an AS path through a pointer. *)
Definition aspath_segments (w : world) (p : loc) : option (list assegment) :=
  segments <$> heap (ashash w) !! p.

(** The three statements both [bgp_attr_munge_as4_attrs] and
    [bgp_attr_aspath_check] end with: a new path has been built (it is
    allocated, with count 0), the old one is released with
    [aspath_unintern], and the new one is interned; the result is the
    pointer to store in [attr->aspath]. *)
Definition aspath_replace (p : pool aspath_t) (old : loc)
    (segs : list assegment) : loc * pool aspath_t :=
  let '(newpath, h) := xmalloc (mkAspath 0 segs) (heap p) in
  let '(_, p) := aspath_unintern old (mkPool h (table p)) in
  aspath_intern newpath p.

(** [bgp_attr_munge_as4_attrs (peer, attr, as4_path, as4_aggregator,
    as4_aggregator_addr)].  [None] stands for the failed [assert (attre)]
    and for following a pointer to no AS path. *)
Definition bgp_attr_munge_as4_attrs `{Collaborators} (pr : peer)
    (as4_path : option loc) (as4_aggregator as4_aggregator_addr : Z)
    (ps : pstate) : option (bgp_attr_parse_ret_t * pstate) :=
  let a := ps_attr ps in
  match aspath a with
  | None => Some (BGP_ATTR_PARSE_ERROR, ps)
  | Some old =>
      if CHECK_FLAG (cap pr) PEER_CAP_AS4_RCV then
        (* peer can do AS4, so we ignore AS4_PATH and AS4_AGGREGATOR *)
        Some (BGP_ATTR_PARSE_PROCEED, ps)
      else
        (* We have a asn16 peer.  First, look for AS4_AGGREGATOR *)
        let step1 : option (bool * attr) :=
          if CHECK_FLAG (flag a) (ATTR_FLAG_BIT BGP_ATTR_AS4_AGGREGATOR) then
            if CHECK_FLAG (flag a) (ATTR_FLAG_BIT BGP_ATTR_AGGREGATOR) then
              match extra a with
              | None => None
              | Some attre =>
                  if negb (aggregator_as attre =? BGP_AS_TRANS) then
                    (* ignore *)
                    Some (true, a)
                  else
                    (* "New_aggregator shall be taken as aggregator" *)
                    Some (false,
                          attr_set_extra a
                            (Some (extra_set_aggregator attre as4_aggregator
                                     as4_aggregator_addr)))
              end
            else
              (* AS4_AGGREGATOR but no AGGREGATOR *)
              let '(attre, a) := bgp_attr_extra_get a in
              let attre := extra_set_aggregator attre as4_aggregator
                             (aggregator_addr attre) in
              let a := attr_set_extra a (Some attre) in
              Some (false,
                    attr_set_flag a
                      (SET_FLAG (flag a) (ATTR_FLAG_BIT BGP_ATTR_AGGREGATOR)))
          else Some (false, a) in
        match step1 with
        | None => None
        | Some (ignore_as4_path, a) =>
            (* need to reconcile NEW_AS_PATH and AS_PATH *)
            if negb ignore_as4_path
               && CHECK_FLAG (flag a) (ATTR_FLAG_BIT BGP_ATTR_AS4_PATH) then
              match aspath_segments (ps_world ps) old,
                    as4_path ≫= aspath_segments (ps_world ps) with
              | Some segs, Some segs4 =>
                  let w := ps_world ps in
                  let '(interned, p) :=
                    aspath_replace (ashash w) old (aspath_reconcile_as4 segs segs4) in
                  Some (BGP_ATTR_PARSE_PROCEED,
                        with_world
                          (with_attr ps (attr_set_aspath a (Some interned)))
                          (with_ashash w p))
              | _, _ => None
              end
            else Some (BGP_ATTR_PARSE_PROCEED, with_attr ps a)
        end
  end.

(** [stream_pnt (s)] with the octets the callee may read from it. *)
Definition stream_pnt_bytes (s : stream) (n : Z) : list Z :=
  bytes_at (data s) (getp s) n.

(** [bgp_attr_community (args)]. *)
Definition bgp_attr_community `{Collaborators} (args : bgp_attr_parser_args)
    (ps : pstate) : bgp_attr_parse_ret_t * pstate :=
  let length := a_length args in
  if length =? 0 then
    (BGP_ATTR_PARSE_PROCEED,
     with_attr ps (attr_set_community (ps_attr ps) None))
  else
    let '(com, p) :=
      community_parse (stream_pnt_bytes (ps_ibuf ps) length) length
        (comhash (ps_world ps)) in
    let ps := with_world (with_attr ps (attr_set_community (ps_attr ps) com))
                (with_comhash (ps_world ps) p) in
    (* XXX: fix community_parse to use stream API and remove this *)
    let ps := with_ibuf ps (stream_forward_getp (ps_ibuf ps) length) in
    match com with
    | None => bgp_attr_malformed args BGP_NOTIFY_UPDATE_OPT_ATTR_ERR (a_total args) ps
    | Some _ => (BGP_ATTR_PARSE_PROCEED, attr_flag_add ps BGP_ATTR_COMMUNITIES)
    end.

(** [bgp_attr_originator_id (args)]. *)
Definition bgp_attr_originator_id (args : bgp_attr_parser_args) (ps : pstate)
  : bgp_attr_parse_ret_t * pstate :=
  if negb (a_length args =? 4) then
    bgp_attr_malformed args BGP_NOTIFY_UPDATE_ATTR_LENG_ERR (a_total args) ps
  else
    let '(attre, a) := bgp_attr_extra_get (ps_attr ps) in
    let '(id, s) := stream_get_ipv4 (ps_ibuf ps) in
    let a := attr_set_extra a (Some (extra_set_originator_id attre id)) in
    (BGP_ATTR_PARSE_PROCEED,
     attr_flag_add (with_ibuf (with_attr ps a) s) BGP_ATTR_ORIGINATOR_ID).

(** [bgp_attr_cluster_list (args)]. *)
Definition bgp_attr_cluster_list (args : bgp_attr_parser_args) (ps : pstate)
  : bgp_attr_parse_ret_t * pstate :=
  let length := a_length args in
  if negb (length mod 4 =? 0) then
    bgp_attr_malformed args BGP_NOTIFY_UPDATE_ATTR_LENG_ERR (a_total args) ps
  else
    let '(attre, a) := bgp_attr_extra_get (ps_attr ps) in
    let '(cl, p) := cluster_parse (stream_pnt_bytes (ps_ibuf ps) length) length
                      (cluster_hash (ps_world ps)) in
    let a := attr_set_extra a (Some (extra_set_cluster attre (Some cl))) in
    let ps := with_world (with_attr ps a) (with_cluster_hash (ps_world ps) p) in
    (* XXX: Fix cluster_parse to use stream API and then remove this *)
    let ps := with_ibuf ps (stream_forward_getp (ps_ibuf ps) length) in
    (BGP_ATTR_PARSE_PROCEED, attr_flag_add ps BGP_ATTR_CLUSTER_LIST).

(** [struct bgp_nlri]: the NLRI blob handed back to the caller; [nlri] is
    an offset into the input buffer. *)
Record bgp_nlri : Type := mkNlri {
  nlri_afi : Z;
  nlri_safi : Z;
  nlri : Z;
  nlri_length : Z
}.

Definition BGP_MP_REACH_MIN_SIZE : Z := 5.
Definition BGP_MP_UNREACH_MIN_SIZE : Z := 3.

Definition IN6_IS_ADDR_LINKLOCAL (a : list Z) : bool :=
  (nth 0 a 0 =? 0xfe) && (Z.land (nth 1 a 0) 0xc0 =? 0x80).

(** The [switch (attre->mp_nexthop_len)] of [bgp_mp_reach_parse]: the
    stream and the attribute set after the next hop is read, [None] for
    the default case. *)
Definition mp_reach_nexthop (attre : attr_extra) (a : attr) (s : stream)
  : option (attr_extra * attr * stream) :=
  let len := mp_nexthop_len attre in
  if len =? 4 then
    let '(v, s) := stream_get_ipv4 s in
    let attre := extra_set_mp_nexthop_global_in attre v in
    (* Probably needed for RFC 2283 *)
    let a := if nexthop a =? 0 then attr_set_nexthop a v else a in
    Some (attre, a, s)
  else if len =? 12 then
    let '(_, s) := stream_getl s in (* RD high *)
    let '(_, s) := stream_getl s in (* RD low *)
    let '(v, s) := stream_get_ipv4 s in
    Some (extra_set_mp_nexthop_global_in attre v, a, s)
  else if len =? 24 then
    let '(_, s) := stream_getl s in
    let '(_, s) := stream_getl s in
    (* fall through *)
    let '(g, s) := stream_get s 16 in
    Some (extra_set_mp_nexthop_global attre g, a, s)
  else if len =? 16 then
    let '(g, s) := stream_get s 16 in
    Some (extra_set_mp_nexthop_global attre g, a, s)
  else if (len =? 32) || (len =? 48) then
    let s := if len =? 48
             then snd (stream_getl (snd (stream_getl s))) else s in
    let '(g, s) := stream_get s 16 in
    let attre := extra_set_mp_nexthop_global attre g in
    let s := if len =? 48
             then snd (stream_getl (snd (stream_getl s))) else s in
    let '(l, s) := stream_get s 16 in
    let attre := extra_set_mp_nexthop_local attre l in
    let attre := if negb (IN6_IS_ADDR_LINKLOCAL l)
                 then extra_set_mp_nexthop_len attre 16 else attre in
    Some (attre, a, s)
  else None.

(** [bgp_mp_reach_parse (args, mp_update)]; the second component is what
    is stored in [mp_update], if anything. *)
Definition bgp_mp_reach_parse (args : bgp_attr_parser_args) (ps : pstate)
  : bgp_attr_parse_ret_t * option bgp_nlri * pstate :=
  let length := a_length args in
  let '(attre, a) := bgp_attr_extra_get (ps_attr ps) in
  let ps := with_attr ps a in
  let s := ps_ibuf ps in
  let start := stream_get_getp s in
  let LEN_LEFT (s : stream) := length - (stream_get_getp s - start) in
  (* safe to read statically sized header? *)
  if (STREAM_READABLE s <? length) || (length <? BGP_MP_REACH_MIN_SIZE) then
    (BGP_ATTR_PARSE_ERROR_NOTIFYPLS, None, ps)
  else
    (* Load AFI, SAFI. *)
    let '(afi, s) := stream_getw s in
    let '(safi, s) := stream_getc s in
    (* Get nexthop length. *)
    let '(nhlen, s) := stream_getc s in
    let attre := extra_set_mp_nexthop_len attre nhlen in
    let ps := with_ibuf (with_attr ps (attr_set_extra a (Some attre))) s in
    if LEN_LEFT s <? mp_nexthop_len attre then
      (BGP_ATTR_PARSE_ERROR_NOTIFYPLS, None, ps)
    else
      match mp_reach_nexthop attre (ps_attr ps) s with
      | None => (BGP_ATTR_PARSE_ERROR_NOTIFYPLS, None, ps)
      | Some (attre, a, s) =>
          let ps := with_ibuf (with_attr ps (attr_set_extra a (Some attre))) s in
          if LEN_LEFT s =? 0 then
            (BGP_ATTR_PARSE_ERROR_NOTIFYPLS, None, ps)
          else
            (* the defunct SNPA-length field *)
            let '(_, s) := stream_getc s in
            let ps := with_ibuf ps s in
            (* must have nrli_len, what is left of the attribute *)
            let nlri_len := LEN_LEFT s in
            if (nlri_len =? 0) || (STREAM_READABLE s <? nlri_len) then
              (BGP_ATTR_PARSE_ERROR_NOTIFYPLS, None, ps)
            else
              let mp_update := mkNlri afi safi (getp s) nlri_len in
              let ps := with_ibuf ps (stream_forward_getp s nlri_len) in
              (BGP_ATTR_PARSE_PROCEED, Some mp_update,
               attr_flag_add ps BGP_ATTR_MP_REACH_NLRI)
      end.

(** [bgp_mp_unreach_parse (args, mp_withdraw)]. *)
Definition bgp_mp_unreach_parse (args : bgp_attr_parser_args) (ps : pstate)
  : bgp_attr_parse_ret_t * option bgp_nlri * pstate :=
  let length := a_length args in
  let s := ps_ibuf ps in
  if (STREAM_READABLE s <? length) || (length <? BGP_MP_UNREACH_MIN_SIZE) then
    (BGP_ATTR_PARSE_ERROR_NOTIFYPLS, None, ps)
  else
    let '(afi, s) := stream_getw s in
    let '(safi, s) := stream_getc s in
    let withdraw_len := length - BGP_MP_UNREACH_MIN_SIZE in
    let mp_withdraw := mkNlri afi safi (getp s) withdraw_len in
    let ps := with_ibuf ps (stream_forward_getp s withdraw_len) in
    (BGP_ATTR_PARSE_PROCEED, Some mp_withdraw,
     attr_flag_add ps BGP_ATTR_MP_UNREACH_NLRI).

(** [bgp_attr_large_community (args)]. *)
Definition bgp_attr_large_community `{Collaborators}
    (args : bgp_attr_parser_args) (ps : pstate)
  : bgp_attr_parse_ret_t * pstate :=
  let length := a_length args in
  if length =? 0 then
    let a := ps_attr ps in
    let a := match extra a with
             | Some e => attr_set_extra a (Some (extra_set_lcommunity e None))
             | None => a
             end in
    (BGP_ATTR_PARSE_PROCEED, with_attr ps a)
  else
    let '(attre, a) := bgp_attr_extra_get (ps_attr ps) in
    let '(lc, p) :=
      lcommunity_parse (stream_pnt_bytes (ps_ibuf ps) length) length
        (lcomhash (ps_world ps)) in
    let a := attr_set_extra a (Some (extra_set_lcommunity attre lc)) in
    let ps := with_world (with_attr ps a) (with_lcomhash (ps_world ps) p) in
    let ps := with_ibuf ps (stream_forward_getp (ps_ibuf ps) length) in
    match lc with
    | None => bgp_attr_malformed args BGP_NOTIFY_UPDATE_OPT_ATTR_ERR (a_total args) ps
    | Some _ => (BGP_ATTR_PARSE_PROCEED, attr_flag_add ps BGP_ATTR_LARGE_COMMUNITIES)
    end.

(** [bgp_attr_ext_communities (args)]. *)
Definition bgp_attr_ext_communities `{Collaborators}
    (args : bgp_attr_parser_args) (ps : pstate)
  : bgp_attr_parse_ret_t * pstate :=
  let length := a_length args in
  if length =? 0 then
    let a := ps_attr ps in
    let a := match extra a with
             | Some e => attr_set_extra a (Some (extra_set_ecommunity e None))
             | None => a
             end in
    (BGP_ATTR_PARSE_PROCEED, with_attr ps a)
  else
    let '(attre, a) := bgp_attr_extra_get (ps_attr ps) in
    let '(ec, p) :=
      ecommunity_parse (stream_pnt_bytes (ps_ibuf ps) length) length
        (ecomhash (ps_world ps)) in
    let a := attr_set_extra a (Some (extra_set_ecommunity attre ec)) in
    let ps := with_world (with_attr ps a) (with_ecomhash (ps_world ps) p) in
    let ps := with_ibuf ps (stream_forward_getp (ps_ibuf ps) length) in
    match ec with
    | None => bgp_attr_malformed args BGP_NOTIFY_UPDATE_OPT_ATTR_ERR (a_total args) ps
    | Some _ => (BGP_ATTR_PARSE_PROCEED, attr_flag_add ps BGP_ATTR_EXT_COMMUNITIES)
    end.

(** The [while (length >= 4)] loop of [bgp_attr_encap] for the tunnel
    encapsulation attribute, the only type the parser passes.  Every turn
    takes at least the two octets of a sub-TLV header off [length], so
    [length] turns are enough; the result is the remaining length, or
    [None] after the NOTIFY of a sub-TLV that is too long. *)
Fixpoint encap_subtlv_loop (fuel : nat) (startp total length : Z) (ps : pstate)
  : option Z * pstate :=
  match fuel with
  | O => (Some length, ps)
  | S fuel' =>
      if length <? 4 then (Some length, ps)
      else
        let '(subtype, s) := stream_getc (ps_ibuf ps) in
        let '(sublength, s) := stream_getc s in
        let length := length - 2 in
        let ps := with_ibuf ps s in
        if length <? sublength then
          (None,
           bgp_notify_send_with_data BGP_NOTIFY_UPDATE_ERR
             BGP_NOTIFY_UPDATE_OPT_ATTR_ERR (Some (pnt_at (ps_ibuf ps) startp)) total ps)
        else
          (* alloc and copy sub-tlv *)
          let '(value, s) := stream_get s sublength in
          let tlv := mkSubTlv subtype sublength value in
          let length := length - sublength in
          (* attach tlv to encap chain *)
          let '(attre, a) := bgp_attr_extra_get (ps_attr ps) in
          let attre := extra_set_encap_subtlvs attre (encap_subtlvs attre ++ [tlv]) in
          let ps := with_ibuf (with_attr ps (attr_set_extra a (Some attre))) s in
          encap_subtlv_loop fuel' startp total length ps
  end.

(** [bgp_attr_encap (type, peer, length, attr, flag, startp)] at
    [type == BGP_ATTR_ENCAP]; it returns 0 or -1, that is PROCEED or
    ERROR. *)
Definition bgp_attr_encap (length flag startp : Z) (ps : pstate)
  : bgp_attr_parse_ret_t * pstate :=
  let total := length + (if CHECK_FLAG flag BGP_ATTR_FLAG_EXTLEN then 4 else 3) in
  if negb (CHECK_FLAG flag BGP_ATTR_FLAG_TRANS)
     || negb (CHECK_FLAG flag BGP_ATTR_FLAG_OPTIONAL) then
    (BGP_ATTR_PARSE_ERROR,
     bgp_notify_send_with_data BGP_NOTIFY_UPDATE_ERR
       BGP_NOTIFY_UPDATE_ATTR_FLAG_ERR (Some (pnt_at (ps_ibuf ps) startp)) total ps)
  else if length <? 4 then
    (BGP_ATTR_PARSE_ERROR,
     bgp_notify_send_with_data BGP_NOTIFY_UPDATE_ERR
       BGP_NOTIFY_UPDATE_OPT_ATTR_ERR (Some (pnt_at (ps_ibuf ps) startp)) total ps)
  else
    (* read outer TLV type and length *)
    let '(tunneltype, s) := stream_getw (ps_ibuf ps) in
    let '(tlv_length, s) := stream_getw s in
    let length := length - 4 in
    let '(rest, ps1) :=
      encap_subtlv_loop (Z.to_nat length) startp total length (with_ibuf ps s) in
    match rest with
    | None => (BGP_ATTR_PARSE_ERROR, ps1)
    | Some rest =>
        (* [attre] is set by the first sub-TLV attached *)
        let ps2 :=
          if 4 <=? length then
            match extra (ps_attr ps1) with
            | Some attre =>
                with_attr ps1
                  (attr_set_extra (ps_attr ps1)
                     (Some (extra_set_encap_tunneltype attre tunneltype)))
            | None => ps1
            end
          else ps1 in
        if negb (rest =? 0) then
          (* spurious leftover data *)
          (BGP_ATTR_PARSE_ERROR,
           bgp_notify_send_with_data BGP_NOTIFY_UPDATE_ERR
             BGP_NOTIFY_UPDATE_OPT_ATTR_ERR (Some (pnt_at (ps_ibuf ps2) startp)) total ps2)
        else (BGP_ATTR_PARSE_PROCEED, ps2)
    end.

(** [XCALLOC (MTYPE_TRANSIT, sizeof (struct transit))]. *)
Definition transit_new : transit_t := mkTransit 0 0 [].

(** [bgp_attr_unknown (args)]. *)
Definition bgp_attr_unknown (args : bgp_attr_parser_args) (ps : pstate)
  : bgp_attr_parse_ret_t * pstate :=
  let total := a_total args in
  let startp := a_startp args in
  let flag := a_flags args in
  let length := a_length args in
  (* Forward read pointer of input stream. *)
  let ps := with_ibuf ps (stream_forward_getp (ps_ibuf ps) length) in
  if negb (CHECK_FLAG flag BGP_ATTR_FLAG_OPTIONAL) then
    bgp_attr_malformed args BGP_NOTIFY_UPDATE_UNREC_ATTR (a_total args) ps
  (* Unrecognized non-transitive optional attributes must be quietly
     ignored and not passed along to other BGP peers. *)
  else if negb (CHECK_FLAG flag BGP_ATTR_FLAG_TRANS) then
    (BGP_ATTR_PARSE_PROCEED, ps)
  else
    (* the Partial bit is set in the flags octet [startp] points at *)
    let s := ps_ibuf ps in
    let s := poke s startp (SET_FLAG (byte_at (data s) startp) BGP_ATTR_FLAG_PARTIAL) in
    let ps := with_ibuf ps s in
    (* Store transitive attribute to the end of attr->transit. *)
    let '(attre, a) := bgp_attr_extra_get (ps_attr ps) in
    let tp := transit_hash (ps_world ps) in
    let '(tr, h) := match transit attre with
                    | Some l => (l, heap tp)
                    | None => xmalloc transit_new (heap tp)
                    end in
    let attre := extra_set_transit attre (Some tr) in
    let h := alter (fun t => mkTransit (t_refcnt t) (t_length t + total)
                               (t_val t ++ bytes_at (data s) startp total))
                   tr h in
    let ps := with_attr ps (attr_set_extra a (Some attre)) in
    let ps := with_world ps (with_transit_hash (ps_world ps) (mkPool h (table tp))) in
    (BGP_ATTR_PARSE_PROCEED, ps).

(** [bgp_attr_check (peer, attr)]. *)
Definition bgp_attr_check (pr : peer) (ps : pstate)
  : bgp_attr_parse_ret_t * pstate :=
  let a := ps_attr ps in
  (* Graceful-Restart End-of-RIB is signaled as an empty UPDATE. *)
  if CHECK_FLAG (cap pr) PEER_CAP_RESTART_RCV && (flag a =? 0) then
    (BGP_ATTR_PARSE_PROCEED, ps)
  else if flag a =? ATTR_FLAG_BIT BGP_ATTR_MP_UNREACH_NLRI then
    (BGP_ATTR_PARSE_PROCEED, ps)
  else
    let type := 0 in
    let type := if negb (CHECK_FLAG (flag a) (ATTR_FLAG_BIT BGP_ATTR_ORIGIN))
                then BGP_ATTR_ORIGIN else type in
    let type := if negb (CHECK_FLAG (flag a) (ATTR_FLAG_BIT BGP_ATTR_AS_PATH))
                then BGP_ATTR_AS_PATH else type in
    let type := if negb (CHECK_FLAG (flag a) (ATTR_FLAG_BIT BGP_ATTR_NEXT_HOP))
                   && negb (CHECK_FLAG (flag a) (ATTR_FLAG_BIT BGP_ATTR_MP_REACH_NLRI))
                then BGP_ATTR_NEXT_HOP else type in
    let type := if bool_decide (sort pr = BGP_PEER_IBGP)
                   && negb (CHECK_FLAG (flag a) (ATTR_FLAG_BIT BGP_ATTR_LOCAL_PREF))
                then BGP_ATTR_LOCAL_PREF else type in
    if negb (type =? 0) then
      (BGP_ATTR_PARSE_ERROR,
       bgp_notify_send_with_data BGP_NOTIFY_UPDATE_ERR
         BGP_NOTIFY_UPDATE_MISS_ATTR (Some [type]) 1 ps)
    else (BGP_ATTR_PARSE_PROCEED, ps).

(** [bgp_attr_aspath_check (peer, attr)]; [None] is a pointer to no AS
    path. *)
Definition bgp_attr_aspath_check `{Collaborators} (pr : peer) (ps : pstate)
  : option (bgp_attr_parse_ret_t * pstate) :=
  match aspath (ps_attr ps) ≫= (fun l => pair l <$> aspath_segments (ps_world ps) l) with
  | None => None
  | Some (old, segs) =>
      (* Confederation sanity check. *)
      if (bool_decide (sort pr = BGP_PEER_CONFED) && negb (aspath_left_confed_check segs))
         || (bool_decide (sort pr = BGP_PEER_EBGP) && aspath_confed_check segs) then
        Some (BGP_ATTR_PARSE_ERROR,
              bgp_notify_send BGP_NOTIFY_UPDATE_ERR BGP_NOTIFY_UPDATE_MAL_AS_PATH ps)
      (* First AS check for EBGP. *)
      else if match p_bgp pr with
              | Some b => CHECK_FLAG (bgp_flags b) BGP_FLAG_ENFORCE_FIRST_AS
              | None => false
              end
              && bool_decide (sort pr = BGP_PEER_EBGP)
              && negb (aspath_firstas_check segs (p_as pr)) then
        Some (BGP_ATTR_PARSE_ERROR,
              bgp_notify_send BGP_NOTIFY_UPDATE_ERR BGP_NOTIFY_UPDATE_MAL_AS_PATH ps)
      (* local-as prepend *)
      else if negb (change_local_as pr =? 0)
              && negb (CHECK_FLAG (p_flags pr) PEER_FLAG_LOCAL_AS_NO_PREPEND) then
        let w := ps_world ps in
        let '(interned, p) :=
          aspath_replace (ashash w) old (aspath_add_seq segs (change_local_as pr)) in
        Some (BGP_ATTR_PARSE_PROCEED,
              with_world (with_attr ps (attr_set_aspath (ps_attr ps) (Some interned)))
                (with_ashash w p))
      else Some (BGP_ATTR_PARSE_PROCEED, ps)
  end.

(** ** The parser *)

(** The locals of [bgp_attr_parse] that outlive one turn of its loop, and
    the two NLRI blobs it hands back. *)
Record parse_locals : Type := mkLocals {
  seen : gset Z;
  as4_path : option loc;
  as4_aggregator : Z;
  as4_aggregator_addr : Z;
  mp_update : option bgp_nlri;
  mp_withdraw : option bgp_nlri
}.

Definition locals_init : parse_locals := mkLocals ∅ None 0 0 None None.

(** How a run of the parser ends: it returns, it stops on a failed
    [assert] or a NULL pointer, or the model's loop counter runs out. *)
Inductive run (A : Type) : Type :=
  | Ret (a : A)
  | Crash
  | Fuel.
Arguments Ret {A} _.
Arguments Crash {A}.
Arguments Fuel {A}.

(** [if (as4_path) aspath_unintern (&as4_path);] *)
Definition as4_path_release (lc : parse_locals) (ps : pstate) : parse_locals * pstate :=
  match as4_path lc with
  | None => (lc, ps)
  | Some l =>
      let '(l', p) := aspath_unintern l (ashash (ps_world ps)) in
      (mkLocals (seen lc) l' (as4_aggregator lc) (as4_aggregator_addr lc)
                (mp_update lc) (mp_withdraw lc),
       with_world ps (with_ashash (ps_world ps) p))
  end.

(** The [switch (type)] of [bgp_attr_parse]. *)
Definition attr_dispatch `{Collaborators} (args : bgp_attr_parser_args)
    (lc : parse_locals) (ps : pstate)
  : bgp_attr_parse_ret_t * parse_locals * pstate :=
  let type := a_type args in
  let keep (r : bgp_attr_parse_ret_t * pstate) := (fst r, lc, snd r) in
  if type =? BGP_ATTR_ORIGIN then keep (bgp_attr_origin args ps)
  else if type =? BGP_ATTR_AS_PATH then keep (bgp_attr_aspath args ps)
  else if type =? BGP_ATTR_AS4_PATH then
    let '(r, p, ps) := bgp_attr_as4_path args ps in
    (r, mkLocals (seen lc) p (as4_aggregator lc) (as4_aggregator_addr lc)
          (mp_update lc) (mp_withdraw lc), ps)
  else if type =? BGP_ATTR_NEXT_HOP then keep (bgp_attr_nexthop args ps)
  else if type =? BGP_ATTR_MULTI_EXIT_DISC then keep (bgp_attr_med args ps)
  else if type =? BGP_ATTR_LOCAL_PREF then keep (bgp_attr_local_pref args ps)
  else if type =? BGP_ATTR_ATOMIC_AGGREGATE then keep (bgp_attr_atomic args ps)
  else if type =? BGP_ATTR_AGGREGATOR then keep (bgp_attr_aggregator args ps)
  else if type =? BGP_ATTR_AS4_AGGREGATOR then
    let '(r, o, ps) := bgp_attr_as4_aggregator args ps in
    (r, match o with
        | Some (as_, addr) =>
            mkLocals (seen lc) (as4_path lc) as_ addr (mp_update lc) (mp_withdraw lc)
        | None => lc
        end, ps)
  else if type =? BGP_ATTR_COMMUNITIES then keep (bgp_attr_community args ps)
  else if type =? BGP_ATTR_LARGE_COMMUNITIES then keep (bgp_attr_large_community args ps)
  else if type =? BGP_ATTR_ORIGINATOR_ID then keep (bgp_attr_originator_id args ps)
  else if type =? BGP_ATTR_CLUSTER_LIST then keep (bgp_attr_cluster_list args ps)
  else if type =? BGP_ATTR_MP_REACH_NLRI then
    let '(r, o, ps) := bgp_mp_reach_parse args ps in
    (r, match o with
        | Some n => mkLocals (seen lc) (as4_path lc) (as4_aggregator lc)
                      (as4_aggregator_addr lc) (Some n) (mp_withdraw lc)
        | None => lc
        end, ps)
  else if type =? BGP_ATTR_MP_UNREACH_NLRI then
    let '(r, o, ps) := bgp_mp_unreach_parse args ps in
    (r, match o with
        | Some n => mkLocals (seen lc) (as4_path lc) (as4_aggregator lc)
                      (as4_aggregator_addr lc) (mp_update lc) (Some n)
        | None => lc
        end, ps)
  else if type =? BGP_ATTR_EXT_COMMUNITIES then keep (bgp_attr_ext_communities args ps)
  else if type =? BGP_ATTR_ENCAP then
    keep (bgp_attr_encap (a_length args) (a_flags args) (a_startp args) ps)
  else keep (bgp_attr_unknown args ps).

(** One turn of the [while (BGP_INPUT_PNT (peer) < endp)] loop of
    [bgp_attr_parse], from the length check to the check of the fetched
    length: [inl] is a return from the function, [inr] goes round. *)
Definition attr_loop_body `{Collaborators} (pr : peer) (size endp : Z)
    (lc : parse_locals) (ps : pstate)
  : (bgp_attr_parse_ret_t * parse_locals * pstate) + (parse_locals * pstate) :=
  (* Check remaining length check. *)
  if endp - getp (ps_ibuf ps) <? BGP_ATTR_MIN_LEN then
    inl (BGP_ATTR_PARSE_ERROR, lc,
         bgp_notify_send BGP_NOTIFY_UPDATE_ERR BGP_NOTIFY_UPDATE_ATTR_LENG_ERR ps)
  else
    (* Fetch attribute flag and type. *)
    let startp := getp (ps_ibuf ps) in
    let '(f, s) := stream_getc (ps_ibuf ps) in
    let flag := Z.land 0xF0 f in
    let '(type, s) := stream_getc s in
    let ps := with_ibuf ps s in
    (* Check whether Extended-Length applies and is in bounds *)
    if CHECK_FLAG flag BGP_ATTR_FLAG_EXTLEN && (endp - startp <? BGP_ATTR_MIN_LEN + 1) then
      inl (BGP_ATTR_PARSE_ERROR, lc,
           bgp_notify_send BGP_NOTIFY_UPDATE_ERR BGP_NOTIFY_UPDATE_ATTR_LENG_ERR ps)
    else
      (* Check extended attribue length bit. *)
      let '(length, s) := if CHECK_FLAG flag BGP_ATTR_FLAG_EXTLEN
                          then stream_getw s else stream_getc s in
      let ps := with_ibuf ps s in
      (* an attribute appearing more than once *)
      if bool_decide (type ∈ seen lc) then
        inl (BGP_ATTR_PARSE_ERROR, lc,
             bgp_notify_send BGP_NOTIFY_UPDATE_ERR BGP_NOTIFY_UPDATE_MAL_ATTR ps)
      else
        let lc := mkLocals ({[type]} ∪ seen lc) (as4_path lc) (as4_aggregator lc)
                    (as4_aggregator_addr lc) (mp_update lc) (mp_withdraw lc) in
        (* Overflow check. *)
        let attr_endp := getp s + length in
        if endp <? attr_endp then
          inl (BGP_ATTR_PARSE_ERROR, lc,
               bgp_notify_send_with_data BGP_NOTIFY_UPDATE_ERR
                 BGP_NOTIFY_UPDATE_ATTR_LENG_ERR (Some (pnt_at s startp))
                 (endp - startp) ps)
        else
          let attr_args := mkArgs pr length type flag (attr_endp - startp) startp in
          if bgp_attr_flag_invalid attr_args then
            let '(ret, ps) :=
              bgp_attr_malformed attr_args BGP_NOTIFY_UPDATE_ATTR_FLAG_ERR
                (a_total attr_args) ps in
            if bool_decide (ret = BGP_ATTR_PARSE_PROCEED) then inr (lc, ps)
            else inl (ret, lc, ps)
          else
            (* OK check attribute and store it's value. *)
            let '(ret, lc, ps) := attr_dispatch attr_args lc ps in
            let '(ret, ps) :=
              if bool_decide (ret = BGP_ATTR_PARSE_ERROR_NOTIFYPLS) then
                (BGP_ATTR_PARSE_ERROR,
                 bgp_notify_send BGP_NOTIFY_UPDATE_ERR BGP_NOTIFY_UPDATE_MAL_ATTR ps)
              else (ret, ps) in
            (* If hard error occurred immediately return to the caller. *)
            if bool_decide (ret = BGP_ATTR_PARSE_ERROR)
               || bool_decide (ret = BGP_ATTR_PARSE_WITHDRAW) then
              let '(lc, ps) := as4_path_release lc ps in
              inl (ret, lc, ps)
            (* Check the fetched length. *)
            else if negb (getp (ps_ibuf ps) =? attr_endp) then
              let ps := bgp_notify_send BGP_NOTIFY_UPDATE_ERR
                          BGP_NOTIFY_UPDATE_ATTR_LENG_ERR ps in
              let '(lc, ps) := as4_path_release lc ps in
              inl (BGP_ATTR_PARSE_ERROR, lc, ps)
            else inr (lc, ps).

(** The loop itself; [None] when the counter runs out. *)
Fixpoint attr_loop `{Collaborators} (fuel : nat) (pr : peer) (size endp : Z)
    (lc : parse_locals) (ps : pstate)
  : option ((bgp_attr_parse_ret_t * parse_locals * pstate) + (parse_locals * pstate)) :=
  if getp (ps_ibuf ps) <? endp then
    match fuel with
    | O => None
    | S fuel' =>
        match attr_loop_body pr size endp lc ps with
        | inl r => Some (inl r)
        | inr (lc, ps) => attr_loop fuel' pr size endp lc ps
        end
    end
  else Some (inr (lc, ps)).

(** What [bgp_attr_parse] does once its loop is left. *)
Definition attr_parse_finish `{Collaborators} (pr : peer) (endp : Z)
    (lc : parse_locals) (ps : pstate)
  : run (bgp_attr_parse_ret_t * parse_locals * pstate) :=
  (* Check final read pointer is same as end pointer. *)
  if negb (getp (ps_ibuf ps) =? endp) then
    let ps := bgp_notify_send BGP_NOTIFY_UPDATE_ERR BGP_NOTIFY_UPDATE_ATTR_LENG_ERR ps in
    let '(lc, ps) := as4_path_release lc ps in
    Ret (BGP_ATTR_PARSE_ERROR, lc, ps)
  else
    (* Check all mandatory well-known attributes are present *)
    let '(ret, ps) := bgp_attr_check pr ps in
    if negb (bool_decide (ret = BGP_ATTR_PARSE_PROCEED)) then
      let '(lc, ps) := as4_path_release lc ps in
      Ret (ret, lc, ps)
    else
      let munged : option (bool * pstate) :=
        if CHECK_FLAG (flag (ps_attr ps)) (ATTR_FLAG_BIT BGP_ATTR_AS_PATH) then
          '(r, ps) ← bgp_attr_munge_as4_attrs pr (as4_path lc) (as4_aggregator lc)
                       (as4_aggregator_addr lc) ps;
          Some (negb (bool_decide (r = BGP_ATTR_PARSE_PROCEED)), ps)
        else Some (false, ps) in
      match munged with
      | None => Crash
      | Some (true, ps) =>
          let ps := bgp_notify_send BGP_NOTIFY_UPDATE_ERR BGP_NOTIFY_UPDATE_MAL_ATTR ps in
          let '(lc, ps) := as4_path_release lc ps in
          Ret (BGP_ATTR_PARSE_ERROR, lc, ps)
      | Some (false, ps) =>
          (* unintern - it is in the hash *)
          let '(lc, ps) := as4_path_release lc ps in
          (* the checks on the aspath we did not do yet *)
          let checked : option (bgp_attr_parse_ret_t * pstate) :=
            if CHECK_FLAG (flag (ps_attr ps)) (ATTR_FLAG_BIT BGP_ATTR_AS_PATH)
            then bgp_attr_aspath_check pr ps
            else Some (BGP_ATTR_PARSE_PROCEED, ps) in
          match checked with
          | None => Crash
          | Some (ret, ps) =>
              if negb (bool_decide (ret = BGP_ATTR_PARSE_PROCEED)) then Ret (ret, lc, ps)
              else
                (* Finally intern unknown attribute. *)
                let a := ps_attr ps in
                let ps :=
                  match extra a with
                  | Some attre =>
                      match transit attre with
                      | Some t =>
                          let '(t', p) := transit_intern t (transit_hash (ps_world ps)) in
                          with_world
                            (with_attr ps
                               (attr_set_extra a (Some (extra_set_transit attre (Some t')))))
                            (with_transit_hash (ps_world ps) p)
                      | None => ps
                      end
                  | None => ps
                  end in
                Ret (BGP_ATTR_PARSE_PROCEED, lc, ps)
          end
      end.

(** [bgp_attr_parse (peer, attr, size, mp_update, mp_withdraw)].  The two
    [assert]s compare [size] with the stream; every turn of the loop that
    goes round consumes at least the three octets of an attribute header,
    so [size] turns are enough. *)
Definition bgp_attr_parse `{Collaborators} (pr : peer) (size : Z) (ps : pstate)
  : run (bgp_attr_parse_ret_t * parse_locals * pstate) :=
  if endp (ps_ibuf ps) <? size then Crash
  else
    let endp := getp (ps_ibuf ps) + size in
    match attr_loop (Z.to_nat size) pr size endp locals_init ps with
    | None => Fuel
    | Some (inl r) => Ret r
    | Some (inr (lc, ps)) => attr_parse_finish pr endp lc ps
    end.

(** ** The encoder *)

(** *** Writing to a stream *)

(** Modelled from the spec: the write side of lib/stream.c.  Octets are
    appended at [endp]; [stream_putw_at] patches two octets written
    earlier (the two-pass length patch-back). *)
Definition put (bytes : list Z) (s : stream) : stream :=
  mkStream (data s ++ bytes) (getp s) (endp s + Z.of_nat (length bytes)).

Definition w16 (v : Z) : list Z := [(v / 256) mod 256; v mod 256].
Definition w32 (v : Z) : list Z :=
  [(v / 16777216) mod 256; (v / 65536) mod 256; (v / 256) mod 256; v mod 256].

Definition stream_putc (s : stream) (c : Z) : stream := put [c mod 256] s.
Definition stream_putw (s : stream) (w : Z) : stream := put (w16 w) s.
Definition stream_putl (s : stream) (l : Z) : stream := put (w32 l) s.
Definition stream_put_ipv4 (s : stream) (a : Z) : stream := put (w32 a) s.
Definition stream_put_in_addr (s : stream) (a : Z) : stream := put (w32 a) s.
Definition stream_put (s : stream) (src : list Z) (size : Z) : stream :=
  put (firstn (Z.to_nat size) src) s.

Definition stream_putw_at (s : stream) (putp w : Z) : stream :=
  mkStream (<[Z.to_nat putp := (w / 256) mod 256]>
              (<[Z.to_nat (putp + 1) := w mod 256]> (data s)))
           (getp s) (endp s).

(** [struct prefix] and [PSIZE]. *)
Record prefix : Type := mkPrefix {
  family : Z;
  prefixlen : Z;
  u_prefix : list Z
}.

Definition PSIZE (a : Z) : Z := (a + 7) / 8.

(** Modelled from the spec: [stream_put_prefix] writes the prefix length
    and the octets of the prefix it covers. *)
Definition stream_put_prefix (s : stream) (p : prefix) : stream :=
  stream_put (stream_putc s (prefixlen p)) (u_prefix p) (PSIZE (prefixlen p)).

(** *** AS paths on the wire *)

Definition BGP_AS_MAX : Z := 65535.

(** Modelled from the spec: [aspath_has_as4] (bgpd/bgp_aspath.c is not
    part of the sources) tells whether the path contains an AS number
    greater than 65535. *)
Definition aspath_has_as4 (segs : list assegment) : bool :=
  existsb (fun seg => existsb (fun as_ => BGP_AS_MAX <? as_) (seg_as seg)) segs.

(** Modelled from the spec: [aspath_delete_confed_seq] strips the
    confederation segments from the path. *)
Definition aspath_delete_confed_seq (segs : list assegment) : list assegment :=
  filter (fun seg => ¬ (seg_type seg = AS_CONFED_SEQUENCE
                        ∨ seg_type seg = AS_CONFED_SET)) segs.

(** Modelled from the spec: [aspath_put (s, as, use32bit)] writes each
    segment as its type, its count and its AS numbers, four octets each
    when [use32bit] and two otherwise; a 2-octet field cannot hold an AS
    number above 65535 and carries [BGP_AS_TRANS] in its place.  The
    result is the number of octets written. *)
Definition as_put (use32bit : bool) (as_ : Z) : list Z :=
  if use32bit then w32 as_
  else if BGP_AS_MAX <? as_ then w16 BGP_AS_TRANS else w16 as_.

Definition assegment_put (use32bit : bool) (seg : assegment) : list Z :=
  [seg_type seg mod 256; Z.of_nat (length (seg_as seg)) mod 256]
  ++ flat_map (as_put use32bit) (seg_as seg).

Definition aspath_bytes (segs : list assegment) (use32bit : bool) : list Z :=
  flat_map (assegment_put use32bit) segs.

Definition aspath_put (s : stream) (segs : list assegment) (use32bit : bool)
  : stream * Z :=
  (put (aspath_bytes segs use32bit) s,
   Z.of_nat (length (aspath_bytes segs use32bit))).

(** *** Multiprotocol attribute framing *)

(** [bgp_packet_mpattr_start (s, afi, safi, attr)]: the stream and the
    position of the length field; [None] where the C code asserts or
    reads through a NULL [attr->extra]. *)
Definition bgp_packet_mpattr_start (s : stream) (afi safi : Z) (a : attr)
  : option (stream * Z) :=
  (* Set extended bit always to encode the attribute length as 2 bytes *)
  let s := stream_putc s (Z.lor BGP_ATTR_FLAG_OPTIONAL BGP_ATTR_FLAG_EXTLEN) in
  let s := stream_putc s BGP_ATTR_MP_REACH_NLRI in
  let sizep := stream_get_endp s in
  let s := stream_putw s 0 in (* Marker: Attribute length. *)
  let s := stream_putw s afi in
  let s := stream_putc s (if safi =? SAFI_MPLS_VPN then SAFI_MPLS_LABELED_VPN else safi) in
  (* Nexthop *)
  let nh : option stream :=
    if afi =? AFI_IP then
      if safi =? SAFI_MULTICAST then
        Some (stream_put_ipv4 (stream_putc s 4) (nexthop a))
      else if safi =? SAFI_MPLS_VPN then
        attre ← extra a;
        let s := stream_putc s 12 in
        let s := stream_putl s 0 in (* RD = 0, per RFC *)
        let s := stream_putl s 0 in
        Some (stream_put s (w32 (mp_nexthop_global_in attre)) 4)
      else if safi =? SAFI_ENCAP then
        attre ← extra a;
        Some (stream_put (stream_putc s 4) (w32 (mp_nexthop_global_in attre)) 4)
      else Some s
    else if afi =? AFI_IP6 then
      if (safi =? SAFI_UNICAST) || (safi =? SAFI_MULTICAST) then
        attre ← extra a;
        let s := stream_putc s (mp_nexthop_len attre) in
        let s := stream_put s (mp_nexthop_global attre) 16 in
        Some (if mp_nexthop_len attre =? 32
              then stream_put s (mp_nexthop_local attre) 16 else s)
      else if safi =? SAFI_MPLS_VPN then
        attre ← extra a;
        if mp_nexthop_len attre =? 16 then
          let s := stream_putc s 24 in
          let s := stream_putl s 0 in
          let s := stream_putl s 0 in
          Some (stream_put s (mp_nexthop_global attre) 16)
        else if mp_nexthop_len attre =? 32 then
          let s := stream_putc s 48 in
          let s := stream_putl s 0 in
          let s := stream_putl s 0 in
          let s := stream_put s (mp_nexthop_global attre) 16 in
          let s := stream_putl s 0 in
          let s := stream_putl s 0 in
          Some (stream_put s (mp_nexthop_local attre) 16)
        else Some s
      else if safi =? SAFI_ENCAP then
        attre ← extra a;
        Some (stream_put (stream_putc s 16) (mp_nexthop_global attre) 16)
      else Some s
    else Some s in
  (* SNPA *)
  s ← nh; Some (stream_putc s 0, sizep).

(** [bgp_packet_mpattr_prefix (s, afi, safi, p, prd, tag)]. *)
Definition bgp_packet_mpattr_prefix (s : stream) (afi safi : Z) (p : prefix)
    (prd tag : list Z) : stream :=
  if safi =? SAFI_MPLS_VPN then
    (* Tag, RD, Prefix write. *)
    let s := stream_putc s (prefixlen p + 88) in
    let s := stream_put s tag 3 in
    let s := stream_put s prd 8 in
    stream_put s (u_prefix p) (PSIZE (prefixlen p))
  else stream_put_prefix s p.

(** [bgp_packet_mpattr_end (s, sizep)]. *)
Definition bgp_packet_mpattr_end (s : stream) (sizep : Z) : stream :=
  stream_putw_at s sizep ((stream_get_endp s - sizep) - 2).

(** [bgp_packet_mpattr_tea (bgp, peer, s, attr, attrtype)] at
    [attrtype == BGP_ATTR_ENCAP], the one type it accepts. *)
Definition bgp_packet_mpattr_tea (s : stream) (a : attr) : stream :=
  match extra a with
  | None => s
  | Some attre =>
      let subtlvs := encap_subtlvs attre in
      (* if no tlvs, don't make attr *)
      match subtlvs with
      | [] => s
      | _ =>
          (* compute attr length *)
          let attrlenfield :=
            fold_left (fun n st => n + (2 + st_length st)) subtlvs 4 in
          if 0xffff <? attrlenfield then s
          else
            let s :=
              if 0xff <? attrlenfield then
                (* 2-octet length field *)
                let s := stream_putc s (Z.lor (Z.lor BGP_ATTR_FLAG_TRANS
                                                 BGP_ATTR_FLAG_OPTIONAL)
                                          BGP_ATTR_FLAG_EXTLEN) in
                let s := stream_putc s BGP_ATTR_ENCAP in
                stream_putw s (Z.land attrlenfield 0xffff)
              else
                (* 1-octet length field *)
                let s := stream_putc s (Z.lor BGP_ATTR_FLAG_TRANS
                                          BGP_ATTR_FLAG_OPTIONAL) in
                let s := stream_putc s BGP_ATTR_ENCAP in
                stream_putc s (Z.land attrlenfield 0xff) in
            (* write outer T+L *)
            let s := stream_putw s (encap_tunneltype attre) in
            let s := stream_putw s (attrlenfield - 4) in
            (* write each sub-tlv *)
            fold_left (fun s st =>
                         let s := stream_putc s (st_type st) in
                         let s := stream_putc s (st_length st) in
                         stream_put s (st_value st) (st_length st))
                      subtlvs s
      end
  end.

(** *** The per-destination AS path *)

(** The rewriting [bgp_packet_attribute] applies to the AS path before it
    encodes it; it works on a copy ([aspath_dup]) unless the peer is
    internal. *)
Definition packet_aspath `{Collaborators} (b : bgp) (pr : peer) (afi safi : Z)
    (segs : list assegment) : list assegment :=
  (* If remote-peer is EBGP *)
  if bool_decide (sort pr = BGP_PEER_EBGP)
     && (negb (CHECK_FLAG (af_flags pr afi safi) PEER_FLAG_AS_PATH_UNCHANGED)
         || match segs with [] => true | _ => false end)
     && negb (CHECK_FLAG (af_flags pr afi safi) PEER_FLAG_RSERVER_CLIENT) then
    if CHECK_FLAG (bgp_config b) BGP_CONFIG_CONFEDERATION then
      (* Strip the confed info, and then stuff our path CONFED_ID on the front *)
      aspath_add_seq (aspath_delete_confed_seq segs) (confed_id b)
    else if negb (change_local_as pr =? 0) then
      (* If replace-as is specified, we only use the change_local_as when
         advertising routes. *)
      let segs := if negb (CHECK_FLAG (p_flags pr) PEER_FLAG_LOCAL_AS_REPLACE_AS)
                  then aspath_add_seq segs (local_as pr) else segs in
      aspath_add_seq segs (change_local_as pr)
    else aspath_add_seq segs (local_as pr)
  else if bool_decide (sort pr = BGP_PEER_CONFED) then
    (* A confed member, so we need to do the AS_CONFED_SEQUENCE thing *)
    aspath_add_confed_seq segs (local_as pr)
  else segs.

(** An attribute header with a 1-octet or a 2-octet length, as the
    community blocks of the encoder choose it. *)
Definition put_sized_header (s : stream) (type len : Z) : stream :=
  if 255 <? len then
    let s := stream_putc s (Z.lor (Z.lor BGP_ATTR_FLAG_OPTIONAL BGP_ATTR_FLAG_TRANS)
                              BGP_ATTR_FLAG_EXTLEN) in
    let s := stream_putc s type in
    stream_putw s len
  else
    let s := stream_putc s (Z.lor BGP_ATTR_FLAG_OPTIONAL BGP_ATTR_FLAG_TRANS) in
    let s := stream_putc s type in
    stream_putc s len.

(** The extended communities sent to an external peer: the 8-octet
    entries without the non-transitive bit, in order. *)
Fixpoint ecommunity_transitive (n : nat) (val : list Z) : list (list Z) :=
  match n with
  | O => []
  | S n' =>
      let pnt := firstn 8 val in
      let rest := ecommunity_transitive n' (skipn 8 val) in
      if CHECK_FLAG (nth 0 pnt 0) ECOMMUNITY_FLAG_NON_TRANSITIVE then rest
      else pnt :: rest
  end.

(** The blocks of [bgp_packet_attribute] from the AS path down to the
    extended communities, in the order of the C code. *)
Definition put_as_path (s : stream) (aspath : list assegment) (use32bit : bool)
  : stream :=
  let s := stream_putc s (Z.lor BGP_ATTR_FLAG_TRANS BGP_ATTR_FLAG_EXTLEN) in
  let s := stream_putc s BGP_ATTR_AS_PATH in
  let aspath_sizep := stream_get_endp s in
  let s := stream_putw s 0 in
  let '(s, n) := aspath_put s aspath use32bit in
  stream_putw_at s aspath_sizep n.

Definition put_nexthop (s : stream) (pr : peer) (a : attr) (afi safi : Z) : stream :=
  if CHECK_FLAG (flag a) (ATTR_FLAG_BIT BGP_ATTR_NEXT_HOP)
     && (afi =? AFI_IP) && (safi =? SAFI_UNICAST) then
    let s := stream_putc s BGP_ATTR_FLAG_TRANS in
    let s := stream_putc s BGP_ATTR_NEXT_HOP in
    let s := stream_putc s 4 in
    if safi =? SAFI_MPLS_VPN then
      if nexthop a =? 0 then stream_put_ipv4 s (p_nexthop_v4 pr)
      else stream_put_ipv4 s (nexthop a)
    else stream_put_ipv4 s (nexthop a)
  else s.

Definition put_med (s : stream) (a : attr) : stream :=
  if CHECK_FLAG (flag a) (ATTR_FLAG_BIT BGP_ATTR_MULTI_EXIT_DISC) then
    let s := stream_putc s BGP_ATTR_FLAG_OPTIONAL in
    let s := stream_putc s BGP_ATTR_MULTI_EXIT_DISC in
    let s := stream_putc s 4 in
    stream_putl s (med a)
  else s.

Definition put_local_pref (s : stream) (pr : peer) (a : attr) : stream :=
  if bool_decide (sort pr = BGP_PEER_IBGP) || bool_decide (sort pr = BGP_PEER_CONFED) then
    let s := stream_putc s BGP_ATTR_FLAG_TRANS in
    let s := stream_putc s BGP_ATTR_LOCAL_PREF in
    let s := stream_putc s 4 in
    stream_putl s (local_pref a)
  else s.

Definition put_atomic (s : stream) (a : attr) : stream :=
  if CHECK_FLAG (flag a) (ATTR_FLAG_BIT BGP_ATTR_ATOMIC_AGGREGATE) then
    let s := stream_putc s BGP_ATTR_FLAG_TRANS in
    let s := stream_putc s BGP_ATTR_ATOMIC_AGGREGATE in
    stream_putc s 0
  else s.

(** The Aggregator block; the flag is [send_as4_aggregator]. *)
Definition put_aggregator (s : stream) (a : attr) (use32bit : bool)
  : option (stream * bool) :=
  if CHECK_FLAG (flag a) (ATTR_FLAG_BIT BGP_ATTR_AGGREGATOR) then
    attre ← extra a;
    (* Common to BGP_ATTR_AGGREGATOR, regardless of ASN size *)
    let s := stream_putc s (Z.lor BGP_ATTR_FLAG_OPTIONAL BGP_ATTR_FLAG_TRANS) in
    let s := stream_putc s BGP_ATTR_AGGREGATOR in
    let '(s, send_as4_aggregator) :=
      if use32bit then
        (* AS4 capable peer *)
        (stream_putl (stream_putc s 8) (aggregator_as attre), false)
      else
        (* 2-byte AS peer *)
        let s := stream_putc s 6 in
        (* Is ASN representable in 2-bytes? Or must AS_TRANS be used? *)
        if 65535 <? aggregator_as attre then
          (stream_putw s BGP_AS_TRANS, true)
        else (stream_putw s (aggregator_as attre), false) in
    Some (stream_put_ipv4 s (aggregator_addr attre), send_as4_aggregator)
  else Some (s, false).

Definition put_community (s : stream) (w : world) (pr : peer) (a : attr)
    (afi safi : Z) : option stream :=
  if CHECK_FLAG (af_flags pr afi safi) PEER_FLAG_SEND_COMMUNITY
     && CHECK_FLAG (flag a) (ATTR_FLAG_BIT BGP_ATTR_COMMUNITIES) then
    l ← community a; c ← heap (comhash w) !! l;
    let s := put_sized_header s BGP_ATTR_COMMUNITIES (com_size c * 4) in
    Some (stream_put s (com_val c) (com_size c * 4))
  else Some s.

Definition put_large_community (s : stream) (w : world) (pr : peer) (a : attr)
    (afi safi : Z) : option stream :=
  match extra a with
  | Some attre =>
      if CHECK_FLAG (af_flags pr afi safi) PEER_FLAG_SEND_LARGE_COMMUNITY
         && CHECK_FLAG (flag a) (ATTR_FLAG_BIT BGP_ATTR_LARGE_COMMUNITIES) then
        l ← lcommunity attre; c ← heap (lcomhash w) !! l;
        let s := put_sized_header s BGP_ATTR_LARGE_COMMUNITIES (com_size c * 12) in
        Some (stream_put s (com_val c) (com_size c * 12))
      else Some s
  | None => Some s
  end.

Definition put_route_reflector (s : stream) (w : world) (b : bgp) (pr : peer)
    (from : option peer) (a : attr) : option stream :=
  match from with
  | Some from =>
      if bool_decide (sort pr = BGP_PEER_IBGP)
         && bool_decide (sort from = BGP_PEER_IBGP) then
        (* Originator ID. *)
        let s := stream_putc s BGP_ATTR_FLAG_OPTIONAL in
        let s := stream_putc s BGP_ATTR_ORIGINATOR_ID in
        let s := stream_putc s 4 in
        s ← (if CHECK_FLAG (flag a) (ATTR_FLAG_BIT BGP_ATTR_ORIGINATOR_ID)
             then attre ← extra a; Some (stream_put_in_addr s (originator_id attre))
             else Some (stream_put_in_addr s (remote_id from)));
        (* Cluster list. *)
        let s := stream_putc s BGP_ATTR_FLAG_OPTIONAL in
        let s := stream_putc s BGP_ATTR_CLUSTER_LIST in
        let id := if CHECK_FLAG (bgp_config b) BGP_CONFIG_CLUSTER_ID
                  then cluster_id b else router_id b in
        match extra a ≫= cluster with
        | Some l =>
            c ← heap (cluster_hash w) !! l;
            let s := stream_putc s (c_length c + 4) in
            let s := stream_put_in_addr s id in
            Some (stream_put s (c_list c) (c_length c))
        | None =>
            let s := stream_putc s 4 in
            Some (stream_put_in_addr s id)
        end
      else Some s
  | None => Some s
  end.

Definition put_ext_communities (s : stream) (w : world) (pr : peer) (a : attr)
    (afi safi : Z) : option stream :=
  if CHECK_FLAG (af_flags pr afi safi) PEER_FLAG_SEND_EXT_COMMUNITY
     && CHECK_FLAG (flag a) (ATTR_FLAG_BIT BGP_ATTR_EXT_COMMUNITIES) then
    attre ← extra a; l ← ecommunity attre; c ← heap (ecomhash w) !! l;
    if bool_decide (sort pr = BGP_PEER_IBGP) || bool_decide (sort pr = BGP_PEER_CONFED) then
      let s := put_sized_header s BGP_ATTR_EXT_COMMUNITIES (com_size c * 8) in
      Some (stream_put s (com_val c) (com_size c * 8))
    else
      let tr := ecommunity_transitive (Z.to_nat (com_size c)) (com_val c) in
      let ecom_tr_size := Z.of_nat (length tr) in
      if negb (ecom_tr_size =? 0) then
        let s := put_sized_header s BGP_ATTR_EXT_COMMUNITIES (ecom_tr_size * 8) in
        Some (fold_left (fun s pnt => stream_put s pnt 8) tr s)
      else Some s
  else Some s.

Definition put_as4_path (s : stream) (aspath : list assegment) : stream :=
  let s := stream_putc s (Z.lor (Z.lor BGP_ATTR_FLAG_TRANS BGP_ATTR_FLAG_OPTIONAL)
                            BGP_ATTR_FLAG_EXTLEN) in
  let s := stream_putc s BGP_ATTR_AS4_PATH in
  let aspath_sizep := stream_get_endp s in
  let s := stream_putw s 0 in
  let '(s, n) := aspath_put s aspath true in
  stream_putw_at s aspath_sizep n.

Definition put_as4_aggregator (s : stream) (a : attr) : option stream :=
  attre ← extra a;
  (* send AS4_AGGREGATOR, at this place *)
  let s := stream_putc s (Z.lor BGP_ATTR_FLAG_OPTIONAL BGP_ATTR_FLAG_TRANS) in
  let s := stream_putc s BGP_ATTR_AS4_AGGREGATOR in
  let s := stream_putc s 8 in
  let s := stream_putl s (aggregator_as attre) in
  Some (stream_put_ipv4 s (aggregator_addr attre)).

Definition put_transit (s : stream) (w : world) (a : attr) : option stream :=
  match extra a ≫= transit with
  | Some l =>
      t ← heap (transit_hash w) !! l;
      Some (stream_put s (t_val t) (t_length t))
  | None => Some s
  end.

(** [bgp_packet_attribute (bgp, peer, s, attr, p, afi, safi, from, prd,
    tag)]: the stream and the size returned.  [b] is the instance the
    peer belongs to, the default one when the argument is NULL.  [None]
    stands for a failed [assert] and for reading through a NULL or
    dangling pointer. *)
Definition bgp_packet_attribute `{Collaborators} (w : world) (b : bgp) (pr : peer)
    (s : stream) (a : attr) (p : option prefix) (afi safi : Z)
    (from : option peer) (prd tag : list Z) : option (stream * Z) :=
  let use32bit := CHECK_FLAG (cap pr) PEER_CAP_AS4_RCV in
  (* Remember current pointer. *)
  let cp := stream_get_endp s in
  s ← match p with
      | Some p =>
          if negb ((afi =? AFI_IP) && (safi =? SAFI_UNICAST)) then
            sp ← bgp_packet_mpattr_start s afi safi a;
            let mpattrlen_pos : Z := snd sp in
            let s := bgp_packet_mpattr_prefix (fst sp) afi safi p prd tag in
            Some (bgp_packet_mpattr_end s mpattrlen_pos)
          else Some s
      | None => Some s
      end;
  (* Origin attribute. *)
  let s := stream_putc s BGP_ATTR_FLAG_TRANS in
  let s := stream_putc s BGP_ATTR_ORIGIN in
  let s := stream_putc s 1 in
  let s := stream_putc s (origin a) in
  (* AS path attribute. *)
  asl ← aspath a; segs ← aspath_segments w asl;
  let aspath := packet_aspath b pr afi safi segs in
  let s := put_as_path s aspath use32bit in
  (* OLD session may need NEW_AS_PATH sent, if there are 4-byte ASNs in
     the path *)
  let send_as4_path := negb use32bit && aspath_has_as4 aspath in
  let s := put_nexthop s pr a afi safi in
  let s := put_med s a in
  let s := put_local_pref s pr a in
  let s := put_atomic s a in
  sa ← put_aggregator s a use32bit;
  let s : stream := fst sa in
  let send_as4_aggregator : bool := snd sa in
  s ← put_community s w pr a afi safi;
  s ← put_large_community s w pr a afi safi;
  s ← put_route_reflector s w b pr from a;
  s ← put_ext_communities s w pr a afi safi;
  let s := if send_as4_path
           then put_as4_path s (aspath_delete_confed_seq aspath) else s in
  s ← (if send_as4_aggregator then put_as4_aggregator s a else Some s);
  let s := if ((afi =? AFI_IP) || (afi =? AFI_IP6))
              && ((safi =? SAFI_ENCAP) || (safi =? SAFI_MPLS_VPN))
           then bgp_packet_mpattr_tea s a else s in
  (* Unknown transit attribute. *)
  s ← put_transit s w a;
  (* Return total size of attribute. *)
  Some (s, stream_get_endp s - cp).

(** ** The classes of the malformed-attribute policy *)




(** The notification the policy sends with a given subcode: the
    attribute's octets from [startp] when a length is passed, no data
    otherwise. *)
Definition malformed_notify (args : bgp_attr_parser_args) (subcode length : Z)
    (ps : pstate) : notification :=
  mkNotify BGP_NOTIFY_UPDATE_ERR subcode
    (if 0 <? length
     then bytes_at (data (ps_ibuf ps)) (a_startp args) length else []).

(** ** Worked inputs *)

(** The store at start-up: every table is empty. *)
Definition pool_empty {V : Type} : pool V := mkPool ∅ [].

Definition world_empty : world :=
  mkWorld pool_empty pool_empty pool_empty pool_empty pool_empty
          pool_empty pool_empty.

(** The scratch attribute set [bgp_update_receive] hands to the parser:
    all zero, with a zeroed extra block. *)
Definition attr_zero : attr :=
  mkAttr None None (Some bgp_attr_extra_new) 0 0 0 0 0 0.

Definition bgp_example : bgp := mkBgp 65001 0 0 0 0 0x0a000001 0.

Definition peer_of_sort (s : bgp_peer_sort) (capabilities : Z) : peer :=
  mkPeer (Some bgp_example) 65002 65001 0 s capabilities 0 (fun _ _ => 0) 0 0.

(** Collaborators for running the examples: an AS-path parser that takes
    a non-empty value as one sequence with its octets for AS numbers,
    community parsers that accept a multiple of their entry size, and
    path operations that prepend a one-AS segment. *)
Definition octets_as_path (octets : list Z) : list assegment :=
  [mkSeg AS_SEQUENCE octets].

Definition example_aspath_parse (s : stream) (length : Z) (use32bit : bool)
    (p : pool aspath_t) : option loc * stream * pool aspath_t :=
  if length =? 0 then (None, s, p)
  else
    let '(l, h) := xmalloc (mkAspath 0 (octets_as_path (stream_pnt_bytes s length)))
                     (heap p) in
    let '(l, p) := aspath_intern l (mkPool h (table p)) in
    (Some l, stream_forward_getp s length, p).

Definition example_community_parse (entry : Z) (pnt : list Z) (length : Z)
    (p : pool community_t) : option loc * pool community_t :=
  if negb (length mod entry =? 0) then (None, p)
  else
    let '(l, h) := xmalloc (mkCommunity 0 (length / entry) pnt) (heap p) in
    (Some l, mkPool h (table p)).

Definition example_collaborators : Collaborators := {|
  aspath_parse := example_aspath_parse;
  community_parse := example_community_parse 4;
  ecommunity_parse := example_community_parse 8;
  lcommunity_parse := example_community_parse 12;
  aspath_reconcile_as4 := fun segs segs4 => segs4;
  aspath_left_confed_check := fun _ => true;
  aspath_confed_check := fun _ => false;
  aspath_firstas_check := fun _ _ => true;
  aspath_add_seq := fun segs as_ => mkSeg AS_SEQUENCE [as_] :: segs;
  aspath_add_confed_seq := fun segs as_ => mkSeg AS_CONFED_SEQUENCE [as_] :: segs;
  debug_allow_martians := false
|}.

(** A peer's input buffer holding the given octets, unread. *)
Definition ibuf_of (octets : list Z) : stream :=
  mkStream octets 0 (Z.of_nat (length octets)).

Definition pstate_of (octets : list Z) : pstate :=
  mkPstate attr_zero (ibuf_of octets) [] world_empty.

(** An Origin attribute with the wrong length 2, read up to its value:
    flags 0x40, type 1, length 2, two octets. *)
Definition origin_len2_octets : list Z := [0x40; 1; 2; 0; 0].

Definition origin_len2_args (s : bgp_peer_sort) : bgp_attr_parser_args :=
  mkArgs (peer_of_sort s 0) 2 BGP_ATTR_ORIGIN 0x40 5 0.

Definition origin_len2_state : pstate :=
  with_ibuf (pstate_of origin_len2_octets)
            (with_getp (ibuf_of origin_len2_octets) 3).

(** ** Mandatory attributes, as the specification words them *)

(** The presence bit of a type code in an attribute set. *)
Definition attr_present (a : attr) (t : Z) : bool :=
  CHECK_FLAG (flag a) (ATTR_FLAG_BIT t).

(** When a mandatory well-known attribute counts as missing: Origin and
    AS-Path when absent, Next-Hop when absent and MP-Reach-NLRI does not
    stand in for it, Local-Pref when absent and the peer is iBGP. *)
Definition mandatory_missing (pr : peer) (a : attr) (t : Z) : bool :=
  if t =? BGP_ATTR_ORIGIN then negb (attr_present a BGP_ATTR_ORIGIN)
  else if t =? BGP_ATTR_AS_PATH then negb (attr_present a BGP_ATTR_AS_PATH)
  else if t =? BGP_ATTR_NEXT_HOP then
    negb (attr_present a BGP_ATTR_NEXT_HOP)
    && negb (attr_present a BGP_ATTR_MP_REACH_NLRI)
  else if t =? BGP_ATTR_LOCAL_PREF then
    bool_decide (sort pr = BGP_PEER_IBGP)
    && negb (attr_present a BGP_ATTR_LOCAL_PREF)
  else false.

(** The fixed order in which [bgp_attr_check] looks for them. *)
Definition mandatory_order : list Z :=
  [BGP_ATTR_ORIGIN; BGP_ATTR_AS_PATH; BGP_ATTR_NEXT_HOP; BGP_ATTR_LOCAL_PREF].

Definition missing_attrs (pr : peer) (a : attr) : list Z :=
  List.filter (mandatory_missing pr a) mandatory_order.

(** The two exemptions, as the code takes them: from the presence word,
    not from the message.  The Graceful-Restart End-of-RIB marker is a
    restart-capable peer and an empty presence word. *)
Definition is_end_of_rib (pr : peer) (a : attr) : bool :=
  CHECK_FLAG (cap pr) PEER_CAP_RESTART_RCV && (flag a =? 0).

(** The presence word is the bit of MP_UNREACH_NLRI and nothing else. *)
Definition only_mp_unreach (a : attr) : bool :=
  flag a =? ATTR_FLAG_BIT BGP_ATTR_MP_UNREACH_NLRI.

(** A peer that sent Origin and nothing else, as [bgp_attr_check] finds
    the parser state. *)
Definition origin_only_state : pstate :=
  with_attr (pstate_of [])
    (attr_set_flag attr_zero (ATTR_FLAG_BIT BGP_ATTR_ORIGIN)).

(** A Local-Pref attribute (flags 0x40, type 5, length 4, value 100) read
    up to its value. *)
Definition local_pref_octets : list Z := [0x40; 5; 4; 0; 0; 0; 100].

Definition local_pref_args (s : bgp_peer_sort) : bgp_attr_parser_args :=
  mkArgs (peer_of_sort s 0) 4 BGP_ATTR_LOCAL_PREF 0x40 7 0.

Definition local_pref_state : pstate :=
  with_ibuf (pstate_of local_pref_octets)
            (with_getp (ibuf_of local_pref_octets) 3).

(** A Communities attribute of length 0 (flags 0xC0, type 8, length 0)
    read up to its empty value. *)
Definition community_len0_octets : list Z := [0xC0; 8; 0].

Definition community_len0_args : bgp_attr_parser_args :=
  mkArgs (peer_of_sort BGP_PEER_EBGP 0) 0 BGP_ATTR_COMMUNITIES 0xC0 3 0.

Definition community_len0_state : pstate :=
  with_ibuf (pstate_of community_len0_octets)
            (with_getp (ibuf_of community_len0_octets) 3).

(** Two UPDATE attribute blocks from an eBGP peer: Origin IGP, an AS path
    and Next-Hop 10.0.0.1; the second one carries a Communities attribute
    of length 0 as well. *)
Definition update_plain : list Z :=
  [0x40; 1; 1; 0] ++ [0x40; 2; 4; 2; 1; 0xfd; 0xe9] ++ [0x40; 3; 4; 10; 0; 0; 1].

Definition update_empty_community : list Z := update_plain ++ [0xC0; 8; 0].

Definition parse_example (s : bgp_peer_sort) (capabilities : Z) (octets : list Z)
  : run (bgp_attr_parse_ret_t * parse_locals * pstate) :=
  bgp_attr_parse (H := example_collaborators) (peer_of_sort s capabilities)
    (Z.of_nat (length octets)) (pstate_of octets).

(** The outcome and the attribute set a run of the parser ends with. *)
Definition run_ret (r : run (bgp_attr_parse_ret_t * parse_locals * pstate))
  : option bgp_attr_parse_ret_t :=
  match r with
  | Ret (ret, _, _) => Some ret
  | _ => None
  end.

Definition run_attr (r : run (bgp_attr_parse_ret_t * parse_locals * pstate))
  : option attr :=
  match r with
  | Ret (_, _, ps) => Some (ps_attr ps)
  | _ => None
  end.

Definition run_world (r : run (bgp_attr_parse_ret_t * parse_locals * pstate))
  : option world :=
  match r with
  | Ret (_, _, ps) => Some (ps_world ps)
  | _ => None
  end.

(** ** The transit accumulator during a parse *)

(** The pointer [attr->extra->transit] of the scratch set, NULL when
    there is no extra block. *)
Definition transit_of (a : attr) : option loc := extra a ≫= transit.


(** A step that leaves the accumulator alone: the pointer and the transit
    table with its objects are the same before and after. *)
Definition transit_frame (ps ps' : pstate) : Prop :=
  transit_of (ps_attr ps') = transit_of (ps_attr ps)
  /\ transit_hash (ps_world ps') = transit_hash (ps_world ps).



(** The parser state a turn of the loop, or the loop, ends with. *)
Definition turn_state
    (r : (bgp_attr_parse_ret_t * parse_locals * pstate) + (parse_locals * pstate))
  : pstate :=
  match r with
  | inl (_, _, ps) => ps
  | inr (_, ps) => ps
  end.

(** An UPDATE attribute block with an attribute of the unassigned type 99,
    Optional and Transitive, of two octets, after the mandatory ones. *)
Definition unknown_attr_octets : list Z := [0xC0; 99; 2; 0xAA; 0xBB].





(** A peer without the 4-byte-AS capability sent AS path 65002 23456 with
    Aggregator AS_TRANS 10.0.0.9, and AS4-Path 70000 with AS4-Aggregator
    70000 10.0.0.7; both paths are interned. *)
Definition as4_world : world :=
  with_ashash world_empty
    (mkPool (<[1%positive := mkAspath 1 [mkSeg AS_SEQUENCE [65002; 23456]]]>
               (<[2%positive := mkAspath 1 [mkSeg AS_SEQUENCE [70000]]]> ∅))
            [1%positive; 2%positive]).

Definition as4_flags : Z :=
  Z.lor (ATTR_FLAG_BIT BGP_ATTR_AS_PATH)
    (Z.lor (ATTR_FLAG_BIT BGP_ATTR_AGGREGATOR)
       (Z.lor (ATTR_FLAG_BIT BGP_ATTR_AS4_PATH)
          (ATTR_FLAG_BIT BGP_ATTR_AS4_AGGREGATOR))).

Definition as4_extra (aggregator : Z) : attr_extra :=
  extra_set_aggregator bgp_attr_extra_new aggregator 0x0a000009.

Definition as4_state (aggregator : Z) : pstate :=
  mkPstate
    (attr_set_flag
       (attr_set_aspath (attr_set_extra attr_zero (Some (as4_extra aggregator)))
          (Some 1%positive))
       as4_flags)
    (ibuf_of []) [] as4_world.

(** The aggregator and the segments of the AS path a reconciliation
    leaves in the attribute set. *)
Definition munge_view (r : option (bgp_attr_parse_ret_t * pstate))
  : option (bgp_attr_parse_ret_t * Z * Z * list assegment) :=
  '(ret, ps) ← r;
  attre ← extra (ps_attr ps);
  l ← aspath (ps_attr ps);
  segs ← aspath_segments (ps_world ps) l;
  Some (ret, aggregator_as attre, aggregator_addr attre, segs).

(** ** Reference counts of the tables *)

(** The reference counts are unsigned in the source: no object of a table
    has a negative one. *)
Definition counts_ok {V : Type} `{Interned V} (pl : pool V) : Prop :=
  map_Forall (fun _ v => 0 <= obj_refcnt v) (heap pl).

Definition world_counts_ok (w : world) : Prop :=
  counts_ok (ashash w) /\ counts_ok (comhash w) /\ counts_ok (ecomhash w)
  /\ counts_ok (lcomhash w) /\ counts_ok (cluster_hash w)
  /\ counts_ok (transit_hash w).

(** What [bgp_attr_intern] relies on in the intern function of a
    referenced structure: a dangling pointer is handed back untouched, and
    the object returned otherwise is held at least once. *)
Definition intern_good {V : Type} `{Interned V}
    (intern : loc -> pool V -> loc * pool V) : Prop :=
  forall l pl l' pl',
    counts_ok pl -> intern l pl = (l', pl') ->
    (heap pl !! l = None /\ l' = l /\ pl' = pl)
    \/ 0 < load_refcnt pl' l'.

(** Two attribute sets carrying tunnel encapsulation sub-TLVs of types 4
    and 6 in opposite orders, over the AS path 65002 23456 of [as4_world]. *)
Definition encap_tlv_a : bgp_attr_encap_subtlv := mkSubTlv 4 2 [0x12; 0x34].
Definition encap_tlv_b : bgp_attr_encap_subtlv := mkSubTlv 6 1 [0x07].

Definition encap_attr (chain : list bgp_attr_encap_subtlv) : attr :=
  attr_set_flag
    (attr_set_aspath
       (attr_set_extra attr_zero
          (Some (extra_set_encap_subtlvs
                   (extra_set_encap_tunneltype bgp_attr_extra_new 1) chain)))
       (Some 1%positive))
    (Z.lor (ATTR_FLAG_BIT BGP_ATTR_AS_PATH) (ATTR_FLAG_BIT BGP_ATTR_ENCAP)).

(** ** Hash keys *)

(** The key functions pick the bucket of the tables.  lib/jhash.c and the
    key functions of the collaborators are outside this file: they are
    parameters here, [jhash k length initval] reading [length] octets. *)
Section HashKey.
Variable jhash_1word : Z -> Z -> Z.
Variable jhash : list Z -> Z -> Z -> Z.
Variables aspath_key_make community_hash_make
          lcommunity_hash_make ecommunity_hash_make : world -> loc -> Z.

(** [cluster_hash_key_make (p)]. *)
Definition cluster_hash_key_make (c : cluster_list) : Z :=
  jhash (firstn (Z.to_nat (c_length c)) (c_list c)) (c_length c) 0.

(** [transit_hash_key_make (p)]. *)
Definition transit_hash_key_make (t : transit_t) : Z :=
  jhash (firstn (Z.to_nat (t_length t)) (t_val t)) (t_length t) 0.

(** A key function applied through a pointer; [None] is the read of a
    pointer to no object. *)
Definition key_through {V : Type} (f : V -> Z) (pl : pool V) (p : option loc)
    (key : Z) : option Z :=
  match p with
  | None => Some key
  | Some l => v ← heap pl !! l; Some (jhash_1word (f v) key)
  end.

Definition key_of (f : world -> loc -> Z) (w : world) (p : option loc)
    (key : Z) : Z :=
  match p with
  | None => key
  | Some l => jhash_1word (f w l) key
  end.

(** [attrhash_key_make (p)], [key] being a [uint32_t]. *)
Definition attrhash_key_make (w : world) (a : attr) : option Z :=
  let MIX (val key : Z) := jhash_1word val key in
  let key := 0 in
  let key := MIX (origin a) key in
  let key := MIX (nexthop a) key in
  let key := MIX (med a) key in
  let key := MIX (local_pref a) key in
  let key := (key + origin a) mod 2 ^ 32 in
  let key := (key + nexthop a) mod 2 ^ 32 in
  let key := (key + med a) mod 2 ^ 32 in
  let key := (key + local_pref a) mod 2 ^ 32 in
  let key :=
    match extra a with
    | Some e =>
        let key := MIX (aggregator_as e) key in
        let key := MIX (aggregator_addr e) key in
        let key := MIX (weight e) key in
        let key := MIX (priority e) key in
        let key := MIX (mp_nexthop_global_in e) key in
        let key := MIX (originator_id e) key in
        MIX (tag e) key
    | None => key
    end in
  let key := key_of aspath_key_make w (aspath a) key in
  let key := key_of community_hash_make w (community a) key in
  match extra a with
  | Some e =>
      let key := key_of lcommunity_hash_make w (lcommunity e) key in
      let key := key_of ecommunity_hash_make w (ecommunity e) key in
      key ← key_through cluster_hash_key_make (cluster_hash w) (cluster e) key;
      key ← key_through transit_hash_key_make (transit_hash w) (transit e) key;
      let key := MIX (mp_nexthop_len e) key in
      let key := jhash (firstn 16 (mp_nexthop_global e)) 16 key in
      let key := jhash (firstn 16 (mp_nexthop_local e)) 16 key in
      Some key
  | None => Some key
  end.
End HashKey.

(** Two transit objects with the octets of [unknown_attr_octets], as
    [transit_new] leaves them, neither of them in the table yet. *)
Definition transit_two : pool transit_t :=
  mkPool (<[1%positive := mkTransit 0 5 unknown_attr_octets]>
            (<[2%positive := mkTransit 0 5 unknown_attr_octets]> ∅))
         [].

(** ** The output of the encoder *)

(** The stream is written up to [endp], and [s'] is [s] with octets
    appended. *)
Definition stream_wf (s : stream) : Prop := endp s = Z.of_nat (length (data s)).

Definition extends (s s' : stream) : Prop := exists bytes, s' = put bytes s.

(** The four attributes the encoder writes about 4-octet AS numbers for a
    peer without the capability, as octets on the wire. *)
Definition as_path_attr (path : list assegment) : list Z :=
  [0x50; BGP_ATTR_AS_PATH]
  ++ w16 (Z.of_nat (length (aspath_bytes path false)))
  ++ aspath_bytes path false.

Definition as4_path_attr (path : list assegment) : list Z :=
  [0xD0; BGP_ATTR_AS4_PATH]
  ++ w16 (Z.of_nat (length (aspath_bytes (aspath_delete_confed_seq path) true)))
  ++ aspath_bytes (aspath_delete_confed_seq path) true.

Definition aggregator_attr (as2 addr : Z) : list Z :=
  [0xC0; BGP_ATTR_AGGREGATOR; 6] ++ w16 as2 ++ w32 addr.

Definition as4_aggregator_attr (as4 addr : Z) : list Z :=
  [0xC0; BGP_ATTR_AS4_AGGREGATOR; 8] ++ w32 as4 ++ w32 addr.

(** An AS number as a 2-octet field carries it. *)
Definition as_trans (as_ : Z) : Z :=
  if BGP_AS_MAX <? as_ then BGP_AS_TRANS else as_.

(** An old speaker in AS 65002 is sent the path 70000 65010 with
    aggregator 70000 10.0.0.9. *)
Definition old_peer : peer := peer_of_sort BGP_PEER_EBGP 0.

Definition as4_send_world : world :=
  with_ashash world_empty
    (mkPool (<[1%positive := mkAspath 1 [mkSeg AS_SEQUENCE [70000; 65010]]]> ∅)
            [1%positive]).

Definition as4_send_attr : attr :=
  attr_set_flag
    (attr_set_aspath
       (attr_set_extra attr_zero (Some (as4_extra 70000))) (Some 1%positive))
    (Z.lor (ATTR_FLAG_BIT BGP_ATTR_AS_PATH) (ATTR_FLAG_BIT BGP_ATTR_AGGREGATOR)).

Definition stream_new : stream := mkStream [] 0 0.

(** The Aggregator attribute for a peer without the capability, the
    AS4-Path and the AS4-Aggregator attributes when they are due, as
    octets on the wire. *)
Definition aggregator_octets (a : attr) : list Z :=
  if CHECK_FLAG (flag a) (ATTR_FLAG_BIT BGP_ATTR_AGGREGATOR) then
    match extra a with
    | Some e => aggregator_attr (as_trans (aggregator_as e)) (aggregator_addr e)
    | None => []
    end
  else [].

Definition as4_path_octets (path : list assegment) : list Z :=
  if aspath_has_as4 path then as4_path_attr path else [].

Definition as4_aggregator_octets (a : attr) : list Z :=
  if CHECK_FLAG (flag a) (ATTR_FLAG_BIT BGP_ATTR_AGGREGATOR) then
    match extra a with
    | Some e =>
        if BGP_AS_MAX <? aggregator_as e
        then as4_aggregator_attr (aggregator_as e) (aggregator_addr e) else []
    | None => []
    end
  else [].

(** No confederation segment. *)
Definition no_confed (path : list assegment) : Prop :=
  Forall (fun seg => seg_type seg <> AS_CONFED_SEQUENCE
                     /\ seg_type seg <> AS_CONFED_SET) path.

(** ** Reading the tables *)

(** The [i]-th address of a cluster list, as [cluster->list[i].s_addr]
    reads it: four octets, the first the most significant. *)
Definition in_addr_at (l : list Z) (i : nat) : option Z :=
  match skipn (4 * i) l with
  | a :: b :: c :: d :: _ => Some (((a * 256 + b) * 256 + c) * 256 + d)
  | _ => None
  end.

(** A cluster list of two addresses, 10.0.0.1 and 10.0.0.2. *)
Definition cluster_two : cluster_list :=
  mkCluster 1 8 [10; 0; 0; 1; 10; 0; 0; 2].

(** ** What a run of the parser leaves behind *)

(** Between two states: no NOTIFY was queued, or exactly one, of code
    UPDATE Message Error. *)
Definition quiet (ps ps' : pstate) : Prop := ps_notify ps' = ps_notify ps.

Definition notified (ps ps' : pstate) : Prop :=
  exists n, ps_notify ps' = ps_notify ps ++ [n]
            /\ n_code n = BGP_NOTIFY_UPDATE_ERR.

(** The result of a decoder against what it queued. *)
Definition outcome_ok (pr : peer) (ps : pstate) (ret : bgp_attr_parse_ret_t)
    (ps' : pstate) : Prop :=
  match ret with
  | BGP_ATTR_PARSE_PROCEED => quiet ps ps'
  | BGP_ATTR_PARSE_ERROR_NOTIFYPLS => quiet ps ps'
  | BGP_ATTR_PARSE_WITHDRAW => sort pr = BGP_PEER_EBGP /\ quiet ps ps'
  | BGP_ATTR_PARSE_ERROR => notified ps ps'
  end.

(** ** The attribute header at the read cursor *)

(** The flags octet (its four low bits ignored) and the type octet
    [bgp_attr_parse] fetches at the cursor. *)
Definition attr_flag_at (s : stream) : Z := Z.land 0xF0 (fst (stream_getc s)).

Definition attr_type_at (s : stream) : Z := fst (stream_getc (snd (stream_getc s))).

(** The block holds the header at the cursor: three octets, four when
    the Extended-Length bit is set. *)
Definition header_complete (endp : Z) (s : stream) : Prop :=
  BGP_ATTR_MIN_LEN <= endp - getp s
  /\ (CHECK_FLAG (attr_flag_at s) BGP_ATTR_FLAG_EXTLEN = true ->
      BGP_ATTR_MIN_LEN + 1 <= endp - getp s).

(** Origin IGP twice in one attribute block. *)
Definition update_origin_twice : list Z := [0x40; 1; 1; 0] ++ [0x40; 1; 1; 0].

(** The locals a turn of the loop ends with. *)
Definition turn_locals
    (t : (bgp_attr_parse_ret_t * parse_locals * pstate) + (parse_locals * pstate))
  : parse_locals :=
  match t with
  | inl (_, lc, _) => lc
  | inr (lc, _) => lc
  end.

Definition origin_twice_turn
  : (bgp_attr_parse_ret_t * parse_locals * pstate) + (parse_locals * pstate) :=
  attr_loop_body (H := example_collaborators) (peer_of_sort BGP_PEER_EBGP 0)
    8 8 locals_init (pstate_of update_origin_twice).

(** ** The tunnel encapsulation attribute on the wire *)

(** A sub-TLV as [bgp_packet_mpattr_tea] writes it, and the octets the
    sub-TLVs of a chain take. *)
Definition subtlv_bytes (st : bgp_attr_encap_subtlv) : list Z :=
  [st_type st mod 256; st_length st mod 256]
  ++ firstn (Z.to_nat (st_length st)) (st_value st).

Definition subtlvs_size (chain : list bgp_attr_encap_subtlv) : Z :=
  fold_right (fun st n => 2 + st_length st + n) 0 chain.

(** The value of the attribute: tunnel type, length of the sub-TLVs, the
    sub-TLVs. *)
Definition encap_value (tunneltype : Z) (chain : list bgp_attr_encap_subtlv)
  : list Z :=
  w16 tunneltype ++ w16 (subtlvs_size chain) ++ flat_map subtlv_bytes chain.

(** The header in front of it, with a 1-octet length up to 255. *)
Definition encap_header (chain : list bgp_attr_encap_subtlv) : list Z :=
  let attrlenfield := 4 + subtlvs_size chain in
  if 0xff <? attrlenfield
  then [0xD0; BGP_ATTR_ENCAP] ++ w16 attrlenfield
  else [0xC0; BGP_ATTR_ENCAP; attrlenfield].

(** A sub-TLV whose type and length fit their octets and whose value has
    the octets the length counts. *)
Definition subtlv_ok (st : bgp_attr_encap_subtlv) : Prop :=
  0 <= st_type st < 256
  /\ 0 <= st_length st < 256
  /\ st_length st <= Z.of_nat (length (st_value st)).

(** The chain [bgp_attr_encap] reads back: every sub-TLV fits, and the
    last one has two octets of value or more, so that the loop, which
    wants four octets to go round, reads it. *)
Fixpoint chain_readable (chain : list bgp_attr_encap_subtlv) : Prop :=
  match chain with
  | [] => True
  | st :: rest =>
      subtlv_ok st
      /\ match rest with
         | [] => 2 <= st_length st
         | _ => chain_readable rest
         end
  end.

(** The chain appended to the one of the attribute set, and the tunnel
    type stored: the attribute set [bgp_attr_encap] leaves. *)
Definition attr_encap_add (a : attr) (tunneltype : Z)
    (chain : list bgp_attr_encap_subtlv) : attr :=
  let '(attre, a) := bgp_attr_extra_get a in
  attr_set_extra a
    (Some (extra_set_encap_tunneltype
             (extra_set_encap_subtlvs attre (encap_subtlvs attre ++ chain))
             tunneltype)).

(** A tunnel encapsulation attribute of type 1 with two sub-TLVs, the
    last one of two octets, written to an empty stream and handed to the
    parser with the cursor behind the three octets of its header. *)
Definition encap_sent : stream :=
  bgp_packet_mpattr_tea stream_new (encap_attr [encap_tlv_b; encap_tlv_a]).

Definition encap_received : pstate :=
  mkPstate attr_zero (mkStream (data encap_sent) 3 (endp encap_sent)) []
           world_empty.

(** The same attribute with the sub-TLVs in the other order, so that the
    last one carries a single octet. *)
Definition encap_sent_short : stream :=
  bgp_packet_mpattr_tea stream_new (encap_attr [encap_tlv_a; encap_tlv_b]).

Definition encap_received_short : pstate :=
  mkPstate attr_zero
           (mkStream (data encap_sent_short) 3 (endp encap_sent_short)) []
           world_empty.

(** ** The Aggregator attribute on the wire *)

(** The AS number a peer reads back from the Aggregator attribute: the
    number itself in a 4-octet field, [AS_TRANS] in a 2-octet field that
    cannot carry it. *)
Definition aggregator_as_sent (use32bit : bool) (as_ : Z) : Z :=
  if use32bit then as_ else as_trans as_.

(** The scratch attribute set once an Aggregator of that AS number and
    address has been stored in it. *)
Definition attr_aggregator_add (a : attr) (as_ addr : Z) : attr :=
  let '(attre, a) := bgp_attr_extra_get a in
  let a := attr_set_extra a (Some (extra_set_aggregator attre as_ addr)) in
  attr_set_flag a (SET_FLAG (flag a) (ATTR_FLAG_BIT BGP_ATTR_AGGREGATOR)).

(** The aggregator 70000 10.0.0.9 as written for the old speaker, and
    the state of a parser that stands behind the three header octets. *)
Definition aggregator_sent : option (stream * bool) :=
  put_aggregator stream_new as4_send_attr false.

Definition aggregator_received : pstate :=
  mkPstate attr_zero
    (mkStream [0xC0; BGP_ATTR_AGGREGATOR; 6; 0x5B; 0xA0; 10; 0; 0; 9] 3 9) []
    world_empty.

(** The same aggregator in an AS4-Aggregator attribute, at the parser. *)
Definition as4_aggregator_received : pstate :=
  mkPstate attr_zero
    (mkStream [0xC0; BGP_ATTR_AS4_AGGREGATOR; 8; 0; 1; 0x11; 0x70; 10; 0; 0; 9]
       3 11) []
    world_empty.

(** ** Withdrawn routes in MP_UNREACH_NLRI *)

(** [bgp_packet_mpattr_prefix_size (afi, safi, p)]. *)
Definition bgp_packet_mpattr_prefix_size (afi safi : Z) (p : prefix) : Z :=
  let size := PSIZE (prefixlen p) in
  if safi =? SAFI_MPLS_VPN then size + 88 else size.

(** [bgp_packet_mpunreach_start (s, afi, safi)]: the stream and the
    position of the length field. *)
Definition bgp_packet_mpunreach_start (s : stream) (afi safi : Z)
  : stream * Z :=
  (* Set extended bit always to encode the attribute length as 2 bytes *)
  let s := stream_putc s (Z.lor BGP_ATTR_FLAG_OPTIONAL BGP_ATTR_FLAG_EXTLEN) in
  let s := stream_putc s BGP_ATTR_MP_UNREACH_NLRI in
  let attrlen_pnt := stream_get_endp s in
  let s := stream_putw s 0 in (* Length of this attribute. *)
  let s := stream_putw s afi in
  let s := stream_putc s (if safi =? SAFI_MPLS_VPN
                          then SAFI_MPLS_LABELED_VPN else safi) in
  (s, attrlen_pnt).

(** [bgp_packet_mpunreach_prefix (s, p, afi, safi, prd, tag)]. *)
Definition bgp_packet_mpunreach_prefix (s : stream) (p : prefix)
    (afi safi : Z) (prd tag : list Z) : stream :=
  bgp_packet_mpattr_prefix s afi safi p prd tag.

(** [bgp_packet_mpunreach_end (s, attrlen_pnt)]. *)
Definition bgp_packet_mpunreach_end (s : stream) (attrlen_pnt : Z) : stream :=
  bgp_packet_mpattr_end s attrlen_pnt.

(** A route to withdraw: the prefix with its route distinguisher and
    label, the three arguments of [bgp_packet_mpunreach_prefix]. *)
Record mp_route : Type := mkRoute {
  r_prefix : prefix;
  r_prd : list Z;
  r_tag : list Z
}.

(** The three calls in the order their users make them: start, one
    prefix call per route, end. *)
Definition mpunreach_write (afi safi : Z) (routes : list mp_route)
    (s : stream) : stream :=
  let '(s, attrlen_pnt) := bgp_packet_mpunreach_start s afi safi in
  let s := fold_left
             (fun s r =>
                bgp_packet_mpunreach_prefix s (r_prefix r) afi safi
                  (r_prd r) (r_tag r))
             routes s in
  bgp_packet_mpunreach_end s attrlen_pnt.

(** The SAFI octet on the wire. *)
Definition safi_wire (safi : Z) : Z :=
  if safi =? SAFI_MPLS_VPN then SAFI_MPLS_LABELED_VPN else safi.

(** The octets of one route in the NLRI field: the length in bits (label
    and route distinguisher counted in for a VPN route), then label and
    route distinguisher for a VPN route, then the prefix. *)
Definition route_octets (safi : Z) (r : mp_route) : list Z :=
  let p := r_prefix r in
  if safi =? SAFI_MPLS_VPN then
    [(prefixlen p + 88) mod 256] ++ firstn 3 (r_tag r) ++ firstn 8 (r_prd r)
    ++ firstn (Z.to_nat (PSIZE (prefixlen p))) (u_prefix p)
  else
    [prefixlen p mod 256]
    ++ firstn (Z.to_nat (PSIZE (prefixlen p))) (u_prefix p).

(** The route is held in full: a prefix length of at most 128 bits, the
    octets of the prefix, and for a VPN route the three octets of the
    label and the eight of the route distinguisher. *)
Definition route_ok (safi : Z) (r : mp_route) : Prop :=
  0 <= prefixlen (r_prefix r) <= 128
  /\ PSIZE (prefixlen (r_prefix r)) <= Z.of_nat (length (u_prefix (r_prefix r)))
  /\ (safi = SAFI_MPLS_VPN ->
      (3 <= length (r_tag r))%nat /\ (8 <= length (r_prd r))%nat).

(** The withdrawal of 2001:db8::/32 and of ::/0 in IPv6 unicast. *)
Definition withdraw_routes : list mp_route :=
  [mkRoute (mkPrefix 10 32 [0x20; 0x01; 0x0d; 0xb8]) [] [];
   mkRoute (mkPrefix 10 0 []) [] []].

Definition withdraw_sent : stream :=
  mpunreach_write AFI_IP6 SAFI_UNICAST withdraw_routes stream_new.

Definition withdraw_received : pstate :=
  mkPstate attr_zero (mkStream (data withdraw_sent) 4 (endp withdraw_sent)) []
           world_empty.

(** ** Announced routes in MP_REACH_NLRI *)

(** The three calls in the order their users make them: start, one
    prefix call per route, end. *)
Definition mpreach_write (afi safi : Z) (a : attr) (routes : list mp_route)
    (s : stream) : option stream :=
  '(s, sizep) ← bgp_packet_mpattr_start s afi safi a;
  let s := fold_left
             (fun s r =>
                bgp_packet_mpattr_prefix s afi safi (r_prefix r)
                  (r_prd r) (r_tag r))
             routes s in
  Some (bgp_packet_mpattr_end s sizep).

(** The octets of an IPv6 next hop field: the global address, and the
    link-local one behind it when the length says 32. *)
Definition nexthop6_octets (e : attr_extra) : list Z :=
  firstn 16 (mp_nexthop_global e)
  ++ (if mp_nexthop_len e =? 32 then firstn 16 (mp_nexthop_local e) else []).

(** The announcement of the same two prefixes with next hop 2001:db8::1,
    written to an empty stream, and the parser behind the four octets of
    the header. *)
Definition announce_extra : attr_extra :=
  extra_set_mp_nexthop_global
    (extra_set_mp_nexthop_len bgp_attr_extra_new 16)
    [0x20; 0x01; 0x0d; 0xb8; 0; 0; 0; 0; 0; 0; 0; 0; 0; 0; 0; 1].

Definition announce_attr : attr :=
  attr_set_extra attr_zero (Some announce_extra).

Definition announce_sent : stream :=
  match mpreach_write AFI_IP6 SAFI_UNICAST announce_attr withdraw_routes
          stream_new with
  | Some s => s
  | None => stream_new
  end.

Definition announce_received : pstate :=
  mkPstate attr_zero (mkStream (data announce_sent) 4 (endp announce_sent)) []
           world_empty.

(** ** Attributes that leave no trace in the presence word *)

(** An MP_UNREACH_NLRI attribute that withdraws nothing in IPv4 unicast,
    followed by an optional, non-transitive attribute of the unassigned
    type 99; and a message whose only attribute is the latter. *)
Definition update_unreach_unknown : list Z :=
  [0x80; 15; 3; 0; 1; 1] ++ [0x80; 99; 0].

Definition update_only_unknown : list Z := [0x80; 99; 0].

(** The state in which the attribute loop leaves the parser, when it is
    left at its end. *)
Definition after_loop (s : bgp_peer_sort) (capabilities : Z) (octets : list Z)
  : option pstate :=
  match attr_loop (H := example_collaborators) (length octets)
          (peer_of_sort s capabilities) (Z.of_nat (length octets))
          (Z.of_nat (length octets)) locals_init (pstate_of octets) with
  | Some (inr (_, ps)) => Some ps
  | _ => None
  end.

(** The notifications a run of the parser ends with. *)
Definition run_notify (r : run (bgp_attr_parse_ret_t * parse_locals * pstate))
  : option (list notification) :=
  match r with
  | Ret (_, _, ps) => Some (ps_notify ps)
  | _ => None
  end.

(** ** The shape of an intern table *)

(** Every entry of the table is allocated, no entry is listed twice, and
    no two entries hold values the comparison of the table equates. *)
Definition table_wf {V : Type} `{Interned V} (pl : pool V) : Prop :=
  NoDup (table pl)
  /\ (forall l, In l (table pl) -> is_Some (heap pl !! l))
  /\ (forall l l' v v',
        In l (table pl) -> In l' (table pl) ->
        heap pl !! l = Some v -> heap pl !! l' = Some v' ->
        obj_cmp v v' = true -> l = l').

(** The store a reconciliation ends with. *)
Definition run_world_of (r : option (bgp_attr_parse_ret_t * pstate))
  : option world :=
  '(_, ps) ← r; Some (ps_world ps).

(** ** The accumulator through the loop *)


(** One state of the loop of [bgp_attr_parse] leads to another through
    turns that go round. *)
Inductive loop_reaches `{Collaborators} (pr : peer) (size endp : Z)
  : parse_locals * pstate -> parse_locals * pstate -> Prop :=
| reaches_here st : loop_reaches pr size endp st st
| reaches_turn lc ps lc1 ps1 st :
    (getp (ps_ibuf ps) <? endp) = true ->
    attr_loop_body pr size endp lc ps = inr (lc1, ps1) ->
    loop_reaches pr size endp (lc1, ps1) st ->
    loop_reaches pr size endp (lc, ps) st.




(** * Properties *)

(** ** Intern tables *)

Section PoolFacts.
Context {V : Type} `{Interned V}.

Lemma pool_eta (pl : pool V) : mkPool (heap pl) (table pl) = pl.
Proof. by destruct pl. Qed.

Lemma xmalloc_fresh (v : V) (h : gmap loc V) l h' :
  xmalloc v h = (l, h') -> h !! l = None /\ h' = <[l := v]> h.
Proof.
  unfold xmalloc. intros [= <- <-]. split; [|done].
  apply not_elem_of_dom, is_fresh.
Qed.

Lemma remove_first_head (f : loc -> bool) l t :
  f l = true -> remove_first f (l :: t) = t.
Proof. intros Hf. simpl. by rewrite Hf. Qed.

Lemma find_head (f : loc -> bool) l t :
  f l = true -> List.find f (l :: t) = Some l.
Proof. intros Hf. simpl. by rewrite Hf. Qed.

End PoolFacts.

(** ** Sub-TLV chains and the equality of attribute sets *)

Lemma memcmp_eq_refl a n : memcmp_eq a a n = true.
Proof. unfold memcmp_eq. by apply bool_decide_eq_true. Qed.

Lemma memcmp_eq_sym a b n : memcmp_eq a b n = memcmp_eq b a n.
Proof. unfold memcmp_eq. apply bool_decide_ext. split; congruence. Qed.

Lemma memcmp_eq_firstn_l a b n :
  memcmp_eq (firstn (Z.to_nat n) a) b n = memcmp_eq a b n.
Proof.
  unfold memcmp_eq. apply bool_decide_ext.
  by rewrite firstn_firstn, Nat.min_id.
Qed.

Lemma subtlv_match_refl p : subtlv_match p p = true.
Proof.
  unfold subtlv_match. by rewrite !Z.eqb_refl, memcmp_eq_refl.
Qed.

Lemma subtlv_match_spec p q :
  subtlv_match p q = true <->
  st_type p = st_type q /\ st_length p = st_length q /\
  firstn (Z.to_nat (st_length p)) (st_value p)
  = firstn (Z.to_nat (st_length p)) (st_value q).
Proof.
  unfold subtlv_match, memcmp_eq.
  rewrite !andb_true_iff, !Z.eqb_eq, bool_decide_eq_true. tauto.
Qed.

Lemma subtlv_match_sym p q : subtlv_match p q = subtlv_match q p.
Proof.
  apply eq_true_iff_eq. rewrite !subtlv_match_spec.
  split; intros (Ht & Hl & Hv); repeat split; try congruence.
Qed.

Lemma subtlv_match_trans p q r :
  subtlv_match p q = true -> subtlv_match q r = true -> subtlv_match p r = true.
Proof.
  rewrite !subtlv_match_spec.
  intros (Ht & Hl & Hv) (Ht' & Hl' & Hv'). repeat split; congruence.
Qed.

Lemma subtlv_match_copy_l p q :
  subtlv_match (subtlv_copy p) q = subtlv_match p q.
Proof.
  unfold subtlv_match, subtlv_copy; simpl.
  by rewrite memcmp_eq_firstn_l.
Qed.

Lemma subtlv_match_copy_r p q :
  subtlv_match p (subtlv_copy q) = subtlv_match p q.
Proof. by rewrite subtlv_match_sym, subtlv_match_copy_l, subtlv_match_sym. Qed.

Lemma encap_covered_spec h1 h2 :
  encap_covered h1 h2 = true <->
  forall p, In p h1 -> exists q, In q h2 /\ subtlv_match p q = true.
Proof.
  unfold encap_covered. rewrite forallb_forall.
  split; intros Hc p Hp; specialize (Hc p Hp).
  - apply existsb_exists in Hc. destruct Hc as (q & Hq & Hm). eauto.
  - apply existsb_exists. destruct Hc as (q & Hq & Hm). eauto.
Qed.

Lemma encap_covered_dup_l h1 h2 :
  encap_covered (encap_tlv_dup h1) h2 = encap_covered h1 h2.
Proof.
  unfold encap_covered, encap_tlv_dup.
  induction h1 as [|p h1 IH]; cbn [map forallb]; [done|].
  rewrite IH. f_equal.
  clear IH. induction h2 as [|q h2 IH2]; cbn [existsb]; [done|].
  by rewrite IH2, subtlv_match_copy_l.
Qed.

Lemma encap_covered_dup_r h1 h2 :
  encap_covered h1 (encap_tlv_dup h2) = encap_covered h1 h2.
Proof.
  unfold encap_covered, encap_tlv_dup.
  induction h1 as [|p h1 IH]; cbn [forallb]; [done|].
  rewrite IH. f_equal.
  clear IH. induction h2 as [|q h2 IH2]; cbn [map existsb]; [done|].
  by rewrite IH2, subtlv_match_copy_r.
Qed.

Lemma encap_same_covered h1 h2 :
  encap_same h1 h2 = encap_covered h1 h2 && encap_covered h2 h1.
Proof. destruct h1, h2; simpl; try done. Qed.

Lemma encap_same_dup_l h1 h2 :
  encap_same (encap_tlv_dup h1) h2 = encap_same h1 h2.
Proof.
  by rewrite !encap_same_covered, encap_covered_dup_l, encap_covered_dup_r.
Qed.

Lemma encap_covered_refl h : encap_covered h h = true.
Proof.
  apply encap_covered_spec. intros p Hp. exists p.
  split; [done | apply subtlv_match_refl].
Qed.

Lemma encap_same_refl h : encap_same h h = true.
Proof. by rewrite encap_same_covered, encap_covered_refl. Qed.

Lemma ptr_eq_refl p : ptr_eq p p = true.
Proof. unfold ptr_eq. by apply bool_decide_eq_true. Qed.

Lemma attr_extra_cmp_refl e : attr_extra_cmp e e = true.
Proof.
  unfold attr_extra_cmp.
  by rewrite !Z.eqb_refl, !memcmp_eq_refl, !ptr_eq_refl, encap_same_refl.
Qed.

Lemma attrhash_cmp_refl a : attrhash_cmp a a = true.
Proof.
  unfold attrhash_cmp. rewrite !Z.eqb_refl, !ptr_eq_refl. simpl.
  destruct (extra a); [apply attr_extra_cmp_refl | done].
Qed.

(** The comparison does not look at the reference count, and a copy made
    by [bgp_attr_hash_alloc] compares like the set it was copied from. *)
Lemma attrhash_cmp_alloc val n y :
  attrhash_cmp
    (attr_set_refcnt
       (attr_set_extra val
          match extra val with
          | Some e => Some (extra_set_encap_subtlvs e
                              (encap_tlv_dup (encap_subtlvs e)))
          | None => None
          end) n) y
  = attrhash_cmp val y.
Proof.
  unfold attrhash_cmp; simpl.
  destruct (extra val) as [e|]; [|done].
  destruct (extra y) as [e'|]; [|done].
  unfold attr_extra_cmp; simpl. by rewrite encap_same_dup_l.
Qed.

Lemma attrhash_cmp_set_refcnt a n y :
  attrhash_cmp (attr_set_refcnt a n) y = attrhash_cmp a y.
Proof. done. Qed.

(** ** Interning attribute sets *)

(** Only the last step of [bgp_attr_intern] touches the attribute-set
    table: it looks the set up under the key with interned references. *)
Lemma bgp_attr_intern_attrhash x w l x1 w1 :
  bgp_attr_intern x w = (l, x1, w1) ->
  exists p,
    hash_get (attrhash w) x1 (bgp_attr_hash_alloc x1) = (l, p)
    /\ attrhash w1 = refcnt_incr l p.
Proof.
  unfold bgp_attr_intern.
  destruct (intern_ref aspath_intern _ _) as [asp p1].
  destruct (intern_ref community_intern _ _) as [com p2].
  cbn [extra attr_set_community attr_set_aspath].
  destruct (extra x) as [attre|].
  - destruct (intern_ref ecommunity_intern _ _) as [ec p3].
    destruct (intern_ref lcommunity_intern _ _) as [lc p4].
    destruct (intern_ref cluster_intern _ _) as [cl p5].
    destruct (intern_ref transit_intern _ _) as [tr p6].
    cbn [attrhash with_transit_hash with_cluster_hash with_lcomhash
         with_ecomhash with_comhash with_ashash].
    destruct (hash_get (attrhash w) _ _) as [find p] eqn:Hg.
    intros [= <- <- <-]. exists p. by rewrite Hg.
  - cbn [attrhash with_comhash with_ashash].
    destruct (hash_get (attrhash w) _ _) as [find p] eqn:Hg.
    intros [= <- <- <-]. exists p. by rewrite Hg.
Qed.

Lemma bgp_attr_unintern_sub_attrhash a w :
  attrhash (snd (bgp_attr_unintern_sub a w)) = attrhash w.
Proof.
  unfold bgp_attr_unintern_sub.
  destruct (unintern_ref (aspath a) _) as [asp p1].
  destruct (unintern_ref (community _) _) as [com p2].
  cbn [extra attr_set_community attr_set_aspath attr_set_flag].
  destruct (extra a) as [attre|]; [|done].
  destruct (unintern_ref (ecommunity _) _) as [ec p3].
  destruct (unintern_ref (lcommunity _) _) as [lc p4].
  destruct (unintern_ref (cluster _) _) as [cl p5].
  destruct (unintern_ref (transit _) _) as [tr p6].
  done.
Qed.

Lemma alter_insert_eq_attr (h : gmap loc attr) l v f :
  alter f l (<[l := v]> h) = <[l := f v]> h.
Proof.
  apply map_eq. intros i. destruct (decide (i = l)) as [->|Hne].
  - by rewrite lookup_alter_eq, !lookup_insert_eq.
  - by rewrite lookup_alter_ne, !lookup_insert_ne.
Qed.

(** The attribute-set table: interning a set that is not in the table and
    then an equal one gives the same canonical instance with count 2; two
    releases bring the count to 1 and then to 0, at which point the
    instance leaves the table and is freed, and the table is as before. *)
Lemma attrhash_intern_twice_unintern_twice
    (x y : attr) (w : world) l1 x1 w1 l2 y2 w2 :
  bgp_attr_intern x w = (l1, x1, w1) ->
  hash_lookup (attrhash w) x1 = None ->
  bgp_attr_intern y w1 = (l2, y2, w2) ->
  attrhash_cmp x1 y2 = true ->
  l2 = l1
  /\ load_refcnt (attrhash w1) l1 = 1
  /\ load_refcnt (attrhash w2) l1 = 2
  /\ exists w3 w4,
       bgp_attr_unintern l1 w2 = Some (Some l1, w3)
       /\ load_refcnt (attrhash w3) l1 = 1
       /\ bgp_attr_unintern l1 w3 = Some (None, w4)
       /\ heap (attrhash w4) !! l1 = None
       /\ attrhash w4 = attrhash w.
Proof.
  intros H1 Hnew H2 Heq.
  apply bgp_attr_intern_attrhash in H1 as (p1 & Hg1 & Hw1).
  apply bgp_attr_intern_attrhash in H2 as (p2 & Hg2 & Hw2).
  unfold hash_get in Hg1. rewrite Hnew in Hg1.
  destruct (bgp_attr_hash_alloc x1 (heap (attrhash w))) as [l h] eqn:Ha.
  injection Hg1 as -> <-.
  unfold bgp_attr_hash_alloc in Ha.
  apply xmalloc_fresh in Ha as [Hfresh ->].
  set (c := attr_set_refcnt (attr_set_extra x1 _) 0) in *.
  assert (Hc : forall n z, attrhash_cmp (attr_set_refcnt c n) z = attrhash_cmp x1 z).
  { intros n z. rewrite attrhash_cmp_set_refcnt. apply attrhash_cmp_alloc. }
  assert (Hh1 : attrhash w1
                = mkPool (<[l1 := attr_set_refcnt c 1]> (heap (attrhash w)))
                         (l1 :: table (attrhash w))).
  { rewrite Hw1. unfold refcnt_incr, store_refcnt, load_refcnt. simpl.
    rewrite lookup_insert_eq. simpl. by rewrite alter_insert_eq_attr. }
  assert (Hl2 : hash_lookup (attrhash w1) y2 = Some l1).
  { unfold hash_lookup. rewrite Hh1. simpl table. apply find_head.
    unfold holds. simpl heap. rewrite lookup_insert_eq. simpl. by rewrite Hc. }
  unfold hash_get in Hg2. rewrite Hl2 in Hg2. injection Hg2 as <- <-.
  assert (Hh2 : attrhash w2
                = mkPool (<[l1 := attr_set_refcnt c 2]> (heap (attrhash w)))
                         (l1 :: table (attrhash w))).
  { rewrite Hw2, Hh1. unfold refcnt_incr, store_refcnt, load_refcnt. simpl.
    rewrite lookup_insert_eq. simpl. by rewrite alter_insert_eq_attr. }
  split; [done|]. split.
  { rewrite Hh1. unfold load_refcnt. simpl. by rewrite lookup_insert_eq. }
  split.
  { rewrite Hh2. unfold load_refcnt. simpl. by rewrite lookup_insert_eq. }
  set (p3 := mkPool (<[l1 := attr_set_refcnt c 1]> (heap (attrhash w)))
                    (l1 :: table (attrhash w))).
  set (w3 := snd (bgp_attr_unintern_sub (attr_set_refcnt c 1) (with_attrhash w2 p3))).
  assert (Hu1 : bgp_attr_unintern l1 w2 = Some (Some l1, w3)).
  { unfold bgp_attr_unintern. rewrite Hh2. simpl heap.
    rewrite lookup_insert_eq. simpl.
    unfold store_refcnt. simpl. by rewrite alter_insert_eq_attr. }
  assert (Hh3 : attrhash w3 = p3).
  { unfold w3. by rewrite bgp_attr_unintern_sub_attrhash. }
  set (p4 := mkPool (heap (attrhash w)) (table (attrhash w))).
  set (w4 := snd (bgp_attr_unintern_sub (attr_set_refcnt c 0) (with_attrhash w3 p4))).
  exists w3, w4. split; [done|]. split.
  { rewrite Hh3. unfold load_refcnt. simpl. by rewrite lookup_insert_eq. }
  assert (Hh4 : attrhash w4 = attrhash w).
  { unfold w4. rewrite bgp_attr_unintern_sub_attrhash. simpl.
    unfold p4. apply pool_eta. }
  assert (Hu2 : bgp_attr_unintern l1 w3 = Some (None, w4)).
  { unfold bgp_attr_unintern. rewrite Hh3. unfold p3 at 1. simpl heap.
    rewrite lookup_insert_eq. simpl.
    unfold hash_release, hash_lookup, store_refcnt. simpl.
    rewrite alter_insert_eq_attr. change (1 - 1) with 0.
    assert (Hhold : holds
              {| heap := <[l1:=attr_set_refcnt (attr_set_refcnt c 1) 0]>
                           (heap (attrhash w));
                 table := l1 :: table (attrhash w) |}
              (attr_set_refcnt (attr_set_refcnt c 1) 0) l1 = true).
    { unfold holds. simpl heap. rewrite lookup_insert_eq. simpl.
      apply attrhash_cmp_refl. }
    rewrite Hhold. unfold xfree. simpl.
    rewrite delete_insert_id by done. done. }
  split; [done|]. split; [|done].
  by rewrite Hh4.
Qed.

Lemma alter_insert_eq_gen {V} (h : gmap loc V) l v f :
  alter f l (<[l := v]> h) = <[l := f v]> h.
Proof.
  apply map_eq. intros i. destruct (decide (i = l)) as [->|Hne].
  - by rewrite lookup_alter_eq, !lookup_insert_eq.
  - by rewrite lookup_alter_ne, !lookup_insert_ne.
Qed.

Lemma alter_lookup_insert {V} (h : gmap loc V) l v f :
  h !! l = Some v -> alter f l h = <[l := f v]> h.
Proof.
  intros Hl. apply map_eq. intros i. destruct (decide (i = l)) as [->|Hne].
  - by rewrite lookup_alter_eq, lookup_insert_eq, Hl.
  - by rewrite lookup_alter_ne, lookup_insert_ne.
Qed.

(** The transit table: the same for [transit_intern] and
    [transit_unintern], which take the object itself; the equal object
    handed in second is freed in favour of the canonical one. *)
Lemma transit_intern_twice_unintern_twice (pl : pool transit_t) l l' t t' :
  heap pl !! l = Some t -> heap pl !! l' = Some t' -> l <> l' ->
  t_refcnt t = 0 ->
  hash_lookup pl t = None ->
  transit_hash_cmp t t' = true ->
  exists pl1 pl2 pl3 pl4,
    transit_intern l pl = (l, pl1) /\ load_refcnt pl1 l = 1
    /\ transit_intern l' pl1 = (l, pl2) /\ load_refcnt pl2 l = 2
    /\ heap pl2 !! l' = None
    /\ transit_unintern l pl2 = (Some l, pl3) /\ load_refcnt pl3 l = 1
    /\ transit_unintern l pl3 = (None, pl4)
    /\ heap pl4 = delete l (delete l' (heap pl)) /\ table pl4 = table pl.
Proof.
  intros Hl Hl' Hne Hz Hnew Heq.
  set (c n := mkTransit n (t_length t) (t_val t)).
  set (pl1 := mkPool (<[l := c 1]> (heap pl)) (l :: table pl)).
  set (pl2 := mkPool (<[l := c 2]> (delete l' (heap pl))) (l :: table pl)).
  set (pl3 := mkPool (<[l := c 1]> (delete l' (heap pl))) (l :: table pl)).
  set (pl4 := mkPool (delete l (delete l' (heap pl))) (table pl)).
  exists pl1, pl2, pl3, pl4.
  assert (H1 : transit_intern l pl = (l, pl1)).
  { unfold transit_intern, intern_in_place. rewrite Hl.
    unfold hash_get. rewrite Hnew. rewrite bool_decide_eq_true_2 by done.
    unfold refcnt_incr, store_refcnt, load_refcnt. simpl. rewrite Hl. simpl.
    rewrite Hz. by rewrite (alter_lookup_insert _ _ _ _ Hl). }
  assert (H2 : transit_intern l' pl1 = (l, pl2)).
  { unfold transit_intern, intern_in_place. simpl heap.
    rewrite lookup_insert_ne by done. rewrite Hl'.
    unfold hash_get, hash_lookup. simpl table.
    rewrite find_head.
    2:{ unfold holds. simpl heap. by rewrite lookup_insert_eq. }
    rewrite bool_decide_eq_false_2 by done.
    unfold refcnt_incr, store_refcnt, load_refcnt, xfree. simpl.
    rewrite lookup_delete_ne by done. rewrite lookup_insert_eq. simpl.
    rewrite delete_insert_ne by done. by rewrite alter_insert_eq_gen. }
  assert (H3 : transit_unintern l pl2 = (Some l, pl3)).
  { unfold transit_unintern, unintern_in_place. simpl heap.
    rewrite lookup_insert_eq. simpl.
    unfold store_refcnt, load_refcnt. simpl.
    rewrite alter_insert_eq_gen, lookup_insert_eq. done. }
  assert (H4 : transit_unintern l pl3 = (None, pl4)).
  { unfold transit_unintern, unintern_in_place. simpl heap.
    rewrite lookup_insert_eq. simpl.
    unfold store_refcnt, load_refcnt. simpl.
    rewrite alter_insert_eq_gen, lookup_insert_eq. simpl.
    unfold holds. simpl heap. rewrite lookup_insert_eq. simpl.
    unfold transit_hash_cmp. simpl. rewrite Z.eqb_refl, memcmp_eq_refl. simpl.
    unfold xfree. simpl. by rewrite delete_insert_eq. }
  split_and!; try done.
  - unfold load_refcnt. simpl. by rewrite lookup_insert_eq.
  - unfold load_refcnt. simpl. by rewrite lookup_insert_eq.
  - simpl. rewrite lookup_insert_ne by done. apply lookup_delete_eq.
  - unfold load_refcnt. simpl. by rewrite lookup_insert_eq.
Qed.

(** C7.  For a value that is not in its intern table, interning it and
    then an equal value returns the same canonical instance, held twice;
    two releases bring its count to 1 and then to 0, at which point it is
    taken out of the table and freed, and the table is as it was before.
    Stated for the attribute-set table ([bgp_attr_intern] and
    [bgp_attr_unintern]) and for the transit table ([transit_intern] and
    [transit_unintern]). *)
Theorem bgp_attr_intern_twice_unintern_twice :
  (forall (x y : attr) (w : world) l1 x1 w1 l2 y2 w2,
     bgp_attr_intern x w = (l1, x1, w1) ->
     hash_lookup (attrhash w) x1 = None ->
     bgp_attr_intern y w1 = (l2, y2, w2) ->
     attrhash_cmp x1 y2 = true ->
     l2 = l1
     /\ load_refcnt (attrhash w1) l1 = 1
     /\ load_refcnt (attrhash w2) l1 = 2
     /\ exists w3 w4,
          bgp_attr_unintern l1 w2 = Some (Some l1, w3)
          /\ load_refcnt (attrhash w3) l1 = 1
          /\ bgp_attr_unintern l1 w3 = Some (None, w4)
          /\ heap (attrhash w4) !! l1 = None
          /\ attrhash w4 = attrhash w)
  /\ (forall (pl : pool transit_t) l l' t t',
        heap pl !! l = Some t -> heap pl !! l' = Some t' -> l <> l' ->
        t_refcnt t = 0 ->
        hash_lookup pl t = None ->
        transit_hash_cmp t t' = true ->
        exists pl1 pl2 pl3 pl4,
          transit_intern l pl = (l, pl1) /\ load_refcnt pl1 l = 1
          /\ transit_intern l' pl1 = (l, pl2) /\ load_refcnt pl2 l = 2
          /\ heap pl2 !! l' = None
          /\ transit_unintern l pl2 = (Some l, pl3) /\ load_refcnt pl3 l = 1
          /\ transit_unintern l pl3 = (None, pl4)
          /\ heap pl4 = delete l (delete l' (heap pl))
          /\ table pl4 = table pl).
Proof.
  split.
  - apply attrhash_intern_twice_unintern_twice.
  - apply transit_intern_twice_unintern_twice.
Qed.

Lemma bgp_attr_intern_twice_unintern_twice_witness :
  let x := encap_attr [encap_tlv_a; encap_tlv_b] in
  let r := bgp_attr_intern x as4_world in
  let r2 := bgp_attr_intern x (snd r) in
  let t := mkTransit 0 5 unknown_attr_octets in
  (r = (1%positive, x, snd r)
   /\ hash_lookup (attrhash as4_world) x = None
   /\ r2 = (1%positive, x, snd r2)
   /\ attrhash_cmp x x = true)
  /\ (1%positive = 1%positive
      /\ load_refcnt (attrhash (snd r)) 1%positive = 1
      /\ load_refcnt (attrhash (snd r2)) 1%positive = 2
      /\ exists w3 w4,
           bgp_attr_unintern 1%positive (snd r2) = Some (Some 1%positive, w3)
           /\ load_refcnt (attrhash w3) 1%positive = 1
           /\ bgp_attr_unintern 1%positive w3 = Some (None, w4)
           /\ heap (attrhash w4) !! 1%positive = None
           /\ attrhash w4 = attrhash as4_world)
  /\ (heap transit_two !! 1%positive = Some t
      /\ heap transit_two !! 2%positive = Some t
      /\ hash_lookup transit_two t = None
      /\ transit_hash_cmp t t = true)
  /\ exists pl1 pl2 pl3 pl4,
       transit_intern 1%positive transit_two = (1%positive, pl1)
       /\ load_refcnt pl1 1%positive = 1
       /\ transit_intern 2%positive pl1 = (1%positive, pl2)
       /\ load_refcnt pl2 1%positive = 2
       /\ heap pl2 !! 2%positive = None
       /\ transit_unintern 1%positive pl2 = (Some 1%positive, pl3)
       /\ load_refcnt pl3 1%positive = 1
       /\ transit_unintern 1%positive pl3 = (None, pl4)
       /\ heap pl4 = delete 1%positive (delete 2%positive (heap transit_two))
       /\ table pl4 = table transit_two.
Proof.
  intros x r r2 t.
  assert (H1 : r = (1%positive, x, snd r)) by (vm_compute; reflexivity).
  assert (H2 : hash_lookup (attrhash as4_world) x = None) by reflexivity.
  assert (H3 : r2 = (1%positive, x, snd r2)) by (vm_compute; reflexivity).
  assert (H4 : attrhash_cmp x x = true) by reflexivity.
  assert (T1 : heap transit_two !! 1%positive = Some t) by reflexivity.
  assert (T2 : heap transit_two !! 2%positive = Some t) by reflexivity.
  assert (T3 : hash_lookup transit_two t = None) by reflexivity.
  assert (T4 : transit_hash_cmp t t = true) by reflexivity.
  split; [done|]. split.
  - exact (proj1 bgp_attr_intern_twice_unintern_twice
             x x as4_world 1%positive x (snd r) 1%positive x (snd r2)
             H1 H2 H3 H4).
  - split; [done|].
    refine (proj2 bgp_attr_intern_twice_unintern_twice
              transit_two 1%positive 2%positive t t T1 T2 _ eq_refl T3 T4).
    discriminate.
Defined.

(** ** The malformed-attribute policy *)






Lemma notify_with_data_spec args subcode length ps ps0 :
  ps_ibuf ps0 = ps_ibuf ps -> ps_notify ps0 = ps_notify ps ->
  ps_notify
    (bgp_notify_send_with_data BGP_NOTIFY_UPDATE_ERR subcode
       (if 0 <? length then Some (pnt_at (ps_ibuf ps) (a_startp args)) else None)
       length ps0)
  = ps_notify ps ++ [malformed_notify args subcode length ps].
Proof.
  intros Hi Hn. unfold bgp_notify_send_with_data, malformed_notify. simpl.
  rewrite Hn. by destruct (0 <? length).
Qed.




(** C3 as stated fails for a peer that is not eBGP: an iBGP peer sends an
    Origin attribute of length 2 at offset 0; [bgp_attr_origin] has read
    the three header octets and hands the attribute to the policy, which
    returns Error with the cursor still at 3, not at the attribute's end
    0 + 5. *)
Lemma bgp_attr_malformed_ibgp_cursor_not_advanced :
  let args := origin_len2_args BGP_PEER_IBGP in
  bgp_attr_origin args origin_len2_state
  = bgp_attr_malformed args BGP_NOTIFY_UPDATE_ATTR_LENG_ERR (a_total args)
      origin_len2_state
  /\ fst (bgp_attr_malformed args BGP_NOTIFY_UPDATE_ATTR_LENG_ERR (a_total args)
            origin_len2_state) = BGP_ATTR_PARSE_ERROR
  /\ getp (ps_ibuf (snd (bgp_attr_malformed args BGP_NOTIFY_UPDATE_ATTR_LENG_ERR
                           (a_total args) origin_len2_state))) = 3
  /\ a_startp args + a_total args = 5.
Proof. vm_compute. repeat split; reflexivity. Qed.

(** C3, amended: for an eBGP peer the policy sets the read cursor to the
    end of the failing attribute (its start plus its total length) before
    it returns, whatever the outcome; for any other peer it returns Error
    at once and leaves the input stream as it was. *)
Theorem bgp_attr_malformed_cursor
    (args : bgp_attr_parser_args) (subcode length : Z) (ps : pstate)
    (r : bgp_attr_parse_ret_t) (ps' : pstate) :
  bgp_attr_malformed args subcode length ps = (r, ps') ->
  (sort (a_peer args) = BGP_PEER_EBGP ->
   ps_ibuf ps' = stream_set_getp (ps_ibuf ps) (a_startp args + a_total args)
   /\ getp (ps_ibuf ps') = a_startp args + a_total args)
  /\ (sort (a_peer args) <> BGP_PEER_EBGP ->
      r = BGP_ATTR_PARSE_ERROR /\ ps_ibuf ps' = ps_ibuf ps).
Proof.
  intros H. unfold bgp_attr_malformed in H.
  destruct (bool_decide (sort (a_peer args) = BGP_PEER_EBGP)) eqn:Hs; simpl in H.
  - apply bool_decide_eq_true in Hs. split; [intros _|done].
    repeat match type of H with
           | (if ?c then _ else _) = _ => destruct c
           end; injection H as <- <-; by split.
  - apply bool_decide_eq_false in Hs. split; [done|intros _].
    injection H as <- <-. by split.
Qed.

Lemma bgp_attr_malformed_cursor_witness :
  let args := origin_len2_args BGP_PEER_EBGP in
  let res := bgp_attr_malformed args BGP_NOTIFY_UPDATE_ATTR_LENG_ERR 5
               origin_len2_state in
  res = (fst res, snd res)
  /\ sort (a_peer args) = BGP_PEER_EBGP
  /\ getp (ps_ibuf (snd res)) = 5.
Proof.
  intros args res.
  assert (Hres : res = (fst res, snd res)) by reflexivity.
  destruct (bgp_attr_malformed_cursor args BGP_NOTIFY_UPDATE_ATTR_LENG_ERR 5
              origin_len2_state (fst res) (snd res) Hres) as [Hebgp _].
  split; [exact Hres|]. split; [reflexivity|].
  destruct (Hebgp eq_refl) as [_ Hg]. exact Hg.
Defined.

(** ** Mandatory attributes *)

(** C2, amended: [bgp_attr_check] takes its two exemptions from the
    presence word, not from the message.  When the word is empty and the
    peer is restart-capable, or when the word is exactly the bit of
    MP_UNREACH_NLRI, it returns Proceed and sends nothing, whatever is
    missing.  Otherwise, when some mandatory well-known attribute is
    missing it returns Error and sends exactly one NOTIFY, of subcode
    MissingAttribute, whose data is one octet: the type of the last
    missing attribute in the order Origin, AS-Path, Next-Hop, Local-Pref;
    and when none is missing it returns Proceed. *)
Theorem bgp_attr_check_missing (pr : peer) (ps : pstate) :
  bgp_attr_check pr ps
  = if is_end_of_rib pr (ps_attr ps) || only_mp_unreach (ps_attr ps)
    then (BGP_ATTR_PARSE_PROCEED, ps)
    else
      match missing_attrs pr (ps_attr ps) with
      | [] => (BGP_ATTR_PARSE_PROCEED, ps)
      | _ :: _ =>
          (BGP_ATTR_PARSE_ERROR,
           with_notify ps
             (ps_notify ps
              ++ [mkNotify BGP_NOTIFY_UPDATE_ERR BGP_NOTIFY_UPDATE_MISS_ATTR
                    [List.last (missing_attrs pr (ps_attr ps)) 0]]))
      end.
Proof.
  unfold is_end_of_rib, only_mp_unreach, bgp_attr_check, missing_attrs.
  destruct (CHECK_FLAG (cap pr) PEER_CAP_RESTART_RCV && (flag (ps_attr ps) =? 0));
    [reflexivity|].
  destruct (flag (ps_attr ps) =? ATTR_FLAG_BIT BGP_ATTR_MP_UNREACH_NLRI);
    [reflexivity|].
  cbn [orb].
  unfold mandatory_order, mandatory_missing, attr_present. cbn [List.filter].
  change (BGP_ATTR_ORIGIN =? BGP_ATTR_ORIGIN) with true.
  change (BGP_ATTR_AS_PATH =? BGP_ATTR_ORIGIN) with false.
  change (BGP_ATTR_AS_PATH =? BGP_ATTR_AS_PATH) with true.
  change (BGP_ATTR_NEXT_HOP =? BGP_ATTR_ORIGIN) with false.
  change (BGP_ATTR_NEXT_HOP =? BGP_ATTR_AS_PATH) with false.
  change (BGP_ATTR_NEXT_HOP =? BGP_ATTR_NEXT_HOP) with true.
  change (BGP_ATTR_LOCAL_PREF =? BGP_ATTR_ORIGIN) with false.
  change (BGP_ATTR_LOCAL_PREF =? BGP_ATTR_AS_PATH) with false.
  change (BGP_ATTR_LOCAL_PREF =? BGP_ATTR_NEXT_HOP) with false.
  change (BGP_ATTR_LOCAL_PREF =? BGP_ATTR_LOCAL_PREF) with true.
  cbv iota.
  destruct (CHECK_FLAG (flag (ps_attr ps)) (ATTR_FLAG_BIT BGP_ATTR_ORIGIN)),
    (CHECK_FLAG (flag (ps_attr ps)) (ATTR_FLAG_BIT BGP_ATTR_AS_PATH)),
    (CHECK_FLAG (flag (ps_attr ps)) (ATTR_FLAG_BIT BGP_ATTR_NEXT_HOP)),
    (CHECK_FLAG (flag (ps_attr ps)) (ATTR_FLAG_BIT BGP_ATTR_MP_REACH_NLRI)),
    (bool_decide (sort pr = BGP_PEER_IBGP)),
    (CHECK_FLAG (flag (ps_attr ps)) (ATTR_FLAG_BIT BGP_ATTR_LOCAL_PREF));
    reflexivity.
Qed.

Lemma bgp_attr_check_missing_witness :
  let pr := peer_of_sort BGP_PEER_IBGP 0 in
  is_end_of_rib pr (ps_attr origin_only_state) = false
  /\ only_mp_unreach (ps_attr origin_only_state) = false
  /\ missing_attrs pr (ps_attr origin_only_state)
     = [BGP_ATTR_AS_PATH; BGP_ATTR_NEXT_HOP; BGP_ATTR_LOCAL_PREF]
  /\ bgp_attr_check pr origin_only_state
     = (BGP_ATTR_PARSE_ERROR,
        with_notify origin_only_state
          [mkNotify BGP_NOTIFY_UPDATE_ERR BGP_NOTIFY_UPDATE_MISS_ATTR
             [BGP_ATTR_LOCAL_PREF]]).
Proof.
  intros pr.
  split; [reflexivity|]. split; [reflexivity|]. split; [reflexivity|].
  exact (bgp_attr_check_missing pr origin_only_state).
Defined.

(** C2 as stated fails for a message that carries, beside what the
    exemption names, an attribute that sets no bit of the presence word.
    An eBGP peer sends MP_UNREACH_NLRI and an optional, non-transitive
    attribute of the unassigned type 99, and none of the mandatory
    attributes: the loop ends with the presence word at the bit of
    MP_UNREACH_NLRI alone, [bgp_attr_check] returns Proceed, and the whole
    parse returns Proceed with no NOTIFY.  Likewise a restart-capable peer
    that sends the unknown attribute alone: the presence word is empty and
    the message passes for an End-of-RIB marker. *)
Lemma bgp_attr_check_exempts_unrecorded_attributes :
  let ebgp := peer_of_sort BGP_PEER_EBGP 0 in
  let restarting := peer_of_sort BGP_PEER_EBGP PEER_CAP_RESTART_RCV in
  match after_loop BGP_PEER_EBGP 0 update_unreach_unknown with
  | Some ps =>
      missing_attrs ebgp (ps_attr ps)
      = [BGP_ATTR_ORIGIN; BGP_ATTR_AS_PATH; BGP_ATTR_NEXT_HOP]
      /\ only_mp_unreach (ps_attr ps) = true
      /\ bgp_attr_check ebgp ps = (BGP_ATTR_PARSE_PROCEED, ps)
  | None => False
  end
  /\ run_ret (parse_example BGP_PEER_EBGP 0 update_unreach_unknown)
     = Some BGP_ATTR_PARSE_PROCEED
  /\ run_notify (parse_example BGP_PEER_EBGP 0 update_unreach_unknown)
     = Some []
  /\ match after_loop BGP_PEER_EBGP PEER_CAP_RESTART_RCV update_only_unknown with
     | Some ps =>
         missing_attrs restarting (ps_attr ps)
         = [BGP_ATTR_ORIGIN; BGP_ATTR_AS_PATH; BGP_ATTR_NEXT_HOP]
         /\ is_end_of_rib restarting (ps_attr ps) = true
         /\ bgp_attr_check restarting ps = (BGP_ATTR_PARSE_PROCEED, ps)
     | None => False
     end
  /\ run_ret (parse_example BGP_PEER_EBGP PEER_CAP_RESTART_RCV
                update_only_unknown)
     = Some BGP_ATTR_PARSE_PROCEED
  /\ run_notify (parse_example BGP_PEER_EBGP PEER_CAP_RESTART_RCV
                   update_only_unknown)
     = Some [].
Proof. vm_compute. repeat split; reflexivity. Qed.

(** ** Decoders *)

(** C9: a Local-Preference attribute of length 4.  From an eBGP peer the
    decoder returns Proceed having moved the read cursor over the four
    value octets and changed nothing else: the attribute set, with its
    [local_pref] field and its presence bits, is as before.  From any
    other peer the four octets are stored in [local_pref] and the
    Local-Pref presence bit is set. *)
Theorem bgp_attr_local_pref_length4 (args : bgp_attr_parser_args) (ps : pstate) :
  a_length args = 4 ->
  (sort (a_peer args) = BGP_PEER_EBGP ->
   bgp_attr_local_pref args ps
   = (BGP_ATTR_PARSE_PROCEED,
      with_ibuf ps (with_getp (ps_ibuf ps) (getp (ps_ibuf ps) + 4))))
  /\ (sort (a_peer args) <> BGP_PEER_EBGP ->
      bgp_attr_local_pref args ps
      = (BGP_ATTR_PARSE_PROCEED,
         mkPstate
           (attr_set_flag
              (attr_set_local_pref (ps_attr ps) (fst (stream_getl (ps_ibuf ps))))
              (SET_FLAG (flag (ps_attr ps)) (ATTR_FLAG_BIT BGP_ATTR_LOCAL_PREF)))
           (with_getp (ps_ibuf ps) (getp (ps_ibuf ps) + 4))
           (ps_notify ps) (ps_world ps))
      /\ Z.testbit (SET_FLAG (flag (ps_attr ps)) (ATTR_FLAG_BIT BGP_ATTR_LOCAL_PREF))
                   (BGP_ATTR_LOCAL_PREF - 1) = true).
Proof.
  intros Hlen. unfold bgp_attr_local_pref. rewrite Hlen. simpl negb. cbv iota.
  split; intros Hs.
  - rewrite bool_decide_eq_true_2 by done. done.
  - rewrite bool_decide_eq_false_2 by done. split; [done|].
    unfold SET_FLAG, ATTR_FLAG_BIT. rewrite Z.lor_spec.
    replace (Z.testbit (Z.shiftl 1 ((BGP_ATTR_LOCAL_PREF - 1) mod 32))
               (BGP_ATTR_LOCAL_PREF - 1)) with true by reflexivity.
    apply orb_true_r.
Qed.

Lemma bgp_attr_local_pref_length4_witness :
  a_length (local_pref_args BGP_PEER_EBGP) = 4
  /\ bgp_attr_local_pref (local_pref_args BGP_PEER_EBGP) local_pref_state
     = (BGP_ATTR_PARSE_PROCEED,
        with_ibuf local_pref_state (with_getp (ibuf_of local_pref_octets) 7))
  /\ local_pref
       (ps_attr (snd (bgp_attr_local_pref (local_pref_args BGP_PEER_IBGP)
                        local_pref_state))) = 100.
Proof.
  split; [reflexivity|].
  destruct (bgp_attr_local_pref_length4 (local_pref_args BGP_PEER_EBGP)
              local_pref_state eq_refl) as [He _].
  destruct (bgp_attr_local_pref_length4 (local_pref_args BGP_PEER_IBGP)
              local_pref_state eq_refl) as [_ Hi].
  split; [exact (He eq_refl)|].
  destruct Hi as [Hi _]; [discriminate|]. rewrite Hi. reflexivity.
Defined.

(** C10: a Communities attribute of declared length 0.  The decoder
    returns Proceed, sets the community reference of the attribute set to
    NULL and touches nothing else: no octet is consumed, no presence bit
    changes, nothing is notified.  The scratch set of a message that had
    no Communities attribute so far has a NULL reference already, and is
    then left exactly as it was. *)
Theorem bgp_attr_community_length0 `{Collaborators}
    (args : bgp_attr_parser_args) (ps : pstate) :
  a_length args = 0 ->
  bgp_attr_community args ps
  = (BGP_ATTR_PARSE_PROCEED,
     with_attr ps (attr_set_community (ps_attr ps) None))
  /\ community (ps_attr (snd (bgp_attr_community args ps))) = None
  /\ flag (ps_attr (snd (bgp_attr_community args ps))) = flag (ps_attr ps)
  /\ (community (ps_attr ps) = None ->
      snd (bgp_attr_community args ps) = ps).
Proof.
  intros Hlen. unfold bgp_attr_community. rewrite Hlen. simpl.
  repeat split. intros Hc. destruct ps as [a s n w]. destruct a. simpl in *.
  by subst.
Qed.

Lemma bgp_attr_community_length0_witness :
  a_length community_len0_args = 0
  /\ bgp_attr_community (H := example_collaborators) community_len0_args
       community_len0_state
     = (BGP_ATTR_PARSE_PROCEED, community_len0_state)
  /\ run_ret (parse_example BGP_PEER_EBGP 0 update_empty_community)
     = Some BGP_ATTR_PARSE_PROCEED
  /\ run_attr (parse_example BGP_PEER_EBGP 0 update_empty_community)
     = run_attr (parse_example BGP_PEER_EBGP 0 update_plain)
  /\ run_world (parse_example BGP_PEER_EBGP 0 update_empty_community)
     = run_world (parse_example BGP_PEER_EBGP 0 update_plain).
Proof.
  split; [reflexivity|].
  destruct (bgp_attr_community_length0 (H := example_collaborators)
              community_len0_args community_len0_state eq_refl)
    as (Hr & _ & _ & Hsame).
  split.
  { rewrite Hr. f_equal. }
  split; [vm_compute; reflexivity|].
  split; vm_compute; reflexivity.
Defined.

(** ** Unknown attributes and the transit accumulator *)





(** Closes a frame goal between two states that differ in fields the
    accumulator does not live in. *)
Ltac frame_done :=
  unfold transit_frame, transit_of; simpl; split; reflexivity.


























Lemma bgp_notify_send_with_data_frame code subcode datap datalen ps :
  transit_frame ps (bgp_notify_send_with_data code subcode datap datalen ps).
Proof. frame_done. Qed.







(** What interning in place returns is in the table, and allocated. *)
Lemma intern_in_place_in_table {V : Type} `{Interned V} (l : loc) (pl : pool V) :
  is_Some (heap pl !! l) ->
  In (fst (intern_in_place l pl)) (table (snd (intern_in_place l pl)))
  /\ is_Some (heap (snd (intern_in_place l pl)) !! fst (intern_in_place l pl)).
Proof.
  intros [v Hv]. unfold intern_in_place. rewrite Hv.
  unfold hash_get. destruct (hash_lookup pl v) as [find|] eqn:Hl.
  - unfold hash_lookup in Hl. apply find_some in Hl as [Hin Hh].
    unfold holds in Hh. destruct (heap pl !! find) as [v'|] eqn:Hf; [|done].
    simpl. split.
    + by destruct (bool_decide (find = l)).
    + unfold refcnt_incr, store_refcnt. simpl. rewrite lookup_alter_eq.
      apply fmap_is_Some.
      destruct (bool_decide (find = l)) eqn:Hd; simpl; [by rewrite Hf|].
      apply bool_decide_eq_false in Hd.
      rewrite lookup_delete_ne by done. by rewrite Hf.
  - simpl. rewrite bool_decide_eq_true_2 by done. simpl. split; [by left|].
    rewrite lookup_alter_eq. apply fmap_is_Some. by rewrite Hv.
Qed.






(** A return from inside the loop is never Proceed. *)
Lemma attr_loop_body_inl `{Collaborators} pr size endp lc ps r lc1 ps1 :
  attr_loop_body pr size endp lc ps = inl (r, lc1, ps1) ->
  r <> BGP_ATTR_PARSE_PROCEED.
Proof.
  unfold attr_loop_body.
  repeat match goal with
         | |- context [let '(_, _) := ?e in _] => destruct e eqn:?
         | |- context [if ?c then _ else _] => destruct c eqn:?
         end; intros [= ? ? ?]; subst; try discriminate;
    repeat match goal with
           | Ho : _ || _ = true |- _ => apply orb_true_iff in Ho; destruct Ho
           | Hd : bool_decide _ = true |- _ => apply bool_decide_eq_true in Hd
           | Hd : bool_decide _ = false |- _ => apply bool_decide_eq_false in Hd
           end; congruence.
Qed.

Lemma attr_loop_inl `{Collaborators} fuel pr size endp lc ps r lc1 ps1 :
  attr_loop fuel pr size endp lc ps = Some (inl (r, lc1, ps1)) ->
  r <> BGP_ATTR_PARSE_PROCEED.
Proof.
  revert lc ps. induction fuel as [|fuel IH]; intros lc ps; simpl.
  - by destruct (_ <? _).
  - destruct (_ <? _); [|discriminate].
    destruct (attr_loop_body pr size endp lc ps) as [[[r' lc2] ps2]|[lc2 ps2]] eqn:Hb;
      [|apply IH].
    intros [= -> -> ->]. eapply attr_loop_body_inl. exact Hb.
Qed.


(** ** The parser's loop comes to an end *)












Lemma loop_reaches_trans `{Collaborators} pr size endp st1 st2 st3 :
  loop_reaches pr size endp st1 st2 -> loop_reaches pr size endp st2 st3 ->
  loop_reaches pr size endp st1 st3.
Proof.
  induction 1 as [|lc ps lc1 ps1 st Hg Hb Hr IH]; [done|].
  intros H3. eapply reaches_turn; [exact Hg|exact Hb|by apply IH].
Qed.








(** ** AS4 reconciliation *)

Lemma intern_in_place_segments (l : loc) (pl : pool aspath_t) v :
  heap pl !! l = Some v ->
  segments <$> heap (snd (aspath_intern l pl)) !! fst (aspath_intern l pl)
  = Some (segments v).
Proof.
  intros Hv. unfold aspath_intern, intern_in_place. rewrite Hv.
  unfold hash_get. destruct (hash_lookup pl v) as [find|] eqn:Hl.
  - unfold hash_lookup in Hl. apply find_some in Hl as [Hin Hh].
    unfold holds in Hh. destruct (heap pl !! find) as [v'|] eqn:Hf; [|done].
    simpl in Hh. apply bool_decide_eq_true in Hh.
    simpl. unfold refcnt_incr, store_refcnt. simpl. rewrite lookup_alter_eq.
    destruct (bool_decide (find = l)) eqn:Hd; simpl.
    + rewrite Hf. simpl. by rewrite Hh.
    + apply bool_decide_eq_false in Hd.
      rewrite lookup_delete_ne by done. rewrite Hf. simpl. by rewrite Hh.
  - simpl. rewrite bool_decide_eq_true_2 by done. simpl.
    rewrite lookup_alter_eq, Hv. done.
Qed.

Lemma unintern_in_place_other {V : Type} `{Interned V} (l l' : loc) (pl : pool V) :
  l <> l' ->
  heap (snd (unintern_in_place l pl)) !! l' = heap pl !! l'.
Proof.
  intros Hne. unfold unintern_in_place.
  destruct (heap pl !! l) as [v|] eqn:Hv; [|done].
  set (pl1 := if negb _ then _ else _).
  assert (H1 : heap pl1 !! l' = heap pl !! l').
  { unfold pl1. destruct (negb _); [|done].
    unfold store_refcnt. simpl. by rewrite lookup_alter_ne. }
  destruct (load_refcnt pl1 l =? 0); [|done].
  unfold hash_release, xfree. simpl. by rewrite lookup_delete_ne.
Qed.

(** After the replacement the pointer returned is in the AS-path table
    and points at a path with the segments that were built. *)
Lemma aspath_replace_interned (p : pool aspath_t) old segs :
  is_Some (heap p !! old) ->
  In (fst (aspath_replace p old segs)) (table (snd (aspath_replace p old segs)))
  /\ segments <$> heap (snd (aspath_replace p old segs))
                  !! fst (aspath_replace p old segs)
     = Some segs.
Proof.
  intros Hold. unfold aspath_replace.
  destruct (xmalloc _ _) as [newpath h] eqn:Hm.
  apply xmalloc_fresh in Hm as [Hfresh ->].
  set (p0 := mkPool _ _).
  destruct (aspath_unintern old p0) as [o p1] eqn:Hu.
  assert (Hne : old <> newpath).
  { intros ->. rewrite Hfresh in Hold. by destruct Hold. }
  assert (Hnew : heap p1 !! newpath = Some (mkAspath 0 segs)).
  { change p1 with (snd (o, p1)). rewrite <- Hu. unfold aspath_unintern.
    rewrite unintern_in_place_other by done.
    unfold p0. simpl. by rewrite lookup_insert_eq. }
  split.
  - apply (intern_in_place_in_table newpath p1). by rewrite Hnew.
  - by rewrite (intern_in_place_segments newpath p1 _ Hnew).
Qed.

Lemma remove_first_only (f : loc -> bool) (x : loc) (t : list loc) :
  NoDup t -> In x t ->
  (forall l, In l t -> f l = true -> l = x) -> f x = true ->
  forall l, In l (remove_first f t) <-> In l t /\ l <> x.
Proof.
  intros Hnd Hin Hf Hx. induction t as [|y t IH]; [done|].
  apply NoDup_cons in Hnd as [Hy Hnd]. rewrite list_elem_of_In in Hy.
  intros l. simpl. destruct (f y) eqn:Hfy.
  - assert (y = x) as -> by (apply Hf; [by left|done]).
    split.
    + intros Hl. split; [by right|]. by intros ->.
    + intros [[<- | Hl] Hne]; done.
  - destruct Hin as [-> | Hin]; [congruence|].
    simpl. rewrite IH; [|done|done|].
    + split.
      * intros [<- | [Hl Hne]]; [|tauto]. split; [by left|]. by intros ->.
      * intros [[<- | Hl] Hne]; [by left|by right].
    + intros l' Hl'. apply Hf. by right.
Qed.

Lemma find_none_In {A : Type} (f : A -> bool) (l : list A) :
  (forall x, In x l -> f x = false) -> List.find f l = None.
Proof.
  induction l as [|a l IH]; [done|]. intros Hall. simpl.
  rewrite Hall by (by left). apply IH. intros x Hx. apply Hall. by right.
Qed.


(** [aspath_unintern] on a path of the table held [c >= 1] times. *)
Lemma aspath_unintern_spec (p0 : pool aspath_t) (old : loc) (v : aspath_t) :
  NoDup (table p0) -> In old (table p0) -> heap p0 !! old = Some v ->
  (forall l v', In l (table p0) -> heap p0 !! l = Some v' ->
                segments v' = segments v -> l = old) ->
  1 <= as_refcnt v ->
  let p1 := snd (aspath_unintern old p0) in
  heap p1 !! old
  = (if as_refcnt v =? 1 then None
     else Some (mkAspath (as_refcnt v - 1) (segments v)))
  /\ (forall l, l <> old -> heap p1 !! l = heap p0 !! l)
  /\ (forall l, In l (table p1)
                <-> In l (table p0) /\ (as_refcnt v = 1 -> l <> old))
  /\ NoDup (table p1).
Proof.
  intros Hnd Hin Hv Huniq Hc p1.
  unfold p1, aspath_unintern, unintern_in_place. rewrite Hv.
  cbn [obj_refcnt aspath_interned].
  replace (as_refcnt v =? 0) with false by (symmetry; apply Z.eqb_neq; lia).
  cbn [negb].
  assert (Hl : load_refcnt (store_refcnt old (as_refcnt v - 1) p0) old
               = as_refcnt v - 1).
  { unfold load_refcnt, store_refcnt. cbn [heap].
    rewrite lookup_alter_eq, Hv. reflexivity. }
  rewrite Hl.
  destruct (Z.eqb_spec (as_refcnt v) 1) as [H1|H1].
  - replace (as_refcnt v - 1 =? 0) with true by (symmetry; apply Z.eqb_eq; lia).
    unfold hash_release, xfree, store_refcnt. cbn [fst snd heap table].
    split; [by rewrite lookup_delete_eq|].
    split; [intros l Hl'; by rewrite lookup_delete_ne, lookup_alter_ne|].
    set (f := holds _ v).
    assert (Hfx : f old = true).
    { unfold f, holds. cbn [heap]. rewrite lookup_alter_eq, Hv. cbn.
      by apply bool_decide_eq_true. }
    assert (Hfo : forall l, In l (table p0) -> f l = true -> l = old).
    { intros l Hl' Hf. destruct (decide (l = old)) as [|Hn]; [done|].
      unfold f, holds in Hf. cbn [heap] in Hf.
      rewrite lookup_alter_ne in Hf by done.
      destruct (heap p0 !! l) as [v'|] eqn:Hv'; [|done].
      cbn in Hf. apply bool_decide_eq_true in Hf.
      by apply (Huniq l v'). }
    split.
    + intros l. rewrite (remove_first_only f old) by done. split.
      * intros [? ?]. done.
      * intros [? Hn]. split; [done|]. by apply Hn.
    + clear -Hnd. induction (table p0) as [|y t IH]; [constructor|].
      apply NoDup_cons in Hnd as [Hy Hnd]. simpl. destruct (f y); [done|].
      apply NoDup_cons. split; [|by apply IH].
      intros Hy'. apply Hy. clear -Hy'. induction t as [|z t IH]; [done|].
      simpl in Hy'. destruct (f z).
      * by right.
      * apply elem_of_cons in Hy' as [-> | Hy']; [by left|right; by apply IH].
  - replace (as_refcnt v - 1 =? 0) with false by (symmetry; apply Z.eqb_neq; lia).
    unfold store_refcnt. cbn [fst snd heap table].
    split; [by rewrite lookup_alter_eq, Hv|].
    split; [intros l Hl'; by rewrite lookup_alter_ne|].
    split; [|done]. intros l. split; [intros ?; split; [done|lia]|by intros [? _]].
Qed.

(** [aspath_intern] on a fresh path that is not in the table. *)
Lemma aspath_intern_spec (p1 : pool aspath_t) (newpath : loc)
    (segs : list assegment) :
  heap p1 !! newpath = Some (mkAspath 0 segs) -> ~ In newpath (table p1) ->
  let i := fst (aspath_intern newpath p1) in
  let p2 := snd (aspath_intern newpath p1) in
  exists vi,
    heap p2 !! i = Some (mkAspath (as_refcnt vi + 1) segs)
    /\ segments vi = segs
    /\ (i = newpath /\ vi = mkAspath 0 segs
        \/ i <> newpath /\ In i (table p1) /\ heap p1 !! i = Some vi
           /\ heap p2 !! newpath = None)
    /\ (forall l, l <> i -> l <> newpath -> heap p2 !! l = heap p1 !! l)
    /\ (forall l, In l (table p2) <-> l = i \/ In l (table p1)).
Proof.
  intros Hn Hnt i p2. unfold i, p2, aspath_intern, intern_in_place.
  rewrite Hn. unfold hash_get.
  destruct (hash_lookup p1 (mkAspath 0 segs)) as [find|] eqn:Hl.
  - unfold hash_lookup in Hl. apply find_some in Hl as [Hin Hf].
    assert (Hfn : find <> newpath) by (by intros ->).
    unfold holds in Hf. destruct (heap p1 !! find) as [vi|] eqn:Hvi; [|done].
    cbn in Hf. apply bool_decide_eq_true in Hf. cbn in Hf.
    rewrite bool_decide_eq_false_2 by done.
    cbn [fst snd]. unfold refcnt_incr, store_refcnt, load_refcnt, xfree.
    cbn [heap table].
    exists vi. split_and!.
    + rewrite lookup_alter_eq, lookup_delete_ne, Hvi by done. cbn.
      by rewrite Hf.
    + done.
    + right. split_and!; try done.
      by rewrite lookup_alter_ne, lookup_delete_eq.
    + intros l Hli Hln. by rewrite lookup_alter_ne, lookup_delete_ne.
    + intros l. split; [by right|]. by intros [-> | ?].
  - cbn [fst snd]. rewrite bool_decide_eq_true_2 by done.
    unfold refcnt_incr, store_refcnt, load_refcnt. cbn [heap table].
    exists (mkAspath 0 segs). split_and!.
    + by rewrite lookup_alter_eq, Hn.
    + done.
    + by left.
    + intros l Hli _. by rewrite lookup_alter_ne.
    + intros l. simpl. split; intros [? | ?]; auto.
Qed.

(** What [aspath_replace] leaves of the table: the merged path is in it,
    held at least once; the old path has one holder fewer, and is out of
    the table and freed when that was the last one; no other path is
    touched. *)
Lemma aspath_replace_spec (p : pool aspath_t) (old : loc) (v : aspath_t)
    (segs : list assegment) :
  table_wf p -> counts_ok p -> In old (table p) -> heap p !! old = Some v ->
  1 <= as_refcnt v ->
  let r := aspath_replace p old segs in
  (In (fst r) (table (snd r))
   /\ segments <$> heap (snd r) !! fst r = Some segs
   /\ 0 < load_refcnt (snd r) (fst r))
  /\ (as_refcnt v = 1 ->
      heap (snd r) !! old = None /\ ~ In old (table (snd r)))
  /\ (1 < as_refcnt v ->
      heap (snd r) !! old
      = Some (mkAspath
                (as_refcnt v - 1 + (if bool_decide (fst r = old) then 1 else 0))
                (segments v))
      /\ In old (table (snd r)))
  /\ (forall l, l <> old -> l <> fst r -> is_Some (heap p !! l) ->
      heap (snd r) !! l = heap p !! l
      /\ (In l (table p) -> In l (table (snd r)))).
Proof.
  intros (Hnd & Halloc & Huniq) Hcnt Hin Hv Hc r.
  unfold r, aspath_replace.
  destruct (xmalloc _ _) as [newpath h] eqn:Hm.
  apply xmalloc_fresh in Hm as [Hfresh ->].
  assert (Hne : old <> newpath) by (intros ->; congruence).
  assert (Htn : ~ In newpath (table p)).
  { intros Hn. destruct (Halloc _ Hn) as [? ?]. congruence. }
  set (p0 := mkPool (<[newpath:=mkAspath 0 segs]> (heap p)) (table p)).
  assert (Hv0 : heap p0 !! old = Some v).
  { unfold p0. cbn [heap]. by rewrite lookup_insert_ne. }
  destruct (aspath_unintern_spec p0 old v Hnd Hin Hv0) as (Ho & Hfr1 & Ht1 & _);
    [|done|].
  { intros l v' Hl Hv' Hs. unfold p0 in Hv'. cbn [heap] in Hv'.
    rewrite lookup_insert_ne in Hv' by (by intros ->).
    apply (Huniq l old v' v); try done. cbn. by apply bool_decide_eq_true. }
  destruct (aspath_unintern old p0) as [o p1]. cbn [snd] in Ho, Hfr1, Ht1.
  assert (Hn1 : heap p1 !! newpath = Some (mkAspath 0 segs)).
  { rewrite Hfr1 by done. unfold p0. cbn [heap]. by rewrite lookup_insert_eq. }
  assert (Hnt1 : ~ In newpath (table p1)).
  { rewrite Ht1. by intros [? _]. }
  destruct (aspath_intern_spec p1 newpath segs Hn1 Hnt1)
    as (vi & Hi & Hsi & Hcase & Hfr2 & Ht2).
  destruct (aspath_intern newpath p1) as [i p2]. cbn [fst snd] in *.
  assert (Hp0 : forall l, l <> newpath -> heap p0 !! l = heap p !! l).
  { intros l Hl. unfold p0. cbn [heap]. by rewrite lookup_insert_ne. }
  split_and!.
  - apply Ht2. by left.
  - by rewrite Hi.
  - unfold load_refcnt. rewrite Hi. cbn.
    destruct Hcase as [[_ ->] | (Hin' & Hit & Hvi & _)]; [cbn; lia|].
    assert (Hio : i <> old -> 0 <= as_refcnt vi).
    { intros Hio. rewrite Hfr1, Hp0 in Hvi by done.
      apply (Hcnt _ _ Hvi). }
    destruct (decide (i = old)) as [->|Hio']; [|specialize (Hio Hio'); lia].
    rewrite Ho in Hvi. destruct (as_refcnt v =? 1); [done|].
    injection Hvi as <-. cbn. lia.
  - intros H1. rewrite H1 in Ho. cbn in Ho.
    assert (Hio : old <> i).
    { destruct Hcase as [[-> _] | (_ & Hit & _)]; [done|].
      apply Ht1 in Hit as [_ Hit]. intros <-. by apply Hit. }
    split.
    + by rewrite Hfr2, Ho.
    + rewrite Ht2. intros [? | Hot]; [done|].
      apply Ht1 in Hot as [_ Hot]. by apply Hot.
  - intros H1.
    replace (as_refcnt v =? 1) with false in Ho
      by (symmetry; apply Z.eqb_neq; lia).
    split.
    + case_bool_decide as Hio.
      * subst i. rewrite Hi.
        destruct Hcase as [[? _] | (_ & _ & Hvi & _)]; [done|].
        rewrite Ho in Hvi. injection Hvi as <-. cbn in *. by rewrite Hsi.
      * rewrite Hfr2, Ho by done. do 2 f_equal. lia.
    + apply Ht2. right. apply Ht1. split; [done|lia].
  - intros l Hlo Hli [vl Hvl].
    assert (Hln : l <> newpath) by (intros ->; congruence).
    split.
    + by rewrite Hfr2, Hfr1, Hp0.
    + intros Hl. apply Ht2. right. apply Ht1. split; [done|]. by intros _.
Qed.

(** C4: a peer without the 4-byte-AS capability sent AS-Path, Aggregator
    and AS4-Aggregator.  When the Aggregator's AS is not AS_TRANS the
    reconciliation returns Proceed with the whole parser state as it was:
    aggregator fields and AS path unchanged, AS4-Aggregator and AS4-Path
    ignored.  When it is AS_TRANS, the AS4-Aggregator's AS and address are
    stored as the aggregator; with no AS4-Path nothing else changes, and
    with an AS4-Path the path built by [aspath_reconcile_as4] from the two
    replaces the AS path.  The attribute set then points at the merged
    path, which is in the AS-path table, has the merged segments and is
    held at least once.  The old path, an entry of the table held at least
    once, is released: it has one holder fewer, and when that was its only
    holder it is taken out of the table and freed.  No other path of the
    table is touched. *)
Theorem bgp_attr_munge_as4_attrs_both_aggregators `{Collaborators}
    (pr : peer) (as4_path : option loc) (as4_aggregator as4_aggregator_addr : Z)
    (ps : pstate) (old : loc) (attre : attr_extra) :
  CHECK_FLAG (cap pr) PEER_CAP_AS4_RCV = false ->
  aspath (ps_attr ps) = Some old ->
  attr_present (ps_attr ps) BGP_ATTR_AGGREGATOR = true ->
  attr_present (ps_attr ps) BGP_ATTR_AS4_AGGREGATOR = true ->
  extra (ps_attr ps) = Some attre ->
  let munge := bgp_attr_munge_as4_attrs pr as4_path as4_aggregator
                 as4_aggregator_addr ps in
  let a' := attr_set_extra (ps_attr ps)
              (Some (extra_set_aggregator attre as4_aggregator
                       as4_aggregator_addr)) in
  let tbl := ashash (ps_world ps) in
  (aggregator_as attre <> BGP_AS_TRANS ->
   munge = Some (BGP_ATTR_PARSE_PROCEED, ps))
  /\ (aggregator_as attre = BGP_AS_TRANS ->
      (attr_present (ps_attr ps) BGP_ATTR_AS4_PATH = false ->
       munge = Some (BGP_ATTR_PARSE_PROCEED, with_attr ps a'))
      /\ (attr_present (ps_attr ps) BGP_ATTR_AS4_PATH = true ->
          forall p4 segs segs4,
            as4_path = Some p4 ->
            aspath_segments (ps_world ps) old = Some segs ->
            aspath_segments (ps_world ps) p4 = Some segs4 ->
            let merged := aspath_reconcile_as4 segs segs4 in
            let r := aspath_replace tbl old merged in
            munge = Some (BGP_ATTR_PARSE_PROCEED,
                          with_world
                            (with_attr ps (attr_set_aspath a' (Some (fst r))))
                            (with_ashash (ps_world ps) (snd r)))
            /\ In (fst r) (table (snd r))
            /\ segments <$> heap (snd r) !! fst r = Some merged
            /\ (table_wf tbl -> counts_ok tbl -> In old (table tbl) ->
                forall refs, heap tbl !! old = Some (mkAspath refs segs) ->
                1 <= refs ->
                0 < load_refcnt (snd r) (fst r)
                /\ (refs = 1 ->
                    heap (snd r) !! old = None /\ ~ In old (table (snd r)))
                /\ (1 < refs ->
                    heap (snd r) !! old
                    = Some (mkAspath
                              (refs - 1
                               + (if bool_decide (fst r = old) then 1 else 0))
                              segs)
                    /\ In old (table (snd r)))
                /\ (forall l, l <> old -> l <> fst r ->
                    is_Some (heap tbl !! l) ->
                    heap (snd r) !! l = heap tbl !! l
                    /\ (In l (table tbl) -> In l (table (snd r))))))).
Proof.
  intros Hcap Hasp Hagg Has4 Hext munge a' tbl.
  unfold munge, bgp_attr_munge_as4_attrs.
  unfold attr_present in *. rewrite Hasp, Hcap, Has4, Hagg, Hext.
  split.
  - intros Hne. apply Z.eqb_neq in Hne. rewrite Hne. simpl.
    destruct ps as [a s n w]. done.
  - intros Heq. apply Z.eqb_eq in Heq. rewrite Heq. cbn [negb].
    fold a'. cbn [flag a' attr_set_extra]. split.
    + intros Hno. rewrite Hno. done.
    + intros Hyes p4 segs segs4 -> Hs Hs4. cbv zeta.
      set (merged := aspath_reconcile_as4 segs segs4).
      pose proof (aspath_replace_interned tbl old merged) as Hi.
      pose proof (fun refs => aspath_replace_spec tbl old (mkAspath refs segs)
                                merged) as Hr.
      cbv zeta in Hr. cbn [as_refcnt segments] in Hr.
      rewrite Hyes. cbn [negb andb]. rewrite Hs. simpl. rewrite Hs4.
      fold merged. fold tbl.
      destruct (aspath_replace tbl old merged) as [interned p].
      split; [done|].
      destruct Hi as [Hi1 Hi2].
      { unfold aspath_segments in Hs. fold tbl in Hs.
        destruct (heap tbl !! old); [by eexists|done]. }
      split; [exact Hi1|]. split; [exact Hi2|].
      intros Hwf Hcnt Hin refs Hv Hrefs.
      destruct (Hr refs Hwf Hcnt Hin Hv Hrefs)
        as ((_ & _ & Hpos) & Hone & Hmore & Hframe).
      split; [exact Hpos|]. split; [exact Hone|]. split; [exact Hmore|].
      exact Hframe.
Qed.

(** The AS-path table of [as4_world] is in shape. *)
Lemma as4_world_table_wf : table_wf (ashash as4_world).
Proof.
  split_and!.
  - cbn. apply NoDup_cons. split; [|apply NoDup_singleton].
    rewrite list_elem_of_In. by intros [? | []].
  - intros l [<- | [<- | []]]; by eexists.
  - intros l l' v v' [<- | [<- | []]] [<- | [<- | []]] Hv Hv' Hc; try done.
    + injection Hv as <-. injection Hv' as <-. done.
    + injection Hv as <-. injection Hv' as <-. done.
Qed.

Lemma as4_world_ashash_counts_ok : counts_ok (ashash as4_world).
Proof.
  unfold counts_ok, as4_world. simpl.
  apply map_Forall_insert_2; [simpl; lia|].
  apply map_Forall_insert_2; [simpl; lia|].
  apply map_Forall_empty.
Qed.

Lemma bgp_attr_munge_as4_attrs_both_aggregators_witness :
  let pr := peer_of_sort BGP_PEER_EBGP 0 in
  let r := aspath_replace (ashash as4_world) 1%positive
             [mkSeg AS_SEQUENCE [70000]] in
  CHECK_FLAG (cap pr) PEER_CAP_AS4_RCV = false
  /\ aspath (ps_attr (as4_state 65002)) = Some 1%positive
  /\ attr_present (ps_attr (as4_state 65002)) BGP_ATTR_AGGREGATOR = true
  /\ attr_present (ps_attr (as4_state 65002)) BGP_ATTR_AS4_AGGREGATOR = true
  /\ extra (ps_attr (as4_state 65002)) = Some (as4_extra 65002)
  /\ bgp_attr_munge_as4_attrs (H := example_collaborators) pr (Some 2%positive)
       70000 0x0a000007 (as4_state 65002)
     = Some (BGP_ATTR_PARSE_PROCEED, as4_state 65002)
  /\ munge_view
       (bgp_attr_munge_as4_attrs (H := example_collaborators) pr (Some 2%positive)
          70000 0x0a000007 (as4_state BGP_AS_TRANS))
     = Some (BGP_ATTR_PARSE_PROCEED, 70000, 0x0a000007,
             [mkSeg AS_SEQUENCE [70000]])
  /\ run_world_of
       (bgp_attr_munge_as4_attrs (H := example_collaborators) pr (Some 2%positive)
          70000 0x0a000007 (as4_state BGP_AS_TRANS))
     = Some (with_ashash as4_world (snd r))
  /\ heap (snd r) !! 1%positive = None
  /\ ~ In 1%positive (table (snd r))
  /\ 0 < load_refcnt (snd r) (fst r).
Proof.
  intros pr r.
  split; [reflexivity|]. split; [reflexivity|]. split; [reflexivity|].
  split; [reflexivity|]. split; [reflexivity|].
  destruct (bgp_attr_munge_as4_attrs_both_aggregators (H := example_collaborators)
              pr (Some 2%positive) 70000 0x0a000007 (as4_state 65002)
              1%positive (as4_extra 65002)
              eq_refl eq_refl eq_refl eq_refl eq_refl) as [Hreal _].
  destruct (bgp_attr_munge_as4_attrs_both_aggregators (H := example_collaborators)
              pr (Some 2%positive) 70000 0x0a000007 (as4_state BGP_AS_TRANS)
              1%positive (as4_extra BGP_AS_TRANS)
              eq_refl eq_refl eq_refl eq_refl eq_refl) as [_ Htrans].
  split; [apply Hreal; discriminate|].
  destruct (Htrans eq_refl) as [_ Hpath].
  destruct (Hpath eq_refl 2%positive
              [mkSeg AS_SEQUENCE [65002; 23456]] [mkSeg AS_SEQUENCE [70000]]
              eq_refl eq_refl eq_refl) as (Hm & _ & _ & Hrel).
  destruct (Hrel as4_world_table_wf as4_world_ashash_counts_ok
              (or_introl eq_refl) 1 eq_refl ltac:(lia))
    as (Hpos & Hone & _ & _).
  destruct (Hone eq_refl) as [Hfreed Hout].
  split; [rewrite Hm; vm_compute; reflexivity|].
  split; [rewrite Hm; reflexivity|].
  split; [exact Hfreed|]. split; [exact Hout|]. exact Hpos.
Defined.

(** ** The equality of attribute sets is an equivalence *)

Lemma memcmp_eq_trans a b c n :
  memcmp_eq a b n = true -> memcmp_eq b c n = true -> memcmp_eq a c n = true.
Proof.
  unfold memcmp_eq. rewrite !bool_decide_eq_true. congruence.
Qed.

Lemma ptr_eq_spec p q : ptr_eq p q = true <-> p = q.
Proof. unfold ptr_eq. apply bool_decide_eq_true. Qed.

Lemma encap_covered_trans h1 h2 h3 :
  encap_covered h1 h2 = true -> encap_covered h2 h3 = true ->
  encap_covered h1 h3 = true.
Proof.
  rewrite !encap_covered_spec. intros H12 H23 p Hp.
  destruct (H12 p Hp) as (q & Hq & Hpq).
  destruct (H23 q Hq) as (r & Hr & Hqr).
  exists r. split; [done|]. eapply subtlv_match_trans; eassumption.
Qed.

Lemma encap_same_sym h1 h2 : encap_same h1 h2 = encap_same h2 h1.
Proof. rewrite !encap_same_covered. apply andb_comm. Qed.

Lemma encap_same_trans h1 h2 h3 :
  encap_same h1 h2 = true -> encap_same h2 h3 = true -> encap_same h1 h3 = true.
Proof.
  rewrite !encap_same_covered, !andb_true_iff.
  intros [H12 H21] [H23 H32]. split; eapply encap_covered_trans; eassumption.
Qed.

Lemma attr_extra_cmp_spec e1 e2 :
  attr_extra_cmp e1 e2 = true <->
  aggregator_as e1 = aggregator_as e2
  /\ aggregator_addr e1 = aggregator_addr e2
  /\ weight e1 = weight e2
  /\ priority e1 = priority e2
  /\ tag e1 = tag e2
  /\ mp_nexthop_len e1 = mp_nexthop_len e2
  /\ memcmp_eq (mp_nexthop_global e1) (mp_nexthop_global e2) 16 = true
  /\ memcmp_eq (mp_nexthop_local e1) (mp_nexthop_local e2) 16 = true
  /\ mp_nexthop_global_in e1 = mp_nexthop_global_in e2
  /\ ecommunity e1 = ecommunity e2
  /\ lcommunity e1 = lcommunity e2
  /\ cluster e1 = cluster e2
  /\ transit e1 = transit e2
  /\ encap_tunneltype e1 = encap_tunneltype e2
  /\ encap_same (encap_subtlvs e1) (encap_subtlvs e2) = true
  /\ originator_id e1 = originator_id e2.
Proof.
  unfold attr_extra_cmp.
  rewrite !andb_true_iff, !Z.eqb_eq, !ptr_eq_spec. tauto.
Qed.

Lemma attr_extra_cmp_sym e1 e2 :
  attr_extra_cmp e1 e2 = true -> attr_extra_cmp e2 e1 = true.
Proof.
  rewrite !attr_extra_cmp_spec.
  rewrite (memcmp_eq_sym (mp_nexthop_global e2)),
          (memcmp_eq_sym (mp_nexthop_local e2)),
          (encap_same_sym (encap_subtlvs e2)).
  intuition congruence.
Qed.

Lemma attr_extra_cmp_trans e1 e2 e3 :
  attr_extra_cmp e1 e2 = true -> attr_extra_cmp e2 e3 = true ->
  attr_extra_cmp e1 e3 = true.
Proof.
  rewrite !attr_extra_cmp_spec.
  intros (A1 & A2 & A3 & A4 & A5 & A6 & A7 & A8 & A9 & A10 & A11 & A12 & A13
          & A14 & A15 & A16)
         (B1 & B2 & B3 & B4 & B5 & B6 & B7 & B8 & B9 & B10 & B11 & B12 & B13
          & B14 & B15 & B16).
  split_and!; try congruence.
  - eapply memcmp_eq_trans; eassumption.
  - eapply memcmp_eq_trans; eassumption.
  - eapply encap_same_trans; eassumption.
Qed.

Lemma attrhash_cmp_spec a1 a2 :
  attrhash_cmp a1 a2 = true <->
  flag a1 = flag a2 /\ origin a1 = origin a2 /\ nexthop a1 = nexthop a2
  /\ aspath a1 = aspath a2 /\ community a1 = community a2
  /\ med a1 = med a2 /\ local_pref a1 = local_pref a2
  /\ match extra a1, extra a2 with
     | Some e1, Some e2 => attr_extra_cmp e1 e2 = true
     | None, None => True
     | _, _ => False
     end.
Proof.
  unfold attrhash_cmp.
  destruct (_ && _) eqn:Hc.
  - rewrite !andb_true_iff, !Z.eqb_eq, !ptr_eq_spec in Hc.
    destruct (extra a1), (extra a2); intuition congruence.
  - split; [discriminate|]. intros (H1 & H2 & H3 & H4 & H5 & H6 & H7 & _).
    rewrite <- Hc. rewrite !andb_true_iff, !Z.eqb_eq, !ptr_eq_spec. tauto.
Qed.

Lemma attrhash_cmp_sym a1 a2 :
  attrhash_cmp a1 a2 = true -> attrhash_cmp a2 a1 = true.
Proof.
  rewrite !attrhash_cmp_spec.
  intros (H1 & H2 & H3 & H4 & H5 & H6 & H7 & H8).
  split_and!; try congruence.
  destruct (extra a1), (extra a2); try done. by apply attr_extra_cmp_sym.
Qed.

Lemma attrhash_cmp_trans a1 a2 a3 :
  attrhash_cmp a1 a2 = true -> attrhash_cmp a2 a3 = true ->
  attrhash_cmp a1 a3 = true.
Proof.
  rewrite !attrhash_cmp_spec.
  intros (H1 & H2 & H3 & H4 & H5 & H6 & H7 & H8)
         (G1 & G2 & G3 & G4 & G5 & G6 & G7 & G8).
  split_and!; try congruence.
  destruct (extra a1), (extra a2), (extra a3); try done.
  eapply attr_extra_cmp_trans; eassumption.
Qed.

(** Equal keys find the same entry. *)
Lemma attrhash_cmp_same_class a1 a2 v :
  attrhash_cmp a1 a2 = true -> attrhash_cmp v a1 = attrhash_cmp v a2.
Proof.
  intros H12. apply eq_true_iff_eq. split; intros Hv.
  - eapply attrhash_cmp_trans; eassumption.
  - eapply attrhash_cmp_trans; [eassumption|]. by apply attrhash_cmp_sym.
Qed.

(** ** Re-interning an interned reference *)

Section Reintern.
Context {V : Type} `{Interned V}.
Hypothesis refcnt_set : forall (v : V) n, obj_refcnt (obj_set_refcnt v n) = n.

Lemma load_refcnt_incr l (pl : pool V) v :
  heap pl !! l = Some v ->
  load_refcnt (refcnt_incr l pl) l = obj_refcnt v + 1.
Proof.
  intros Hv. unfold refcnt_incr, store_refcnt, load_refcnt. simpl.
  rewrite lookup_alter_eq, Hv. simpl. by rewrite refcnt_set.
Qed.

Lemma intern_in_place_good : intern_good (intern_in_place (V := V)).
Proof.
  intros l pl l' pl' Hok. unfold intern_in_place.
  destruct (heap pl !! l) as [v|] eqn:Hv; [|intros [= <- <-]; by left].
  unfold hash_get. destruct (hash_lookup pl v) as [find|] eqn:Hl.
  - intros [= <- <-]. right.
    unfold hash_lookup in Hl. apply find_some in Hl as [_ Hh].
    unfold holds in Hh. destruct (heap pl !! find) as [v'|] eqn:Hf; [|done].
    assert (Hf' : heap (if bool_decide (find = l) then pl else xfree l pl)
                  !! find = Some v').
    { case_bool_decide; [done|]. simpl. by rewrite lookup_delete_ne. }
    rewrite (load_refcnt_incr _ _ _ Hf').
    specialize (Hok _ _ Hf). simpl in Hok. lia.
  - intros [= <- <-]. right. rewrite bool_decide_eq_true_2 by done.
    assert (Hf' : heap (mkPool (heap pl) (l :: table pl)) !! l = Some v) by done.
    rewrite (load_refcnt_incr _ _ _ Hf').
    specialize (Hok _ _ Hv). simpl in Hok. lia.
Qed.

Lemma intern_ref_stable intern p (pl : pool V) p' pl' :
  intern_good intern -> counts_ok pl ->
  intern_ref intern p pl = (p', pl') ->
  fst (intern_ref intern p' pl') = p'.
Proof.
  intros Hgood Hok. destruct p as [l|]; simpl; [|by intros [= <- <-]].
  destruct (load_refcnt pl l =? 0) eqn:Hz.
  - destruct (intern l pl) as [l' pl2] eqn:Hi. intros [= <- <-].
    destruct (Hgood _ _ _ _ Hok Hi) as [(Hn & -> & ->)|Hpos].
    + simpl. by rewrite Hz, Hi.
    + simpl. destruct (load_refcnt pl2 l' =? 0) eqn:Hz'; [lia|done].
  - intros [= <- <-]. simpl.
    apply Z.eqb_neq in Hz. unfold load_refcnt in Hz.
    destruct (heap pl !! l) as [v|] eqn:Hv; [|done].
    rewrite (load_refcnt_incr _ _ _ Hv).
    specialize (Hok _ _ Hv). simpl in Hok.
    destruct (_ =? 0) eqn:Hz'; [lia|done].
Qed.

End Reintern.

Lemma cluster_refcnt_set (v : cluster_list) n :
  obj_refcnt (obj_set_refcnt v n) = n.
Proof. done. Qed.

Lemma transit_refcnt_set (v : transit_t) n :
  obj_refcnt (obj_set_refcnt v n) = n.
Proof. done. Qed.

Lemma aspath_refcnt_set (v : aspath_t) n :
  obj_refcnt (obj_set_refcnt v n) = n.
Proof. done. Qed.

Lemma community_refcnt_set (v : community_t) n :
  obj_refcnt (obj_set_refcnt v n) = n.
Proof. done. Qed.

Lemma cluster_intern_good : intern_good cluster_intern.
Proof.
  intros l pl l' pl' Hok. unfold cluster_intern.
  destruct (heap pl !! l) as [v|] eqn:Hv; [|intros [= <- <-]; by left].
  unfold hash_get. destruct (hash_lookup pl v) as [find|] eqn:Hl.
  - intros [= <- <-]. right.
    unfold hash_lookup in Hl. apply find_some in Hl as [_ Hh].
    unfold holds in Hh. destruct (heap pl !! find) as [v'|] eqn:Hf; [|done].
    rewrite (load_refcnt_incr cluster_refcnt_set _ _ _ Hf).
    specialize (Hok _ _ Hf). simpl in Hok. simpl. lia.
  - destruct (cluster_hash_alloc v (heap pl)) as [c h] eqn:Ha.
    intros [= <- <-]. right.
    unfold cluster_hash_alloc in Ha. apply xmalloc_fresh in Ha as [_ ->].
    erewrite (load_refcnt_incr cluster_refcnt_set).
    2:{ simpl. apply lookup_insert_eq. }
    simpl. lia.
Qed.

(** A set that compares equal to an interned key carries interned
    references already: interning it leaves its references as they are. *)
Lemma bgp_attr_intern_key_stable a w l1 x1 w1 y :
  world_counts_ok w ->
  bgp_attr_intern a w = (l1, x1, w1) ->
  attrhash_cmp x1 y = true ->
  snd (fst (bgp_attr_intern y w1)) = y.
Proof.
  intros (Ha & Hc & He & Hl & Hcl & Ht).
  unfold bgp_attr_intern at 1.
  destruct (intern_ref aspath_intern _ _) as [asp p1] eqn:E1.
  destruct (intern_ref community_intern _ _) as [com p2] eqn:E2.
  cbn [extra attr_set_community attr_set_aspath community] in *.
  apply (intern_ref_stable aspath_refcnt_set) in E1;
    [|apply (intern_in_place_good aspath_refcnt_set)|done].
  cbn [comhash with_ashash] in E2.
  apply (intern_ref_stable community_refcnt_set) in E2;
    [|apply (intern_in_place_good community_refcnt_set)|done].
  destruct (extra a) as [attre|] eqn:Hxa.
  - destruct (intern_ref ecommunity_intern _ _) as [ec p3] eqn:E3.
    destruct (intern_ref lcommunity_intern _ _) as [lc p4] eqn:E4.
    destruct (intern_ref cluster_intern _ _) as [cl p5] eqn:E5.
    destruct (intern_ref transit_intern _ _) as [tr p6] eqn:E6.
    cbn [ecomhash lcomhash cluster_hash transit_hash attrhash
         with_transit_hash with_cluster_hash with_lcomhash
         with_ecomhash with_comhash with_ashash
         ecommunity lcommunity cluster transit
         extra_set_ecommunity extra_set_lcommunity extra_set_cluster
         extra_set_transit] in *.
    apply (intern_ref_stable community_refcnt_set) in E3;
      [|apply (intern_in_place_good community_refcnt_set)|done].
    apply (intern_ref_stable community_refcnt_set) in E4;
      [|apply (intern_in_place_good community_refcnt_set)|done].
    apply (intern_ref_stable cluster_refcnt_set) in E5;
      [|apply cluster_intern_good|done].
    apply (intern_ref_stable transit_refcnt_set) in E6;
      [|apply (intern_in_place_good transit_refcnt_set)|done].
    destruct (hash_get (attrhash w) _ _) as [find p].
    intros [= <- <- <-].
    rewrite attrhash_cmp_spec. cbn [aspath community extra attr_set_extra].
    intros (_ & _ & _ & Hasp & Hcom & _ & _ & Hex).
    destruct (extra y) as [ey|] eqn:Hey; [|done].
    apply attr_extra_cmp_spec in Hex.
    cbn [ecommunity lcommunity cluster transit] in Hex.
    destruct Hex as (_ & _ & _ & _ & _ & _ & _ & _ & _ & Hec & Hlc & Hcl' & Htr & _).
    simpl in Hasp, Hcom, Hec, Hlc, Hcl', Htr.
    unfold bgp_attr_intern.
    cbn [ashash comhash ecomhash lcomhash cluster_hash transit_hash attrhash
         with_attrhash with_transit_hash with_cluster_hash with_lcomhash
         with_ecomhash with_comhash with_ashash].
    rewrite <- Hasp.
    destruct (intern_ref aspath_intern asp p1) as [asp' p1']. simpl in E1. subst asp'.
    cbn [community attr_set_aspath]. rewrite <- Hcom.
    destruct (intern_ref community_intern com p2) as [com' p2']. simpl in E2. subst com'.
    cbn [extra attr_set_community attr_set_aspath]. rewrite Hey.
    rewrite <- Hec.
    destruct (intern_ref ecommunity_intern ec p3) as [ec' p3']. simpl in E3. subst ec'.
    cbn [lcommunity extra_set_ecommunity]. rewrite <- Hlc.
    destruct (intern_ref lcommunity_intern lc p4) as [lc' p4']. simpl in E4. subst lc'.
    cbn [cluster extra_set_lcommunity extra_set_ecommunity]. rewrite <- Hcl'.
    destruct (intern_ref cluster_intern cl p5) as [cl' p5']. simpl in E5. subst cl'.
    cbn [transit extra_set_cluster extra_set_lcommunity extra_set_ecommunity]. rewrite <- Htr.
    destruct (intern_ref transit_intern tr p6) as [tr' p6']. simpl in E6. subst tr'.
    destruct (hash_get _ _ _) as [find2 pp]. simpl.
    destruct y as [ya yc ye yr yf yn ym yl yo]. simpl in *. subst.
    destruct ey. simpl in *. by subst.
  - cbn [attrhash with_comhash with_ashash] in *.
    destruct (hash_get (attrhash w) _ _) as [find p].
    intros [= <- <- <-].
    rewrite attrhash_cmp_spec. cbn [aspath community extra].
    intros (_ & _ & _ & Hasp & Hcom & _ & _ & Hex).
    simpl in Hasp, Hcom, Hex. rewrite Hxa in Hex.
    destruct (extra y) as [ey|] eqn:Hey; [done|].
    unfold bgp_attr_intern.
    cbn [ashash comhash attrhash with_attrhash with_comhash with_ashash].
    rewrite <- Hasp.
    destruct (intern_ref aspath_intern asp p1) as [asp' p1']. simpl in E1. subst asp'.
    cbn [community attr_set_aspath]. rewrite <- Hcom.
    destruct (intern_ref community_intern com p2) as [com' p2']. simpl in E2. subst com'.
    cbn [extra attr_set_community attr_set_aspath]. rewrite Hey.
    destruct (hash_get _ _ _) as [find2 pp]. simpl.
    destruct y as [ya yc ye yr yf yn ym yl yo]. simpl in *. by subst.
Qed.

(** ** Equal attribute sets share one bucket and one canonical object *)

Lemma attrhash_key_make_cmp jhash_1word jhash k1 k2 k3 k4 w a1 a2 :
  attrhash_cmp a1 a2 = true ->
  attrhash_key_make jhash_1word jhash k1 k2 k3 k4 w a1
  = attrhash_key_make jhash_1word jhash k1 k2 k3 k4 w a2.
Proof.
  rewrite attrhash_cmp_spec.
  intros (H1 & H2 & H3 & H4 & H5 & H6 & H7 & H8).
  unfold attrhash_key_make. rewrite H2, H3, H4, H5, H6, H7.
  destruct (extra a1) as [e1|], (extra a2) as [e2|]; try done.
  apply attr_extra_cmp_spec in H8
    as (A1 & A2 & A3 & A4 & A5 & A6 & A7 & A8 & A9 & A10 & A11 & A12 & A13
        & _ & _ & A16).
  unfold memcmp_eq in A7, A8. apply bool_decide_eq_true in A7, A8.
  change (Z.to_nat 16) with 16%nat in A7, A8.
  by rewrite A1, A2, A3, A4, A5, A6, A7, A8, A9, A10, A11, A12, A13, A16.
Qed.

Lemma find_pointwise {A : Type} (f g : A -> bool) (l : list A) :
  (forall a, f a = g a) -> List.find f l = List.find g l.
Proof.
  intros Hfg. induction l as [|a l IH]; [done|].
  simpl. by rewrite Hfg, IH.
Qed.

Lemma holds_refcnt_incr (l : loc) (p : pool attr) y l' :
  holds (refcnt_incr l p) y l' = holds p y l'.
Proof.
  unfold holds, refcnt_incr, store_refcnt. simpl.
  destruct (decide (l = l')) as [->|Hne].
  - rewrite lookup_alter_eq. by destruct (heap p !! l').
  - by rewrite lookup_alter_ne.
Qed.

(** After [hash_get] under the key [x1] returned [l1], every key equal to
    [x1] finds [l1]. *)
Lemma attrhash_lookup_again (pl : pool attr) x1 l1 p y :
  hash_get pl x1 (bgp_attr_hash_alloc x1) = (l1, p) ->
  attrhash_cmp x1 y = true ->
  hash_lookup (refcnt_incr l1 p) y = Some l1.
Proof.
  intros Hg Heq. unfold hash_lookup.
  rewrite (find_pointwise _ (holds p y)) by apply holds_refcnt_incr.
  change (table (refcnt_incr l1 p)) with (table p).
  unfold hash_get in Hg. destruct (hash_lookup pl x1) as [l|] eqn:Hl.
  - injection Hg as -> ->. rewrite <- Hl. unfold hash_lookup.
    apply find_pointwise. intros l'. unfold holds.
    destruct (heap p !! l') as [v|]; [|done]. simpl.
    symmetry. by apply attrhash_cmp_same_class.
  - destruct (bgp_attr_hash_alloc x1 (heap pl)) as [l h] eqn:Ha.
    injection Hg as -> <-.
    unfold bgp_attr_hash_alloc in Ha. apply xmalloc_fresh in Ha as [_ ->].
    simpl table. apply find_head. unfold holds. simpl heap.
    rewrite lookup_insert_eq. simpl. by rewrite attrhash_cmp_alloc.
Qed.

(** Interning a set equal to the key of an earlier [bgp_attr_intern]
    returns the object that call returned. *)
Lemma bgp_attr_intern_equal_again a w l1 x1 w1 y :
  world_counts_ok w ->
  bgp_attr_intern a w = (l1, x1, w1) ->
  attrhash_cmp x1 y = true ->
  fst (fst (bgp_attr_intern y w1)) = l1
  /\ load_refcnt (attrhash (snd (bgp_attr_intern y w1))) l1
     = load_refcnt (attrhash w1) l1 + 1
  /\ table (attrhash (snd (bgp_attr_intern y w1))) = table (attrhash w1).
Proof.
  intros Hok H1 Heq.
  pose proof (bgp_attr_intern_key_stable _ _ _ _ _ _ Hok H1 Heq) as Hkey.
  apply bgp_attr_intern_attrhash in H1 as (p1 & Hg1 & Hw1).
  destruct (bgp_attr_intern y w1) as [[l2 y2] w2] eqn:H2.
  simpl in Hkey. subst y2.
  apply bgp_attr_intern_attrhash in H2 as (p2 & Hg2 & Hw2).
  pose proof (attrhash_lookup_again _ _ _ _ _ Hg1 Heq) as Hl.
  rewrite <- Hw1 in Hl. unfold hash_get in Hg2. rewrite Hl in Hg2.
  injection Hg2 as <- <-. simpl. split; [done|]. rewrite Hw2.
  split; [|done].
  unfold hash_lookup in Hl. apply find_some in Hl as [_ Hh].
  unfold holds in Hh. destruct (heap (attrhash w1) !! l1) as [v|] eqn:Hv; [|done].
  unfold refcnt_incr, store_refcnt, load_refcnt at 1. simpl.
  rewrite lookup_alter_eq. unfold load_refcnt. by rewrite Hv.
Qed.

Lemma encap_covered_perm h1 h2 :
  Permutation h1 h2 -> encap_covered h1 h2 = true.
Proof.
  intros Hp. apply encap_covered_spec. intros p Hin.
  exists p. split; [by eapply Permutation_in|apply subtlv_match_refl].
Qed.

Lemma attrhash_cmp_chain a e h :
  extra a = Some e ->
  attrhash_cmp a (attr_set_extra a (Some (extra_set_encap_subtlvs e h)))
  = encap_same (encap_subtlvs e) h.
Proof.
  intros He. unfold attrhash_cmp. simpl. rewrite He.
  rewrite !Z.eqb_refl, !ptr_eq_refl. simpl.
  unfold attr_extra_cmp. simpl.
  rewrite !Z.eqb_refl, !ptr_eq_refl, !memcmp_eq_refl. simpl.
  by rewrite andb_true_r.
Qed.

(** C6.  [attrhash_cmp], the equality of the attribute-set table, compares
    the encapsulation sub-TLV chains as sets whatever their order:
    [encap_same] holds exactly when every record of each chain has a
    record of the other chain with the same type, the same length and the
    same [length] octets of value; between two sets that differ in their
    chains only, [attrhash_cmp] is [encap_same] of the chains.  So a set
    and the set with its chain permuted compare equal, have the same hash
    key, and the second [bgp_attr_intern] returns the object of the first,
    held once more, without a new entry in the table. *)
Theorem attrhash_cmp_encap_set_equality :
  (forall h1 h2,
     encap_same h1 h2 = true <->
     (forall p, In p h1 -> exists q, In q h2
        /\ st_type p = st_type q /\ st_length p = st_length q
        /\ firstn (Z.to_nat (st_length p)) (st_value p)
           = firstn (Z.to_nat (st_length p)) (st_value q))
     /\ (forall q, In q h2 -> exists p, In p h1
        /\ st_type q = st_type p /\ st_length q = st_length p
        /\ firstn (Z.to_nat (st_length q)) (st_value q)
           = firstn (Z.to_nat (st_length q)) (st_value p)))
  /\ (forall a e h,
        extra a = Some e ->
        attrhash_cmp a (attr_set_extra a (Some (extra_set_encap_subtlvs e h)))
        = encap_same (encap_subtlvs e) h)
  /\ (forall a e h,
        extra a = Some e -> Permutation (encap_subtlvs e) h ->
        attrhash_cmp a (attr_set_extra a (Some (extra_set_encap_subtlvs e h)))
        = true)
  /\ (forall jhash_1word jhash k1 k2 k3 k4 w a1 a2,
        attrhash_cmp a1 a2 = true ->
        attrhash_key_make jhash_1word jhash k1 k2 k3 k4 w a1
        = attrhash_key_make jhash_1word jhash k1 k2 k3 k4 w a2)
  /\ (forall a w l1 x1 w1 e h,
        world_counts_ok w ->
        bgp_attr_intern a w = (l1, x1, w1) ->
        extra x1 = Some e -> Permutation (encap_subtlvs e) h ->
        let y := attr_set_extra x1 (Some (extra_set_encap_subtlvs e h)) in
        fst (fst (bgp_attr_intern y w1)) = l1
        /\ load_refcnt (attrhash (snd (bgp_attr_intern y w1))) l1
           = load_refcnt (attrhash w1) l1 + 1
        /\ table (attrhash (snd (bgp_attr_intern y w1))) = table (attrhash w1)).
Proof.
  assert (Hperm : forall a e h,
            extra a = Some e -> Permutation (encap_subtlvs e) h ->
            attrhash_cmp a (attr_set_extra a (Some (extra_set_encap_subtlvs e h)))
            = true).
  { intros a e h He Hp. rewrite (attrhash_cmp_chain _ _ _ He).
    rewrite encap_same_covered. apply andb_true_iff.
    split; apply encap_covered_perm; [done|by symmetry]. }
  split_and!.
  - intros h1 h2. rewrite encap_same_covered, andb_true_iff, !encap_covered_spec.
    split; intros [H12 H21]; split; intros p Hp.
    + destruct (H12 p Hp) as (q & Hq & Hm). exists q. split; [done|].
      by apply subtlv_match_spec.
    + destruct (H21 p Hp) as (q & Hq & Hm). exists q. split; [done|].
      by apply subtlv_match_spec.
    + destruct (H12 p Hp) as (q & Hq & Hm). exists q. split; [done|].
      by apply subtlv_match_spec.
    + destruct (H21 p Hp) as (q & Hq & Hm). exists q. split; [done|].
      by apply subtlv_match_spec.
  - apply attrhash_cmp_chain.
  - apply Hperm.
  - apply attrhash_key_make_cmp.
  - intros a w l1 x1 w1 e h Hok Hi He Hp y.
    eapply bgp_attr_intern_equal_again; [done|done|]. by apply Hperm.
Qed.

Lemma as4_world_counts_ok : world_counts_ok as4_world.
Proof.
  unfold world_counts_ok, counts_ok, as4_world. simpl.
  split_and!; try apply map_Forall_empty.
  apply map_Forall_insert_2; [simpl; lia|].
  apply map_Forall_insert_2; [simpl; lia|].
  apply map_Forall_empty.
Qed.

Lemma attrhash_cmp_encap_set_equality_witness :
  let a := encap_attr [encap_tlv_a; encap_tlv_b] in
  let y := encap_attr [encap_tlv_b; encap_tlv_a] in
  let r := bgp_attr_intern a as4_world in
  (world_counts_ok as4_world
   /\ r = (1%positive, a, snd r)
   /\ Permutation [encap_tlv_a; encap_tlv_b] [encap_tlv_b; encap_tlv_a])
  /\ fst (fst (bgp_attr_intern y (snd r))) = 1%positive
  /\ load_refcnt (attrhash (snd (bgp_attr_intern y (snd r)))) 1%positive
     = load_refcnt (attrhash (snd r)) 1%positive + 1
  /\ table (attrhash (snd (bgp_attr_intern y (snd r)))) = table (attrhash (snd r)).
Proof.
  intros a y r.
  assert (Hr : r = (1%positive, a, snd r)) by (vm_compute; reflexivity).
  split; [split_and!; [apply as4_world_counts_ok|exact Hr|apply perm_swap]|].
  exact (proj2 (proj2 (proj2 (proj2 attrhash_cmp_encap_set_equality)))
           a as4_world 1%positive a (snd r)
           (extra_set_encap_subtlvs
              (extra_set_encap_tunneltype bgp_attr_extra_new 1)
              [encap_tlv_a; encap_tlv_b])
           [encap_tlv_b; encap_tlv_a]
           as4_world_counts_ok Hr eq_refl (perm_swap _ _ _)).
Defined.

(** ** The encoder appends to the stream *)

Lemma put_put b1 b2 s : put b2 (put b1 s) = put (b1 ++ b2) s.
Proof.
  unfold put. simpl. f_equal; [by rewrite app_assoc|].
  rewrite length_app. lia.
Qed.

Lemma put_nil s : put [] s = s.
Proof.
  destruct s as [d g e]. unfold put. simpl. f_equal; [apply app_nil_r|lia].
Qed.

Lemma stream_wf_put b s : stream_wf s -> stream_wf (put b s).
Proof.
  unfold stream_wf, put. simpl. intros ->. rewrite length_app. lia.
Qed.

Lemma extends_refl s : extends s s.
Proof. exists []. by rewrite put_nil. Qed.

Lemma extends_put b s : extends s (put b s).
Proof. by exists b. Qed.

Lemma extends_trans s1 s2 s3 : extends s1 s2 -> extends s2 s3 -> extends s1 s3.
Proof.
  intros [b1 ->] [b2 ->]. exists (b1 ++ b2). apply put_put.
Qed.

Lemma extends_wf s s' : stream_wf s -> extends s s' -> stream_wf s'.
Proof. intros Hwf [b ->]. by apply stream_wf_put. Qed.

Lemma extends_endp s s' : extends s s' -> endp s <= endp s'.
Proof. intros [b ->]. unfold put. simpl. lia. Qed.

(** A patch behind the end of [s0] changes appended octets only. *)
Lemma extends_putw_at s0 s' pos v :
  stream_wf s0 -> extends s0 s' -> endp s0 <= pos ->
  extends s0 (stream_putw_at s' pos v).
Proof.
  intros Hwf [b ->] Hpos. unfold stream_wf in Hwf.
  exists (<[(Z.to_nat pos - length (data s0))%nat := (v / 256) mod 256]>
            (<[(Z.to_nat (pos + 1) - length (data s0))%nat := v mod 256]> b)).
  unfold stream_putw_at, put. simpl. f_equal.
  - rewrite (insert_app_r_alt _ _ (Z.to_nat (pos + 1))) by lia.
    by rewrite insert_app_r_alt by lia.
  - rewrite !length_insert. done.
Qed.

(** The two-pass length patch-back: the length field written as 0 and
    patched after the body is the length field written at once. *)
Lemma putw_at_patch s hd body n :
  stream_wf s ->
  stream_putw_at (put body (stream_putw (put hd s) 0))
                 (stream_get_endp (put hd s)) n
  = put (hd ++ w16 n ++ body) s.
Proof.
  intros Hwf. unfold stream_wf in Hwf.
  unfold stream_putw_at, stream_putw, stream_get_endp, put, w16. simpl.
  f_equal.
  - rewrite Hwf.
    replace (Z.to_nat (Z.of_nat (length (data s)) + Z.of_nat (length hd)))
      with (length (data s ++ hd) + 0)%nat by (rewrite length_app; lia).
    replace (Z.to_nat (Z.of_nat (length (data s)) + Z.of_nat (length hd) + 1))
      with (length (data s ++ hd) + 1)%nat by (rewrite length_app; lia).
    rewrite <- !app_assoc.
    rewrite (app_assoc (data s) hd).
    rewrite !insert_app_r. simpl. by rewrite <- !app_assoc.
  - rewrite !length_app. simpl. lia.
Qed.

Lemma put_as_path_eq s path :
  stream_wf s -> put_as_path s path false = put (as_path_attr path) s.
Proof.
  intros Hwf. unfold put_as_path, aspath_put, stream_putc.
  rewrite put_put. rewrite (putw_at_patch _ _ _ _ Hwf). done.
Qed.

Lemma put_as4_path_eq s path :
  stream_wf s ->
  put_as4_path s (aspath_delete_confed_seq path) = put (as4_path_attr path) s.
Proof.
  intros Hwf. unfold put_as4_path, aspath_put, stream_putc.
  rewrite put_put. rewrite (putw_at_patch _ _ _ _ Hwf). done.
Qed.

Ltac put_unfold :=
  unfold stream_put_prefix, put_sized_header in *;
  unfold stream_putc, stream_putw, stream_putl, stream_put_ipv4,
    stream_put_in_addr, stream_put in *.

Ltac extends_tac :=
  put_unfold;
  repeat match goal with
         | |- context [if ?c then _ else _] => destruct c
         end;
  rewrite ?put_put;
  first [apply extends_refl | apply extends_put].

Ltac extends_chain :=
  first [apply extends_refl
        | eapply extends_trans; [|apply extends_put]; extends_chain].

Lemma fold_left_extends {A : Type} (f : stream -> A -> stream) l s :
  (forall s x, extends s (f s x)) -> extends s (fold_left f l s).
Proof.
  intros Hf. revert s. induction l as [|x l IH]; intros s; simpl.
  - apply extends_refl.
  - eapply extends_trans; [apply Hf|apply IH].
Qed.

Lemma bgp_packet_mpattr_start_extends s afi safi a s' sizep :
  bgp_packet_mpattr_start s afi safi a = Some (s', sizep) ->
  extends s s' /\ endp s <= sizep.
Proof.
  unfold bgp_packet_mpattr_start, stream_get_endp. intros Hs.
  apply bind_Some in Hs as (s1 & Hnh & [= <- <-]).
  split; [|put_unfold; unfold put; simpl; lia].
  assert (extends
            (stream_putc
               (stream_putw
                  (stream_putw
                     (stream_putc
                        (stream_putc s (Z.lor BGP_ATTR_FLAG_OPTIONAL BGP_ATTR_FLAG_EXTLEN))
                        BGP_ATTR_MP_REACH_NLRI) 0) afi)
               (if safi =? SAFI_MPLS_VPN then SAFI_MPLS_LABELED_VPN else safi)) s1)
    as Hx.
  { repeat match type of Hnh with
           | (if ?c then _ else _) = _ => destruct c
           | Some (if ?c then _ else _) = _ => destruct c
           | mbind _ _ = Some _ =>
               let attre := fresh "attre" in
               apply bind_Some in Hnh as (attre & _ & Hnh)
           end;
      injection Hnh as <-; put_unfold; extends_chain. }
  eapply extends_trans; [|eapply extends_trans; [apply Hx|]];
    put_unfold; rewrite ?put_put; apply extends_put.
Qed.

Lemma bgp_packet_mpattr_prefix_extends s afi safi p prd tag :
  extends s (bgp_packet_mpattr_prefix s afi safi p prd tag).
Proof. unfold bgp_packet_mpattr_prefix. extends_tac. Qed.

Lemma bgp_packet_mpattr_tea_extends s a :
  extends s (bgp_packet_mpattr_tea s a).
Proof.
  unfold bgp_packet_mpattr_tea.
  destruct (extra a) as [attre|]; [|apply extends_refl].
  destruct (encap_subtlvs attre) as [|st sts]; [apply extends_refl|].
  destruct (0xffff <? _); [apply extends_refl|].
  eapply extends_trans; [|apply fold_left_extends; intros; extends_tac].
  extends_tac.
Qed.

Lemma put_nexthop_extends s pr a afi safi : extends s (put_nexthop s pr a afi safi).
Proof. unfold put_nexthop. extends_tac. Qed.

Lemma put_med_extends s a : extends s (put_med s a).
Proof. unfold put_med. extends_tac. Qed.

Lemma put_local_pref_extends s pr a : extends s (put_local_pref s pr a).
Proof. unfold put_local_pref. extends_tac. Qed.

Lemma put_atomic_extends s a : extends s (put_atomic s a).
Proof. unfold put_atomic. extends_tac. Qed.

Lemma put_community_extends s w pr a afi safi s' :
  put_community s w pr a afi safi = Some s' -> extends s s'.
Proof.
  unfold put_community. destruct (_ && _).
  - intros Hs. apply bind_Some in Hs as (l & _ & Hs).
    apply bind_Some in Hs as (c & _ & [= <-]). extends_tac.
  - intros [= <-]. apply extends_refl.
Qed.

Lemma put_large_community_extends s w pr a afi safi s' :
  put_large_community s w pr a afi safi = Some s' -> extends s s'.
Proof.
  unfold put_large_community.
  destruct (extra a) as [attre|]; [|intros [= <-]; apply extends_refl].
  destruct (_ && _).
  - intros Hs. apply bind_Some in Hs as (l & _ & Hs).
    apply bind_Some in Hs as (c & _ & [= <-]). extends_tac.
  - intros [= <-]. apply extends_refl.
Qed.

Lemma put_route_reflector_extends s w b pr from a s' :
  put_route_reflector s w b pr from a = Some s' -> extends s s'.
Proof.
  unfold put_route_reflector.
  destruct from as [from|]; [|intros [= <-]; apply extends_refl].
  destruct (_ && _); [|intros [= <-]; apply extends_refl].
  intros Hs. apply bind_Some in Hs as (s1 & Hs1 & Hs).
  assert (extends s s1) as Hx1.
  { destruct (CHECK_FLAG (flag a) _).
    - apply bind_Some in Hs1 as (attre & _ & [= <-]). extends_tac.
    - injection Hs1 as <-. extends_tac. }
  eapply extends_trans; [apply Hx1|].
  destruct (extra a ≫= cluster) as [l|].
  - apply bind_Some in Hs as (c & _ & [= <-]). extends_tac.
  - injection Hs as <-. extends_tac.
Qed.

Lemma put_ext_communities_extends s w pr a afi safi s' :
  put_ext_communities s w pr a afi safi = Some s' -> extends s s'.
Proof.
  unfold put_ext_communities.
  destruct (_ && _); [|intros [= <-]; apply extends_refl].
  intros Hs. apply bind_Some in Hs as (attre & _ & Hs).
  apply bind_Some in Hs as (l & _ & Hs).
  apply bind_Some in Hs as (c & _ & Hs).
  destruct (_ || _).
  - injection Hs as <-. extends_tac.
  - destruct (negb _); injection Hs as <-; [|apply extends_refl].
    eapply extends_trans; [|apply fold_left_extends; intros; extends_tac].
    extends_tac.
Qed.

Lemma put_transit_extends s w a s' :
  put_transit s w a = Some s' -> extends s s'.
Proof.
  unfold put_transit. destruct (extra a ≫= transit) as [l|].
  - intros Hs. apply bind_Some in Hs as (t & _ & [= <-]). extends_tac.
  - intros [= <-]. apply extends_refl.
Qed.

Lemma put_aggregator_eq s a s' f :
  put_aggregator s a false = Some (s', f) ->
  s' = put (aggregator_octets a) s
  /\ forall t, (if f then put_as4_aggregator t a else Some t)
               = Some (put (as4_aggregator_octets a) t).
Proof.
  unfold put_aggregator, aggregator_octets, as4_aggregator_octets,
    put_as4_aggregator.
  destruct (CHECK_FLAG (flag a) _).
  - intros Hs. apply bind_Some in Hs as (attre & He & Hs). rewrite He.
    unfold as_trans, BGP_AS_MAX. simpl.
    destruct (65535 <? aggregator_as attre); injection Hs as <- <-;
      put_unfold; rewrite ?put_put; (split; [done|]); intros t;
      by rewrite ?put_put, ?put_nil.
  - intros [= <- <-]. rewrite put_nil. split; [done|]. intros t.
    by rewrite put_nil.
Qed.

(** For a peer without the 4-octet AS capability, what
    [bgp_packet_attribute] appends to the stream, in order. *)
Lemma bgp_packet_attribute_octets `{Collaborators} w b pr s a p afi safi from prd tag s' n :
  stream_wf s ->
  CHECK_FLAG (cap pr) PEER_CAP_AS4_RCV = false ->
  bgp_packet_attribute w b pr s a p afi safi from prd tag = Some (s', n) ->
  exists asl segs pre m1 m2 post,
    aspath a = Some asl /\ aspath_segments w asl = Some segs
    /\ s' = put (pre ++ as_path_attr (packet_aspath b pr afi safi segs)
                 ++ m1 ++ aggregator_octets a ++ m2
                 ++ as4_path_octets (packet_aspath b pr afi safi segs)
                 ++ as4_aggregator_octets a ++ post) s
    /\ n = endp s' - endp s.
Proof.
  intros Hwf Hcap Hrun. unfold bgp_packet_attribute in Hrun.
  rewrite Hcap in Hrun. cbn [negb andb] in Hrun.
  apply bind_Some in Hrun as (s1 & Hmp & Hrun).
  assert (Hx1 : extends s s1).
  { destruct p as [pfx|]; [|injection Hmp as <-; apply extends_refl].
    destruct (negb _); [|injection Hmp as <-; apply extends_refl].
    apply bind_Some in Hmp as ([s0 sizep] & Hst & [= <-]).
    apply bgp_packet_mpattr_start_extends in Hst as [Hx0 Hpos].
    unfold bgp_packet_mpattr_end. simpl fst. simpl snd.
    apply extends_putw_at; [done| |done].
    eapply extends_trans; [apply Hx0|apply bgp_packet_mpattr_prefix_extends]. }
  apply bind_Some in Hrun as (asl & Hasl & Hrun).
  apply bind_Some in Hrun as (segs & Hsegs & Hrun).
  exists asl, segs.
  set (path := packet_aspath b pr afi safi segs) in *.
  destruct Hx1 as [b1 ->].
  unfold stream_putc in Hrun at 1 2 3 4. rewrite !put_put in Hrun.
  rewrite put_as_path_eq in Hrun by by apply stream_wf_put.
  rewrite put_put in Hrun.
  match type of Hrun with
  | context [put_nexthop ?x pr a afi safi] =>
      destruct (put_nexthop_extends x pr a afi safi) as [bn Hn];
      rewrite Hn in Hrun; clear Hn
  end.
  rewrite put_put in Hrun.
  match type of Hrun with
  | context [put_med ?x a] =>
      destruct (put_med_extends x a) as [bm Hn];
      rewrite Hn in Hrun; clear Hn
  end.
  rewrite put_put in Hrun.
  match type of Hrun with
  | context [put_local_pref ?x pr a] =>
      destruct (put_local_pref_extends x pr a) as [bl Hn];
      rewrite Hn in Hrun; clear Hn
  end.
  rewrite put_put in Hrun.
  match type of Hrun with
  | context [put_atomic ?x a] =>
      destruct (put_atomic_extends x a) as [ba Hn];
      rewrite Hn in Hrun; clear Hn
  end.
  rewrite put_put in Hrun.
  apply bind_Some in Hrun as ([s8 f] & Hagg & Hrun).
  apply put_aggregator_eq in Hagg as [-> Has4agg].
  rewrite put_put in Hrun. cbn [fst snd] in Hrun.
  apply bind_Some in Hrun as (s9 & Hc & Hrun).
  apply put_community_extends in Hc as [bc ->].
  apply bind_Some in Hrun as (s10 & Hc & Hrun).
  apply put_large_community_extends in Hc as [blc ->].
  apply bind_Some in Hrun as (s11 & Hc & Hrun).
  apply put_route_reflector_extends in Hc as [brr ->].
  apply bind_Some in Hrun as (s12 & Hc & Hrun).
  apply put_ext_communities_extends in Hc as [bec ->].
  rewrite !put_put in Hrun.
  rewrite Has4agg in Hrun. simpl in Hrun.
  assert (Has4 : forall t, stream_wf t ->
            (if aspath_has_as4 path
             then put_as4_path t (aspath_delete_confed_seq path) else t)
            = put (as4_path_octets path) t).
  { intros t Ht. unfold as4_path_octets. destruct (aspath_has_as4 path).
    - by apply put_as4_path_eq.
    - by rewrite put_nil. }
  rewrite Has4 in Hrun by by apply stream_wf_put.
  rewrite !put_put in Hrun.
  match type of Hrun with
  | context [if ?c then bgp_packet_mpattr_tea ?x a else ?x] =>
      assert (Htea : extends x (if c then bgp_packet_mpattr_tea x a else x))
        by (destruct c; [apply bgp_packet_mpattr_tea_extends|apply extends_refl]);
      destruct Htea as [bt Htea]; rewrite Htea in Hrun; clear Htea
  end.
  rewrite put_put in Hrun.
  apply bind_Some in Hrun as (s16 & Htr & [= <- <-]).
  apply put_transit_extends in Htr as [btr ->]. rewrite put_put.
  exists (b1 ++ [BGP_ATTR_FLAG_TRANS mod 256; BGP_ATTR_ORIGIN mod 256;
                 1 mod 256; origin a mod 256]),
    (bn ++ bm ++ bl ++ ba), (bc ++ blc ++ brr ++ bec), (bt ++ btr).
  split_and!; try done.
  f_equal. by rewrite <- !app_assoc.
Qed.

Lemma aspath_bytes_as_trans path :
  aspath_bytes path false
  = flat_map (fun seg =>
                [seg_type seg mod 256; Z.of_nat (length (seg_as seg)) mod 256]
                ++ flat_map (fun as_ => w16 (as_trans as_)) (seg_as seg)) path.
Proof.
  unfold aspath_bytes. apply flat_map_ext. intros seg.
  unfold assegment_put. f_equal. apply flat_map_ext. intros as_.
  unfold as_put, as_trans. by destruct (BGP_AS_MAX <? as_).
Qed.

Lemma aspath_has_as4_spec path :
  aspath_has_as4 path = true <->
  exists seg as_, In seg path /\ In as_ (seg_as seg) /\ 65535 < as_.
Proof.
  unfold aspath_has_as4. rewrite existsb_exists. split.
  - intros (seg & Hseg & Hex). apply existsb_exists in Hex as (as_ & Has & Hlt).
    exists seg, as_. split_and!; try done. unfold BGP_AS_MAX in Hlt. lia.
  - intros (seg & as_ & Hseg & Has & Hlt). exists seg. split; [done|].
    apply existsb_exists. exists as_. split; [done|]. unfold BGP_AS_MAX. lia.
Qed.

Lemma aspath_delete_confed_seq_spec path seg :
  In seg (aspath_delete_confed_seq path) <->
  In seg path /\ seg_type seg <> AS_CONFED_SEQUENCE
  /\ seg_type seg <> AS_CONFED_SET.
Proof.
  unfold aspath_delete_confed_seq.
  rewrite <- !list_elem_of_In, list_elem_of_filter. tauto.
Qed.

(** C5.  [bgp_packet_attribute] towards a peer that did not announce the
    4-octet AS capability.  The stream grows by: the AS-Path attribute with
    2-octet AS numbers, every one above 65535 written as AS_TRANS; later
    the Aggregator attribute, its 2-octet AS field holding AS_TRANS when
    the aggregator AS is above 65535; later, when the rewritten path has
    an AS number above 65535, the AS4-Path attribute carrying the path
    without its confederation segments with 4-octet AS numbers; and right
    after it, when the aggregator AS is above 65535, the AS4-Aggregator
    attribute with the 4-octet AS and the address.  The size returned is
    the number of octets appended. *)
Theorem bgp_packet_attribute_as4 `{Collaborators}
    w b pr s a p afi safi from prd tag s' n :
  stream_wf s ->
  CHECK_FLAG (cap pr) PEER_CAP_AS4_RCV = false ->
  bgp_packet_attribute w b pr s a p afi safi from prd tag = Some (s', n) ->
  exists asl segs,
    aspath a = Some asl /\ aspath_segments w asl = Some segs
    /\ let path := packet_aspath b pr afi safi segs in
       (exists pre m1 m2 post,
          data s' = data s ++ pre ++ as_path_attr path ++ m1
                    ++ aggregator_octets a ++ m2
                    ++ as4_path_octets path ++ as4_aggregator_octets a ++ post)
       /\ n = Z.of_nat (length (data s')) - Z.of_nat (length (data s))
       /\ aspath_bytes path false
          = flat_map (fun seg =>
                        [seg_type seg mod 256;
                         Z.of_nat (length (seg_as seg)) mod 256]
                        ++ flat_map (fun as_ => w16 (as_trans as_)) (seg_as seg))
                     path
       /\ (aspath_has_as4 path = true <->
           exists seg as_, In seg path /\ In as_ (seg_as seg) /\ 65535 < as_)
       /\ (aspath_has_as4 path = true ->
           as4_path_octets path = as4_path_attr path
           /\ no_confed (aspath_delete_confed_seq path)
           /\ forall seg,
                In seg path -> seg_type seg <> AS_CONFED_SEQUENCE ->
                seg_type seg <> AS_CONFED_SET ->
                In seg (aspath_delete_confed_seq path))
       /\ (aspath_has_as4 path = false -> as4_path_octets path = [])
       /\ (forall e,
             CHECK_FLAG (flag a) (ATTR_FLAG_BIT BGP_ATTR_AGGREGATOR) = true ->
             extra a = Some e ->
             (65535 < aggregator_as e ->
              aggregator_octets a
              = aggregator_attr BGP_AS_TRANS (aggregator_addr e)
              /\ as4_aggregator_octets a
                 = as4_aggregator_attr (aggregator_as e) (aggregator_addr e))
             /\ (aggregator_as e <= 65535 ->
                 aggregator_octets a
                 = aggregator_attr (aggregator_as e) (aggregator_addr e)
                 /\ as4_aggregator_octets a = [])).
Proof.
  intros Hwf Hcap Hrun.
  destruct (bgp_packet_attribute_octets _ _ _ _ _ _ _ _ _ _ _ _ _ Hwf Hcap Hrun)
    as (asl & segs & pre & m1 & m2 & post & Hasl & Hsegs & -> & ->).
  exists asl, segs. split; [done|]. split; [done|]. intros path.
  split_and!.
  - by exists pre, m1, m2, post.
  - unfold put. cbn [endp data]. unfold stream_wf in Hwf.
    rewrite Hwf, !length_app. lia.
  - apply aspath_bytes_as_trans.
  - apply aspath_has_as4_spec.
  - intros Hhas. unfold as4_path_octets. rewrite Hhas. split_and!; [done| |].
    + apply Forall_forall. intros seg Hin. apply list_elem_of_In in Hin.
      by apply aspath_delete_confed_seq_spec in Hin as (_ & ? & ?).
    + intros seg Hin H1 H2. by apply aspath_delete_confed_seq_spec.
  - intros Hhas. unfold as4_path_octets. by rewrite Hhas.
  - intros e Hflag He. unfold aggregator_octets, as4_aggregator_octets.
    rewrite Hflag, He. unfold as_trans, BGP_AS_MAX. split; intros Has.
    + by rewrite (proj2 (Z.ltb_lt _ _) Has).
    + by rewrite (proj2 (Z.ltb_ge _ _) Has).
Qed.

Lemma bgp_packet_attribute_as4_witness :
  let path := [mkSeg AS_SEQUENCE [65001]; mkSeg AS_SEQUENCE [70000; 65010]] in
  let out := [64; 1; 1; 0; 80; 2; 0; 10; 2; 1; 253; 233; 2; 2; 91; 160; 253;
              242; 192; 7; 6; 91; 160; 10; 0; 0; 9; 208; 17; 0; 16; 2; 1; 0;
              0; 253; 233; 2; 2; 0; 1; 17; 112; 0; 0; 253; 242; 192; 18; 8;
              0; 1; 17; 112; 10; 0; 0; 9] in
  (stream_wf stream_new
   /\ CHECK_FLAG (cap old_peer) PEER_CAP_AS4_RCV = false
   /\ bgp_packet_attribute (H := example_collaborators) as4_send_world
        bgp_example old_peer stream_new as4_send_attr None AFI_IP SAFI_UNICAST
        None [] []
      = Some (mkStream out 0 58, 58))
  /\ (aspath_has_as4 path = true
      /\ as_path_attr path = [80; 2; 0; 10; 2; 1; 253; 233; 2; 2; 91; 160; 253; 242]
      /\ aggregator_octets as4_send_attr = [192; 7; 6; 91; 160; 10; 0; 0; 9]
      /\ as4_path_octets path
         = [208; 17; 0; 16; 2; 1; 0; 0; 253; 233; 2; 2; 0; 1; 17; 112; 0; 0; 253; 242]
      /\ as4_aggregator_octets as4_send_attr
         = [192; 18; 8; 0; 1; 17; 112; 10; 0; 0; 9])
  /\ exists asl segs,
       aspath as4_send_attr = Some asl
       /\ aspath_segments as4_send_world asl = Some segs
       /\ exists pre m1 m2 post,
            out = pre ++ as_path_attr
                           (packet_aspath (H := example_collaborators)
                              bgp_example old_peer AFI_IP SAFI_UNICAST segs)
                  ++ m1 ++ aggregator_octets as4_send_attr ++ m2
                  ++ as4_path_octets
                       (packet_aspath (H := example_collaborators)
                          bgp_example old_peer AFI_IP SAFI_UNICAST segs)
                  ++ as4_aggregator_octets as4_send_attr ++ post.
Proof.
  intros path out.
  assert (H1 : stream_wf stream_new) by reflexivity.
  assert (H2 : CHECK_FLAG (cap old_peer) PEER_CAP_AS4_RCV = false) by reflexivity.
  assert (H3 : bgp_packet_attribute (H := example_collaborators) as4_send_world
                 bgp_example old_peer stream_new as4_send_attr None AFI_IP
                 SAFI_UNICAST None [] []
               = Some (mkStream out 0 58, 58)) by (vm_compute; reflexivity).
  split; [done|]. split; [by vm_compute|].
  destruct (bgp_packet_attribute_as4 (H := example_collaborators)
              _ _ _ _ _ _ _ _ _ _ _ _ _ H1 H2 H3)
    as (asl & segs & Hasl & Hsegs & Hout & _).
  exists asl, segs. split; [done|]. split; [done|]. exact Hout.
Defined.

(** * Further properties of the code *)

(** ** The comparison functions of the tables *)

(** [attrhash_cmp] is an equivalence relation on attribute sets, as the
    hash table that uses it to find the canonical object needs. *)
Theorem attrhash_cmp_equivalence :
  (forall a, attrhash_cmp a a = true)
  /\ (forall a b, attrhash_cmp a b = attrhash_cmp b a)
  /\ (forall a b c,
        attrhash_cmp a b = true -> attrhash_cmp b c = true ->
        attrhash_cmp a c = true).
Proof.
  split_and!.
  - apply attrhash_cmp_refl.
  - intros a b. apply eq_true_iff_eq. split; apply attrhash_cmp_sym.
  - apply attrhash_cmp_trans.
Qed.

Lemma attrhash_cmp_equivalence_witness :
  attrhash_cmp (encap_attr [encap_tlv_a; encap_tlv_b])
               (encap_attr [encap_tlv_b; encap_tlv_a]) = true
  /\ attrhash_cmp (encap_attr [encap_tlv_b; encap_tlv_a])
                  (encap_attr [encap_tlv_b; encap_tlv_a; encap_tlv_b]) = true
  /\ attrhash_cmp (encap_attr [encap_tlv_a; encap_tlv_b])
                  (encap_attr [encap_tlv_b; encap_tlv_a; encap_tlv_b]) = true.
Proof.
  assert (H1 : attrhash_cmp (encap_attr [encap_tlv_a; encap_tlv_b])
                 (encap_attr [encap_tlv_b; encap_tlv_a]) = true) by reflexivity.
  assert (H2 : attrhash_cmp (encap_attr [encap_tlv_b; encap_tlv_a])
                 (encap_attr [encap_tlv_b; encap_tlv_a; encap_tlv_b]) = true)
    by reflexivity.
  split_and!; [done|done|].
  exact (proj2 (proj2 attrhash_cmp_equivalence) _ _ _ H1 H2).
Defined.

(** The copy [encap_tlv_dup] makes of a chain has the records of the
    original in their order, each with its type, its length and [length]
    octets of value; copy and original are the same chain for
    [encap_same], and copying a copy changes nothing. *)
Theorem encap_tlv_dup_same (h : list bgp_attr_encap_subtlv) :
  encap_same (encap_tlv_dup h) h = true
  /\ encap_same h (encap_tlv_dup h) = true
  /\ map st_type (encap_tlv_dup h) = map st_type h
  /\ map st_length (encap_tlv_dup h) = map st_length h
  /\ encap_tlv_dup (encap_tlv_dup h) = encap_tlv_dup h.
Proof.
  split_and!.
  - by rewrite encap_same_dup_l, encap_same_refl.
  - by rewrite encap_same_sym, encap_same_dup_l, encap_same_refl.
  - unfold encap_tlv_dup. rewrite map_map. by apply map_ext.
  - unfold encap_tlv_dup. rewrite map_map. by apply map_ext.
  - unfold encap_tlv_dup. rewrite map_map. apply map_ext. intros p.
    unfold subtlv_copy. simpl. f_equal.
    rewrite firstn_firstn. f_equal. lia.
Qed.

(** Two cluster lists, or two transit blobs, that the table's comparison
    function equates have the same hash key: the table looks for an
    object in the bucket its equals are in. *)
Theorem cluster_transit_cmp_same_key (jhash : list Z -> Z -> Z -> Z) :
  (forall c1 c2,
     cluster_hash_cmp c1 c2 = true ->
     cluster_hash_key_make jhash c1 = cluster_hash_key_make jhash c2)
  /\ (forall t1 t2,
        transit_hash_cmp t1 t2 = true ->
        transit_hash_key_make jhash t1 = transit_hash_key_make jhash t2).
Proof.
  split.
  - intros c1 c2. unfold cluster_hash_cmp, cluster_hash_key_make, memcmp_eq.
    rewrite andb_true_iff, Z.eqb_eq, bool_decide_eq_true.
    intros [Hl Hm]. by rewrite <- Hl, Hm.
  - intros t1 t2. unfold transit_hash_cmp, transit_hash_key_make, memcmp_eq.
    rewrite andb_true_iff, Z.eqb_eq, bool_decide_eq_true.
    intros [Hl Hm]. by rewrite <- Hl, Hm.
Qed.

Lemma cluster_transit_cmp_same_key_witness :
  cluster_hash_cmp cluster_two (mkCluster 0 8 [10; 0; 0; 1; 10; 0; 0; 2; 99]) = true
  /\ forall jhash,
       cluster_hash_key_make jhash cluster_two
       = cluster_hash_key_make jhash (mkCluster 0 8 [10; 0; 0; 1; 10; 0; 0; 2; 99]).
Proof.
  split; [reflexivity|]. intros jhash.
  exact (proj1 (cluster_transit_cmp_same_key jhash) cluster_two
           (mkCluster 0 8 [10; 0; 0; 1; 10; 0; 0; 2; 99]) eq_refl).
Defined.

(** ** Cluster lists *)

Lemma in_addr_at_0 a b c d l :
  in_addr_at (a :: b :: c :: d :: l) 0 = Some (((a * 256 + b) * 256 + c) * 256 + d).
Proof. done. Qed.

Lemma in_addr_at_S a b c d l i :
  in_addr_at (a :: b :: c :: d :: l) (S i) = in_addr_at l i.
Proof.
  unfold in_addr_at. replace (4 * S i)%nat with (4 + 4 * i)%nat by lia. done.
Qed.

Lemma cluster_loop_check_from_spec l n originator :
  (4 * n <= length l)%nat ->
  cluster_loop_check_from l n originator = true <->
  exists i, (i < n)%nat /\ in_addr_at l i = Some originator.
Proof.
  revert l. induction n as [|n IH]; intros l Hlen.
  - destruct l; simpl; (split; [done|]); intros (i & Hi & _); lia.
  - destruct l as [|a [|b [|c [|d l]]]]; simpl in Hlen; try lia.
    cbn [cluster_loop_check_from].
    destruct (_ =? originator) eqn:Heq.
    + split; [|done]. intros _. exists 0%nat. split; [lia|].
      rewrite in_addr_at_0. apply Z.eqb_eq in Heq. by rewrite Heq.
    + rewrite IH by lia. apply Z.eqb_neq in Heq. split.
      * intros (i & Hi & Hat). exists (S i). split; [lia|].
        by rewrite in_addr_at_S.
      * intros (i & Hi & Hat). destruct i as [|i].
        -- rewrite in_addr_at_0 in Hat. congruence.
        -- rewrite in_addr_at_S in Hat. exists i. split; [lia|done].
Qed.

(** [cluster_loop_check] answers whether one of the [length / 4]
    addresses of the cluster list is the given one, for a list that has
    the [length] octets it declares. *)
Theorem cluster_loop_check_spec (cluster : cluster_list) (originator : Z) :
  0 <= c_length cluster <= Z.of_nat (length (c_list cluster)) ->
  cluster_loop_check cluster originator = true <->
  exists i, Z.of_nat i < c_length cluster / 4
            /\ in_addr_at (c_list cluster) i = Some originator.
Proof.
  intros Hlen. unfold cluster_loop_check.
  rewrite cluster_loop_check_from_spec.
  - split; intros (i & Hi & Hat); exists i; (split; [lia|done]).
  - assert (4 * (c_length cluster / 4) <= c_length cluster)
      by (apply Z.mul_div_le; lia).
    assert (0 <= c_length cluster / 4) by (apply Z.div_pos; lia).
    lia.
Qed.

Lemma cluster_loop_check_spec_witness :
  cluster_loop_check cluster_two 0x0a000002 = true
  /\ cluster_loop_check cluster_two 0x0a000003 = false
  /\ exists i, Z.of_nat i < c_length cluster_two / 4
               /\ in_addr_at (c_list cluster_two) i = Some 0x0a000002.
Proof.
  split; [reflexivity|]. split; [reflexivity|].
  refine (proj1 (cluster_loop_check_spec cluster_two 0x0a000002 _) eq_refl).
  simpl. lia.
Defined.

Lemma cluster_holds_refcnt_incr (l : loc) (p : pool cluster_list) y l' :
  holds (refcnt_incr l p) y l' = holds p y l'.
Proof.
  unfold holds, refcnt_incr, store_refcnt. simpl.
  destruct (decide (l = l')) as [->|Hne].
  - rewrite lookup_alter_eq. by destruct (heap p !! l').
  - by rewrite lookup_alter_ne.
Qed.

Lemma cluster_hash_alloc_cmp val :
  cluster_hash_cmp
    (mkCluster 0 (c_length val)
       (if c_length val =? 0 then []
        else firstn (Z.to_nat (c_length val)) (c_list val))) val = true.
Proof.
  unfold cluster_hash_cmp, memcmp_eq. simpl. rewrite Z.eqb_refl. simpl.
  apply bool_decide_eq_true. destruct (c_length val =? 0) eqn:Hz.
  - apply Z.eqb_eq in Hz. by rewrite Hz.
  - rewrite firstn_firstn. f_equal. lia.
Qed.

(** [cluster_parse] interns by content.  The object it returns is in the
    table, holds the length and the octets given and is held once more
    than before; parsing the same octets again returns the same object,
    again held once more, and adds no entry to the table. *)
Theorem cluster_parse_twice (pnt : list Z) (length : Z)
    (pl : pool cluster_list) (l : loc) (pl1 : pool cluster_list) :
  cluster_parse pnt length pl = (l, pl1) ->
  (exists c,
     heap pl1 !! l = Some c
     /\ c_length c = length
     /\ firstn (Z.to_nat length) (c_list c) = firstn (Z.to_nat length) pnt
     /\ c_refcnt c = load_refcnt pl l + 1)
  /\ In l (table pl1)
  /\ fst (cluster_parse pnt length pl1) = l
  /\ load_refcnt (snd (cluster_parse pnt length pl1)) l = load_refcnt pl1 l + 1
  /\ table (snd (cluster_parse pnt length pl1)) = table pl1.
Proof.
  unfold cluster_parse at 1. set (tmp := mkCluster 0 length pnt).
  unfold hash_get. destruct (hash_lookup pl tmp) as [find|] eqn:Hl.
  - intros [= <- <-].
    pose proof Hl as Hl'. unfold hash_lookup in Hl'.
    apply find_some in Hl' as [Hin Hh]. unfold holds in Hh.
    destruct (heap pl !! find) as [v|] eqn:Hv; [|done].
    simpl in Hh. unfold cluster_hash_cmp, memcmp_eq in Hh. simpl in Hh.
    apply andb_true_iff in Hh as [Hlen Hmem].
    apply Z.eqb_eq in Hlen. apply bool_decide_eq_true in Hmem.
    assert (Hl1 : hash_lookup (refcnt_incr find pl) tmp = Some find).
    { unfold hash_lookup.
      rewrite (find_pointwise _ (holds pl tmp)) by apply cluster_holds_refcnt_incr.
      done. }
    split_and!.
    + exists (mkCluster (c_refcnt v + 1) (c_length v) (c_list v)).
      unfold refcnt_incr, store_refcnt, load_refcnt. simpl.
      rewrite lookup_alter_eq, Hv. simpl. split_and!; try done.
      by rewrite <- Hlen.
    + done.
    + unfold cluster_parse. fold tmp. unfold hash_get. by rewrite Hl1.
    + unfold cluster_parse. fold tmp. unfold hash_get. rewrite Hl1. simpl.
      rewrite (load_refcnt_incr cluster_refcnt_set _ _ (mkCluster (c_refcnt v + 1) (c_length v) (c_list v))).
      * simpl. unfold load_refcnt, refcnt_incr, store_refcnt. simpl.
        rewrite lookup_alter_eq, Hv. simpl. unfold load_refcnt. by rewrite Hv.
      * unfold refcnt_incr, store_refcnt, load_refcnt. simpl.
        by rewrite lookup_alter_eq, Hv.
    + unfold cluster_parse. fold tmp. unfold hash_get. by rewrite Hl1.
  - destruct (cluster_hash_alloc tmp (heap pl)) as [c h] eqn:Ha.
    intros [= <- <-].
    unfold cluster_hash_alloc in Ha. apply xmalloc_fresh in Ha as [Hfresh ->].
    simpl c_length in *. simpl c_list in *.
    set (copy := mkCluster 0 length
                   (if length =? 0 then [] else firstn (Z.to_nat length) pnt)) in *.
    set (p0 := mkPool (<[c := copy]> (heap pl)) (c :: table pl)).
    assert (Hc : heap (refcnt_incr c p0) !! c
                 = Some (mkCluster 1 length (c_list copy))).
    { unfold refcnt_incr, store_refcnt, load_refcnt. simpl.
      by rewrite lookup_alter_eq, !lookup_insert_eq. }
    assert (Hl1 : hash_lookup (refcnt_incr c p0) tmp = Some c).
    { unfold hash_lookup.
      rewrite (find_pointwise _ (holds p0 tmp)) by apply cluster_holds_refcnt_incr.
      simpl table. apply find_head. unfold holds. simpl heap.
      rewrite lookup_insert_eq. apply (cluster_hash_alloc_cmp tmp). }
    split_and!.
    + exists (mkCluster 1 length (c_list copy)). split_and!; try done.
      * simpl. destruct (length =? 0) eqn:Hz.
        -- apply Z.eqb_eq in Hz. by rewrite Hz.
        -- rewrite firstn_firstn. f_equal. lia.
      * unfold load_refcnt. by rewrite Hfresh.
    + by left.
    + unfold cluster_parse. fold tmp. unfold hash_get. by rewrite Hl1.
    + unfold cluster_parse. fold tmp. unfold hash_get. rewrite Hl1. simpl.
      rewrite (load_refcnt_incr cluster_refcnt_set _ _ _ Hc). simpl.
      unfold load_refcnt. by rewrite Hc.
    + unfold cluster_parse. fold tmp. unfold hash_get. by rewrite Hl1.
Qed.

Lemma cluster_parse_twice_witness :
  let r := cluster_parse [10; 0; 0; 1; 10; 0; 0; 2] 8 pool_empty in
  let r2 := cluster_parse [10; 0; 0; 1; 10; 0; 0; 2] 8 (snd r) in
  r = (1%positive, snd r)
  /\ fst r2 = 1%positive
  /\ load_refcnt (snd r2) 1%positive = 2
  /\ table (snd r2) = [1%positive].
Proof.
  intros r r2.
  assert (Hr : r = (1%positive, snd r)) by (vm_compute; reflexivity).
  split; [done|].
  destruct (cluster_parse_twice _ _ _ _ _ Hr) as (_ & _ & H1 & H2 & H3).
  split; [exact H1|]. split; [exact H2|exact H3].
Defined.

(** ** What the parser queues and what it returns *)

Lemma quiet_refl ps : quiet ps ps.
Proof. done. Qed.

Lemma quiet_trans ps1 ps2 ps3 : quiet ps1 ps2 -> quiet ps2 ps3 -> quiet ps1 ps3.
Proof. unfold quiet. congruence. Qed.

Lemma outcome_quiet_l pr ps ps1 r ps' :
  quiet ps ps1 -> outcome_ok pr ps1 r ps' -> outcome_ok pr ps r ps'.
Proof.
  unfold outcome_ok, quiet, notified. intros Hq.
  destruct r; rewrite Hq; done.
Qed.

Lemma notified_send subcode datap datalen ps ps1 :
  quiet ps ps1 ->
  notified ps
    (bgp_notify_send_with_data BGP_NOTIFY_UPDATE_ERR subcode datap datalen ps1).
Proof.
  unfold quiet, notified, bgp_notify_send_with_data. simpl. intros ->. eauto.
Qed.

Lemma outcome_malformed args subcode length ps :
  outcome_ok (a_peer args) ps
    (fst (bgp_attr_malformed args subcode length ps))
    (snd (bgp_attr_malformed args subcode length ps)).
Proof.
  unfold bgp_attr_malformed.
  destruct (bool_decide (sort (a_peer args) = BGP_PEER_EBGP)) eqn:Hs;
    cbv iota.
  - apply bool_decide_eq_true in Hs.
    repeat match goal with
           | |- context [if ?c then _ else _] => destruct c
           end; cbn [fst snd outcome_ok];
      first [ done | by split | by apply notified_send ].
  - cbn [fst snd outcome_ok]. by apply notified_send.
Qed.

(** Closes an outcome goal: the policy applied to a state that queued
    nothing so far, or an explicit result. *)
Ltac out_solve :=
  first
    [ apply outcome_malformed
    | eapply outcome_quiet_l; [|apply outcome_malformed]; reflexivity
    | cbn [fst snd outcome_ok]; reflexivity
    | cbn [fst snd outcome_ok]; apply notified_send; reflexivity ].

Lemma bgp_attr_origin_outcome args ps :
  outcome_ok (a_peer args) ps (fst (bgp_attr_origin args ps))
             (snd (bgp_attr_origin args ps)).
Proof.
  unfold bgp_attr_origin. destruct (negb _); [out_solve|].
  simpl. destruct (_ && _); out_solve.
Qed.

Lemma bgp_attr_aspath_outcome `{Collaborators} args ps :
  outcome_ok (a_peer args) ps (fst (bgp_attr_aspath args ps))
             (snd (bgp_attr_aspath args ps)).
Proof.
  unfold bgp_attr_aspath.
  destruct (aspath_parse _ _ _ _) as [[asp s] p].
  destruct asp; out_solve.
Qed.

Lemma bgp_attr_as4_path_outcome `{Collaborators} args ps :
  outcome_ok (a_peer args) ps (fst (fst (bgp_attr_as4_path args ps)))
             (snd (bgp_attr_as4_path args ps)).
Proof.
  unfold bgp_attr_as4_path.
  destruct (aspath_parse _ _ _ _) as [[asp s] p].
  destruct asp; [out_solve|].
  destruct (bgp_attr_malformed _ _ _ _) as [r ps1] eqn:Hm.
  cbn [fst snd].
  change r with (fst (r, ps1)). change ps1 with (snd (r, ps1)) at 2.
  rewrite <- Hm. out_solve.
Qed.

Lemma bgp_attr_nexthop_outcome `{Collaborators} args ps :
  outcome_ok (a_peer args) ps (fst (bgp_attr_nexthop args ps))
             (snd (bgp_attr_nexthop args ps)).
Proof.
  unfold bgp_attr_nexthop. destruct (negb _); [out_solve|].
  simpl. destruct (_ && _); out_solve.
Qed.

Lemma bgp_attr_med_outcome args ps :
  outcome_ok (a_peer args) ps (fst (bgp_attr_med args ps))
             (snd (bgp_attr_med args ps)).
Proof. unfold bgp_attr_med. destruct (negb _); out_solve. Qed.

Lemma bgp_attr_local_pref_outcome args ps :
  outcome_ok (a_peer args) ps (fst (bgp_attr_local_pref args ps))
             (snd (bgp_attr_local_pref args ps)).
Proof.
  unfold bgp_attr_local_pref. destruct (negb _); [out_solve|].
  destruct (bool_decide _); out_solve.
Qed.

Lemma bgp_attr_atomic_outcome args ps :
  outcome_ok (a_peer args) ps (fst (bgp_attr_atomic args ps))
             (snd (bgp_attr_atomic args ps)).
Proof. unfold bgp_attr_atomic. destruct (negb _); out_solve. Qed.

Lemma bgp_attr_aggregator_outcome args ps :
  outcome_ok (a_peer args) ps (fst (bgp_attr_aggregator args ps))
             (snd (bgp_attr_aggregator args ps)).
Proof.
  unfold bgp_attr_aggregator. destruct (bgp_attr_extra_get _) as [attre a].
  destruct (negb _); [out_solve|].
  destruct (CHECK_FLAG _ _); simpl; out_solve.
Qed.

Lemma bgp_attr_as4_aggregator_outcome args ps :
  outcome_ok (a_peer args) ps (fst (fst (bgp_attr_as4_aggregator args ps)))
             (snd (bgp_attr_as4_aggregator args ps)).
Proof.
  unfold bgp_attr_as4_aggregator. destruct (negb _).
  - destruct (bgp_attr_malformed _ _ _ _) as [r ps1] eqn:Hm.
    cbn [fst snd].
    change r with (fst (r, ps1)). change ps1 with (snd (r, ps1)) at 2.
    rewrite <- Hm. out_solve.
  - simpl. out_solve.
Qed.

Lemma bgp_attr_community_outcome `{Collaborators} args ps :
  outcome_ok (a_peer args) ps (fst (bgp_attr_community args ps))
             (snd (bgp_attr_community args ps)).
Proof.
  unfold bgp_attr_community. destruct (_ =? 0); [out_solve|].
  destruct (community_parse _ _ _) as [com p].
  destruct com; out_solve.
Qed.

Lemma bgp_attr_originator_id_outcome args ps :
  outcome_ok (a_peer args) ps (fst (bgp_attr_originator_id args ps))
             (snd (bgp_attr_originator_id args ps)).
Proof.
  unfold bgp_attr_originator_id. destruct (negb _); [out_solve|].
  destruct (bgp_attr_extra_get _) as [attre a]. simpl. out_solve.
Qed.

Lemma bgp_attr_cluster_list_outcome args ps :
  outcome_ok (a_peer args) ps (fst (bgp_attr_cluster_list args ps))
             (snd (bgp_attr_cluster_list args ps)).
Proof.
  unfold bgp_attr_cluster_list. destruct (negb _); [out_solve|].
  destruct (bgp_attr_extra_get _) as [attre a].
  destruct (cluster_parse _ _ _) as [cl p]. out_solve.
Qed.

Lemma bgp_attr_large_community_outcome `{Collaborators} args ps :
  outcome_ok (a_peer args) ps (fst (bgp_attr_large_community args ps))
             (snd (bgp_attr_large_community args ps)).
Proof.
  unfold bgp_attr_large_community. destruct (_ =? 0); [out_solve|].
  destruct (bgp_attr_extra_get _) as [attre a].
  destruct (lcommunity_parse _ _ _) as [lc p].
  destruct lc; out_solve.
Qed.

Lemma bgp_attr_ext_communities_outcome `{Collaborators} args ps :
  outcome_ok (a_peer args) ps (fst (bgp_attr_ext_communities args ps))
             (snd (bgp_attr_ext_communities args ps)).
Proof.
  unfold bgp_attr_ext_communities. destruct (_ =? 0); [out_solve|].
  destruct (bgp_attr_extra_get _) as [attre a].
  destruct (ecommunity_parse _ _ _) as [ec p].
  destruct ec; out_solve.
Qed.

Lemma bgp_mp_unreach_parse_outcome args ps :
  outcome_ok (a_peer args) ps (fst (fst (bgp_mp_unreach_parse args ps)))
             (snd (bgp_mp_unreach_parse args ps)).
Proof.
  unfold bgp_mp_unreach_parse. destruct (_ || _); simpl; out_solve.
Qed.

Lemma bgp_mp_reach_parse_outcome args ps :
  outcome_ok (a_peer args) ps (fst (fst (bgp_mp_reach_parse args ps)))
             (snd (bgp_mp_reach_parse args ps)).
Proof.
  unfold bgp_mp_reach_parse. destruct (bgp_attr_extra_get _) as [attre a].
  destruct (_ || _); [out_solve|]. simpl.
  destruct (_ <? _); [out_solve|].
  destruct (mp_reach_nexthop _ _ _) as [[[attre' a'] s']|]; [|out_solve].
  destruct (_ =? 0); [out_solve|].
  destruct (_ || _); out_solve.
Qed.

Lemma encap_subtlv_loop_outcome fuel startp total length ps :
  match fst (encap_subtlv_loop fuel startp total length ps) with
  | None => notified ps (snd (encap_subtlv_loop fuel startp total length ps))
  | Some _ => quiet ps (snd (encap_subtlv_loop fuel startp total length ps))
  end.
Proof.
  revert length ps. induction fuel as [|fuel IH]; intros length ps; simpl.
  - done.
  - destruct (length <? 4); [done|].
    destruct (_ <? _); [by apply notified_send|].
    destruct (bgp_attr_extra_get _) as [attre a].
    match goal with
    | |- context [encap_subtlv_loop fuel startp total ?l ?p] =>
        specialize (IH l p);
        destruct (encap_subtlv_loop fuel startp total l p) as [rest ps1]
    end.
    simpl in *. destruct rest; exact IH.
Qed.

Lemma bgp_attr_encap_outcome pr length flag startp ps :
  outcome_ok pr ps (fst (bgp_attr_encap length flag startp ps))
             (snd (bgp_attr_encap length flag startp ps)).
Proof.
  unfold bgp_attr_encap. destruct (_ || _); [out_solve|].
  destruct (_ <? 4); [out_solve|]. simpl.
  match goal with
  | |- context [encap_subtlv_loop ?f ?a ?b ?c ?p] =>
      pose proof (encap_subtlv_loop_outcome f a b c p) as Hl;
      destruct (encap_subtlv_loop f a b c p) as [rest ps1]
  end.
  simpl in Hl. destruct rest as [rest|]; [|exact Hl].
  assert (Hq : quiet ps
            (if 4 <=? length - 4
             then match extra (ps_attr ps1) with
                  | Some attre =>
                      with_attr ps1
                        (attr_set_extra (ps_attr ps1)
                           (Some (extra_set_encap_tunneltype attre
                                    (fst (stream_getw (ps_ibuf ps))))))
                  | None => ps1
                  end
             else ps1)).
  { destruct (4 <=? _); [|exact Hl].
    by destruct (extra (ps_attr ps1)). }
  destruct (negb _); cbn [fst snd outcome_ok]; [|exact Hq].
  by apply notified_send.
Qed.

Lemma bgp_attr_unknown_outcome args ps :
  outcome_ok (a_peer args) ps (fst (bgp_attr_unknown args ps))
             (snd (bgp_attr_unknown args ps)).
Proof.
  unfold bgp_attr_unknown.
  destruct (negb (CHECK_FLAG _ BGP_ATTR_FLAG_OPTIONAL)); [out_solve|].
  destruct (negb (CHECK_FLAG _ BGP_ATTR_FLAG_TRANS)); [out_solve|].
  cbn [ps_attr ps_ibuf ps_world with_ibuf].
  destruct (bgp_attr_extra_get _) as [attre a].
  destruct (transit attre); [out_solve|].
  destruct (xmalloc _ _). out_solve.
Qed.

Lemma attr_dispatch_outcome `{Collaborators} args lc ps :
  outcome_ok (a_peer args) ps (fst (fst (attr_dispatch args lc ps)))
             (snd (attr_dispatch args lc ps)).
Proof.
  unfold attr_dispatch.
  repeat match goal with
         | |- context [if ?c then _ else _] => destruct c
         end; cbn [fst snd].
  - apply bgp_attr_origin_outcome.
  - apply bgp_attr_aspath_outcome.
  - pose proof (bgp_attr_as4_path_outcome args ps) as Ho.
    by destruct (bgp_attr_as4_path _ _) as [[r p] ps1].
  - apply bgp_attr_nexthop_outcome.
  - apply bgp_attr_med_outcome.
  - apply bgp_attr_local_pref_outcome.
  - apply bgp_attr_atomic_outcome.
  - apply bgp_attr_aggregator_outcome.
  - pose proof (bgp_attr_as4_aggregator_outcome args ps) as Ho.
    by destruct (bgp_attr_as4_aggregator _ _) as [[r p] ps1].
  - apply bgp_attr_community_outcome.
  - apply bgp_attr_large_community_outcome.
  - apply bgp_attr_originator_id_outcome.
  - apply bgp_attr_cluster_list_outcome.
  - pose proof (bgp_mp_reach_parse_outcome args ps) as Ho.
    by destruct (bgp_mp_reach_parse _ _) as [[r p] ps1].
  - pose proof (bgp_mp_unreach_parse_outcome args ps) as Ho.
    by destruct (bgp_mp_unreach_parse _ _) as [[r p] ps1].
  - apply bgp_attr_ext_communities_outcome.
  - apply bgp_attr_encap_outcome.
  - apply bgp_attr_unknown_outcome.
Qed.

Lemma as4_path_release_quiet lc ps :
  quiet ps (snd (as4_path_release lc ps)).
Proof.
  unfold as4_path_release. destruct (as4_path lc); [|done].
  by destruct (aspath_unintern _ _).
Qed.

Lemma bgp_attr_malformed_ret args subcode length ps :
  fst (bgp_attr_malformed args subcode length ps) <> BGP_ATTR_PARSE_ERROR_NOTIFYPLS.
Proof.
  unfold bgp_attr_malformed.
  repeat match goal with
         | |- context [if ?c then _ else _] => destruct c
         end; done.
Qed.

(** One turn of the loop: it leaves the function with Error and one
    NOTIFY queued, or with Withdraw (an eBGP peer) and none; it goes
    round with none. *)
Lemma attr_loop_body_outcome `{Collaborators} pr size endp lc ps :
  match attr_loop_body pr size endp lc ps with
  | inl (r, _, ps') =>
      (r = BGP_ATTR_PARSE_ERROR /\ notified ps ps')
      \/ (r = BGP_ATTR_PARSE_WITHDRAW /\ sort pr = BGP_PEER_EBGP /\ quiet ps ps')
  | inr (_, ps') => quiet ps ps'
  end.
Proof.
  unfold attr_loop_body.
  destruct (_ <? BGP_ATTR_MIN_LEN).
  { left. split; [done|]. by apply notified_send. }
  cbn [stream_getc fst snd].
  destruct (_ && _).
  { left. split; [done|]. by apply notified_send. }
  match goal with
  | |- context [let '(_, _) := ?e in _] => destruct e as [length s] eqn:Hlen
  end.
  destruct (bool_decide (_ ∈ _)).
  { left. split; [done|]. by apply notified_send. }
  destruct (endp <? _).
  { left. split; [done|]. by apply notified_send. }
  set (ps1 := with_ibuf (with_ibuf ps _) s).
  assert (Hq1 : quiet ps ps1) by done.
  clearbody ps1.
  set (args := mkArgs pr _ _ _ _ _).
  assert (Hpr : a_peer args = pr) by done. clearbody args.
  set (lc1 := mkLocals _ _ _ _ _ _). clearbody lc1.
  assert (Hcase : forall r ps2,
            outcome_ok pr ps1 r ps2 -> r <> BGP_ATTR_PARSE_PROCEED ->
            r <> BGP_ATTR_PARSE_ERROR_NOTIFYPLS ->
            (r = BGP_ATTR_PARSE_ERROR /\ notified ps ps2)
            \/ (r = BGP_ATTR_PARSE_WITHDRAW /\ sort pr = BGP_PEER_EBGP
                /\ quiet ps ps2)).
  { intros r ps2 Ho Hn1 Hn2. apply (outcome_quiet_l _ _ _ _ _ Hq1) in Ho.
    destruct r; try done; [by left|right]. by destruct Ho. }
  destruct (bgp_attr_flag_invalid args).
  { pose proof (outcome_malformed args BGP_NOTIFY_UPDATE_ATTR_FLAG_ERR
                  (a_total args) ps1) as Ho.
    rewrite Hpr in Ho.
    pose proof (bgp_attr_malformed_ret args BGP_NOTIFY_UPDATE_ATTR_FLAG_ERR
                  (a_total args) ps1) as Hnn.
    destruct (bgp_attr_malformed _ _ _ _) as [ret ps2]. cbn [fst snd] in Ho, Hnn.
    destruct (bool_decide (ret = BGP_ATTR_PARSE_PROCEED)) eqn:Hp.
    - apply bool_decide_eq_true in Hp. subst ret.
      eapply quiet_trans; [exact Hq1|exact Ho].
    - apply bool_decide_eq_false in Hp.
      by apply Hcase. }
  pose proof (attr_dispatch_outcome args lc1 ps1) as Ho. rewrite Hpr in Ho.
  destruct (attr_dispatch args lc1 ps1) as [[ret lc2] ps2].
  cbn [fst snd] in Ho.
  destruct (bool_decide (ret = BGP_ATTR_PARSE_ERROR_NOTIFYPLS)) eqn:Hn.
  - apply bool_decide_eq_true in Hn. subst ret. cbn [outcome_ok] in Ho.
    rewrite bool_decide_eq_true_2 by done. cbn [orb].
    pose proof (as4_path_release_quiet lc2
                  (bgp_notify_send BGP_NOTIFY_UPDATE_ERR
                     BGP_NOTIFY_UPDATE_MAL_ATTR ps2)) as Hr.
    destruct (as4_path_release _ _) as [lc3 ps3]. cbn [snd] in Hr.
    left. split; [done|].
    destruct (notified_send BGP_NOTIFY_UPDATE_MAL_ATTR None 0 ps ps2)
      as (n & Hn1 & Hn2).
    { eapply quiet_trans; [exact Hq1|exact Ho]. }
    exists n. split; [|done]. unfold quiet in Hr. by rewrite Hr.
  - apply bool_decide_eq_false in Hn.
    destruct (bool_decide (ret = BGP_ATTR_PARSE_ERROR) ||
              bool_decide (ret = BGP_ATTR_PARSE_WITHDRAW)) eqn:He.
    + pose proof (as4_path_release_quiet lc2 ps2) as Hr.
      destruct (as4_path_release _ _) as [lc3 ps3]. cbn [snd] in Hr.
      assert (Hnp : ret <> BGP_ATTR_PARSE_PROCEED).
      { intros ->. done. }
      destruct (Hcase ret ps2 Ho Hnp Hn) as [[-> Hx]|(-> & Hs & Hx)].
      * left. split; [done|]. destruct Hx as (n & Hn1 & Hn2).
        exists n. split; [|done]. unfold quiet in Hr. by rewrite Hr.
      * right. split_and!; try done. eapply quiet_trans; [exact Hx|exact Hr].
    + assert (Hp : ret = BGP_ATTR_PARSE_PROCEED).
      { destruct ret; try done. }
      subst ret. cbn [outcome_ok] in Ho.
      assert (Hq2 : quiet ps ps2) by (eapply quiet_trans; eassumption).
      destruct (negb _).
      * pose proof (as4_path_release_quiet lc2
                      (bgp_notify_send BGP_NOTIFY_UPDATE_ERR
                         BGP_NOTIFY_UPDATE_ATTR_LENG_ERR ps2)) as Hr.
        destruct (as4_path_release _ _) as [lc3 ps3]. cbn [snd] in Hr.
        left. split; [done|].
        destruct (notified_send BGP_NOTIFY_UPDATE_ATTR_LENG_ERR None 0 ps ps2 Hq2)
          as (n & Hn1 & Hn2).
        exists n. split; [|done]. unfold quiet in Hr. by rewrite Hr.
      * exact Hq2.
Qed.

Lemma notified_quiet_l ps ps1 ps' :
  quiet ps ps1 -> notified ps1 ps' -> notified ps ps'.
Proof. unfold quiet, notified. intros <-. done. Qed.

Lemma notified_quiet_r ps ps1 ps' :
  notified ps ps1 -> quiet ps1 ps' -> notified ps ps'.
Proof. unfold quiet, notified. intros Hn ->. done. Qed.

Lemma attr_loop_outcome `{Collaborators} fuel pr size endp lc ps t :
  attr_loop fuel pr size endp lc ps = Some t ->
  match t with
  | inl (r, _, ps') =>
      (r = BGP_ATTR_PARSE_ERROR /\ notified ps ps')
      \/ (r = BGP_ATTR_PARSE_WITHDRAW /\ sort pr = BGP_PEER_EBGP /\ quiet ps ps')
  | inr (_, ps') => quiet ps ps' /\ endp <= getp (ps_ibuf ps')
  end.
Proof.
  revert lc ps. induction fuel as [|fuel IH]; intros lc ps; simpl.
  - destruct (_ <? _) eqn:Hlt; [discriminate|]. intros [= <-].
    split; [done|]. lia.
  - destruct (_ <? _) eqn:Hlt; [|intros [= <-]; split; [done|lia]].
    pose proof (attr_loop_body_outcome pr size endp lc ps) as Hb.
    destruct (attr_loop_body pr size endp lc ps) as [[[ret lc1] ps1]|[lc1 ps1]].
    + by intros [= <-].
    + intros Hl. specialize (IH _ _ Hl).
      destruct t as [[[r lc2] ps2]|[lc2 ps2]].
      * destruct IH as [[-> Hn]|(-> & Hs & Hq)].
        -- left. split; [done|]. by eapply notified_quiet_l.
        -- right. split_and!; try done. by eapply quiet_trans.
      * destruct IH as [Hq Hp]. split; [|done]. by eapply quiet_trans.
Qed.

Lemma as4_path_release_ibuf lc ps :
  ps_ibuf (snd (as4_path_release lc ps)) = ps_ibuf ps.
Proof.
  unfold as4_path_release. destruct (as4_path lc); [|done].
  by destruct (aspath_unintern _ _).
Qed.

Lemma bgp_attr_check_outcome pr ps :
  (bgp_attr_check pr ps = (BGP_ATTR_PARSE_PROCEED, ps))
  \/ (fst (bgp_attr_check pr ps) = BGP_ATTR_PARSE_ERROR
      /\ notified ps (snd (bgp_attr_check pr ps))).
Proof.
  unfold bgp_attr_check.
  destruct (_ && (flag _ =? 0)); [by left|].
  destruct (flag _ =? _); [by left|].
  destruct (negb (_ =? 0)); [|by left].
  right. split; [done|]. by apply notified_send.
Qed.

Lemma bgp_attr_munge_as4_attrs_quiet `{Collaborators} pr p4 as4 addr4 ps r ps' :
  bgp_attr_munge_as4_attrs pr p4 as4 addr4 ps = Some (r, ps') ->
  quiet ps ps' /\ ps_ibuf ps' = ps_ibuf ps.
Proof.
  unfold bgp_attr_munge_as4_attrs.
  destruct (aspath (ps_attr ps)) as [old|]; [|by intros [= <- <-]].
  destruct (CHECK_FLAG (cap pr) _); [by intros [= <- <-]|].
  match goal with
  | |- context [match ?e with Some _ => _ | None => None end = _] =>
      destruct e as [[ign a]|]; [|done]
  end.
  destruct (_ && _); [|by intros [= <- <-]].
  destruct (aspath_segments _ old); [|done].
  destruct (p4 ≫= _); [|done].
  destruct (aspath_replace _ _ _). by intros [= <- <-].
Qed.

Lemma bgp_attr_aspath_check_outcome `{Collaborators} pr ps r ps' :
  bgp_attr_aspath_check pr ps = Some (r, ps') ->
  (r = BGP_ATTR_PARSE_PROCEED /\ quiet ps ps' /\ ps_ibuf ps' = ps_ibuf ps)
  \/ (r = BGP_ATTR_PARSE_ERROR /\ notified ps ps').
Proof.
  unfold bgp_attr_aspath_check.
  destruct (aspath (ps_attr ps) ≫= _) as [[old segs]|]; [|done].
  destruct (_ || _).
  { intros [= <- <-]. right. split; [done|]. by apply notified_send. }
  destruct (_ && _).
  { intros [= <- <-]. right. split; [done|]. by apply notified_send. }
  destruct (_ && _); [|intros [= <- <-]; by left].
  destruct (aspath_replace _ _ _). intros [= <- <-]. by left.
Qed.

Lemma attr_parse_finish_outcome `{Collaborators} pr endp lc ps r lc' ps' :
  attr_parse_finish pr endp lc ps = Ret (r, lc', ps') ->
  (r = BGP_ATTR_PARSE_PROCEED /\ quiet ps ps' /\ ps_ibuf ps' = ps_ibuf ps
   /\ getp (ps_ibuf ps) = endp)
  \/ (r = BGP_ATTR_PARSE_ERROR /\ notified ps ps').
Proof.
  unfold attr_parse_finish. intros Hf.
  destruct (negb (_ =? _)) eqn:Hend.
  { pose proof (as4_path_release_quiet lc
                  (bgp_notify_send BGP_NOTIFY_UPDATE_ERR
                     BGP_NOTIFY_UPDATE_ATTR_LENG_ERR ps)) as Hr.
    destruct (as4_path_release _ _) as [lc1 ps1]. injection Hf as <- <- <-.
    right. split; [done|]. eapply notified_quiet_r; [|exact Hr].
    by apply notified_send. }
  apply negb_false_iff, Z.eqb_eq in Hend.
  destruct (bgp_attr_check_outcome pr ps) as [Hc|[Hc1 Hc2]].
  2:{ destruct (bgp_attr_check pr ps) as [ret ps1]. simpl in Hc1, Hc2. subst ret.
      simpl in Hf.
      pose proof (as4_path_release_quiet lc ps1) as Hr.
      destruct (as4_path_release _ _) as [lc1 ps2]. injection Hf as <- <- <-.
      right. split; [done|]. by eapply notified_quiet_r. }
  rewrite Hc in Hf. simpl in Hf.
  match type of Hf with
  | match ?m with _ => _ end = _ => destruct m as [[b ps2]|] eqn:Hm
  end; try discriminate.
  assert (Hq2 : quiet ps ps2 /\ ps_ibuf ps2 = ps_ibuf ps).
  { revert Hm. destruct (CHECK_FLAG _ _); [|by intros [= <- <-]].
    destruct (bgp_attr_munge_as4_attrs _ _ _ _ _) as [[r0 ps3]|] eqn:Hg;
      [|discriminate].
    simpl. intros [= <- <-]. eapply bgp_attr_munge_as4_attrs_quiet. exact Hg. }
  clear Hm. destruct Hq2 as [Hq2 Hi2]. destruct b.
  { pose proof (as4_path_release_quiet lc
                  (bgp_notify_send BGP_NOTIFY_UPDATE_ERR
                     BGP_NOTIFY_UPDATE_MAL_ATTR ps2)) as Hr.
    destruct (as4_path_release _ _) as [lc1 ps3]. injection Hf as <- <- <-.
    right. split; [done|]. eapply notified_quiet_r; [|exact Hr].
    by apply notified_send. }
  pose proof (as4_path_release_quiet lc ps2) as Hq3.
  pose proof (as4_path_release_ibuf lc ps2) as Hi3.
  destruct (as4_path_release lc ps2) as [lc3 ps3]. cbn [snd] in Hq3, Hi3.
  match type of Hf with
  | match ?m with _ => _ end = _ => destruct m as [[ret ps4]|] eqn:Hm
  end; try discriminate.
  assert (Hq4 : (ret = BGP_ATTR_PARSE_PROCEED /\ quiet ps3 ps4
                 /\ ps_ibuf ps4 = ps_ibuf ps3)
                \/ (ret = BGP_ATTR_PARSE_ERROR /\ notified ps3 ps4)).
  { revert Hm. destruct (CHECK_FLAG _ _); [|intros [= <- <-]; by left].
    apply bgp_attr_aspath_check_outcome. }
  clear Hm. destruct Hq4 as [(-> & Hq4 & Hi4)|[-> Hn4]]; simpl in Hf.
  - injection Hf as <- <- <-. left. split; [done|].
    assert (Hq : quiet ps ps4).
    { eapply quiet_trans; [exact Hq2|]. eapply quiet_trans; eassumption. }
    assert (Hi : ps_ibuf ps4 = ps_ibuf ps) by congruence.
    destruct (extra (ps_attr ps4)) as [attre|]; [|done].
    destruct (transit attre) as [t|]; [|done].
    by destruct (transit_intern _ _).
  - injection Hf as <- <- <-. right. split; [done|].
    eapply notified_quiet_l; [|exact Hn4].
    eapply quiet_trans; eassumption.
Qed.

(** A NOTIFY is queued exactly when [bgp_attr_parse] returns Error, and
    then one, of code UPDATE Message Error.  It returns Withdraw only to
    an eBGP peer's message, and never the decoders' internal
    ERROR_NOTIFYPLS. *)
Theorem bgp_attr_parse_notify `{Collaborators}
    (pr : peer) (size : Z) (ps : pstate) ret lc ps' :
  bgp_attr_parse pr size ps = Ret (ret, lc, ps') ->
  match ret with
  | BGP_ATTR_PARSE_PROCEED => ps_notify ps' = ps_notify ps
  | BGP_ATTR_PARSE_WITHDRAW =>
      sort pr = BGP_PEER_EBGP /\ ps_notify ps' = ps_notify ps
  | BGP_ATTR_PARSE_ERROR =>
      exists n, ps_notify ps' = ps_notify ps ++ [n]
                /\ n_code n = BGP_NOTIFY_UPDATE_ERR
  | BGP_ATTR_PARSE_ERROR_NOTIFYPLS => False
  end.
Proof.
  unfold bgp_attr_parse. intros Hp.
  destruct (_ <? size); [discriminate|].
  destruct (attr_loop _ _ _ _ _ _) as [[[[r lc1] ps1]|[lc1 ps1]]|] eqn:Hl;
    [| |discriminate].
  - injection Hp as -> -> ->. apply attr_loop_outcome in Hl.
    destruct Hl as [[-> Hn]|(-> & Hs & Hq)]; [exact Hn|by split].
  - apply attr_loop_outcome in Hl as [Hq Hge].
    apply attr_parse_finish_outcome in Hp
      as [(-> & Hq' & _ & _)|[-> Hn]].
    + by eapply quiet_trans.
    + by eapply notified_quiet_l.
Qed.

(** When [bgp_attr_parse] returns Proceed the read cursor stands at the
    end of the attribute block: [size] octets after where it started. *)
Theorem bgp_attr_parse_proceed_cursor `{Collaborators}
    (pr : peer) (size : Z) (ps : pstate) lc ps' :
  bgp_attr_parse pr size ps = Ret (BGP_ATTR_PARSE_PROCEED, lc, ps') ->
  getp (ps_ibuf ps') = getp (ps_ibuf ps) + size.
Proof.
  unfold bgp_attr_parse. intros Hp.
  destruct (_ <? size); [discriminate|].
  destruct (attr_loop _ _ _ _ _ _) as [[[[r lc1] ps1]|[lc1 ps1]]|] eqn:Hl;
    [| |discriminate].
  - injection Hp as -> -> ->. by apply attr_loop_inl in Hl.
  - apply attr_parse_finish_outcome in Hp
      as [(_ & _ & Hi & Hg)|[? _]]; [|done].
    by rewrite Hi.
Qed.

Lemma bgp_attr_parse_notify_witness :
  match parse_example BGP_PEER_EBGP 0 update_plain with
  | Ret (r, _, ps') => r = BGP_ATTR_PARSE_PROCEED /\ ps_notify ps' = []
  | _ => False
  end
  /\ match parse_example BGP_PEER_EBGP 0 origin_len2_octets with
     | Ret (r, _, ps') =>
         r = BGP_ATTR_PARSE_ERROR
         /\ exists n, ps_notify ps' = [n] /\ n_code n = BGP_NOTIFY_UPDATE_ERR
     | _ => False
     end.
Proof.
  split.
  - assert (Hr : run_ret (parse_example BGP_PEER_EBGP 0 update_plain)
                 = Some BGP_ATTR_PARSE_PROCEED) by (vm_compute; reflexivity).
    destruct (parse_example BGP_PEER_EBGP 0 update_plain)
      as [[[r lc] ps']| |] eqn:He; try discriminate.
    injection Hr as ->. split; [done|].
    exact (bgp_attr_parse_notify (H := example_collaborators) _ _ _ _ _ _ He).
  - assert (Hr : run_ret (parse_example BGP_PEER_EBGP 0 origin_len2_octets)
                 = Some BGP_ATTR_PARSE_ERROR) by (vm_compute; reflexivity).
    destruct (parse_example BGP_PEER_EBGP 0 origin_len2_octets)
      as [[[r lc] ps']| |] eqn:He; try discriminate.
    injection Hr as ->. split; [done|].
    exact (bgp_attr_parse_notify (H := example_collaborators) _ _ _ _ _ _ He).
Defined.

Lemma bgp_attr_parse_proceed_cursor_witness :
  match parse_example BGP_PEER_EBGP 0 update_plain with
  | Ret (r, _, ps') => r = BGP_ATTR_PARSE_PROCEED /\ getp (ps_ibuf ps') = 18
  | _ => False
  end.
Proof.
  assert (Hr : run_ret (parse_example BGP_PEER_EBGP 0 update_plain)
               = Some BGP_ATTR_PARSE_PROCEED) by (vm_compute; reflexivity).
  destruct (parse_example BGP_PEER_EBGP 0 update_plain)
    as [[[r lc] ps']| |] eqn:He; try discriminate.
  injection Hr as ->. split; [done|].
  exact (bgp_attr_parse_proceed_cursor (H := example_collaborators) _ _ _ _ _ He).
Defined.

(** ** Attributes that come twice *)

Lemma attr_loop_body_seen `{Collaborators} pr size endp lc ps lc1 ps1 :
  attr_loop_body pr size endp lc ps = inr (lc1, ps1) ->
  attr_type_at (ps_ibuf ps) ∈ seen lc1 /\ seen lc ⊆ seen lc1.
Proof.
  unfold attr_loop_body, attr_type_at.
  destruct (_ <? BGP_ATTR_MIN_LEN); [discriminate|].
  cbn [stream_getc fst snd].
  destruct (_ && _); [discriminate|].
  match goal with
  | |- context [let '(_, _) := ?e in _] => destruct e as [length s] eqn:Hlen
  end.
  destruct (bool_decide (_ ∈ _)); [discriminate|].
  destruct (endp <? _); [discriminate|].
  set (t := byte_at (data (ps_ibuf ps)) (getp (ps_ibuf ps) + 1)).
  assert (Hs : forall lc', seen lc' = {[t]} ∪ seen lc ->
                 t ∈ seen lc' /\ seen lc ⊆ seen lc').
  { intros lc' ->. set_solver. }
  destruct (bgp_attr_flag_invalid _).
  { destruct (bgp_attr_malformed _ _ _ _) as [ret ps2].
    destruct (bool_decide _); [|discriminate].
    intros [= <- <-]. by apply Hs. }
  match goal with
  | |- context [attr_dispatch ?a ?l ?p] =>
      assert (Hd : seen (snd (fst (attr_dispatch a l p))) = seen l);
      [|destruct (attr_dispatch a l p) as [[ret lc2] ps2]]
  end.
  { unfold attr_dispatch.
    repeat match goal with
           | |- context [if ?c then _ else _] => destruct c
           end; cbn [fst snd]; try done.
    - by destruct (bgp_attr_as4_path _ _) as [[r p] ps2].
    - destruct (bgp_attr_as4_aggregator _ _) as [[r [[a b]|]] ps2]; done.
    - destruct (bgp_mp_reach_parse _ _) as [[r [n|]] ps2]; done.
    - destruct (bgp_mp_unreach_parse _ _) as [[r [n|]] ps2]; done. }
  cbn [fst snd] in Hd.
  destruct (bool_decide (ret = BGP_ATTR_PARSE_ERROR_NOTIFYPLS)).
  { cbn. destruct (as4_path_release _ _). discriminate. }
  destruct (_ || _).
  { destruct (as4_path_release _ _). discriminate. }
  destruct (negb _).
  { destruct (as4_path_release _ _). discriminate. }
  intros [= <- <-]. apply Hs. by rewrite Hd.
Qed.

(** No attribute type is accepted twice.  A turn of the loop that goes
    round has entered the type it read in the bitmap, and the bitmap only
    grows; any later turn that finds that type at the cursor, behind a
    complete header, returns Error and queues a NOTIFY with subcode
    Malformed Attribute List and no data. *)
Theorem attr_loop_body_duplicate `{Collaborators}
    (pr : peer) (size endp : Z) (lc : parse_locals) (ps : pstate) lc1 ps1 :
  attr_loop_body pr size endp lc ps = inr (lc1, ps1) ->
  attr_type_at (ps_ibuf ps) ∈ seen lc1
  /\ seen lc ⊆ seen lc1
  /\ forall lc2 ps2,
       seen lc1 ⊆ seen lc2 ->
       header_complete endp (ps_ibuf ps2) ->
       attr_type_at (ps_ibuf ps2) = attr_type_at (ps_ibuf ps) ->
       exists ps3,
         attr_loop_body pr size endp lc2 ps2
         = inl (BGP_ATTR_PARSE_ERROR, lc2, ps3)
         /\ ps_notify ps3
            = ps_notify ps2
              ++ [mkNotify BGP_NOTIFY_UPDATE_ERR BGP_NOTIFY_UPDATE_MAL_ATTR []].
Proof.
  intros Hb. apply attr_loop_body_seen in Hb as [Hin Hsub].
  split; [done|]. split; [done|].
  intros lc2 ps2 Hsub2 [Hmin Hext] Ht.
  unfold attr_loop_body.
  destruct (_ <? BGP_ATTR_MIN_LEN) eqn:Hlt; [lia|].
  cbn [stream_getc fst snd].
  unfold attr_flag_at in Hext. cbn [stream_getc fst] in Hext.
  destruct (CHECK_FLAG _ BGP_ATTR_FLAG_EXTLEN) eqn:Hx.
  - specialize (Hext eq_refl).
    destruct (_ <? BGP_ATTR_MIN_LEN + 1) eqn:Hlt2; [lia|]. cbn [andb].
    cbn [stream_getw].
    rewrite bool_decide_eq_true_2.
    + eexists. split; [reflexivity|]. done.
    + unfold attr_type_at in Ht, Hin. cbn [stream_getc fst snd getp data with_getp] in Ht, Hin.
      cbn [getp data with_getp]. rewrite Ht. set_solver.
  - cbn [andb]. cbn [stream_getc].
    rewrite bool_decide_eq_true_2.
    + eexists. split; [reflexivity|]. done.
    + unfold attr_type_at in Ht, Hin. cbn [stream_getc fst snd getp data with_getp] in Ht, Hin.
      cbn [getp data with_getp]. rewrite Ht. set_solver.
Qed.

Lemma attr_loop_body_duplicate_witness :
  let pr := peer_of_sort BGP_PEER_EBGP 0 in
  let lc1 := turn_locals origin_twice_turn in
  let ps1 := turn_state origin_twice_turn in
  origin_twice_turn = inr (lc1, ps1)
  /\ getp (ps_ibuf ps1) = 4
  /\ exists ps3,
       attr_loop_body (H := example_collaborators) pr 8 8 lc1 ps1
       = inl (BGP_ATTR_PARSE_ERROR, lc1, ps3)
       /\ ps_notify ps3
          = ps_notify ps1
            ++ [mkNotify BGP_NOTIFY_UPDATE_ERR BGP_NOTIFY_UPDATE_MAL_ATTR []].
Proof.
  intros pr lc1 ps1.
  assert (Hb : origin_twice_turn = inr (lc1, ps1)) by (vm_compute; reflexivity).
  split; [exact Hb|]. split; [reflexivity|].
  destruct (attr_loop_body_duplicate (H := example_collaborators)
              pr 8 8 locals_init (pstate_of update_origin_twice) lc1 ps1 Hb)
    as (_ & _ & Hdup).
  apply (Hdup lc1 ps1).
  - done.
  - split; [vm_compute; discriminate|]. vm_compute. discriminate.
  - reflexivity.
Defined.

(** ** The tunnel encapsulation attribute, written and read back *)

Lemma subtlvs_size_fold chain n :
  fold_left (fun n st => n + (2 + st_length st)) chain n = n + subtlvs_size chain.
Proof.
  revert n. induction chain as [|st chain IH]; intros n; simpl; [lia|].
  rewrite IH. lia.
Qed.

Lemma subtlvs_put_fold chain s :
  fold_left (fun s st =>
               let s := stream_putc s (st_type st) in
               let s := stream_putc s (st_length st) in
               stream_put s (st_value st) (st_length st)) chain s
  = put (flat_map subtlv_bytes chain) s.
Proof.
  revert s. induction chain as [|st chain IH]; intros s; simpl.
  - by rewrite put_nil.
  - rewrite IH. put_unfold. rewrite !put_put. done.
Qed.

Lemma subtlvs_size_nonneg chain :
  Forall subtlv_ok chain -> 0 <= subtlvs_size chain.
Proof.
  induction 1 as [|st chain (_ & Hl & _) _ IH]; simpl; lia.
Qed.

Lemma chain_readable_ok chain : chain_readable chain -> Forall subtlv_ok chain.
Proof.
  induction chain as [|st chain IH]; [constructor|].
  intros [Hok Hrest]. constructor; [done|].
  destruct chain; [constructor|]. by apply IH.
Qed.

(** What [bgp_packet_mpattr_tea] appends for a chain that is not empty. *)
Lemma bgp_packet_mpattr_tea_eq s a e :
  extra a = Some e -> encap_subtlvs e <> [] ->
  Forall subtlv_ok (encap_subtlvs e) ->
  4 + subtlvs_size (encap_subtlvs e) <= 0xffff ->
  bgp_packet_mpattr_tea s a
  = put (encap_header (encap_subtlvs e)
         ++ encap_value (encap_tunneltype e) (encap_subtlvs e)) s.
Proof.
  intros He Hne Hok Hmax. unfold bgp_packet_mpattr_tea. rewrite He.
  destruct (encap_subtlvs e) as [|st chain] eqn:Hc; [done|].
  rewrite subtlvs_size_fold.
  pose proof (subtlvs_size_nonneg _ Hok) as Hpos.
  set (n := subtlvs_size (st :: chain)) in *.
  destruct (0xffff <? 4 + n) eqn:Hlt; [lia|].
  rewrite subtlvs_put_fold. unfold encap_header, encap_value. fold n.
  replace (4 + n - 4) with n by lia.
  destruct (0xff <? 4 + n) eqn:Hff.
  - put_unfold. rewrite !put_put.
    change 0xffff with (Z.ones 16). rewrite Z.land_ones by lia.
    rewrite (Z.mod_small (4 + n)) by (change (2 ^ 16) with 65536; lia).
    done.
  - put_unfold. rewrite !put_put.
    change 0xff with (Z.ones 8). rewrite Z.land_ones by lia.
    change (2 ^ 8) with 256. rewrite Z.mod_mod by lia.
    rewrite (Z.mod_small (4 + n)) by lia.
    done.
Qed.

Lemma byte_at_app pre x rest :
  0 <= x < 256 ->
  byte_at (pre ++ x :: rest) (Z.of_nat (length pre)) = x.
Proof.
  intros Hx. unfold byte_at. rewrite Nat2Z.id.
  rewrite app_nth2 by lia. rewrite Nat.sub_diag. simpl.
  by apply Z.mod_small.
Qed.

Lemma byte_at_app_1 pre x y rest :
  0 <= y < 256 ->
  byte_at (pre ++ x :: y :: rest) (Z.of_nat (length pre) + 1) = y.
Proof.
  intros Hy. unfold byte_at.
  replace (Z.to_nat (Z.of_nat (length pre) + 1)) with (length pre + 1)%nat by lia.
  rewrite app_nth2 by lia.
  replace (length pre + 1 - length pre)%nat with 1%nat by lia. simpl.
  by apply Z.mod_small.
Qed.

Lemma bytes_at_app pre l rest n :
  n = Z.of_nat (length l) ->
  bytes_at (pre ++ l ++ rest) (Z.of_nat (length pre)) n = l.
Proof.
  intros ->. unfold bytes_at. rewrite !Nat2Z.id.
  by rewrite drop_app_length, take_app_length.
Qed.

(** The loop of [bgp_attr_encap] over the octets of a readable chain:
    it attaches a copy of every sub-TLV and leaves no octet over. *)
Lemma encap_subtlv_loop_reads chain :
  forall fuel startp total ps pre post,
    chain_readable chain ->
    (length chain <= fuel)%nat ->
    data (ps_ibuf ps) = pre ++ flat_map subtlv_bytes chain ++ post ->
    getp (ps_ibuf ps) = Z.of_nat (length pre) ->
    encap_subtlv_loop fuel startp total (subtlvs_size chain) ps
    = (Some 0,
       match chain with
       | [] => ps
       | _ =>
           let '(attre, a) := bgp_attr_extra_get (ps_attr ps) in
           with_ibuf
             (with_attr ps
                (attr_set_extra a
                   (Some (extra_set_encap_subtlvs attre
                            (encap_subtlvs attre ++ encap_tlv_dup chain)))))
             (with_getp (ps_ibuf ps)
                (getp (ps_ibuf ps) + subtlvs_size chain))
       end).
Proof.
  induction chain as [|st chain IH];
    intros fuel startp total ps pre post Hr Hfuel Hdata Hgetp.
  - destruct fuel; simpl; done.
  - destruct fuel as [|fuel]; [simpl in Hfuel; lia|].
    destruct Hr as [(Ht & Hl & Hv) Hrest].
    assert (Hsz : 0 <= subtlvs_size chain).
    { apply subtlvs_size_nonneg. destruct chain; [constructor|].
      by apply chain_readable_ok. }
    assert (H4 : 4 <= subtlvs_size (st :: chain)).
    { destruct chain as [|st' chain]; simpl in *; [lia|].
      destruct Hrest as [(_ & Hl' & _) Hrest'].
      fold (subtlvs_size chain) in *.
      assert (0 <= subtlvs_size chain); [|lia].
      apply subtlvs_size_nonneg.
      destruct chain; [constructor|]. by apply chain_readable_ok. }
    cbn [encap_subtlv_loop].
    destruct (subtlvs_size (st :: chain) <? 4) eqn:H4'; [lia|].
    cbn [flat_map] in Hdata. unfold subtlv_bytes at 1 in Hdata.
    rewrite (Z.mod_small (st_type st)) in Hdata by lia.
    rewrite (Z.mod_small (st_length st)) in Hdata by lia.
    rewrite <- !app_assoc in Hdata. cbn [app] in Hdata.
    unfold stream_getc. cbn [fst snd with_getp getp data with_ibuf ps_ibuf].
    rewrite Hgetp, Hdata.
    rewrite byte_at_app by lia. rewrite byte_at_app_1 by lia.
    cbn [subtlvs_size fold_right]. fold (subtlvs_size chain).
    destruct (2 + st_length st + subtlvs_size chain - 2 <? st_length st) eqn:Hlt;
      [lia|].
    unfold stream_get. cbn [fst snd with_getp getp data].
    set (val := firstn (Z.to_nat (st_length st)) (st_value st)) in *.
    assert (Hvl : Z.of_nat (length val) = st_length st).
    { unfold val. rewrite length_firstn. lia. }
    assert (Hb : bytes_at
                   (pre ++ st_type st :: st_length st :: val
                        ++ flat_map subtlv_bytes chain ++ post)
                   (Z.of_nat (length pre) + 1 + 1) (st_length st) = val).
    { replace (pre ++ st_type st :: st_length st :: val
                   ++ flat_map subtlv_bytes chain ++ post)
        with ((pre ++ [st_type st; st_length st]) ++ val
                ++ (flat_map subtlv_bytes chain ++ post))
        by (rewrite <- !app_assoc; reflexivity).
      replace (Z.of_nat (length pre) + 1 + 1)
        with (Z.of_nat (length (pre ++ [st_type st; st_length st])))
        by (rewrite length_app; simpl; lia).
      by apply bytes_at_app. }
    cbn [ps_attr with_ibuf]. rewrite ?Hdata, Hb.
    destruct (bgp_attr_extra_get (ps_attr ps)) as [attre a] eqn:Hx.
    replace (2 + st_length st + subtlvs_size chain - 2 - st_length st)
      with (subtlvs_size chain) by lia.
    erewrite (IH fuel startp total _ (pre ++ st_type st :: st_length st :: val) post).
    + destruct chain as [|st' chain].
      * cbn [subtlvs_size fold_right encap_tlv_dup map].
        f_equal. unfold with_ibuf, with_attr, with_getp. simpl.
        f_equal. f_equal. lia.
      * cbn [ps_attr with_ibuf with_attr].
        unfold bgp_attr_extra_get at 1. cbn [extra attr_set_extra].
        f_equal. unfold with_ibuf, with_attr, with_getp. simpl.
        rewrite <- !app_assoc. simpl. f_equal. f_equal.
        fold (subtlvs_size chain). lia.
    + destruct chain; [done|exact Hrest].
    + simpl in Hfuel. lia.
    + cbn [ps_ibuf with_ibuf data with_getp]. rewrite Hdata.
      rewrite <- !app_assoc. reflexivity.
    + cbn [ps_ibuf with_ibuf getp with_getp].
      rewrite length_app. simpl. lia.
Qed.

Lemma stream_getw_app s pre v rest :
  0 <= v < 65536 ->
  data s = pre ++ w16 v ++ rest ->
  getp s = Z.of_nat (length pre) ->
  stream_getw s = (v, with_getp s (Z.of_nat (length pre) + 2)).
Proof.
  intros Hv Hd Hg. unfold stream_getw. rewrite Hg, Hd. unfold w16. cbn [app].
  rewrite byte_at_app, byte_at_app_1.
  - f_equal. rewrite (Z.mod_small (v / 256)).
    + rewrite Z.mul_comm. symmetry. apply Z.div_mod. lia.
    + split; [apply Z.div_pos; lia|apply Z.div_lt_upper_bound; lia].
  - apply Z.mod_pos_bound. lia.
  - apply Z.mod_pos_bound. lia.
Qed.

Lemma subtlvs_size_length chain :
  Forall subtlv_ok chain -> Z.of_nat (length chain) <= subtlvs_size chain.
Proof.
  induction 1 as [|st chain (_ & Hl & _) _ IH]; simpl; [lia|].
  fold (subtlvs_size chain). lia.
Qed.

Lemma chain_readable_size chain :
  chain <> [] -> chain_readable chain -> 4 <= subtlvs_size chain.
Proof.
  destruct chain as [|st chain]; [done|]. intros _ [(_ & Hl & _) Hr].
  destruct chain as [|st' chain].
  - unfold subtlvs_size. cbn [fold_right]. lia.
  - pose proof (chain_readable_ok _ Hr) as Hok.
    inversion Hok as [|? ? (_ & Hl' & _) Hok']; subst.
    pose proof (subtlvs_size_nonneg _ Hok') as Hn.
    change (subtlvs_size (st :: st' :: chain))
      with (2 + st_length st + (2 + st_length st' + subtlvs_size chain)).
    lia.
Qed.

Lemma subtlvs_bytes_length chain :
  Forall subtlv_ok chain ->
  Z.of_nat (length (flat_map subtlv_bytes chain)) = subtlvs_size chain.
Proof.
  induction 1 as [|st chain (_ & Hl & Hv) _ IH]; [done|].
  cbn [flat_map]. rewrite length_app. unfold subtlv_bytes at 1.
  cbn [app length]. rewrite length_firstn.
  change (subtlvs_size (st :: chain))
    with (2 + st_length st + subtlvs_size chain).
  lia.
Qed.

(** What [bgp_packet_mpattr_tea] writes, [bgp_attr_encap] reads back.  For
    a chain whose sub-TLVs fit their octets and whose last sub-TLV has at
    least two octets of value, the encoder appends header and value, and
    the decoder, given the value with flags Optional and Transitive,
    returns Proceed, stores the tunnel type, attaches a copy of every
    sub-TLV in order behind the chain the attribute set had, and leaves
    the cursor at the end of what was written. *)
Theorem bgp_attr_encap_roundtrip (s0 : stream) (a : attr) (e : attr_extra)
    (ps : pstate) (flag : Z) :
  stream_wf s0 ->
  extra a = Some e ->
  encap_subtlvs e <> [] ->
  chain_readable (encap_subtlvs e) ->
  0 <= encap_tunneltype e < 65536 ->
  4 + subtlvs_size (encap_subtlvs e) <= 0xffff ->
  CHECK_FLAG flag BGP_ATTR_FLAG_TRANS = true ->
  CHECK_FLAG flag BGP_ATTR_FLAG_OPTIONAL = true ->
  let s1 := bgp_packet_mpattr_tea s0 a in
  let header := encap_header (encap_subtlvs e) in
  ps_ibuf ps
  = mkStream (data s1) (endp s0 + Z.of_nat (length header)) (endp s1) ->
  data s1 = data s0 ++ header
            ++ encap_value (encap_tunneltype e) (encap_subtlvs e)
  /\ bgp_attr_encap (4 + subtlvs_size (encap_subtlvs e)) flag (endp s0) ps
     = (BGP_ATTR_PARSE_PROCEED,
        with_ibuf
          (with_attr ps
             (attr_encap_add (ps_attr ps) (encap_tunneltype e)
                (encap_tlv_dup (encap_subtlvs e))))
          (with_getp (ps_ibuf ps) (endp s1))).
Proof.
  intros Hwf He Hne Hr Htt Hmax Hft Hfo s1 header Hibuf.
  pose proof (chain_readable_ok _ Hr) as Hok.
  pose proof (chain_readable_size _ Hne Hr) as H4.
  assert (Hs1 : s1 = put (header ++ encap_value (encap_tunneltype e)
                                      (encap_subtlvs e)) s0).
  { by apply bgp_packet_mpattr_tea_eq. }
  split; [by rewrite Hs1|].
  set (chain := encap_subtlvs e) in *.
  set (tt := encap_tunneltype e) in *.
  unfold bgp_attr_encap. rewrite Hft, Hfo. cbn [negb orb].
  destruct (4 + subtlvs_size chain <? 4) eqn:Hlt; [lia|].
  set (pre := data s0 ++ header).
  assert (Hd : data (ps_ibuf ps)
               = pre ++ w16 tt ++ w16 (subtlvs_size chain)
                     ++ flat_map subtlv_bytes chain).
  { rewrite Hibuf, Hs1. unfold put, encap_value, pre. simpl.
    by rewrite <- !app_assoc. }
  assert (Hg : getp (ps_ibuf ps) = Z.of_nat (length pre)).
  { rewrite Hibuf. unfold pre. simpl. rewrite length_app.
    unfold stream_wf in Hwf. lia. }
  rewrite (stream_getw_app _ pre tt _ Htt Hd Hg).
  rewrite (stream_getw_app _ (pre ++ w16 tt) (subtlvs_size chain)
             (flat_map subtlv_bytes chain)).
  2:{ lia. }
  2:{ cbn [data with_getp]. rewrite Hd. by rewrite <- !app_assoc. }
  2:{ cbn [getp with_getp]. rewrite length_app. simpl. lia. }
  replace (4 + subtlvs_size chain - 4) with (subtlvs_size chain) by lia.
  erewrite (encap_subtlv_loop_reads chain _ _ _ _
              (pre ++ w16 tt ++ w16 (subtlvs_size chain)) []).
  - destruct chain as [|st chain'] eqn:Hc; [done|]. rewrite <- Hc in *.
    cbn [ps_attr with_ibuf].
    unfold attr_encap_add.
    destruct (bgp_attr_extra_get (ps_attr ps)) as [attre a0] eqn:Hx.
    cbn [negb Z.eqb]. 
    destruct (4 <=? subtlvs_size chain) eqn:H4'; [|lia].
    cbn [ps_attr with_attr with_ibuf extra attr_set_extra].
    f_equal. destruct a0. unfold with_attr, with_ibuf, with_getp, attr_set_extra.
    simpl. f_equal. f_equal.
    rewrite Hs1. unfold put. cbn [endp].
    rewrite !length_app. unfold encap_value. rewrite !length_app.
    pose proof (subtlvs_bytes_length _ Hok) as Hbl. fold chain in Hbl.
    unfold stream_wf in Hwf. unfold pre. rewrite length_app.
    unfold w16. cbn [length]. lia.
  - done.
  - pose proof (subtlvs_size_length _ Hok). fold chain in H. lia.
  - cbn [ps_ibuf with_ibuf data with_getp]. rewrite Hd.
    rewrite <- !app_assoc. by rewrite app_nil_r.
  - cbn [ps_ibuf with_ibuf getp with_getp]. rewrite !length_app.
    unfold w16. cbn [length]. lia.
Qed.

Lemma bgp_attr_encap_roundtrip_witness :
  data encap_sent = [0xC0; 23; 11; 0; 1; 0; 7; 6; 1; 7; 4; 2; 0x12; 0x34]
  /\ bgp_attr_encap 11 0xC0 0 encap_received
     = (BGP_ATTR_PARSE_PROCEED,
        with_ibuf
          (with_attr encap_received
             (attr_encap_add attr_zero 1 [encap_tlv_b; encap_tlv_a]))
          (with_getp (ps_ibuf encap_received) 14)).
Proof.
  split; [reflexivity|].
  refine (proj2 (bgp_attr_encap_roundtrip stream_new
                   (encap_attr [encap_tlv_b; encap_tlv_a])
                   (extra_set_encap_subtlvs
                      (extra_set_encap_tunneltype bgp_attr_extra_new 1)
                      [encap_tlv_b; encap_tlv_a])
                   encap_received 0xC0 eq_refl eq_refl _ _ _ _ eq_refl eq_refl
                   eq_refl)).
  - discriminate.
  - simpl. unfold subtlv_ok. simpl. lia.
  - simpl. lia.
  - simpl. lia.
Defined.

(** The same loop when two or three octets follow the sub-TLVs it can
    read: it stops in front of them and reports them as left over. *)
Lemma encap_subtlv_loop_leftover chain :
  forall fuel startp total ps pre post r,
    Forall subtlv_ok chain ->
    2 <= r < 4 ->
    (length chain <= fuel)%nat ->
    data (ps_ibuf ps) = pre ++ flat_map subtlv_bytes chain ++ post ->
    getp (ps_ibuf ps) = Z.of_nat (length pre) ->
    encap_subtlv_loop fuel startp total (subtlvs_size chain + r) ps
    = (Some r,
       match chain with
       | [] => ps
       | _ =>
           let '(attre, a) := bgp_attr_extra_get (ps_attr ps) in
           with_ibuf
             (with_attr ps
                (attr_set_extra a
                   (Some (extra_set_encap_subtlvs attre
                            (encap_subtlvs attre ++ encap_tlv_dup chain)))))
             (with_getp (ps_ibuf ps)
                (getp (ps_ibuf ps) + subtlvs_size chain))
       end).
Proof.
  induction chain as [|st chain IH];
    intros fuel startp total ps pre post r Hok Hr Hfuel Hdata Hgetp.
  - change (subtlvs_size [] + r) with (0 + r). rewrite Z.add_0_l.
    destruct fuel; cbn [encap_subtlv_loop]; [done|].
    destruct (r <? 4) eqn:Hlt; [done|lia].
  - destruct fuel as [|fuel]; [simpl in Hfuel; lia|].
    inversion Hok as [|? ? (Ht & Hl & Hv) Hok']; subst.
    pose proof (subtlvs_size_nonneg _ Hok') as Hsz.
    change (subtlvs_size (st :: chain))
      with (2 + st_length st + subtlvs_size chain).
    cbn [encap_subtlv_loop].
    destruct (2 + st_length st + subtlvs_size chain + r <? 4) eqn:H4'; [lia|].
    cbn [flat_map] in Hdata. unfold subtlv_bytes at 1 in Hdata.
    rewrite (Z.mod_small (st_type st)) in Hdata by lia.
    rewrite (Z.mod_small (st_length st)) in Hdata by lia.
    rewrite <- !app_assoc in Hdata. cbn [app] in Hdata.
    unfold stream_getc. cbn [fst snd with_getp getp data with_ibuf ps_ibuf].
    rewrite Hgetp, Hdata.
    rewrite byte_at_app by lia. rewrite byte_at_app_1 by lia.
    destruct (2 + st_length st + subtlvs_size chain + r - 2 <? st_length st)
      eqn:Hlt; [lia|].
    unfold stream_get. cbn [fst snd with_getp getp data].
    set (val := firstn (Z.to_nat (st_length st)) (st_value st)) in *.
    assert (Hvl : Z.of_nat (length val) = st_length st).
    { unfold val. rewrite length_firstn. lia. }
    assert (Hb : bytes_at
                   (pre ++ st_type st :: st_length st :: val
                        ++ flat_map subtlv_bytes chain ++ post)
                   (Z.of_nat (length pre) + 1 + 1) (st_length st) = val).
    { replace (pre ++ st_type st :: st_length st :: val
                   ++ flat_map subtlv_bytes chain ++ post)
        with ((pre ++ [st_type st; st_length st]) ++ val
                ++ (flat_map subtlv_bytes chain ++ post))
        by (rewrite <- !app_assoc; reflexivity).
      replace (Z.of_nat (length pre) + 1 + 1)
        with (Z.of_nat (length (pre ++ [st_type st; st_length st])))
        by (rewrite length_app; simpl; lia).
      by apply bytes_at_app. }
    cbn [ps_attr with_ibuf]. rewrite ?Hdata, Hb.
    destruct (bgp_attr_extra_get (ps_attr ps)) as [attre a] eqn:Hx.
    replace (2 + st_length st + subtlvs_size chain + r - 2 - st_length st)
      with (subtlvs_size chain + r) by lia.
    erewrite (IH fuel startp total _ (pre ++ st_type st :: st_length st :: val) post).
    + destruct chain as [|st' chain].
      * cbn [subtlvs_size fold_right encap_tlv_dup map].
        f_equal. unfold with_ibuf, with_attr, with_getp. simpl.
        f_equal. f_equal. lia.
      * cbn [ps_attr with_ibuf with_attr].
        unfold bgp_attr_extra_get at 1. cbn [extra attr_set_extra].
        f_equal. unfold with_ibuf, with_attr, with_getp. simpl.
        rewrite <- !app_assoc. simpl. f_equal. f_equal.
        fold (subtlvs_size chain). lia.
    + done.
    + done.
    + simpl in Hfuel. lia.
    + cbn [ps_ibuf with_ibuf data with_getp]. rewrite Hdata.
      rewrite <- !app_assoc. reflexivity.
    + cbn [ps_ibuf with_ibuf getp with_getp].
      rewrite length_app. simpl. lia.
Qed.

Lemma subtlvs_size_app front back :
  subtlvs_size (front ++ back) = subtlvs_size front + subtlvs_size back.
Proof.
  induction front as [|st front IH]; [done|].
  change (subtlvs_size ((st :: front) ++ back))
    with (2 + st_length st + subtlvs_size (front ++ back)).
  change (subtlvs_size (st :: front))
    with (2 + st_length st + subtlvs_size front).
  lia.
Qed.

(** A tunnel encapsulation attribute whose last sub-TLV carries fewer than
    two value octets is written by [bgp_packet_mpattr_tea] as any other,
    but [bgp_attr_encap] does not read it back: its loop goes round only
    while four octets remain, so the last sub-TLV is left over, the parser
    answers [BGP_ATTR_PARSE_ERROR] and queues a NOTIFY
    UPDATE Message Error / Optional Attribute Error. *)
Theorem bgp_attr_encap_short_last (s0 : stream) (a : attr) (e : attr_extra)
    (front : list bgp_attr_encap_subtlv) (last : bgp_attr_encap_subtlv)
    (ps : pstate) (flag : Z) :
  stream_wf s0 ->
  extra a = Some e ->
  encap_subtlvs e = front ++ [last] ->
  Forall subtlv_ok (front ++ [last]) ->
  st_length last < 2 ->
  0 <= encap_tunneltype e < 65536 ->
  4 + subtlvs_size (front ++ [last]) <= 0xffff ->
  CHECK_FLAG flag BGP_ATTR_FLAG_TRANS = true ->
  CHECK_FLAG flag BGP_ATTR_FLAG_OPTIONAL = true ->
  let s1 := bgp_packet_mpattr_tea s0 a in
  let header := encap_header (front ++ [last]) in
  ps_ibuf ps
  = mkStream (data s1) (endp s0 + Z.of_nat (length header)) (endp s1) ->
  data s1 = data s0 ++ header
            ++ encap_value (encap_tunneltype e) (front ++ [last])
  /\ fst (bgp_attr_encap (4 + subtlvs_size (front ++ [last])) flag (endp s0) ps)
     = BGP_ATTR_PARSE_ERROR
  /\ exists d,
       ps_notify
         (snd (bgp_attr_encap (4 + subtlvs_size (front ++ [last])) flag
                 (endp s0) ps))
       = ps_notify ps
         ++ [mkNotify BGP_NOTIFY_UPDATE_ERR BGP_NOTIFY_UPDATE_OPT_ATTR_ERR d].
Proof.
  intros Hwf He Hc Hok Hshort Htt Hmax Hft Hfo s1 header Hibuf.
  assert (Hs1 : s1 = put (header ++ encap_value (encap_tunneltype e)
                                      (front ++ [last])) s0).
  { unfold s1, header. rewrite <- Hc. apply bgp_packet_mpattr_tea_eq; try done.
    - rewrite Hc. by destruct front.
    - by rewrite Hc.
    - by rewrite Hc. }
  split; [by rewrite Hs1|].
  set (tt := encap_tunneltype e) in *.
  apply Forall_app in Hok as [Hokf Hokl].
  inversion Hokl as [|? ? (Ht & Hl & Hv) _]; subst.
  pose proof (subtlvs_size_nonneg _ Hokf) as Hszf.
  rewrite subtlvs_size_app in *.
  change (subtlvs_size [last]) with (2 + st_length last + 0) in *.
  set (r := 2 + st_length last + 0) in *.
  unfold bgp_attr_encap. rewrite Hft, Hfo. cbn [negb orb].
  destruct (4 + (subtlvs_size front + r) <? 4) eqn:Hlt; [lia|].
  set (pre := data s0 ++ header).
  assert (Hd : data (ps_ibuf ps)
               = pre ++ w16 tt ++ w16 (subtlvs_size front + r)
                     ++ flat_map subtlv_bytes front ++ subtlv_bytes last).
  { rewrite Hibuf, Hs1. unfold put, encap_value, pre. simpl.
    rewrite subtlvs_size_app, flat_map_app. simpl.
    rewrite <- !app_assoc. by rewrite app_nil_r. }
  assert (Hg : getp (ps_ibuf ps) = Z.of_nat (length pre)).
  { rewrite Hibuf. unfold pre. simpl. rewrite length_app.
    unfold stream_wf in Hwf. lia. }
  rewrite (stream_getw_app _ pre tt _ Htt Hd Hg).
  rewrite (stream_getw_app _ (pre ++ w16 tt) (subtlvs_size front + r)
             (flat_map subtlv_bytes front ++ subtlv_bytes last)).
  2:{ lia. }
  2:{ cbn [data with_getp]. rewrite Hd. by rewrite <- !app_assoc. }
  2:{ cbn [getp with_getp]. rewrite length_app. simpl. lia. }
  replace (4 + (subtlvs_size front + r) - 4) with (subtlvs_size front + r) by lia.
  erewrite (encap_subtlv_loop_leftover front _ _ _ _
              (pre ++ w16 tt ++ w16 (subtlvs_size front + r))
              (subtlv_bytes last) r).
  - destruct (negb (r =? 0)) eqn:Hr0.
    + cbn [fst snd]. split; [done|].
      unfold bgp_notify_send_with_data. cbn [ps_notify with_notify].
      eexists. f_equal.
      destruct (4 <=? _); destruct front as [|st front]; try done.
      * by destruct (extra (ps_attr _)).
      * cbv zeta. destruct (bgp_attr_extra_get _) as [attre a0].
        by destruct (extra (ps_attr _)).
      * cbv zeta. by destruct (bgp_attr_extra_get _) as [attre a0].
    + apply negb_false_iff, Z.eqb_eq in Hr0. lia.
  - done.
  - lia.
  - pose proof (subtlvs_size_length _ Hokf). lia.
  - cbn [ps_ibuf with_ibuf data with_getp]. rewrite Hd.
    by rewrite <- !app_assoc.
  - cbn [ps_ibuf with_ibuf getp with_getp]. rewrite !length_app.
    unfold w16. cbn [length]. lia.
Qed.

Lemma bgp_attr_encap_short_last_witness :
  data encap_sent_short = [0xC0; 23; 11; 0; 1; 0; 7; 4; 2; 0x12; 0x34; 6; 1; 7]
  /\ fst (bgp_attr_encap 11 0xC0 0 encap_received_short) = BGP_ATTR_PARSE_ERROR
  /\ exists d,
       ps_notify (snd (bgp_attr_encap 11 0xC0 0 encap_received_short))
       = [mkNotify BGP_NOTIFY_UPDATE_ERR BGP_NOTIFY_UPDATE_OPT_ATTR_ERR d].
Proof.
  split; [reflexivity|].
  refine (proj2 (bgp_attr_encap_short_last stream_new
                   (encap_attr [encap_tlv_a; encap_tlv_b])
                   (extra_set_encap_subtlvs
                      (extra_set_encap_tunneltype bgp_attr_extra_new 1)
                      [encap_tlv_a; encap_tlv_b])
                   [encap_tlv_a] encap_tlv_b
                   encap_received_short 0xC0 eq_refl eq_refl eq_refl _ _ _ _
                   eq_refl eq_refl eq_refl)).
  - repeat constructor; simpl; lia.
  - simpl. lia.
  - simpl. lia.
  - simpl. lia.
Defined.

(** ** The flags test *)

Lemma forallb_Z_range (P : Z -> bool) (n : nat) :
  forallb P (map Z.of_nat (seq 0 n)) = true ->
  forall z, 0 <= z < Z.of_nat n -> P z = true.
Proof.
  intros Hall z Hz. rewrite forallb_forall in Hall. apply Hall.
  apply in_map_iff. exists (Z.to_nat z). split; [lia|].
  apply in_seq. lia.
Qed.

(** The flags test on every type code up to [attr_flags_values_max] and
    every flags octet, against the conditions on the single bits. *)
Lemma bgp_attr_flag_invalid_table (pr : peer) :
  forallb (fun t =>
    forallb (fun f =>
      Bool.eqb
        (bgp_attr_flag_invalid (mkArgs pr 0 t f 0 0))
        (negb ((attr_flags_values t =? 0)
               || (Z.land f (Z.lor BGP_ATTR_FLAG_OPTIONAL BGP_ATTR_FLAG_TRANS)
                   =? attr_flags_values t)
                  && (Z.land f 0x0F =? 0)
                  && (negb (CHECK_FLAG f BGP_ATTR_FLAG_PARTIAL)
                      || (attr_flags_values t
                          =? Z.lor BGP_ATTR_FLAG_OPTIONAL BGP_ATTR_FLAG_TRANS)))))
      (map Z.of_nat (seq 0 256)))
    (map Z.of_nat (seq 0 33)) = true.
Proof. vm_compute. reflexivity. Qed.

Lemma attr_flags_values_outside (t : Z) :
  t < 0 \/ attr_flags_values_max < t -> attr_flags_values t = 0.
Proof.
  intros Ht. unfold attr_flags_values.
  repeat match goal with
         | |- context [?a =? ?b] =>
             destruct (Z.eqb_spec a b) as [->|_];
             [vm_compute in Ht; destruct Ht as [Ht|Ht]; discriminate Ht|]
         end.
  done.
Qed.

(** What [bgp_attr_flag_invalid] accepts, bit by bit.  A flags octet
    passes for a type code exactly when the table has no entry for the
    code, or: its Optional and Transitive bits are the ones the table
    requires, its four low bits are zero, and its Partial bit is set only
    where the table requires Optional and Transitive together.  The
    Extended-Length bit plays no part. *)
Theorem bgp_attr_flag_invalid_spec (args : bgp_attr_parser_args) :
  0 <= a_flags args < 256 ->
  let required := attr_flags_values (a_type args) in
  bgp_attr_flag_invalid args = false
  <-> required = 0
      \/ (Z.land (a_flags args)
            (Z.lor BGP_ATTR_FLAG_OPTIONAL BGP_ATTR_FLAG_TRANS) = required
          /\ Z.land (a_flags args) 0x0F = 0
          /\ (CHECK_FLAG (a_flags args) BGP_ATTR_FLAG_PARTIAL = true ->
              required = Z.lor BGP_ATTR_FLAG_OPTIONAL BGP_ATTR_FLAG_TRANS)).
Proof.
  intros Hf required.
  destruct args as [pr len t f total startp]. cbn [a_flags a_type] in *.
  change (bgp_attr_flag_invalid (mkArgs pr len t f total startp))
    with (bgp_attr_flag_invalid (mkArgs pr 0 t f 0 0)).
  destruct (Z_lt_ge_dec t 0) as [Hneg|Hpos];
    [|destruct (Z_lt_ge_dec attr_flags_values_max t) as [Hbig|Hsmall]].
  - assert (H0 : required = 0) by (apply attr_flags_values_outside; lia).
    split; [by left|]. intros _.
    unfold bgp_attr_flag_invalid. cbn [a_flags a_type].
    fold required. rewrite H0.
    by destruct (_ <? t).
  - assert (H0 : required = 0) by (apply attr_flags_values_outside; lia).
    split; [by left|]. intros _.
    unfold bgp_attr_flag_invalid. cbn [a_flags a_type].
    fold required. rewrite H0.
    by destruct (_ <? t).
  - pose proof (bgp_attr_flag_invalid_table pr) as Htab.
    apply (forallb_Z_range _ 33) with (z := t) in Htab;
      [|change attr_flags_values_max with 32 in Hsmall; lia].
    apply (forallb_Z_range _ 256) with (z := f) in Htab; [|lia].
    apply Bool.eqb_prop in Htab. rewrite Htab. fold required.
    rewrite negb_false_iff, orb_true_iff, !andb_true_iff, orb_true_iff,
      negb_true_iff, !Z.eqb_eq.
    split.
    + intros [H0|[[H1 H2] H3]]; [by left|right].
      split_and!; try done. intros Hp. destruct H3 as [H3|H3]; [congruence|done].
    + intros [H0|(H1 & H2 & H3)]; [by left|right].
      split_and!; try done.
      destruct (CHECK_FLAG f BGP_ATTR_FLAG_PARTIAL); [right; by apply H3|by left].
Qed.

Lemma bgp_attr_flag_invalid_spec_witness :
  let args := mkArgs old_peer 1 BGP_ATTR_ORIGIN 0x50 5 0 in
  bgp_attr_flag_invalid args = false
  <-> attr_flags_values BGP_ATTR_ORIGIN = 0
      \/ (Z.land 0x50 (Z.lor BGP_ATTR_FLAG_OPTIONAL BGP_ATTR_FLAG_TRANS)
          = attr_flags_values BGP_ATTR_ORIGIN
          /\ Z.land 0x50 0x0F = 0
          /\ (CHECK_FLAG 0x50 BGP_ATTR_FLAG_PARTIAL = true ->
              attr_flags_values BGP_ATTR_ORIGIN
              = Z.lor BGP_ATTR_FLAG_OPTIONAL BGP_ATTR_FLAG_TRANS)).
Proof.
  apply (bgp_attr_flag_invalid_spec (mkArgs old_peer 1 BGP_ATTR_ORIGIN 0x50 5 0)).
  simpl. lia.
Defined.

(** ** The Aggregator attributes, there and back *)

Lemma byte_at_app_nth pre l (k : nat) :
  byte_at (pre ++ l) (Z.of_nat (length pre) + Z.of_nat k) = nth k l 0 mod 256.
Proof.
  unfold byte_at.
  replace (Z.to_nat (Z.of_nat (length pre) + Z.of_nat k))
    with (length pre + k)%nat by lia.
  rewrite app_nth2 by lia. f_equal. f_equal. lia.
Qed.

Lemma w32_value v :
  0 <= v < 4294967296 ->
  (((v / 16777216) mod 256 * 256 + (v / 65536) mod 256) * 256
   + (v / 256) mod 256) * 256 + v mod 256 = v.
Proof.
  intros Hv. Z.div_mod_to_equations. lia.
Qed.

Lemma stream_getl_app s pre v rest :
  0 <= v < 4294967296 ->
  data s = pre ++ w32 v ++ rest ->
  getp s = Z.of_nat (length pre) ->
  stream_getl s = (v, with_getp s (Z.of_nat (length pre) + 4)).
Proof.
  intros Hv Hd Hg. unfold stream_getl. rewrite Hg, Hd.
  pose proof (byte_at_app_nth pre (w32 v ++ rest) 0) as B0.
  pose proof (byte_at_app_nth pre (w32 v ++ rest) 1) as B1.
  pose proof (byte_at_app_nth pre (w32 v ++ rest) 2) as B2.
  pose proof (byte_at_app_nth pre (w32 v ++ rest) 3) as B3.
  rewrite Z.add_0_r in B0.
  change (Z.of_nat 1) with 1 in B1. change (Z.of_nat 2) with 2 in B2.
  change (Z.of_nat 3) with 3 in B3.
  rewrite B0, B1, B2, B3. unfold w32. cbn [app nth].
  rewrite !Z.mod_mod by lia. f_equal. by apply w32_value.
Qed.

(** Encode/decode round trip of the Aggregator attribute.  The block of
    [bgp_packet_attribute] writes three header octets, the AS number in
    four octets for a peer with the 4-octet capability and in two
    otherwise ([AS_TRANS] when it does not fit, and then it asks for an
    AS4-Aggregator), and the address.  [bgp_attr_aggregator], for a peer
    with the same capability and the length the header carries, returns
    Proceed, stores the AS number as sent and the address, sets the
    presence bit and leaves the cursor at the end of what was written. *)
Theorem bgp_attr_aggregator_roundtrip (s0 : stream) (a : attr) (e : attr_extra)
    (pr : peer) (ps : pstate) (total startp : Z) :
  stream_wf s0 ->
  CHECK_FLAG (flag a) (ATTR_FLAG_BIT BGP_ATTR_AGGREGATOR) = true ->
  extra a = Some e ->
  0 <= aggregator_as e < 4294967296 ->
  0 <= aggregator_addr e < 4294967296 ->
  let use32bit := CHECK_FLAG (cap pr) PEER_CAP_AS4_RCV in
  let len := if use32bit then 8 else 6 in
  exists s1,
    put_aggregator s0 a use32bit
    = Some (s1, negb use32bit && (65535 <? aggregator_as e))
    /\ stream_wf s1
    /\ endp s1 = endp s0 + 3 + len
    /\ bytes_at (data s1) (endp s0) 3 = [0xC0; BGP_ATTR_AGGREGATOR; len]
    /\ (ps_ibuf ps = mkStream (data s1) (endp s0 + 3) (endp s1) ->
        bgp_attr_aggregator
          (mkArgs pr len BGP_ATTR_AGGREGATOR 0xC0 total startp) ps
        = (BGP_ATTR_PARSE_PROCEED,
           with_ibuf
             (with_attr ps
                (attr_aggregator_add (ps_attr ps)
                   (aggregator_as_sent use32bit (aggregator_as e))
                   (aggregator_addr e)))
             (with_getp (ps_ibuf ps) (endp s1)))).
Proof.
  intros Hwf Hfl He Has Haddr use32bit len.
  unfold put_aggregator. rewrite Hfl, He. cbn [mbind option_bind].
  set (v := aggregator_as_sent use32bit (aggregator_as e)).
  assert (Hv : 0 <= v < 4294967296).
  { unfold v, aggregator_as_sent, as_trans. destruct use32bit; [done|].
    destruct (_ <? _); [|done]. vm_compute. by split. }
  assert (Hv16 : use32bit = false -> 0 <= v < 65536).
  { intros Hu. unfold v, aggregator_as_sent, as_trans. rewrite Hu.
    destruct (Z.ltb_spec BGP_AS_MAX (aggregator_as e)) as [Hb|Hb].
    - vm_compute. by split.
    - change BGP_AS_MAX with 65535 in Hb. lia. }
  exists (put ([0xC0; BGP_ATTR_AGGREGATOR; len]
               ++ (if use32bit then w32 v else w16 v)
               ++ w32 (aggregator_addr e)) s0).
  split.
  { unfold v, aggregator_as_sent, as_trans, len.
    change BGP_AS_MAX with 65535.
    destruct use32bit; cbn [negb andb].
    - unfold stream_put_ipv4, stream_putl, stream_putc.
      rewrite !put_put. done.
    - destruct (65535 <? aggregator_as e);
        unfold stream_put_ipv4, stream_putw, stream_putc;
        rewrite !put_put; done. }
  unfold stream_wf in *.
  split.
  { unfold put. cbn [data endp]. rewrite !length_app. lia. }
  split.
  { unfold put, len. cbn [endp]. rewrite !length_app.
    destruct use32bit; cbn [length w32 w16]; lia. }
  split.
  { unfold put. cbn [data]. rewrite Hwf.
    apply (bytes_at_app (data s0) [0xC0; BGP_ATTR_AGGREGATOR; len]). done. }
  intros Hibuf.
  unfold bgp_attr_aggregator, attr_aggregator_add.
  cbn [a_peer a_length a_total].
  destruct (bgp_attr_extra_get (ps_attr ps)) as [attre a0] eqn:Hget.
  fold use32bit. fold len. rewrite Z.eqb_refl. cbn [negb].
  cbn [ps_ibuf with_attr].
  set (pre := data s0 ++ [0xC0; BGP_ATTR_AGGREGATOR; len]).
  assert (Hpre : Z.of_nat (length pre) = endp s0 + 3).
  { unfold pre. rewrite length_app. cbn [length]. lia. }
  assert (Hd : data (ps_ibuf ps)
               = pre ++ (if use32bit then w32 v else w16 v)
                     ++ w32 (aggregator_addr e)).
  { rewrite Hibuf. unfold put, pre. cbn [data]. by rewrite <- !app_assoc. }
  assert (Hg : getp (ps_ibuf ps) = Z.of_nat (length pre)).
  { rewrite Hibuf. cbn [getp]. lia. }
  assert (Hend : endp (put ([0xC0; BGP_ATTR_AGGREGATOR; len]
               ++ (if use32bit then w32 v else w16 v)
               ++ w32 (aggregator_addr e)) s0) = Z.of_nat (length pre) + len).
  { unfold put, len. cbn [endp]. rewrite Hpre, !length_app.
    destruct use32bit; cbn [length w32 w16]; lia. }
  clearbody v.
  destruct use32bit eqn:Hu.
  - rewrite (stream_getl_app _ pre v (w32 (aggregator_addr e)) Hv Hd Hg).
    unfold stream_get_ipv4.
    rewrite (stream_getl_app _ (pre ++ w32 v) (aggregator_addr e) [] Haddr).
    + unfold attr_flag_add. cbn [ps_attr with_ibuf with_attr].
      cbv iota in Hend. rewrite Hend.
      unfold with_ibuf, with_attr, with_getp.
      cbn [ps_attr ps_ibuf ps_notify ps_world data getp endp].
      do 3 f_equal. rewrite length_app. unfold len. cbn [length w32]. lia.
    + cbn [data with_getp]. rewrite Hd, app_nil_r. by rewrite <- app_assoc.
    + cbn [getp with_getp]. rewrite length_app. cbn [length w32]. lia.
  - rewrite (stream_getw_app _ pre v (w32 (aggregator_addr e)) (Hv16 eq_refl) Hd Hg).
    unfold stream_get_ipv4.
    rewrite (stream_getl_app _ (pre ++ w16 v) (aggregator_addr e) [] Haddr).
    + unfold attr_flag_add. cbn [ps_attr with_ibuf with_attr].
      cbv iota in Hend. rewrite Hend.
      unfold with_ibuf, with_attr, with_getp.
      cbn [ps_attr ps_ibuf ps_notify ps_world data getp endp].
      do 3 f_equal. rewrite length_app. unfold len. cbn [length w16]. lia.
    + cbn [data with_getp]. rewrite Hd, app_nil_r. by rewrite <- app_assoc.
    + cbn [getp with_getp]. rewrite length_app. cbn [length w16]. lia.
Qed.

Lemma bgp_attr_aggregator_roundtrip_witness :
  aggregator_sent
  = Some (mkStream [0xC0; BGP_ATTR_AGGREGATOR; 6; 0x5B; 0xA0; 10; 0; 0; 9] 0 9,
          true)
  /\ bgp_attr_aggregator (mkArgs old_peer 6 BGP_ATTR_AGGREGATOR 0xC0 9 0)
       aggregator_received
     = (BGP_ATTR_PARSE_PROCEED,
        with_ibuf
          (with_attr aggregator_received
             (attr_aggregator_add attr_zero BGP_AS_TRANS 0x0a000009))
          (with_getp (ps_ibuf aggregator_received) 9)).
Proof.
  destruct (bgp_attr_aggregator_roundtrip stream_new as4_send_attr
              (as4_extra 70000) old_peer aggregator_received 9 0
              eq_refl eq_refl eq_refl)
    as (s1 & H1 & _ & _ & _ & H5).
  - simpl. lia.
  - simpl. lia.
  - split; [reflexivity|].
    assert (Hs1 : s1 = mkStream
                         [0xC0; BGP_ATTR_AGGREGATOR; 6; 0x5B; 0xA0; 10; 0; 0; 9]
                         0 9)
      by (apply (f_equal (fun o => match o with
                                   | Some (s, _) => s
                                   | None => stream_new
                                   end)) in H1; symmetry; exact H1).
    subst s1. apply H5. reflexivity.
Defined.

(** The same for the AS4-Aggregator attribute, which always carries the
    AS number in four octets: [bgp_attr_as4_aggregator] hands back the
    very AS number and address the encoder was given. *)
Theorem bgp_attr_as4_aggregator_roundtrip (s0 : stream) (a : attr)
    (e : attr_extra) (pr : peer) (ps : pstate) (total startp : Z) :
  stream_wf s0 ->
  extra a = Some e ->
  0 <= aggregator_as e < 4294967296 ->
  0 <= aggregator_addr e < 4294967296 ->
  let s1 := put (as4_aggregator_attr (aggregator_as e) (aggregator_addr e)) s0 in
  put_as4_aggregator s0 a = Some s1
  /\ (ps_ibuf ps = mkStream (data s1) (endp s0 + 3) (endp s1) ->
      bgp_attr_as4_aggregator
        (mkArgs pr 8 BGP_ATTR_AS4_AGGREGATOR 0xC0 total startp) ps
      = (BGP_ATTR_PARSE_PROCEED,
         Some (aggregator_as e, aggregator_addr e),
         attr_flag_add (with_ibuf ps (with_getp (ps_ibuf ps) (endp s1)))
           BGP_ATTR_AS4_AGGREGATOR)).
Proof.
  intros Hwf He Has Haddr s1.
  split.
  { unfold put_as4_aggregator. rewrite He. cbn [mbind option_bind].
    unfold stream_put_ipv4, stream_putl, stream_putc. by rewrite !put_put. }
  intros Hibuf. unfold bgp_attr_as4_aggregator. cbn [a_length].
  rewrite Z.eqb_refl. cbn [negb].
  set (pre := data s0 ++ [0xC0; BGP_ATTR_AS4_AGGREGATOR; 8]).
  unfold stream_wf in Hwf.
  assert (Hpre : Z.of_nat (length pre) = endp s0 + 3).
  { unfold pre. rewrite length_app. cbn [length]. lia. }
  assert (Hd : data (ps_ibuf ps)
               = pre ++ w32 (aggregator_as e) ++ w32 (aggregator_addr e)).
  { rewrite Hibuf. unfold s1, put, pre, as4_aggregator_attr. cbn [data].
    by rewrite <- !app_assoc. }
  assert (Hg : getp (ps_ibuf ps) = Z.of_nat (length pre)).
  { rewrite Hibuf. cbn [getp]. lia. }
  assert (Hend : endp s1 = Z.of_nat (length pre) + 8).
  { unfold s1, put, as4_aggregator_attr. cbn [endp].
    rewrite Hpre, !length_app. cbn [length w32]. lia. }
  rewrite (stream_getl_app _ pre _ (w32 (aggregator_addr e)) Has Hd Hg).
  unfold stream_get_ipv4.
  rewrite (stream_getl_app _ (pre ++ w32 (aggregator_as e))
             (aggregator_addr e) [] Haddr).
  - rewrite Hend. do 3 f_equal. unfold with_getp. cbn [data endp].
    f_equal. rewrite length_app. cbn [length w32]. lia.
  - cbn [data with_getp]. rewrite Hd, app_nil_r. by rewrite <- app_assoc.
  - cbn [getp with_getp]. rewrite length_app. cbn [length w32]. lia.
Qed.

Lemma bgp_attr_as4_aggregator_roundtrip_witness :
  put_as4_aggregator stream_new as4_send_attr
  = Some (mkStream
            [0xC0; BGP_ATTR_AS4_AGGREGATOR; 8; 0; 1; 0x11; 0x70; 10; 0; 0; 9]
            0 11)
  /\ bgp_attr_as4_aggregator
       (mkArgs old_peer 8 BGP_ATTR_AS4_AGGREGATOR 0xC0 11 0)
       as4_aggregator_received
     = (BGP_ATTR_PARSE_PROCEED, Some (70000, 0x0a000009),
        attr_flag_add
          (with_ibuf as4_aggregator_received
             (with_getp (ps_ibuf as4_aggregator_received) 11))
          BGP_ATTR_AS4_AGGREGATOR).
Proof.
  destruct (bgp_attr_as4_aggregator_roundtrip stream_new as4_send_attr
              (as4_extra 70000) old_peer as4_aggregator_received 11 0
              eq_refl eq_refl)
    as [H1 H2].
  - simpl. lia.
  - simpl. lia.
  - split; [exact H1|]. apply H2. reflexivity.
Defined.

(** ** Withdrawn routes, there and back *)

Lemma bgp_packet_mpattr_prefix_eq s afi safi r :
  bgp_packet_mpattr_prefix s afi safi (r_prefix r) (r_prd r) (r_tag r)
  = put (route_octets safi r) s.
Proof.
  unfold bgp_packet_mpattr_prefix, route_octets, stream_put_prefix.
  destruct (safi =? SAFI_MPLS_VPN); unfold stream_put, stream_putc;
    by rewrite !put_put.
Qed.

Lemma mpunreach_prefixes_eq afi safi routes : forall s,
  fold_left
    (fun s r =>
       bgp_packet_mpunreach_prefix s (r_prefix r) afi safi (r_prd r) (r_tag r))
    routes s
  = put (flat_map (route_octets safi) routes) s.
Proof.
  induction routes as [|r routes IH]; intros s; cbn [fold_left flat_map].
  - by rewrite put_nil.
  - rewrite IH. unfold bgp_packet_mpunreach_prefix.
    by rewrite bgp_packet_mpattr_prefix_eq, put_put.
Qed.

Lemma mpunreach_write_eq afi safi routes s :
  stream_wf s ->
  mpunreach_write afi safi routes s
  = put ([0x90; BGP_ATTR_MP_UNREACH_NLRI]
         ++ w16 (3 + Z.of_nat (length (flat_map (route_octets safi) routes)))
         ++ (w16 afi ++ [safi_wire safi mod 256]
             ++ flat_map (route_octets safi) routes)) s.
Proof.
  intros Hwf. unfold mpunreach_write, bgp_packet_mpunreach_start.
  rewrite mpunreach_prefixes_eq.
  unfold bgp_packet_mpunreach_end, bgp_packet_mpattr_end.
  set (nlri := flat_map (route_octets safi) routes).
  fold (safi_wire safi).
  assert (Hh : stream_putc
                 (stream_putc s (Z.lor BGP_ATTR_FLAG_OPTIONAL BGP_ATTR_FLAG_EXTLEN))
                 BGP_ATTR_MP_UNREACH_NLRI
               = put [0x90; BGP_ATTR_MP_UNREACH_NLRI] s).
  { unfold stream_putc. by rewrite put_put. }
  rewrite Hh.
  assert (Hb : put nlri
                 (stream_putc
                    (stream_putw
                       (stream_putw (put [0x90; BGP_ATTR_MP_UNREACH_NLRI] s) 0)
                       afi) (safi_wire safi))
               = put (w16 afi ++ [safi_wire safi mod 256] ++ nlri)
                   (stream_putw (put [0x90; BGP_ATTR_MP_UNREACH_NLRI] s) 0)).
  { unfold stream_putc, stream_putw at 1. rewrite !put_put.
    by rewrite <- ?app_assoc. }
  rewrite Hb.
  replace (stream_get_endp _ - stream_get_endp _ - 2)
    with (3 + Z.of_nat (length nlri)).
  - by apply putw_at_patch.
  - unfold stream_get_endp, stream_putw, put. cbn [endp].
    rewrite !length_app. cbn [length w16]. lia.
Qed.

(** Encode/decode round trip of MP_UNREACH_NLRI.  [bgp_packet_mpunreach_start],
    one [bgp_packet_mpunreach_prefix] per route and [bgp_packet_mpunreach_end]
    leave on the stream a header whose length field, patched at the end,
    counts the three octets of AFI and SAFI and the octets of the routes.
    [bgp_mp_unreach_parse], given that length, returns Proceed and hands
    back AFI, SAFI and an NLRI blob that starts behind the SAFI octet and
    holds exactly the octets of the routes; the cursor ends where the
    writer stopped. *)
Theorem bgp_mp_unreach_roundtrip (s0 : stream) (afi safi : Z)
    (routes : list mp_route) (pr : peer) (ps : pstate) (total startp : Z) :
  stream_wf s0 ->
  0 <= afi < 65536 ->
  0 <= safi < 256 ->
  let nlri := flat_map (route_octets safi) routes in
  let n := Z.of_nat (length nlri) in
  3 + n <= 65535 ->
  let s1 := mpunreach_write afi safi routes s0 in
  ps_ibuf ps = mkStream (data s1) (endp s0 + 4) (endp s1) ->
  data s1
  = data s0 ++ [0x90; BGP_ATTR_MP_UNREACH_NLRI] ++ w16 (3 + n)
    ++ w16 afi ++ [safi_wire safi] ++ nlri
  /\ fst (stream_getw (with_getp s1 (endp s0 + 2))) = 3 + n
  /\ bgp_mp_unreach_parse
       (mkArgs pr (3 + n) BGP_ATTR_MP_UNREACH_NLRI 0x90 total startp) ps
     = (BGP_ATTR_PARSE_PROCEED,
        Some (mkNlri afi (safi_wire safi) (endp s0 + 7) n),
        attr_flag_add (with_ibuf ps (with_getp (ps_ibuf ps) (endp s1)))
          BGP_ATTR_MP_UNREACH_NLRI)
  /\ bytes_at (data (ps_ibuf ps)) (endp s0 + 7) n = nlri.
Proof.
  intros Hwf Hafi Hsafi nlri n Hn s1 Hibuf.
  assert (Hw : 0 <= safi_wire safi < 256).
  { unfold safi_wire. destruct (_ =? _); [by vm_compute|done]. }
  assert (Hs1 : s1 = put ([0x90; BGP_ATTR_MP_UNREACH_NLRI] ++ w16 (3 + n)
                          ++ (w16 afi ++ [safi_wire safi] ++ nlri)) s0).
  { unfold s1. rewrite mpunreach_write_eq by done.
    by rewrite (Z.mod_small (safi_wire safi)). }
  split; [by rewrite Hs1|].
  unfold stream_wf in Hwf.
  split.
  { rewrite (stream_getw_app _ (data s0 ++ [0x90; BGP_ATTR_MP_UNREACH_NLRI])
               (3 + n) (w16 afi ++ [safi_wire safi] ++ nlri)); [done|lia| |].
    - rewrite Hs1. unfold put. cbn [data with_getp]. by rewrite <- !app_assoc.
    - cbn [getp with_getp]. rewrite length_app. cbn [length]. lia. }
  set (pre := data s0 ++ [0x90; BGP_ATTR_MP_UNREACH_NLRI] ++ w16 (3 + n)).
  assert (Hpre : Z.of_nat (length pre) = endp s0 + 4).
  { unfold pre. rewrite length_app. cbn [length app w16]. lia. }
  assert (Hd : data (ps_ibuf ps) = pre ++ w16 afi ++ safi_wire safi :: nlri).
  { rewrite Hibuf, Hs1. unfold put, pre. cbn [data].
    by rewrite <- !app_assoc. }
  assert (Hg : getp (ps_ibuf ps) = Z.of_nat (length pre)).
  { rewrite Hibuf. cbn [getp]. lia. }
  assert (Hend : endp s1 = endp s0 + 7 + n).
  { rewrite Hs1. unfold put, n. cbn [endp]. rewrite !length_app.
    cbn [length w16]. lia. }
  split.
  - unfold bgp_mp_unreach_parse. cbn [a_length].
    assert (Hr : STREAM_READABLE (ps_ibuf ps) = 3 + n).
    { unfold STREAM_READABLE. rewrite Hibuf. cbn [endp getp]. lia. }
    rewrite Hr, Z.ltb_irrefl.
    destruct (Z.ltb_spec (3 + n) BGP_MP_UNREACH_MIN_SIZE) as [Hlt|_].
    { change BGP_MP_UNREACH_MIN_SIZE with 3 in Hlt. lia. }
    cbn [orb].
    rewrite (stream_getw_app _ pre afi (safi_wire safi :: nlri) Hafi Hd Hg).
    unfold stream_getc. cbn [data getp with_getp]. rewrite Hd.
    replace (pre ++ w16 afi ++ safi_wire safi :: nlri)
      with ((pre ++ w16 afi) ++ safi_wire safi :: nlri)
      by (by rewrite <- app_assoc).
    replace (Z.of_nat (length pre) + 2)
      with (Z.of_nat (length (pre ++ w16 afi)))
      by (rewrite length_app; cbn [length w16]; lia).
    rewrite byte_at_app by done.
    unfold stream_forward_getp. cbn [getp with_getp].
    change BGP_MP_UNREACH_MIN_SIZE with 3.
    rewrite length_app. cbn [length w16].
    do 2 f_equal.
    + do 2 f_equal; lia.
    + f_equal. f_equal. unfold with_getp. cbn [data endp]. f_equal. lia.
  - rewrite Hd.
    replace (pre ++ w16 afi ++ safi_wire safi :: nlri)
      with ((pre ++ w16 afi ++ [safi_wire safi]) ++ nlri ++ [])
      by (rewrite app_nil_r, <- !app_assoc; done).
    replace (endp s0 + 7)
      with (Z.of_nat (length (pre ++ w16 afi ++ [safi_wire safi])))
      by (rewrite !length_app; cbn [length w16]; lia).
    by apply bytes_at_app.
Qed.

Lemma bgp_mp_unreach_roundtrip_witness :
  data withdraw_sent
  = [0x90; BGP_ATTR_MP_UNREACH_NLRI; 0; 9; 0; 2; 1; 32; 0x20; 0x01; 0x0d; 0xb8; 0]
  /\ fst (stream_getw (with_getp withdraw_sent 2)) = 9
  /\ bgp_mp_unreach_parse
       (mkArgs old_peer 9 BGP_ATTR_MP_UNREACH_NLRI 0x90 13 0) withdraw_received
     = (BGP_ATTR_PARSE_PROCEED,
        Some (mkNlri AFI_IP6 SAFI_UNICAST 7 6),
        attr_flag_add
          (with_ibuf withdraw_received
             (with_getp (ps_ibuf withdraw_received) 13))
          BGP_ATTR_MP_UNREACH_NLRI)
  /\ bytes_at (data (ps_ibuf withdraw_received)) 7 6
     = [32; 0x20; 0x01; 0x0d; 0xb8; 0].
Proof.
  apply (bgp_mp_unreach_roundtrip stream_new AFI_IP6 SAFI_UNICAST
           withdraw_routes old_peer withdraw_received 13 0 eq_refl).
  - by vm_compute.
  - by vm_compute.
  - by vm_compute.
  - reflexivity.
Defined.

Lemma firstn_length_Z {A : Type} (n : Z) (l : list A) :
  0 <= n <= Z.of_nat (length l) ->
  Z.of_nat (length (firstn (Z.to_nat n) l)) = n.
Proof. intros Hn. rewrite length_take. lia. Qed.

(** [bgp_packet_mpattr_prefix_size] against what [bgp_packet_mpattr_prefix]
    writes.  Outside the VPN address family the prefix call writes one
    octet more than the size says (the length octet); for a VPN route it
    writes 76 octets fewer, the size counting the 88 bits of label and
    route distinguisher as octets.  So the size plus one is never less
    than what is written. *)
Theorem bgp_packet_mpattr_prefix_size_written (s : stream) (afi safi : Z)
    (r : mp_route) :
  route_ok safi r ->
  let written :=
    endp (bgp_packet_mpattr_prefix s afi safi (r_prefix r) (r_prd r) (r_tag r))
    - endp s in
  let size := bgp_packet_mpattr_prefix_size afi safi (r_prefix r) in
  written = (if safi =? SAFI_MPLS_VPN then size - 76 else size + 1)
  /\ written <= size + 1.
Proof.
  intros (Hlen & Hp & Hvpn) written size.
  assert (H0 : 0 <= PSIZE (prefixlen (r_prefix r))).
  { unfold PSIZE. apply Z.div_pos; lia. }
  assert (Hw : written
               = if safi =? SAFI_MPLS_VPN then size - 76 else size + 1).
  { unfold written, size, bgp_packet_mpattr_prefix_size.
    rewrite bgp_packet_mpattr_prefix_eq. unfold put, route_octets.
    cbn [endp].
    destruct (Z.eqb_spec safi SAFI_MPLS_VPN) as [Hs|Hs].
    - destruct (Hvpn Hs) as [Ht Hd].
      rewrite !length_app, !length_take. cbn [length].
      pose proof (firstn_length_Z _ (u_prefix (r_prefix r)) (conj H0 Hp)).
      rewrite length_take in H. lia.
    - rewrite length_app. cbn [length].
      pose proof (firstn_length_Z _ (u_prefix (r_prefix r)) (conj H0 Hp)).
      lia. }
  split; [exact Hw|]. rewrite Hw. destruct (_ =? _); lia.
Qed.

Lemma bgp_packet_mpattr_prefix_size_written_witness :
  let r := mkRoute (mkPrefix 2 24 [10; 1; 2; 0]) [0; 0; 0; 1; 0; 0; 0; 7]
                   [0; 1; 1] in
  endp (bgp_packet_mpattr_prefix stream_new AFI_IP SAFI_MPLS_VPN (r_prefix r)
          (r_prd r) (r_tag r)) - endp stream_new
  = bgp_packet_mpattr_prefix_size AFI_IP SAFI_MPLS_VPN (r_prefix r) - 76
  /\ endp (bgp_packet_mpattr_prefix stream_new AFI_IP SAFI_MPLS_VPN (r_prefix r)
             (r_prd r) (r_tag r)) - endp stream_new
     <= bgp_packet_mpattr_prefix_size AFI_IP SAFI_MPLS_VPN (r_prefix r) + 1.
Proof.
  apply (bgp_packet_mpattr_prefix_size_written stream_new AFI_IP SAFI_MPLS_VPN
           (mkRoute (mkPrefix 2 24 [10; 1; 2; 0]) [0; 0; 0; 1; 0; 0; 0; 7]
              [0; 1; 1])).
  unfold route_ok. simpl. repeat split; try lia. by vm_compute.
Defined.

(** ** Announced routes, there and back *)

Lemma stream_getw_at s pre v rest p :
  0 <= v < 65536 ->
  data s = pre ++ w16 v ++ rest ->
  getp s = p -> p = Z.of_nat (length pre) ->
  stream_getw s = (v, with_getp s (p + 2)).
Proof. intros Hv Hd Hg ->. by apply stream_getw_app with (rest := rest). Qed.

Lemma stream_getc_at s pre x rest p :
  0 <= x < 256 ->
  data s = pre ++ x :: rest ->
  getp s = p -> p = Z.of_nat (length pre) ->
  stream_getc s = (x, with_getp s (p + 1)).
Proof.
  intros Hx Hd Hg ->. unfold stream_getc. rewrite Hg, Hd.
  by rewrite byte_at_app.
Qed.

Lemma stream_get_at s pre l rest p n :
  data s = pre ++ l ++ rest ->
  getp s = p -> p = Z.of_nat (length pre) -> n = Z.of_nat (length l) ->
  stream_get s n = (l, with_getp s (p + n)).
Proof.
  intros Hd Hg -> Hn. unfold stream_get. rewrite Hg, Hd.
  by rewrite bytes_at_app.
Qed.

Lemma CHECK_FLAG_SET_FLAG f b : b <> 0 -> CHECK_FLAG (SET_FLAG f b) b = true.
Proof.
  intros Hb. unfold CHECK_FLAG, SET_FLAG.
  replace (Z.land (Z.lor f b) b) with b.
  - by apply negb_true_iff, Z.eqb_neq.
  - apply Z.bits_inj'. intros n _. rewrite Z.land_spec, Z.lor_spec.
    by destruct (Z.testbit b n), (Z.testbit f n).
Qed.

Lemma mpreach_write_ipv6_eq s safi a e routes :
  stream_wf s ->
  safi = SAFI_UNICAST \/ safi = SAFI_MULTICAST ->
  extra a = Some e ->
  let body := w16 AFI_IP6 ++ [safi; mp_nexthop_len e mod 256]
              ++ nexthop6_octets e ++ [0]
              ++ flat_map (route_octets safi) routes in
  mpreach_write AFI_IP6 safi a routes s
  = Some (put ([0x90; BGP_ATTR_MP_REACH_NLRI]
               ++ w16 (Z.of_nat (length body)) ++ body) s).
Proof.
  intros Hwf Hsafi He body.
  unfold mpreach_write, bgp_packet_mpattr_start.
  change (AFI_IP6 =? AFI_IP) with false. change (AFI_IP6 =? AFI_IP6) with true.
  cbv iota.
  assert (Hs : (safi =? SAFI_MPLS_VPN) = false
               /\ (safi =? SAFI_UNICAST) || (safi =? SAFI_MULTICAST) = true).
  { by destruct Hsafi as [-> | ->]. }
  destruct Hs as [Hs1 Hs2]. rewrite Hs1, Hs2, He.
  cbn [mbind option_bind].
  f_equal.
  rewrite (mpunreach_prefixes_eq AFI_IP6 safi routes).
  assert (Hh : stream_putc
                 (stream_putc s (Z.lor BGP_ATTR_FLAG_OPTIONAL BGP_ATTR_FLAG_EXTLEN))
                 BGP_ATTR_MP_REACH_NLRI
               = put [0x90; BGP_ATTR_MP_REACH_NLRI] s).
  { unfold stream_putc. by rewrite put_put. }
  rewrite !Hh.
  set (h := put [0x90; BGP_ATTR_MP_REACH_NLRI] s).
  assert (Hb : put (flat_map (route_octets safi) routes)
                 (stream_putc
                    (if mp_nexthop_len e =? 32
                     then stream_put
                            (stream_put
                               (stream_putc
                                  (stream_putc
                                     (stream_putw (stream_putw h 0) AFI_IP6) safi)
                                  (mp_nexthop_len e))
                               (mp_nexthop_global e) 16)
                            (mp_nexthop_local e) 16
                     else stream_put
                            (stream_putc
                               (stream_putc
                                  (stream_putw (stream_putw h 0) AFI_IP6) safi)
                               (mp_nexthop_len e))
                            (mp_nexthop_global e) 16) 0)
               = put body (stream_putw h 0)).
  { unfold body, nexthop6_octets.
    assert (Hm : safi mod 256 = safi) by (by destruct Hsafi as [-> | ->]).
    destruct (mp_nexthop_len e =? 32);
      unfold stream_put, stream_putc, stream_putw at 1;
      rewrite !put_put, Hm; change (Z.to_nat 16) with 16%nat;
      rewrite <- ?app_assoc; cbn [app]; by rewrite ?app_nil_r. }
  rewrite Hb. unfold bgp_packet_mpattr_end.
  replace (stream_get_endp (put body (stream_putw h 0)) - stream_get_endp h - 2)
    with (Z.of_nat (length body)).
  - by apply putw_at_patch.
  - unfold stream_get_endp, stream_putw, put. cbn [endp].
    cbn [length w16]. lia.
Qed.

Lemma mp_reach_nexthop_ipv6 attre a s pre e rest :
  mp_nexthop_len attre = mp_nexthop_len e ->
  mp_nexthop_len e = 16 \/ mp_nexthop_len e = 32 ->
  length (mp_nexthop_global e) = 16%nat ->
  length (mp_nexthop_local e) = 16%nat ->
  data s = pre ++ nexthop6_octets e ++ rest ->
  getp s = Z.of_nat (length pre) ->
  exists ef,
    mp_reach_nexthop attre a s
    = Some (ef, a, with_getp s (getp s + mp_nexthop_len e))
    /\ mp_nexthop_global ef = mp_nexthop_global e
    /\ (mp_nexthop_len e = 32 -> mp_nexthop_local ef = mp_nexthop_local e)
    /\ mp_nexthop_len ef
       = (if (mp_nexthop_len e =? 32)
             && IN6_IS_ADDR_LINKLOCAL (mp_nexthop_local e)
          then 32 else 16).
Proof.
  intros Hlen Hnh Hg Hl Hd Hgp.
  assert (Hfg : firstn 16 (mp_nexthop_global e) = mp_nexthop_global e)
    by (apply firstn_all2; lia).
  assert (Hfl : firstn 16 (mp_nexthop_local e) = mp_nexthop_local e)
    by (apply firstn_all2; lia).
  unfold nexthop6_octets in Hd. rewrite Hfg, Hfl in Hd.
  unfold mp_reach_nexthop. rewrite Hlen.
  destruct Hnh as [H | H]; rewrite H in *; cbn [Z.eqb Pos.eqb orb] in *;
    cbv iota in *.
  - rewrite (stream_get_at s pre (mp_nexthop_global e) rest (getp s) 16);
      [|by rewrite Hd, app_nil_r|done|done|lia].
    eexists. split; [reflexivity|]. split; [reflexivity|].
    split; [intros; lia|]. exact Hlen.
  - rewrite (stream_get_at s pre (mp_nexthop_global e)
               (mp_nexthop_local e ++ rest) (getp s) 16);
      [|by rewrite Hd, <- app_assoc|done|done|lia].
    rewrite (stream_get_at _ (pre ++ mp_nexthop_global e)
               (mp_nexthop_local e) rest (getp s + 16) 16);
      [|cbn [data with_getp]; by rewrite Hd, <- !app_assoc
       |reflexivity
       |rewrite length_app; lia
       |lia].
    eexists. split.
    { do 2 f_equal. unfold with_getp. cbn [data getp endp]. f_equal. lia. }
    destruct (IN6_IS_ADDR_LINKLOCAL (mp_nexthop_local e)); cbn [negb andb];
      by split_and!.
Qed.

(** Encode/decode round trip of MP_REACH_NLRI for IPv6 unicast and
    multicast.  [bgp_packet_mpattr_start], one [bgp_packet_mpattr_prefix]
    per route and [bgp_packet_mpattr_end] leave a header whose patched
    length field counts AFI, SAFI, the next hop field, the SNPA octet and
    the routes.  With at least one octet of routes, [bgp_mp_reach_parse]
    given that length returns Proceed, hands back AFI, SAFI and an NLRI
    blob holding exactly the routes' octets, stores the global next hop
    (and the link-local one when 32 octets were sent), sets the presence
    bit and queues nothing.  The next hop length it keeps is 32 only when
    the second address is link-local, 16 otherwise. *)
Theorem bgp_mp_reach_roundtrip_ipv6 (s0 : stream) (safi : Z) (a : attr)
    (e : attr_extra) (routes : list mp_route) (pr : peer) (ps : pstate)
    (total startp : Z) :
  stream_wf s0 ->
  safi = SAFI_UNICAST \/ safi = SAFI_MULTICAST ->
  extra a = Some e ->
  mp_nexthop_len e = 16 \/ mp_nexthop_len e = 32 ->
  length (mp_nexthop_global e) = 16%nat ->
  length (mp_nexthop_local e) = 16%nat ->
  let nlri := flat_map (route_octets safi) routes in
  let n := Z.of_nat (length nlri) in
  let len := 5 + mp_nexthop_len e + n in
  0 < n ->
  len <= 65535 ->
  exists s1,
    mpreach_write AFI_IP6 safi a routes s0 = Some s1
    /\ fst (stream_getw (with_getp s1 (endp s0 + 2))) = len
    /\ (ps_ibuf ps = mkStream (data s1) (endp s0 + 4) (endp s1) ->
        exists ps' e',
          bgp_mp_reach_parse
            (mkArgs pr len BGP_ATTR_MP_REACH_NLRI 0x90 total startp) ps
          = (BGP_ATTR_PARSE_PROCEED,
             Some (mkNlri AFI_IP6 safi (endp s1 - n) n), ps')
          /\ bytes_at (data (ps_ibuf ps')) (endp s1 - n) n = nlri
          /\ getp (ps_ibuf ps') = endp s1
          /\ ps_notify ps' = ps_notify ps
          /\ extra (ps_attr ps') = Some e'
          /\ mp_nexthop_global e' = mp_nexthop_global e
          /\ (mp_nexthop_len e = 32 ->
              mp_nexthop_local e' = mp_nexthop_local e)
          /\ mp_nexthop_len e'
             = (if (mp_nexthop_len e =? 32)
                   && IN6_IS_ADDR_LINKLOCAL (mp_nexthop_local e)
                then 32 else 16)
          /\ CHECK_FLAG (flag (ps_attr ps'))
               (ATTR_FLAG_BIT BGP_ATTR_MP_REACH_NLRI) = true).
Proof.
  intros Hwf Hsafi He Hnh Hg Hl nlri n len Hn Hlen.
  pose proof (mpreach_write_ipv6_eq s0 safi a e routes Hwf Hsafi He) as Hw.
  cbv zeta in Hw. fold nlri in Hw.
  set (nh := nexthop6_octets e) in *.
  assert (Hnhl : Z.of_nat (length nh) = mp_nexthop_len e).
  { unfold nh, nexthop6_octets.
    destruct Hnh as [H | H]; rewrite H; cbn [Z.eqb Pos.eqb]; cbv iota;
      rewrite ?length_app, !length_take, ?Hg, ?Hl; reflexivity. }
  assert (Hm : mp_nexthop_len e mod 256 = mp_nexthop_len e).
  { destruct Hnh as [-> | ->]; reflexivity. }
  rewrite Hm in Hw.
  set (body := w16 AFI_IP6 ++ [safi; mp_nexthop_len e] ++ nh ++ [0] ++ nlri) in *.
  assert (Hbl : Z.of_nat (length body) = len).
  { unfold body, len, n. rewrite !length_app. cbn [length w16]. lia. }
  rewrite Hbl in Hw.
  eexists. split; [exact Hw|].
  unfold stream_wf in Hwf.
  split.
  { rewrite (stream_getw_at _ (data s0 ++ [0x90; BGP_ATTR_MP_REACH_NLRI]) len
               body (endp s0 + 2)); [done| | |done|].
    - assert (0 <= mp_nexthop_len e) by (destruct Hnh as [-> | ->]; lia). lia.
    - unfold put. cbn [data with_getp]. by rewrite <- !app_assoc.
    - rewrite length_app. cbn [length]. lia. }
  intros Hibuf.
  set (s1 := put ([0x90; BGP_ATTR_MP_REACH_NLRI] ++ w16 len ++ body) s0) in *.
  set (pre := data s0 ++ [0x90; BGP_ATTR_MP_REACH_NLRI] ++ w16 len).
  set (p := endp s0 + 4) in *.
  assert (Hpre : p = Z.of_nat (length pre)).
  { unfold pre, p. rewrite length_app. cbn [length app w16]. lia. }
  assert (Hd : data (ps_ibuf ps) = pre ++ body).
  { rewrite Hibuf. unfold s1, put, pre. cbn [data]. by rewrite <- !app_assoc. }
  assert (Hgp : getp (ps_ibuf ps) = p) by (by rewrite Hibuf).
  assert (Hend : endp s1 = p + len).
  { unfold s1, put, p. cbn [endp]. rewrite !length_app. cbn [length w16]. lia. }
  assert (Hep : endp (ps_ibuf ps) = p + len) by (by rewrite Hibuf).
  unfold bgp_mp_reach_parse. cbn [a_length].
  destruct (bgp_attr_extra_get (ps_attr ps)) as [attre0 a0] eqn:Hget.
  cbn [ps_ibuf with_attr].
  unfold STREAM_READABLE, stream_get_getp. rewrite Hep, Hgp.
  replace (p + len - p <? len) with false by (symmetry; apply Z.ltb_ge; lia).
  assert (Hnh0 : 16 <= mp_nexthop_len e) by (destruct Hnh as [-> | ->]; lia).
  replace (len <? BGP_MP_REACH_MIN_SIZE) with false
    by (symmetry; apply Z.ltb_ge; change BGP_MP_REACH_MIN_SIZE with 5; lia).
  cbn [orb].
  rewrite (stream_getw_at _ pre AFI_IP6
             ([safi; mp_nexthop_len e] ++ nh ++ [0] ++ nlri) p);
    [|by vm_compute|exact Hd|exact Hgp|exact Hpre].
  assert (Hsr : 0 <= safi < 256) by (destruct Hsafi as [-> | ->]; by vm_compute).
  rewrite (stream_getc_at _ (pre ++ w16 AFI_IP6) safi
             (mp_nexthop_len e :: nh ++ [0] ++ nlri) (p + 2));
    [|exact Hsr
     |cbn [data with_getp]; rewrite Hd; unfold body; by rewrite <- !app_assoc
     |reflexivity
     |rewrite length_app; cbn [length w16]; lia].
  rewrite (stream_getc_at _ (pre ++ w16 AFI_IP6 ++ [safi]) (mp_nexthop_len e)
             (nh ++ [0] ++ nlri) (p + 2 + 1));
    [|lia
     |cbn [data with_getp]; rewrite Hd; unfold body; by rewrite <- !app_assoc
     |reflexivity
     |rewrite !length_app; cbn [length w16]; lia].
  cbn [getp with_getp].
  replace (mp_nexthop_len (extra_set_mp_nexthop_len attre0 (mp_nexthop_len e)))
    with (mp_nexthop_len e) by reflexivity.
  replace (len - (p + 2 + 1 + 1 - p) <? mp_nexthop_len e) with false
    by (symmetry; apply Z.ltb_ge; lia).
  cbn [ps_attr with_ibuf with_attr].
  set (sn := with_getp (with_getp (with_getp (ps_ibuf ps) (p + 2)) (p + 2 + 1))
               (p + 2 + 1 + 1)).
  assert (Hsn : data sn = (pre ++ w16 AFI_IP6 ++ [safi; mp_nexthop_len e])
                          ++ nh ++ [0] ++ nlri).
  { unfold sn. cbn [data with_getp]. rewrite Hd. unfold body.
    by rewrite <- !app_assoc. }
  assert (Hsg : getp sn
                = Z.of_nat (length (pre ++ w16 AFI_IP6 ++ [safi; mp_nexthop_len e]))).
  { unfold sn. cbn [getp with_getp]. rewrite !length_app. cbn [length w16]. lia. }
  destruct (mp_reach_nexthop_ipv6
              (extra_set_mp_nexthop_len attre0 (mp_nexthop_len e))
              (attr_set_extra a0
                 (Some (extra_set_mp_nexthop_len attre0 (mp_nexthop_len e))))
              sn _ e ([0] ++ nlri) eq_refl Hnh Hg Hl Hsn Hsg)
    as (ef & Hmr & Hef1 & Hef2 & Hef3).
  rewrite Hmr. cbn [getp with_getp].
  assert (Hsgp : getp sn = p + 4) by (unfold sn; cbn [getp with_getp]; lia).
  rewrite Hsgp.
  replace (len - (p + 4 + mp_nexthop_len e - p) =? 0) with false
    by (symmetry; apply Z.eqb_neq; lia).
  rewrite (stream_getc_at _
             ((pre ++ w16 AFI_IP6 ++ [safi; mp_nexthop_len e]) ++ nh) 0 nlri
             (p + 4 + mp_nexthop_len e));
    [|lia
     |cbn [data with_getp]; rewrite Hsn; by rewrite <- !app_assoc
     |reflexivity
     |rewrite length_app; lia].
  cbn [getp endp with_getp].
  replace (len - (p + 4 + mp_nexthop_len e + 1 - p)) with n by lia.
  replace (n =? 0) with false by (symmetry; apply Z.eqb_neq; lia).
  replace (endp sn) with (p + len) by (unfold sn; cbn [endp with_getp]; lia).
  replace (p + len - (p + 4 + mp_nexthop_len e + 1) <? n) with false
    by (symmetry; apply Z.ltb_ge; lia).
  cbn [orb].
  eexists _, ef. split.
  { rewrite Hend. do 2 f_equal. f_equal. f_equal. lia. }
  unfold attr_flag_add, stream_forward_getp.
  cbn [ps_ibuf ps_attr ps_notify with_ibuf with_attr data getp with_getp
       extra flag attr_set_flag attr_set_extra].
  split_and!; try done.
  - rewrite Hsn.
    replace ((pre ++ w16 AFI_IP6 ++ [safi; mp_nexthop_len e])
             ++ nh ++ [0] ++ nlri)
      with ((pre ++ w16 AFI_IP6 ++ [safi; mp_nexthop_len e] ++ nh ++ [0])
            ++ nlri ++ [])
      by (rewrite app_nil_r, <- !app_assoc; done).
    replace (endp s1 - n)
      with (Z.of_nat (length (pre ++ w16 AFI_IP6 ++ [safi; mp_nexthop_len e]
                              ++ nh ++ [0]))).
    + by apply bytes_at_app.
    + rewrite Hend, !length_app. cbn [length w16]. lia.
  - rewrite Hend. lia.
  - apply CHECK_FLAG_SET_FLAG. by vm_compute.
Qed.

Lemma bgp_mp_reach_roundtrip_ipv6_witness :
  mpreach_write AFI_IP6 SAFI_UNICAST announce_attr withdraw_routes stream_new
  = Some announce_sent
  /\ exists ps' e',
       bgp_mp_reach_parse
         (mkArgs old_peer 27 BGP_ATTR_MP_REACH_NLRI 0x90 31 0) announce_received
       = (BGP_ATTR_PARSE_PROCEED, Some (mkNlri AFI_IP6 SAFI_UNICAST 25 6), ps')
       /\ bytes_at (data (ps_ibuf ps')) 25 6 = [32; 0x20; 0x01; 0x0d; 0xb8; 0]
       /\ getp (ps_ibuf ps') = 31
       /\ ps_notify ps' = []
       /\ extra (ps_attr ps') = Some e'
       /\ mp_nexthop_global e' = mp_nexthop_global announce_extra
       /\ (mp_nexthop_len announce_extra = 32 ->
           mp_nexthop_local e' = mp_nexthop_local announce_extra)
       /\ mp_nexthop_len e' = 16
       /\ CHECK_FLAG (flag (ps_attr ps'))
            (ATTR_FLAG_BIT BGP_ATTR_MP_REACH_NLRI) = true.
Proof.
  split; [reflexivity|].
  destruct (bgp_mp_reach_roundtrip_ipv6 stream_new SAFI_UNICAST announce_attr
              announce_extra withdraw_routes old_peer announce_received 31 0
              eq_refl (or_introl eq_refl) eq_refl (or_introl eq_refl)
              eq_refl eq_refl eq_refl)
    as (s1 & Hw & _ & Hparse).
  - by vm_compute.
  - assert (Hs1 : s1 = announce_sent)
      by (apply (f_equal (fun o => match o with
                                   | Some s => s
                                   | None => stream_new
                                   end)) in Hw; symmetry; exact Hw).
    subst s1. apply Hparse. reflexivity.
Defined.
